(* ===== verification/_CoqProject ===== *)
-Q . S2P
Prelude.v
CppStd.v
Log.v
UnixPath.v
Config.v
UnixSocket.v
Registry.v
Grpc.v
NotifyService.v
NotifyConc.v
Libpq.v
MockResult.v
Rpgb.v
FlexMeta.v
MockFlex.v
QueryMeta.v
PgState.v
PqConn.v
Conninfo.v
Pool.v
PoolCv.v
Sessions.v
Streaming.v
Handles.v
QueryType.v
QueryExecutor.v
Health.v
HealthConc.v
Queries.v
JsNumber.v
Cells.v
Client.v
ShardService.v
Lift.v
PoolUse.v
ShardSafety.v
ShardSlots.v
Service.v
Delivery.v
Immediate.v
EndToEnd.v
Isolation.v
Calls.v
CallsInv.v
Progress.v
Wakeups.v
Locks.v
World.v
ConcDelivery.v
ConcStatements.v
ConnectConc.v
ClientRequest.v
MockPg.v
Witnesses.v
CallWitnesses.v
Main.v
