(* ===== verification/Prelude.v ===== *)
(** * A verification library for mtdd_server

    mtdd_server is a gRPC front end of one PostgreSQL shard. The service
    [MtddShard] takes credentials ([Connect]) and streams the results of
    statements ([QueryStream]) as chunks: a schema with the first batch, more
    batches in the RPGB framing, and a trailer or an error. The service
    [MtddNotify] delivers messages between the clients of the server. A monitor
    probes PostgreSQL and sets the state of the gRPC health service. The server
    listens on a unix socket or on TCP and is configured by the environment.

    ** Files

    Every definition names the C++ function it models; the paths are below
    src/src unless they start with src/.

    - [Prelude]: the effect monad [M] (state, exceptions as [Throw], and
      [Stuck] for a thread that blocks for ever, undefined behaviour or an
      exhausted bound), its Hoare triples, closure lemmas, hint databases.
    - [CppStd]: machine integers, [std::string], [strtol], [std::to_string].
    - [Log] (logging.h), [Config] (config.h, config.cpp), [UnixPath] and
      [UnixSocket] (unix/unix_socket.cpp), [Main] (main.cpp): start and end of
      the process.
    - [Registry] (notify/), [NotifyService] (service/mtdd_notify_service.cpp),
      [NotifyConc] (the critical sections of the registry, interleaved).
    - [Grpc] (src/proto/mtdd.proto): messages and statuses.
    - [Libpq]: the interface of libpq. [PgState]: the state of the database
      side, [Sys]: libpq's own state, the pool, the sessions, the locked
      mutexes, the references to connections, the cursor counter; the class
      [HasSys] lets a computation on it run inside any larger state.
    - [PqConn] (pg/pq_conn.cpp), [Conninfo] (what libpq makes of its connection
      string), [Pool] (pg/connection_manager.cpp, sequential and interleaved,
      with the notifications of [cv_] counted and the [capacity] of the pool),
      [PoolCv] (its sections with the sleeping and waking of [cv_]), [Sessions]
      (pg/session_store.cpp), [Streaming] (pg/streaming_query.cpp),
      [QueryType] (the type invariant of its class), [QueryExecutor]
      (pg/query_executor.cpp), [Health] (health/pg_health_monitor.cpp),
      [HealthConc] (its accesses to the probe thread, interleaved).
    - [Handles]: which libpq handles are open, as the interface [HandleLog], and
      that the functions above keep them in order; [Queries]: any number of
      streaming queries whose operations interleave.
    - [Rpgb] (codec/raw_batch_encoder.cpp and the client's decoder in
      src/integration/lib/pg-binary-decode.js), [FlexMeta]
      (codec/flex_meta.cpp and src/integration/flatbuffers/result-meta-codec.js),
      [QueryMeta] (codec/query_meta.cpp), [Client] (the reader of a stream in
      src/integration/lib/grpc-query-client.js), [Cells] (single cells in
      src/integration/lib/pg-binary-decode.js) with [JsNumber] (JavaScript
      numbers and dates), [ClientRequest] (the client's requests).
    - [ShardService] (service/mtdd_shard_service.cpp): the three handlers, with
      the locals of [QueryStream] as the record [Handler] and one definition per
      part of its loop. [ShardSafety] (guards and grammar), [ShardSlots] (slots of
      the pool), [Service] (sequences of calls), [Delivery] (from the chunks to
      the client), [Immediate] (statements without a cursor) and [EndToEnd]
      (statements with one) hold the theorems about them; [Lift] carries what the
      operations of a query keep through the handler, and [PoolUse] is what a
      query does to the pool.
    - [Calls]: the handlers of any number of calls on one service, interleaved.
      [QueryStream] is cut into phases ([phase_step]: the opening, each iteration
      of the loop, the statements after it, the destruction of the query, the
      timer), [Connect] into what lies between its accesses to shared state
      ([connect_step]); [move] lets one phase of one call, a [Disconnect] or a
      probe happen on the current state. A call that finds the pool exhausted
      is [Asleep] on [cv_], until a notification or a spurious wakeup lets it
      test the pool again: [step] is a [move] with the notifications it sends,
      each of which wakes one sleeping call, whichever, or such a wakeup; [fire]
      is the same as a function.
      [Isolation] (what calls on other connections leave alone), [CallsInv]
      (invariants), [Progress] (why a call can stop), [Wakeups] (the sleeping
      calls), [Locks] (the mutexes of the
      connections), [World] (what every call of libpq keeps, every run keeps),
      [ConcDelivery] (delivery of a SELECT among other calls), [ConcStatements]
      (the same for statements without a cursor) and [ConnectConc] (overlapping
      [Connect]s) hold the theorems.
    - [MockResult], [MockFlex], [MockPg], [Witnesses], [CallWitnesses]: concrete
      instances of the interfaces, on which the theorems are applied.

    ** Parameters

    What is not in the repository is a parameter, with the documented facts
    that some theorems rely on as separate laws: libpq and the server ([Libpq],
    [PGResultLaws], [CursorServer], [CursorIsolation], [DistinctHandles];
    [HandleLog] holds for any libpq whose handles are recorded, see
    [Handles.tracked]), libpq's parser of connection strings
    ([ConninfoParser]: unquoted values of known keywords), the FlexBuffers
    library ([FlexBuffers]), the file system ([Posix]; [PosixLaws] is what a
    successful [unlink] does to the path and leaves of directories), the
    iteration order of hash tables ([HashOrder]),
    the streams of gRPC ([NotifyStreams]; in [ShardService] the answers of
    [IsCancelled] and [Write], one function of the number of the call each),
    the environment, [BuildAndStart] and [Wait] in [Main]. Each law class has an
    instance.

    ** What is shown

    - Delivery: on a server with documented cursors a SELECT terminates and the
      client decodes exactly its fields and rows ([QueryStream_delivers]), also
      when any other calls run at the same time, and then it never hangs and
      its own phases bring it to its end ([calls_deliver]); a command gives its
      tag and count, RETURNING its rows, and an error, also in the middle of a
      stream, its message ([QueryStream_command], [QueryStream_returning],
      [QueryStream_statement_error], [failed_fetch_reaches_client]), and the
      first three also hold among concurrent calls, on a pooled connection and on
      that of a session ([calls_answer]); RPGB batches and metadata are read back
      as they were written, wherever the rows are cut ([rpgb_roundtrip],
      [rpgb_split], [metadata_of_result]), where a cell that is no value of its
      type makes the client throw, so that the theorems of delivery ask for cells
      that it can decode ([rows_decode]); integers, dates and timestamps arrive
      as they were sent ([integer_cells], [date_cells]), and the client's
      requests are what the server expects ([client_requests]).
    - Protocol: for every server and client, the chunks of a stream follow the
      grammar ([QueryStream_grammar], [calls_grammar]); refused requests have no effect
      ([QueryStream_refuses], [Connect_behaviour]); over its whole life the
      service refuses queries before the first successful [Connect] and then
      runs them with the credentials of the last one, while the pool has those
      of the last attempt ([service_credentials]).
    - Concurrent calls: a handler that returns is a run of the interleaved
      service ([QueryStream_is_run]), so what holds of every run holds of it; a
      call makes its next phase unless it goes to sleep at an exhausted pool, or
      hangs at a locked mutex or by an overflow ([calls_progress]); while a call
      sleeps, what queries give back is spoken for by calls that are awake, and
      only [Connect] adds what nobody is told of ([calls_wakeups]); a mutex that
      stays locked is that of a connection whose call hung, never of an idle one
      ([calls_mutexes]).
    - Resources: no handle is misused or lost, concurrent calls do not share
      pooled connections, and closing finishes everything ([calls_handles],
      [handles_exact], [queries_isolated], [closing_finishes_all]); the pool's
      counter is exactly the calls that hold a connection and those that lost
      theirs, which are cursor queries that could not be opened ([calls_slots]);
      between calls nothing else is left behind ([service_invariant]); section by
      section the pool's counter is exact, its connections have one owner and no
      wakeup is lost but those of [Connect] ([pool_accounting],
      [pool_exclusive], [pool_no_lost_wakeup]); queries give their slot back
      ([query_gives_slot_back], [QueryStream_returns_slot]) and keep their type
      ([query_well_typed]); sessions are pinned ([session_pinned]).
    - Notifications: the registry refines a set of subscriptions and a list of
      watches ([registry_refines_spec]); as long as no scope contains a colon, a
      message goes to exactly the streams of the clients subscribed to its
      channel in its scope ([publish_delivers]); tables hold only live streams
      ([registered_streams_alive]); the handlers ([Subscribe_behaviour],
      [Publish_behaviour], [Watch_returns_clean]).
    - Health: nothing serves before a successful probe
      ([not_serving_before_probe]), the probe thread ends ([ProbeLoop_stops]),
      and there is one of it ([one_probe_thread]).
    - Start and end: safe configurations ([load_production_safe] and the other
      theorems of [Config]); socket paths follow the rules on components
      ([ValidateUnixSocketPath_reference]); only dead sockets are removed before
      the bind ([RemoveStaleSocketFile_safe]); [main] always ends, with the
      listener released and the probe thread joined ([main_ends]).
    - Divergences: behaviour the code does not mean to have is stated as
      theorems of the same kind ([OpenCursor_deadlocks],
      [QueryStream_leaks_slot], [conninfo_injection],
      [failed_Connect_replaces_pool_params], [publish_outlives_watch],
      [pool_exceeds_size], [Acquire_serves_old_credentials],
      [ChannelKey_collision], [ParsePositiveInt_wraps], [Abort_cleanup],
      [connect_wakes_nobody], [concurrent_connects_terminate],
      [session_close_breaks_other], [cancelled_query_leaks_result],
      [Execute_loses_error], [numeric_cells_wrong], [overlapping_connects],
      [float_cells], [timestamp_rounds_up]).

    ** Bounds

    Loops that end for a reason outside the data have fuel, and each has a
    theorem that some fuel is enough: the [while] loop of [QueryStream] runs at
    most once per row and twice more ([QueryStream_delivers]: [length rows +
    2]), once for a command and twice for a buffered result; its batch loop
    gets [S num_rows], one more than its iterations, since a batch has at least
    one row; [ProbeLoop] returns within [T + 2] iterations
    when the stop flag is set during the [T]-th sleep; [Watch] within [i + 1]
    polls when the [i]-th is cancelled; [EnsureDirectory] recurses on shorter
    paths, so the length of the path and two is enough
    ([EnsureDirectory_total]). Integers are kept at their width: conversions
    wrap ([to_int32], [to_uint32]) and signed overflow is [Stuck].

    ** Not modelled

    Generated protobuf and gRPC code, TLS termination, the bytes of FlexBuffers,
    the Windows branches, allocation failure, the destruction of globals after
    [main], the UTF-8 decoding of the client's texts, build and deployment files
    and tests. Concurrency is modelled where state is shared: the critical
    sections of the pool and of the registry interleave one by one, and so do
    the accesses to the probe thread; the operations of streaming queries and
    the phases of the handlers interleave as wholes, so that inside one phase,
    such as the BEGIN and DECLARE of an opening, nothing else happens. A mutex
    that is locked between two phases belongs to a call that hangs, and a call
    that needs it hangs too. Nothing in the interleaved service calls [CloseAll],
    as nothing in the repository does; [Pool] and [PoolCv] have it as a step. *)
From Stdlib Require Ascii.
Export Ascii (ascii(..), nat_of_ascii, ascii_of_nat).
Export (notations) Ascii.
From stdpp Require Export base tactics numbers strings list gmap fin_maps pretty relations.
From Stdlib Require Export ZArith Lia.

(** ** Outcomes and the effect monad

    A C++ member function is modelled as a computation of type [M S A]: it
    reads and updates the state [S] and ends in an [outcome]. *)

(** Why a call has no result: it locks a [std::mutex] that its thread, or one that
    hangs, already owns, it waits on a condition variable whose predicate is false, it computes
    a signed integer out of range or uses a null pointer (undefined behaviour),
    or the bound given to a loop of the model is used up. *)
Inductive stuck : Type :=
| SelfDeadlock
| CvWait
| SignedOverflow
| NullPointer
| OutOfFuel.

Inductive outcome (A : Type) : Type :=
| Ret (a : A)
| Throw (what : string)
| Stuck (why : stuck).
Arguments Ret {A} _.
Arguments Throw {A} _.
Arguments Stuck {A} _.

Definition M (S A : Type) : Type := S → outcome A * S.

Definition m_ret {S A} (a : A) : M S A := λ s, (Ret a, s).

Definition m_bind {S A B} (m : M S A) (k : A → M S B) : M S B := λ s,
  match m s with
  | (Ret a, s') => k a s'
  | (Throw e, s') => (Throw e, s')
  | (Stuck w, s') => (Stuck w, s')
  end.

Definition throw {S A} (what : string) : M S A := λ s, (Throw what, s).
Definition hang {S A} (why : stuck) : M S A := λ s, (Stuck why, s).
Definition get {S} : M S S := λ s, (Ret s, s).
Definition put {S} (s' : S) : M S unit := λ _, (Ret tt, s').
Definition modify {S} (f : S → S) : M S unit := λ s, (Ret tt, f s).
Definition gets {S A} (f : S → A) : M S A := λ s, (Ret (f s), s).

(** [try { m } catch (const std::exception& ex) { h(ex.what()) }]. *)
Definition try_catch {S A} (m : M S A) (h : string → M S A) : M S A := λ s,
  match m s with
  | (Throw e, s') => h e s'
  | r => r
  end.

(** A loop over a list with an accumulator. *)
Fixpoint m_foldl {S A B} (f : B → A → M S B) (b : B) (l : list A) : M S B :=
  match l with
  | [] => m_ret b
  | a :: l' => m_bind (f b a) (λ b', m_foldl f b' l')
  end.

(** A function of a part of the state, run in the whole. *)
Definition zoom {S T A} (get_part : S → T) (set_part : T → S → S) (m : M T A) : M S A :=
  λ s, let '(o, t) := m (get_part s) in (o, set_part t s).

Declare Scope cpp_scope.
Delimit Scope cpp_scope with cpp.
Notation "'let*' x := m 'in' k" := (m_bind m (λ x, k))
  (at level 10, x name, m at level 100, k at level 200) : cpp_scope.
Notation "m ';;' k" := (m_bind m (λ _, k))
  (at level 100, k at level 200, right associativity) : cpp_scope.
Notation "'when' b 'do' m" := (if b then m else m_ret tt)
  (at level 90, b at level 80, m at level 90) : cpp_scope.

(** ** Monad laws and inversion *)

Lemma m_bind_ret_l {S A B} (a : A) (k : A → M S B) s : m_bind (m_ret a) k s = k a s.
Proof. reflexivity. Qed.

Lemma m_bind_assoc {S A B C} (m : M S A) (f : A → M S B) (g : B → M S C) s :
  m_bind (m_bind m f) g s = m_bind m (λ a, m_bind (f a) g) s.
Proof. unfold m_bind. by destruct (m s) as [[] ?]. Qed.

(** A run and its outcome. *)
Lemma run_fst {S A} (r : outcome A * S) o : fst r = o → r = (o, snd r).
Proof. by destruct r; intros <-. Qed.

(** One step of a run. *)
Lemma m_bind_run {S A B} (m : M S A) (k : A → M S B) s a s1 :
  m s = (Ret a, s1) → m_bind m k s = k a s1.
Proof. unfold m_bind. by intros ->. Qed.

Lemma m_bind_Ret {S A B} (m : M S A) (k : A → M S B) s b s' :
  m_bind m k s = (Ret b, s') → ∃ a s1, m s = (Ret a, s1) ∧ k a s1 = (Ret b, s').
Proof. unfold m_bind. destruct (m s) as [[] ?] eqn:E; naive_solver. Qed.

(** A computation preserves a relation between its initial and final state,
    whatever its outcome. *)
Definition preserves {S A} (R : relation S) (m : M S A) : Prop :=
  ∀ s, R s (snd (m s)).

Lemma preserves_ret {S A} (R : relation S) `{!Reflexive R} (a : A) : preserves R (m_ret a).
Proof. intros s. simpl. reflexivity. Qed.

Lemma preserves_weaken {S A} (R R' : relation S) (m : M S A) :
  preserves R m → (∀ s s', R s s' → R' s s') → preserves R' m.
Proof. intros Hm Hi s. apply Hi, Hm. Qed.

Lemma preserves_bind {S A B} (R : relation S) `{!Transitive R} (m : M S A) (k : A → M S B) :
  preserves R m → (∀ a, preserves R (k a)) → preserves R (m_bind m k).
Proof.
  intros Hm Hk s. specialize (Hm s). unfold m_bind.
  destruct (m s) as [[a|e|w] s1]; simpl in *; [|done..].
  etrans; [exact Hm|]. apply Hk.
Qed.

(** A predicate on states that holds after the computation if it held before,
    whatever the outcome. *)
Definition keeps {S A} (P : S → Prop) (m : M S A) : Prop := ∀ s, P s → P (snd (m s)).

Lemma keeps_ret {S A} (P : S → Prop) (a : A) : keeps P (m_ret a).
Proof. by intros s. Qed.
Lemma keeps_gets {S A} (P : S → Prop) (f : S → A) : keeps P (gets f).
Proof. by intros s. Qed.
Lemma keeps_get {S} (P : S → Prop) : keeps P get.
Proof. by intros s. Qed.
Lemma keeps_hang {S A} (P : S → Prop) why : keeps P (hang (A := A) why).
Proof. by intros s. Qed.
Lemma keeps_modify {S} (P : S → Prop) (f : S → S) : (∀ s, P s → P (f s)) → keeps P (modify f).
Proof. intros Hf s. apply Hf. Qed.
Lemma keeps_bind {S A B} (P : S → Prop) (m : M S A) (k : A → M S B) :
  keeps P m → (∀ a, keeps P (k a)) → keeps P (m_bind m k).
Proof.
  intros Hm Hk s Hs. specialize (Hm s Hs). unfold m_bind.
  destruct (m s) as [[a|e|w] s1]; [by apply Hk|done..].
Qed.
Lemma keeps_try {S A} (P : S → Prop) (m : M S A) (h : string → M S A) :
  keeps P m → (∀ e, keeps P (h e)) → keeps P (try_catch m h).
Proof.
  intros Hm Hh s Hs. specialize (Hm s Hs). unfold try_catch.
  destruct (m s) as [[a|e|w] s1]; [done|by apply Hh|done].
Qed.

(** The same where the computation comes to an end, and [E] where it does not. *)
Definition stays {S A} (P E : S → Prop) (m : M S A) : Prop :=
  ∀ s, P s → match m s with (Stuck _, s') => E s' | (_, s') => P s' end.

Lemma keeps_stays {S A} (P : S → Prop) (m : M S A) : stays P P m ↔ keeps P m.
Proof. split; intros Hm s Hs; specialize (Hm s Hs); by destruct (m s) as [[]]. Qed.

Section Stays.
Context {S : Type} (P E : S → Prop).

Lemma stays_ret {A} (a : A) : stays P E (m_ret a).
Proof. by intros s. Qed.
Lemma stays_gets {A} (f : S → A) : stays P E (gets f).
Proof. by intros s. Qed.
Lemma stays_get : stays P E get.
Proof. by intros s. Qed.
Lemma stays_throw {A} e : stays P E (throw (A := A) e).
Proof. by intros s. Qed.
Lemma stays_hang {A} why : (∀ s, P s → E s) → stays P E (hang (A := A) why).
Proof. intros HE s. apply HE. Qed.
Lemma stays_modify f : (∀ s, P s → P (f s)) → stays P E (modify f).
Proof. intros Hf s. apply Hf. Qed.
Lemma stays_bind {A B} (m : M S A) (k : A → M S B) :
  stays P E m → (∀ a, stays P E (k a)) → stays P E (m_bind m k).
Proof.
  intros Hm Hk s Hs. specialize (Hm s Hs). unfold m_bind.
  destruct (m s) as [[a|e|w] s1]; [by apply Hk|done..].
Qed.
Lemma stays_try {A} (m : M S A) (h : string → M S A) :
  stays P E m → (∀ e, stays P E (h e)) → stays P E (try_catch m h).
Proof.
  intros Hm Hh s Hs. specialize (Hm s Hs). unfold try_catch.
  destruct (m s) as [[a|e|w] s1]; [done|by apply Hh|done].
Qed.
Lemma stays_foldl {A B} (f : B → A → M S B) b l :
  (∀ b a, stays P E (f b a)) → stays P E (m_foldl f b l).
Proof.
  intros Hf. revert b. induction l as [|a l IH]; intros b; [apply stays_ret|]. by apply stays_bind.
Qed.
End Stays.

(** A triple with postconditions for each outcome: the value returned, an
    exception, no end. *)
Definition hoare {S A} (P : S → Prop) (m : M S A) (Q : A → S → Prop) (T E : S → Prop) : Prop :=
  ∀ s, P s →
    match m s with (Ret a, s') => Q a s' | (Throw _, s') => T s' | (Stuck _, s') => E s' end.

(** No exception. *)
Definition nothrow {S A} (m : M S A) : Prop := ∀ s e s', m s ≠ (Throw e, s').

Lemma nothrow_zoom {S U A} (g : S → U) (p : U → S → S) (m : M U A) :
  nothrow m → nothrow (zoom g p m).
Proof.
  intros Hm s e s'. unfold zoom. destruct (m (g s)) as [o u] eqn:E. intros [= -> _].
  by apply Hm in E.
Qed.

Section Hoare.
Context {S : Type}.
Implicit Types P T E : S → Prop.

Lemma hoare_ret {A} (a : A) P (Q : A → S → Prop) T E :
  (∀ s, P s → Q a s) → hoare P (m_ret a) Q T E.
Proof. intros H s. apply H. Qed.
Lemma hoare_gets {A} (f : S → A) P T E : hoare P (gets f) (λ a s, P s ∧ a = f s) T E.
Proof. by intros s. Qed.
Lemma hoare_modify (f : S → S) P (Q : unit → S → Prop) T E :
  (∀ s, P s → Q tt (f s)) → hoare P (modify f) Q T E.
Proof. intros H s. apply H. Qed.
Lemma hoare_hang {A} why P (Q : A → S → Prop) T E :
  (∀ s, P s → E s) → hoare P (hang why) Q T E.
Proof. intros H s. apply H. Qed.

Lemma hoare_bind {A B} (m : M S A) (k : A → M S B) P (Q : A → S → Prop) (R : B → S → Prop) T E :
  hoare P m Q T E → (∀ a, hoare (Q a) (k a) R T E) → hoare P (m_bind m k) R T E.
Proof.
  intros Hm Hk s Hs. specialize (Hm s Hs). unfold m_bind.
  destruct (m s) as [[a|e|w] s1]; [|done..]. by apply Hk.
Qed.

Lemma hoare_conseq {A} (m : M S A) P P' (Q Q' : A → S → Prop) T T' E E' :
  hoare P' m Q' T' E' → (∀ s, P s → P' s) → (∀ a s, Q' a s → Q a s) → (∀ s, T' s → T s) →
  (∀ s, E' s → E s) → hoare P m Q T E.
Proof.
  intros Hm HP HQ HT HE s Hs. specialize (Hm s (HP s Hs)). destruct (m s) as [[] ?]; auto.
Qed.

Lemma hoare_try {A} (m : M S A) (h : string → M S A) P (Q : A → S → Prop) T T' E :
  hoare P m Q T E → (∀ e, hoare T (h e) Q T' E) → hoare P (try_catch m h) Q T' E.
Proof.
  intros Hm Hh s Hs. specialize (Hm s Hs). unfold try_catch.
  destruct (m s) as [[a|e|w] s1]; [done|by apply Hh|done].
Qed.

(** A computation that cannot touch what [P] is about. *)
Lemma hoare_frame {A} (R : relation S) (m : M S A) P T E :
  preserves R m → (∀ s s', R s s' → P s → P s') →
  (∀ s, P s → E s) → (nothrow m ∨ ∀ s, P s → T s) → hoare P m (λ _, P) T E.
Proof.
  intros Hm HP HE HT s Hs. specialize (Hm s). destruct (m s) as [[a|e|w] s1] eqn:Em; simpl in *.
  - eauto.
  - destruct HT as [HT|HT]; [by destruct (HT s e s1)|eauto].
  - eauto.
Qed.

(** The triple of a predicate that is kept. *)
Lemma hoare_keeps {A} (m : M S A) P : keeps P m → hoare P m (λ _, P) P P.
Proof. intros Hm s Hs. specialize (Hm s Hs). by destruct (m s) as [[]]. Qed.

Lemma nothrow_bind {A B} (m : M S A) (k : A → M S B) :
  nothrow m → (∀ a, nothrow (k a)) → nothrow (m_bind m k).
Proof.
  intros Hm Hk s e s'. unfold m_bind. destruct (m s) as [[a|e1|w] s1] eqn:E; [by apply Hk| |done].
  by destruct (Hm s e1 s1).
Qed.
End Hoare.

(** A computation that always returns: no exception, no wait, no undefined
    behaviour. *)
Definition returns {S A} (m : M S A) : Prop := ∀ s, ∃ a s', m s = (Ret a, s').

Lemma returns_nothrow {S A} (m : M S A) : returns m → nothrow m.
Proof. intros Hm s e s'. destruct (Hm s) as (a & s1 & ->). done. Qed.

Lemma returns_ret {S A} (a : A) : returns (S := S) (m_ret a).
Proof. intros s. by eexists _, _. Qed.
Lemma returns_gets {S A} (f : S → A) : returns (gets f).
Proof. intros s. by eexists _, _. Qed.
Lemma returns_get {S} : returns (S := S) get.
Proof. intros s. by eexists _, _. Qed.
Lemma returns_modify {S} (f : S → S) : returns (modify f).
Proof. intros s. by eexists _, _. Qed.
Lemma returns_bind {S A B} (m : M S A) (k : A → M S B) :
  returns m → (∀ a, returns (k a)) → returns (m_bind m k).
Proof.
  intros Hm Hk s. unfold m_bind. destruct (Hm s) as (a & s1 & ->). apply Hk.
Qed.
Lemma returns_zoom {S T A} (g : S → T) (p : T → S → S) (m : M T A) :
  returns m → returns (zoom g p m).
Proof. intros Hm s. unfold zoom. destruct (Hm (g s)) as (a & t & ->). by eexists _, _. Qed.

(** A loop preserves what its body preserves. *)
Lemma preserves_foldl {S A B} (R : relation S) `{!Reflexive R, !Transitive R}
    (f : B → A → M S B) b l :
  (∀ b a, preserves R (f b a)) → preserves R (m_foldl f b l).
Proof.
  intros Hf. revert b. induction l as [|a l IH]; intros b; [by apply preserves_ret|].
  simpl. apply preserves_bind; [done|apply Hf|done].
Qed.

(** An invariant of a step relation holds in every reachable state. *)
Lemma rtc_invariant {A} (R : relation A) (P : A → Prop) x z :
  P x → (∀ y y', R y y' → P y → P y') → rtc R x z → P z.
Proof. intros Hx Hstep. induction 1; eauto. Qed.

(** ** Booleans and conditionals *)

Ltac case_if :=
  match goal with
  | |- context [if ?b then _ else _] =>
      lazymatch type of b with bool => destruct b eqn:? | _ => destruct b end
  | H : context [if ?b then _ else _] |- _ =>
      lazymatch type of b with bool => destruct b eqn:? | _ => destruct b end
  end.

(** Reflect the boolean tests of the code into propositions. *)
Ltac bool_to_prop :=
  repeat match goal with
  | H : bool_decide _ = true |- _ => apply bool_decide_eq_true_1 in H
  | H : bool_decide _ = false |- _ => apply bool_decide_eq_false_1 in H
  | H : (_ && _) = true |- _ => apply andb_true_iff in H as [??]
  | H : (_ || _) = false |- _ => apply orb_false_iff in H as [??]
  | H : (_ || _) = true |- _ => apply orb_true_iff in H
  | H : (_ && _) = false |- _ => apply andb_false_iff in H
  | H : negb _ = true |- _ => apply negb_true_iff in H
  | H : negb _ = false |- _ => apply negb_false_iff in H
  end.

(** ** Lists *)

(** A function without repeated values on a list is injective there. *)
Lemma NoDup_fmap_elem {A B} (f : A → B) (l : list A) x y :
  NoDup (f <$> l) → x ∈ l → y ∈ l → f x = f y → x = y.
Proof.
  intros Hd (i & Hi)%list_elem_of_lookup (j & Hj)%list_elem_of_lookup Hf.
  assert (i = j) as ->; [|congruence]. eapply (NoDup_lookup (f <$> l)); [done|..];
    rewrite list_lookup_fmap, ?Hi, ?Hj; simpl; [done|by rewrite Hf].
Qed.

Lemma filter_none {A} (P : A → Prop) `{!∀ x, Decision (P x)} (l : list A) :
  (∀ x, x ∈ l → ¬ P x) → filter P l = [].
Proof.
  induction l as [|x l IH]; intros Hl; [done|].
  rewrite filter_cons_False by (apply Hl; left). apply IH. intros y Hy. apply Hl. by right.
Qed.

Lemma filter_all {A} (P : A → Prop) `{!∀ x, Decision (P x)} (l : list A) :
  (∀ x, x ∈ l → P x) → filter P l = l.
Proof.
  induction l as [|x l IH]; intros Hl; [done|].
  rewrite filter_cons_True by (apply Hl; left). f_equal. apply IH. intros y Hy. apply Hl. by right.
Qed.

Lemma filter_disjoint_perm {A} (P Q : A → Prop) `{!∀ x, Decision (P x), !∀ x, Decision (Q x)}
    (l : list A) :
  (∀ x, P x → ¬ Q x) → filter P l ++ filter Q l ≡ₚ filter (λ x, P x ∨ Q x) l.
Proof.
  intros Hd. induction l as [|x l IH]; [done|]. rewrite !filter_cons.
  pose proof (Hd x). repeat case_decide; try tauto; simpl.
  - by rewrite IH.
  - by rewrite <-Permutation_middle, IH.
Qed.

Create HintDb mtdd.
#[export] Hint Resolve keeps_ret keeps_gets keeps_get keeps_hang : mtdd.
#[export] Hint Resolve stays_ret stays_gets stays_get stays_throw : mtdd.
#[export] Hint Resolve returns_ret returns_gets returns_get returns_modify returns_zoom : mtdd.
Create Rewrite HintDb mtdd.
#[export] Hint Rewrite @m_bind_ret_l @m_bind_assoc : mtdd.
