(* ===== verification/CppStd.v ===== *)
(** * The C++ runtime the server uses

    Byte strings ([std::string] is [string], a sequence of 8-bit characters),
    the searches and slices of [std::string], [strtol] and [std::to_string],
    and the conversions between machine integers, on an LP64 target ([int] is
    32 bits, [long] and [long long] are 64 bits). *)
From S2P Require Import Prelude.
Local Open Scope Z_scope.

(** ** Machine integers *)

Definition INT_MAX : Z := 2 ^ 31 - 1.
Definition LONG_MAX : Z := 2 ^ 63 - 1.
Definition LONG_MIN : Z := - 2 ^ 63.

(** [static_cast<int>(z)]: the two's complement value of the low 32 bits. *)
Definition to_int32 (z : Z) : Z := (z + 2 ^ 31) `mod` 2 ^ 32 - 2 ^ 31.
(** [static_cast<uint32_t>(z)]. *)
Definition to_uint32 (z : Z) : Z := z `mod` 2 ^ 32.
(** A [uint64_t] counter after an increment. *)
Definition to_uint64 (z : Z) : Z := z `mod` 2 ^ 64.

Definition int32_range (z : Z) : Prop := - 2 ^ 31 ≤ z ≤ INT_MAX.

Lemma to_int32_range z : int32_range (to_int32 z).
Proof.
  unfold int32_range, INT_MAX, to_int32.
  pose proof (Z.mod_pos_bound (z + 2 ^ 31) (2 ^ 32)). lia.
Qed.

Lemma to_int32_id z : int32_range z → to_int32 z = z.
Proof. unfold int32_range, INT_MAX, to_int32. intros. rewrite Z.mod_small; lia. Qed.

Lemma to_uint32_id z : 0 ≤ z < 2 ^ 32 → to_uint32 z = z.
Proof. intros. unfold to_uint32. apply Z.mod_small. lia. Qed.

(** ** Byte strings *)

Definition NUL : ascii := "000"%char.

(** [s.size()]. *)
Definition str_size (s : string) : Z := Z.of_nat (String.length s).

(** [s.empty()]. *)
Definition str_empty (s : string) : bool :=
  match s with EmptyString => true | _ => false end.

(** The C string that [s.c_str()] denotes: the bytes before the first NUL. *)
Fixpoint c_str (s : string) : string :=
  match s with
  | EmptyString => EmptyString
  | String c s' => if bool_decide (c = NUL) then EmptyString else String c (c_str s')
  end.

Fixpoint str_drop (n : nat) (s : string) : string :=
  match n, s with
  | O, _ => s
  | S _, EmptyString => EmptyString
  | S n', String _ s' => str_drop n' s'
  end.

Fixpoint str_take (n : nat) (s : string) : string :=
  match n, s with
  | O, _ => EmptyString
  | S _, EmptyString => EmptyString
  | S n', String c s' => String c (str_take n' s')
  end.

Definition ascii_eqb (a b : ascii) : bool := bool_decide (a = b).
#[global] Arguments ascii_eqb : simpl never.

(** [s.rfind(p, 0) == 0]: does [p] occur at position 0. *)
Fixpoint starts_with (p s : string) : bool :=
  match p, s with
  | EmptyString, _ => true
  | String _ _, EmptyString => false
  | String a p', String b s' => ascii_eqb a b && starts_with p' s'
  end.

(** [s.find(c)] and [s.find_first_of(set)], by a predicate on characters. *)
Fixpoint find_first (p : ascii → bool) (s : string) : option nat :=
  match s with
  | EmptyString => None
  | String c s' => if p c then Some O else S <$> find_first p s'
  end.

(** [s.rfind(c)] and [s.find_last_of(set)]. *)
Fixpoint find_last (p : ascii → bool) (s : string) : option nat :=
  match s with
  | EmptyString => None
  | String c s' =>
      match find_last p s' with
      | Some i => Some (S i)
      | None => if p c then Some O else None
      end
  end.

(** [s.find(pat) != std::string::npos]. *)
Fixpoint str_contains (pat s : string) : bool :=
  starts_with pat s ||
  match s with
  | EmptyString => false
  | String _ s' => str_contains pat s'
  end.

(** [s.back()], for a string that is not empty. *)
Fixpoint str_back (s : string) : option ascii :=
  match s with
  | EmptyString => None
  | String c EmptyString => Some c
  | String _ s' => str_back s'
  end.

(** [std::isspace] and [std::toupper] in the C locale. *)
Definition isspace (c : ascii) : bool :=
  let n := nat_of_ascii c in
  Nat.eqb n 32 || (Nat.leb 9 n && Nat.leb n 13).

Definition toupper (c : ascii) : ascii :=
  let n := nat_of_ascii c in
  if Nat.leb 97 n && Nat.leb n 122 then ascii_of_nat (n - 32) else c.

Fixpoint str_map (f : ascii → ascii) (s : string) : string :=
  match s with
  | EmptyString => EmptyString
  | String c s' => String (f c) (str_map f s')
  end.

(** ** Integer parsing and printing *)

(** The value of [c] as a digit of a base up to ten. *)
Definition digit_val (base : Z) (c : ascii) : option Z :=
  let d := Z.of_nat (nat_of_ascii c) - 48 in
  if (0 <=? d) && (d <? base) then Some d else None.

Fixpoint skip_space (s : string) : string :=
  match s with
  | String c s' => if isspace c then skip_space s' else s
  | EmptyString => s
  end.

(** The longest run of digits: its value, and the rest of the input. *)
Fixpoint scan_digits (base acc : Z) (s : string) : Z * string :=
  match s with
  | String c s' =>
      match digit_val base c with
      | Some d => scan_digits base (acc * base + d) s'
      | None => (acc, s)
      end
  | EmptyString => (acc, s)
  end.

Definition clamp_long (z : Z) : Z := Z.max LONG_MIN (Z.min LONG_MAX z).

Definition scan_sign (s : string) : Z * string :=
  match s with
  | String c s' =>
      if ascii_eqb c "-" then (-1, s') else if ascii_eqb c "+" then (1, s') else (1, s)
  | EmptyString => (1, s)
  end.

(** [std::strtol(s, &end, base)] for base 8 or 10 (and [std::strtoll]): the
    parsed value with [*end], or [None] when no digit was read, in which case
    [end == s]. Values out of range saturate. *)
Definition strtol (s : string) (base : Z) : option (Z * string) :=
  let '(sign, body) := scan_sign (skip_space s) in
  match body with
  | String c _ =>
      match digit_val base c with
      | Some _ =>
          let '(v, rest) := scan_digits base 0 body in
          Some (clamp_long (sign * v), rest)
      | None => None
      end
  | EmptyString => None
  end.

(** [std::to_string(z)] and [out << z]. *)
Definition to_string (z : Z) : string := pretty z.

(** ** Facts about strings *)

Lemma str_empty_spec s : str_empty s = true ↔ s = "".
Proof. by destruct s. Qed.

Lemma str_empty_false s : str_empty s = false ↔ s ≠ "".
Proof. by destruct s. Qed.

Lemma str_size_nonneg s : 0 ≤ str_size s.
Proof. unfold str_size. lia. Qed.

Lemma str_app_nil_r s : s +:+ "" = s.
Proof. induction s as [|c s IH]; [done|]. unfold String.app in *. simpl. by rewrite IH. Qed.

Lemma str_app_cons c s t : String c s +:+ t = String c (s +:+ t).
Proof. done. Qed.

Lemma str_app_nil_l s : "" +:+ s = s.
Proof. done. Qed.

Lemma str_app_assoc s t u : (s +:+ t) +:+ u = s +:+ (t +:+ u).
Proof. induction s as [|c s IH]; [done|]. by rewrite !str_app_cons, IH. Qed.

Lemma str_length_app s t :
  String.length (s +:+ t) = (String.length s + String.length t)%nat.
Proof. induction s as [|c s IH]; [done|]. rewrite str_app_cons. simpl. lia. Qed.

Lemma str_size_app s t : str_size (s +:+ t) = str_size s + str_size t.
Proof. unfold str_size. rewrite str_length_app. lia. Qed.

Lemma str_take_app s t : str_take (String.length s) (s +:+ t) = s.
Proof. induction s as [|c s IH]; [done|]. rewrite str_app_cons. simpl. by rewrite IH. Qed.

Lemma str_drop_app s t : str_drop (String.length s) (s +:+ t) = t.
Proof. induction s as [|c s IH]; [done|]. rewrite str_app_cons. simpl. apply IH. Qed.

Lemma str_take_drop n s : str_take n s +:+ str_drop n s = s.
Proof.
  revert s. induction n as [|n IH]; intros [|c s]; try done.
  simpl. rewrite str_app_cons. by rewrite IH.
Qed.

Lemma str_drop_length n s :
  String.length (str_drop n s) = (String.length s - n)%nat.
Proof. revert s. induction n as [|n IH]; intros [|c s]; simpl; [lia..|done|apply IH]. Qed.

Lemma ascii_eqb_spec a b : ascii_eqb a b = true ↔ a = b.
Proof. apply bool_decide_eq_true. Qed.

Lemma ascii_eqb_neq a b : ascii_eqb a b = false ↔ a ≠ b.
Proof. apply bool_decide_eq_false. Qed.

Lemma ascii_eqb_refl a : ascii_eqb a a = true.
Proof. by apply ascii_eqb_spec. Qed.

Lemma starts_with_app p s : starts_with p (p +:+ s) = true.
Proof.
  induction p as [|c p IH]; [done|]. rewrite str_app_cons. simpl.
  by rewrite ascii_eqb_refl.
Qed.

Lemma starts_with_spec p s :
  starts_with p s = true ↔ ∃ t, s = p +:+ t.
Proof.
  split; [|intros [t ->]; apply starts_with_app].
  revert s. induction p as [|c p IH]; intros s Hs; [by exists s|].
  destruct s as [|d s]; [done|]. simpl in Hs. apply andb_true_iff in Hs as [Hc Hs].
  apply ascii_eqb_spec in Hc as ->. destruct (IH _ Hs) as [t ->]. by exists t.
Qed.

Lemma str_contains_spec pat s :
  str_contains pat s = true ↔ ∃ a b, s = a +:+ pat +:+ b.
Proof.
  induction s as [|c s IH];
    cbn [str_contains]; rewrite orb_true_iff.
  - split.
    + intros [H|H]; [|done]. apply (starts_with_spec pat "") in H as [t Ht]. by exists "", t.
    + intros (a & b & H). left. destruct a; [|done]. apply (starts_with_spec pat ""). by exists b.
  - rewrite IH. split.
    + intros [H|(a & b & ->)].
      * apply (starts_with_spec pat) in H as [t ->]. by exists "", t.
      * by exists (String c a), b.
    + intros ([|d a] & b & H).
      * left. apply (starts_with_spec pat). by exists b.
      * right. rewrite str_app_cons in H. injection H as -> ->. eauto.
Qed.

Lemma str_back_app_char s c : str_back (s +:+ String c "") = Some c.
Proof.
  induction s as [|d s IH]; [done|]. rewrite str_app_cons. simpl.
  destruct (s +:+ String c "") eqn:E; [|done]. by destruct s.
Qed.

Lemma str_back_Some s c : str_back s = Some c → ∃ t, s = t +:+ String c "".
Proof.
  induction s as [|d s IH]; [done|]. simpl. destruct s as [|e s].
  - intros [= ->]. by exists "".
  - intros H. destruct (IH H) as [t ->]. by exists (String d t).
Qed.

Lemma find_last_None p s :
  find_last p s = None ↔ find_first p s = None.
Proof.
  induction s as [|c s IH]; [done|]. simpl.
  destruct (find_last p s), (p c), (find_first p s); simpl; split; try done;
    intros _; exfalso; destruct IH; intuition congruence.
Qed.

(** The character at the last match, with what precedes and follows it. *)
Lemma find_last_Some p s i :
  find_last p s = Some i →
  ∃ a c b, s = a +:+ String c b ∧ String.length a = i ∧ p c = true ∧ find_first p b = None.
Proof.
  revert i. induction s as [|d s IH]; intros i; [done|]. simpl.
  destruct (find_last p s) as [j|] eqn:E.
  - intros [= <-]. destruct (IH j eq_refl) as (a & c & b & -> & <- & ? & ?).
    exists (String d a), c, b. by rewrite str_app_cons.
  - destruct (p d) eqn:Hp; intros [= <-]. exists "", d, s. apply find_last_None in E. done.
Qed.

Lemma find_last_app_cons p a c b :
  p c = true → find_first p b = None → find_last p (a +:+ String c b) = Some (String.length a).
Proof.
  intros Hc Hb. induction a as [|d a IH].
  - rewrite str_app_nil_l. simpl. apply find_last_None in Hb. by rewrite Hb, Hc.
  - rewrite str_app_cons. simpl. by rewrite IH.
Qed.

Lemma c_str_id s : c_str s = s ↔ find_first (ascii_eqb NUL) s = None.
Proof.
  induction s as [|c s IH]; [done|]. simpl. unfold ascii_eqb at 1.
  destruct (bool_decide (c = NUL)) eqn:E1; bool_to_prop.
  - subst c. rewrite bool_decide_eq_true_2 by done. split; done.
  - rewrite bool_decide_eq_false_2 by congruence.
    rewrite fmap_None, <-IH. split; [by intros [= ->]|by intros ->].
Qed.

Lemma c_str_idemp s : c_str (c_str s) = c_str s.
Proof. induction s as [|c s IH]; [done|]. simpl. case_bool_decide; [done|]. simpl. by rewrite bool_decide_eq_false_2, IH by done. Qed.

(** ** Facts about integer parsing *)

Definition starts_digit (s : string) : Prop :=
  match s with String c _ => is_Some (digit_val 10 c) | EmptyString => False end.

Lemma digit_val_range base c d : digit_val base c = Some d → 0 ≤ d < base.
Proof.
  unfold digit_val. case_if; [|done]. intros [= <-]. bool_to_prop. lia.
Qed.

Lemma digit_not_space c : is_Some (digit_val 10 c) → isspace c = false.
Proof.
  intros [d Hd]. unfold digit_val, isspace in *. case_if; [|done]. bool_to_prop.
  apply orb_false_iff. rewrite andb_false_iff, !Nat.leb_gt, Nat.eqb_neq. lia.
Qed.

Lemma digit_not_sign c :
  is_Some (digit_val 10 c) → ascii_eqb c "-" = false ∧ ascii_eqb c "+" = false.
Proof.
  intros [d Hd]. unfold ascii_eqb. rewrite !bool_decide_eq_false.
  split; intros ->; done.
Qed.

Lemma digit_val_pretty x :
  (x < 10)%N → digit_val 10 (pretty_N_char x) = Some (Z.of_N x).
Proof.
  intros Hx. assert (x = 0 ∨ x = 1 ∨ x = 2 ∨ x = 3 ∨ x = 4 ∨ x = 5 ∨ x = 6 ∨ x = 7
    ∨ x = 8 ∨ x = 9)%N by lia. by destruct_or!; subst x.
Qed.

Lemma scan_pretty_N_go x s :
  scan_digits 10 0 (pretty_N_go x s) = scan_digits 10 (Z.of_N x) s.
Proof.
  revert s. induction x as [x IH] using (well_founded_induction N.lt_wf_0); intros s.
  destruct (decide (x = 0)%N) as [->|Hx]; [by rewrite pretty_N_go_0|].
  rewrite pretty_N_go_step by lia.
  rewrite IH by (apply N.div_lt; lia). simpl.
  rewrite digit_val_pretty by (apply N.mod_lt; lia).
  f_equal. rewrite N2Z.inj_div, N2Z.inj_mod. pose proof (Z.div_mod (Z.of_N x) 10). lia.
Qed.

Lemma starts_digit_pretty_N_go x s :
  (0 < x)%N ∨ starts_digit s → starts_digit (pretty_N_go x s).
Proof.
  revert s. induction x as [x IH] using (well_founded_induction N.lt_wf_0); intros s Hs.
  destruct (decide (x = 0)%N) as [->|Hx].
  - rewrite pretty_N_go_0. destruct Hs; [lia|done].
  - rewrite pretty_N_go_step by lia. apply IH; [apply N.div_lt; lia|].
    right. simpl. rewrite digit_val_pretty by (apply N.mod_lt; lia). by eexists.
Qed.

Lemma to_string_digits z :
  0 ≤ z → starts_digit (to_string z) ∧ scan_digits 10 0 (to_string z) = (z, "").
Proof.
  intros Hz. unfold to_string.
  destruct z as [|p|p]; [split; [by eexists|done]| |lia].
  split.
  - apply starts_digit_pretty_N_go. left. lia.
  - etrans; [apply scan_pretty_N_go|]. done.
Qed.

(** [strtol] reads back what [std::to_string] prints. *)
Lemma strtol_to_string z :
  0 ≤ z ≤ LONG_MAX → strtol (to_string z) 10 = Some (z, "").
Proof.
  intros [Hz Hmax]. destruct (to_string_digits z Hz) as [Hs Hd]. unfold strtol.
  destruct (to_string z) as [|c s]; [done|]. simpl in Hs.
  simpl skip_space. rewrite digit_not_space by done. unfold scan_sign.
  destruct (digit_not_sign c Hs) as [-> ->]. destruct Hs as [d Hs]. rewrite Hs, Hd.
  do 2 f_equal. unfold clamp_long, LONG_MIN. unfold LONG_MAX in *. lia.
Qed.

Lemma strtol_range s base z rest :
  strtol s base = Some (z, rest) → LONG_MIN ≤ z ≤ LONG_MAX.
Proof.
  unfold strtol. destruct (scan_sign (skip_space s)) as [sg [|c b]]; [done|].
  destruct (digit_val base c); [|done].
  destruct (scan_digits base 0 (String c b)) as [v r]. intros [= <- <-].
  unfold clamp_long, LONG_MIN, LONG_MAX. lia.
Qed.

(** Strings that a scan of digits consumes have digits only. *)
Lemma find_first_digits p acc s v :
  scan_digits 10 acc s = (v, "") → (∀ c, is_Some (digit_val 10 c) → p c = false) →
  find_first p s = None.
Proof.
  intros Hs Hp. revert acc Hs. induction s as [|c s IH]; intros acc; simpl; [done|].
  destruct (digit_val 10 c) eqn:E; [|done]. intros Hs. rewrite Hp by eauto.
  by rewrite (IH _ Hs).
Qed.

Lemma c_str_app s t : c_str s = s → c_str (s +:+ t) = s +:+ c_str t.
Proof.
  induction s as [|c s IH]; [done|]. rewrite str_app_cons. simpl. case_if; [done|].
  intros [= Hs]. by rewrite IH.
Qed.

Lemma c_str_to_string z : 0 ≤ z → c_str (to_string z) = to_string z.
Proof.
  intros Hz. apply c_str_id. eapply find_first_digits; [by apply to_string_digits|].
  intros c Hc. apply ascii_eqb_neq. intros <-. by destruct Hc.
Qed.

(** A scan of digits stops at the first character that is none. *)
Lemma scan_digits_app base acc s v t :
  scan_digits base acc s = (v, "") →
  (match t with String c _ => digit_val base c = None | EmptyString => True end) →
  scan_digits base acc (s +:+ t) = (v, t).
Proof.
  revert acc. induction s as [|c s IH]; intros acc; simpl.
  - intros [= ->] Ht. destruct t as [|c t]; [done|]. simpl. by rewrite Ht.
  - destruct (digit_val base c); [|done]. intros Hs Ht. by apply IH.
Qed.
