(* ===== verification/Log.v ===== *)
(** * Structured logging (src/src/logging.h)

    Every log call appends one line to the error stream. The lines are JSON
    objects whose string fields go through [JsonEscape]. *)
From S2P Require Import Prelude CppStd.

(** The characters the escaper and the line format name. *)
Definition DQ : ascii := "034"%char.
Definition BACKSLASH : ascii := "092"%char.
Definition LF : ascii := "010"%char.
Definition CR : ascii := "013"%char.
Definition TAB : ascii := "009"%char.

Fixpoint JsonEscape (value : string) : string :=
  match value with
  | EmptyString => EmptyString
  | String ch rest =>
      let out := JsonEscape rest in
      if ascii_eqb ch BACKSLASH then String BACKSLASH (String BACKSLASH out)
      else if ascii_eqb ch DQ then String BACKSLASH (String DQ out)
      else if ascii_eqb ch LF then String BACKSLASH (String "n" out)
      else if ascii_eqb ch CR then String BACKSLASH (String "r" out)
      else if ascii_eqb ch TAB then String BACKSLASH (String "t" out)
      else String ch out
  end.

(** A string between double quotes. *)
Definition quoted (s : string) : string := String DQ (s +:+ String DQ "").

Inductive level := LInfo | LWarn | LError.

Definition level_name (l : level) : string :=
  match l with LInfo => "info" | LWarn => "warn" | LError => "error" end.

(** The fields before the closing brace are written one after the other. *)
Definition log_line (l : level) (event detail : string) : string :=
  "{" +:+ quoted "level" +:+ ":" +:+ quoted (level_name l)
  +:+ "," +:+ quoted "event" +:+ ":" +:+ quoted (JsonEscape event)
  +:+ (if str_empty detail then ""
       else "," +:+ quoted "detail" +:+ ":" +:+ quoted (JsonEscape detail))
  +:+ "}" +:+ String LF "".

Definition Info (event detail : string) (cerr : list string) : list string :=
  cerr ++ [log_line LInfo event detail].
Definition Warn (event detail : string) (cerr : list string) : list string :=
  cerr ++ [log_line LWarn event detail].
Definition Error (event detail : string) (cerr : list string) : list string :=
  cerr ++ [log_line LError event detail].

(** The line the destructor of [ScopedTimer] writes for a measured duration. *)
Definition ScopedTimer_end (event : string) (ms : Z) (cerr : list string) : list string :=
  cerr ++ ["{" +:+ quoted "level" +:+ ":" +:+ quoted "info"
           +:+ "," +:+ quoted "event" +:+ ":" +:+ quoted (JsonEscape event)
           +:+ "," +:+ quoted "duration_ms" +:+ ":" +:+ to_string ms
           +:+ "}" +:+ String LF ""].

(** ** Reading a line back

    The body of a JSON string up to its closing quote, with the two-character
    escapes of RFC 8259; unescaped control characters are not JSON. *)
Definition json_unescape_char (c : ascii) : option ascii :=
  if ascii_eqb c BACKSLASH then Some BACKSLASH
  else if ascii_eqb c DQ then Some DQ
  else if ascii_eqb c "/" then Some "/"%char
  else if ascii_eqb c "n" then Some LF
  else if ascii_eqb c "r" then Some CR
  else if ascii_eqb c "t" then Some TAB
  else if ascii_eqb c "b" then Some "008"%char
  else if ascii_eqb c "f" then Some "012"%char
  else None.

Fixpoint json_string_body (s : string) : option (string * string) :=
  match s with
  | EmptyString => None
  | String c rest =>
      if ascii_eqb c DQ then Some (EmptyString, rest)
      else if ascii_eqb c BACKSLASH then
        match rest with
        | EmptyString => None
        | String e rest' =>
            match json_unescape_char e, json_string_body rest' with
            | Some d, Some (body, tail) => Some (String d body, tail)
            | _, _ => None
            end
        end
      else if Nat.ltb (nat_of_ascii c) 32 then None
      else match json_string_body rest with
           | Some (body, tail) => Some (String c body, tail)
           | None => None
           end
  end.

(** A character that [JsonEscape] leaves inside valid JSON. *)
Definition json_safe (c : ascii) : bool :=
  negb (Nat.ltb (nat_of_ascii c) 32)
  || ascii_eqb c LF || ascii_eqb c CR || ascii_eqb c TAB.

Fixpoint str_forall (p : ascii → bool) (s : string) : bool :=
  match s with
  | EmptyString => true
  | String c s' => p c && str_forall p s'
  end.

Lemma JsonEscape_read s rest :
  str_forall json_safe s = true →
  json_string_body (JsonEscape s +:+ String DQ rest) = Some (s, rest).
Proof.
  induction s as [|c s IH]; intros Hs; [done|].
  simpl in Hs. bool_to_prop. specialize (IH ltac:(done)). cbn [JsonEscape].
  repeat (case_if; unfold ascii_eqb in *; bool_to_prop; [subst c|];
    [rewrite !str_app_cons; simpl; by rewrite IH|]).
  rewrite str_app_cons. cbn [json_string_body]. unfold ascii_eqb.
  rewrite !bool_decide_eq_false_2 by done.
  rewrite IH. unfold json_safe, ascii_eqb in *. rewrite !bool_decide_eq_false_2 in * by done.
  rewrite !orb_false_r in *. bool_to_prop. by case_match.
Qed.

(** The number of occurrences of a character. *)
Fixpoint count_char (c : ascii) (s : string) : nat :=
  match s with
  | EmptyString => 0
  | String d s' => (if ascii_eqb c d then 1 else 0) + count_char c s'
  end.

Lemma count_char_app c s t : count_char c (s +:+ t) = count_char c s + count_char c t.
Proof. induction s as [|d s IH]; [done|]. rewrite str_app_cons. simpl. lia. Qed.

Lemma count_char_JsonEscape s : count_char LF (JsonEscape s) = 0.
Proof.
  induction s as [|c s IH]; [done|]. cbn [JsonEscape].
  repeat (case_if; [cbn [count_char]; by rewrite IH|]).
  cbn [count_char]. rewrite IH. unfold ascii_eqb in *. bool_to_prop.
  by rewrite bool_decide_eq_false_2 by congruence.
Qed.
