(* ===== verification/UnixPath.v ===== *)
(** * Static rules on socket paths (src/src/unix/unix_socket.cpp, first part)

    [ParentDirectory], [PathContainsDotDot] and [ValidateUnixSocketPath], which
    do not touch the file system, with a reference notion of path components. *)
From S2P Require Import Prelude CppStd.
Local Open Scope Z_scope.
Local Open Scope cpp_scope.

Definition SLASH : ascii := "/"%char.

Definition kMaxUnixPathLength : Z := 107.

Definition ParentDirectory (path : string) : string :=
  match find_last (ascii_eqb SLASH) path with
  | None => "/"
  | Some O => "/"
  | Some pos => str_take pos path
  end.

Definition PathContainsDotDot (path : string) : bool :=
  if bool_decide (path = "..") then true
  else if starts_with "../" path then true
  else str_contains "/../" path
       || ((3 <=? str_size path)
           && bool_decide (str_drop (String.length path - 3) path = "/..")).

Definition ValidateUnixSocketPath {S} (path : string) : M S unit :=
  if str_empty path then throw "unix socket path must not be empty"
  else if negb (starts_with "/" path) then throw "unix socket path must be absolute"
  else if kMaxUnixPathLength <? str_size path then
    throw ("unix socket path exceeds " +:+ to_string kMaxUnixPathLength
           +:+ " bytes (Linux sockaddr_un limit): " +:+ path)
  else if bool_decide (str_back path = Some SLASH) then
    throw ("unix socket path must not end with '/': " +:+ path)
  else if bool_decide (path = "/") then
    throw "unix socket path must name a socket file, not the filesystem root"
  else if PathContainsDotDot path then
    throw ("unix socket path must not contain '..' components: " +:+ path)
  else m_ret tt.

(** ** Path components *)

(** The substrings between slashes. *)
Fixpoint components (s : string) : list string :=
  match s with
  | EmptyString => [EmptyString]
  | String c s' =>
      if ascii_eqb SLASH c then EmptyString :: components s'
      else match components s' with
           | h :: t => String c h :: t
           | [] => [String c EmptyString]
           end
  end.

Lemma components_not_nil s : components s ≠ [].
Proof. destruct s as [|c s]; [done|]. simpl. case_if; [done|]. by destruct (components s). Qed.

Lemma components_app a b :
  components (a +:+ String SLASH b) = components a ++ components b.
Proof.
  induction a as [|c a IH]; [done|]. rewrite str_app_cons. cbn [components].
  case_if; [by rewrite IH|]. rewrite IH.
  destruct (components a) eqn:E; [by destruct (components_not_nil a)|done].
Qed.

(** What follows a component is empty or starts with a slash. *)
Definition comp_end (s : string) : Prop := s = "" ∨ ∃ t, s = String SLASH t.

Lemma components_head s h t :
  components s = h :: t → ∃ post, s = h +:+ post ∧ comp_end post.
Proof.
  revert h t. induction s as [|c s IH]; intros h t; cbn [components].
  - intros [= <- <-]. exists "". split; [done|by left].
  - case_if; unfold ascii_eqb in *; bool_to_prop.
    + subst c. intros [= <- <-]. exists (String SLASH s). split; [done|right; eauto].
    + destruct (components s) as [|h' t'] eqn:E; [by destruct (components_not_nil s)|].
      intros [= <- <-]. destruct (IH _ _ eq_refl) as (post & -> & Hp). by exists post.
Qed.

Lemma components_tail s h t x :
  components s = h :: t → x ∈ t →
  ∃ pre post, s = pre +:+ String SLASH (x +:+ post) ∧ comp_end post.
Proof.
  revert h t. induction s as [|c s IH]; intros h t; cbn [components].
  - intros [= <- <-] Hx. by apply elem_of_nil in Hx.
  - case_if; unfold ascii_eqb in *; bool_to_prop.
    + subst c. intros [= <- <-] Hx.
      destruct (components s) as [|h' t'] eqn:E; [by destruct (components_not_nil s)|].
      apply elem_of_cons in Hx as [->|Hx].
      * destruct (components_head _ _ _ E) as (post & -> & Hp). by exists "", post.
      * destruct (IH _ _ eq_refl Hx) as (pre & post & -> & Hp). by exists (String SLASH pre), post.
    + destruct (components s) as [|h' t'] eqn:E; [by destruct (components_not_nil s)|].
      intros [= <- <-] Hx. destruct (IH _ _ eq_refl Hx) as (pre & post & -> & Hp).
      by exists (String c pre), post.
Qed.

Lemma components_dotdot_head post : comp_end post → ".." ∈ components (".." +:+ post).
Proof.
  intros [->|[t ->]]; [by apply list_elem_of_In; left|].
  rewrite components_app. apply elem_of_app. left. apply list_elem_of_In. by left.
Qed.

Lemma components_dotdot_tail pre post :
  comp_end post → ".." ∈ components (pre +:+ String SLASH (".." +:+ post)).
Proof.
  intros Hp. rewrite components_app. apply elem_of_app. right. by apply components_dotdot_head.
Qed.

Lemma ends_dotdot path :
  ((3 <=? str_size path) && bool_decide (str_drop (String.length path - 3) path = "/.."))
    = true ↔ ∃ pre, path = pre +:+ "/..".
Proof.
  split.
  - intros H. bool_to_prop. exists (str_take (String.length path - 3) path).
    rewrite <-(str_take_drop (String.length path - 3) path) at 1. congruence.
  - intros [pre ->]. apply andb_true_iff. rewrite bool_decide_eq_true, str_length_app, str_size_app.
    simpl String.length. split.
    { apply Z.leb_le. change (str_size "/..") with 3. pose proof (str_size_nonneg pre). lia. }
    replace (String.length pre + 3 - 3)%nat with (String.length pre) by lia. apply str_drop_app.
Qed.

Lemma PathContainsDotDot_components path :
  PathContainsDotDot path = true ↔ ".." ∈ components path.
Proof.
  unfold PathContainsDotDot. split.
  - case_bool_decide; [intros _; subst path; apply (components_dotdot_head ""); by left|].
    case_if.
    { intros _. apply starts_with_spec in Heqb as [t ->].
      apply (components_dotdot_head (String SLASH t)). right; eauto. }
    rewrite orb_true_iff, str_contains_spec, ends_dotdot.
    intros [(a & b & ->)|[pre ->]].
    + apply (components_dotdot_tail a (String SLASH b)). right; eauto.
    + apply (components_dotdot_tail pre ""). by left.
  - intros Hin. destruct (components path) as [|h t] eqn:E; [by destruct (components_not_nil path)|].
    apply elem_of_cons in Hin as [<-|Hin].
    + destruct (components_head _ _ _ E) as (post & -> & [->|[u ->]]); [done|].
      case_bool_decide; [done|]. by rewrite (starts_with_app "../" u : starts_with "../" (".." +:+ String SLASH u) = true).
    + destruct (components_tail _ _ _ _ E Hin) as (pre & post & -> & Hp).
      case_bool_decide; [done|]. case_if; [done|].
      rewrite orb_true_iff, str_contains_spec, ends_dotdot.
      destruct Hp as [->|[u ->]]; [right; by exists pre|left; by exists pre, u].
Qed.

(** The rules a valid path satisfies, as a proposition. *)
Definition valid_socket_path (path : string) : Prop :=
  (∃ rest, path = String SLASH rest)
  ∧ str_size path ≤ kMaxUnixPathLength
  ∧ str_back path ≠ Some SLASH
  ∧ ".." ∉ components path.

Lemma ValidateUnixSocketPath_Ret {S} path (s s' : S) u :
  ValidateUnixSocketPath path s = (Ret u, s') → valid_socket_path path ∧ s' = s.
Proof.
  unfold ValidateUnixSocketPath, throw.
  repeat (case_if; [done|]). intros [= <- <-]. bool_to_prop. split; [|done].
  apply starts_with_spec in Heqb0 as [t ->]. split; [by exists t|].
  split; [lia|]. split; [done|].
  rewrite <-PathContainsDotDot_components. congruence.
Qed.

Lemma ValidateUnixSocketPath_valid {S} path (s : S) :
  valid_socket_path path → ValidateUnixSocketPath path s = (Ret tt, s).
Proof.
  intros ([rest ->] & Hsz & Hback & Hdd). unfold ValidateUnixSocketPath.
  rewrite <-PathContainsDotDot_components, not_true_iff_false in Hdd.
  simpl str_empty. rewrite (starts_with_app "/" rest : starts_with "/" (String SLASH rest) = true).
  simpl negb. rewrite (proj2 (Z.ltb_ge _ _) Hsz), bool_decide_eq_false_2 by done.
  rewrite bool_decide_eq_false_2, Hdd; [done|].
  intros Heq. by rewrite Heq in Hback.
Qed.

(** C34: the checks on the text of a path are the same as the rules on its
    components: it is accepted exactly when it is absolute, at most 107 bytes
    long, does not end in a slash and has no component [..]; otherwise an
    exception is thrown, and in no case is anything else done. *)
Theorem ValidateUnixSocketPath_reference {S} path (s : S) :
  (valid_socket_path path ∧ ValidateUnixSocketPath path s = (Ret tt, s))
  ∨ (¬ valid_socket_path path ∧ ∃ e, ValidateUnixSocketPath path s = (Throw e, s)).
Proof.
  destruct (ValidateUnixSocketPath path s) as [[[]|e|w] s'] eqn:E.
  - left. by apply ValidateUnixSocketPath_Ret in E as [Hv ->].
  - right. assert (s' = s) as ->.
    { unfold ValidateUnixSocketPath, throw in E. repeat (case_if; [by injection E|]). done. }
    split; [|by exists e]. intros Hv. apply (ValidateUnixSocketPath_valid (S := S) path s) in Hv. congruence.
  - unfold ValidateUnixSocketPath, throw in E. repeat (case_if; [done|]). done.
Qed.
