(* ===== verification/Config.v ===== *)
(** * Server configuration (src/src/config.h, src/src/config.cpp)

    [LoadConfigFromEnv] and its helpers, for the POSIX build. The process
    environment is a function from names to optional values ([std::getenv]). *)
From S2P Require Import Prelude CppStd UnixPath.
Local Open Scope Z_scope.
Local Open Scope cpp_scope.

Inductive ListenMode := Unix | Tcp.

#[global] Instance ListenMode_eq_dec : EqDecision ListenMode.
Proof. solve_decision. Defined.

Record ServerConfig := mkServerConfig {
  listen_mode : ListenMode;
  unix_socket_path : string;
  listen_address : string;
  listen_port : Z;
  unix_socket_mode : Z;
  unix_socket_dir_mode : Z;
  unix_socket_create_dir : bool;
  host_index : option Z;
  pg_host : string;
  pool_size : Z;
  pg_fetch_rows : Z;
  pg_wire_batch_rows : Z;
  pg_connect_timeout_sec : Z;
  max_sessions : Z;
  grpc_max_threads : Z;
  production_mode : bool;
  grpc_reflection : bool;
  notify_enabled : bool;
  statement_timeout_ms : Z;
  max_query_text_bytes : Z;
  max_notify_payload_bytes : Z;
  max_notify_channel_bytes : Z;
  health_probe_interval_sec : Z;
  health_require_pg : bool;
}.

(** The member initialisers; modes are the octal literals 0660 and 0750. *)
Definition default_config : ServerConfig := {|
  listen_mode := Unix;
  unix_socket_path := "/run/mtdd/grpc.sock";
  listen_address := "127.0.0.1";
  listen_port := 50051;
  unix_socket_mode := 6 * 64 + 6 * 8;
  unix_socket_dir_mode := 7 * 64 + 5 * 8;
  unix_socket_create_dir := false;
  host_index := None;
  pg_host := "127.0.0.1";
  pool_size := 8;
  pg_fetch_rows := 10000;
  pg_wire_batch_rows := 1000;
  pg_connect_timeout_sec := 5;
  max_sessions := 512;
  grpc_max_threads := 0;
  production_mode := false;
  grpc_reflection := false;
  notify_enabled := true;
  statement_timeout_ms := 0;
  max_query_text_bytes := Z.shiftl 1 20;
  max_notify_payload_bytes := 65535;
  max_notify_channel_bytes := 63;
  health_probe_interval_sec := 30;
  health_require_pg := true;
|}.

Definition set_unix_listen (path : string) (c : ServerConfig) : ServerConfig :=
  mkServerConfig Unix path (listen_address c) (listen_port c)
    (unix_socket_mode c) (unix_socket_dir_mode c) (unix_socket_create_dir c) (host_index c)
    (pg_host c) (pool_size c) (pg_fetch_rows c) (pg_wire_batch_rows c)
    (pg_connect_timeout_sec c) (max_sessions c) (grpc_max_threads c) (production_mode c)
    (grpc_reflection c) (notify_enabled c) (statement_timeout_ms c) (max_query_text_bytes c)
    (max_notify_payload_bytes c) (max_notify_channel_bytes c) (health_probe_interval_sec c)
    (health_require_pg c).

Definition set_tcp_listen (address : string) (port : Z) (c : ServerConfig) : ServerConfig :=
  mkServerConfig Tcp (unix_socket_path c) address port
    (unix_socket_mode c) (unix_socket_dir_mode c) (unix_socket_create_dir c) (host_index c)
    (pg_host c) (pool_size c) (pg_fetch_rows c) (pg_wire_batch_rows c)
    (pg_connect_timeout_sec c) (max_sessions c) (grpc_max_threads c) (production_mode c)
    (grpc_reflection c) (notify_enabled c) (statement_timeout_ms c) (max_query_text_bytes c)
    (max_notify_payload_bytes c) (max_notify_channel_bytes c) (health_probe_interval_sec c)
    (health_require_pg c).

(** [value == nullptr || *value == '\0']. *)
Definition unset (value : option string) : bool :=
  match value with
  | None => true
  | Some v => str_empty v
  end.

(** ** Parsers *)
Section Parsers.
Context {S : Type}.

Definition ParsePositiveInt (name : string) (value : option string) (default_value : Z) : M S Z :=
  match value with
  | None => m_ret default_value
  | Some v =>
      if str_empty v then m_ret default_value
      else match strtol v 10 with
           | Some (parsed, rest) =>
               if negb (str_empty rest) || (parsed <=? 0)
               then throw (name +:+ " must be a positive integer")
               else m_ret (to_int32 parsed)
           | None => throw (name +:+ " must be a positive integer")
           end
  end.

Definition ParseNonNegativeInt (name : string) (value : option string) (default_value : Z)
  : M S Z :=
  match value with
  | None => m_ret default_value
  | Some v =>
      if str_empty v then m_ret default_value
      else match strtol v 10 with
           | Some (parsed, rest) =>
               if negb (str_empty rest) || (parsed <? 0)
               then throw (name +:+ " must be a non-negative integer")
               else m_ret (to_int32 parsed)
           | None => throw (name +:+ " must be a non-negative integer")
           end
  end.

Definition ParseOctalMode (name : string) (value : option string) (default_value : Z) : M S Z :=
  match value with
  | None => m_ret default_value
  | Some v =>
      if str_empty v then m_ret default_value
      else match strtol v 8 with
           | Some (parsed, rest) =>
               if negb (str_empty rest) || (parsed <? 0) || (7 * 64 + 7 * 8 + 7 <? parsed)
               then throw (name +:+ " must be a unix socket mode (octal, e.g. 660)")
               else m_ret (to_int32 parsed)
           | None => throw (name +:+ " must be a unix socket mode (octal, e.g. 660)")
           end
  end.

Definition ParseOptionalHostIndex (value : option string) : M S (option Z) :=
  match value with
  | None => m_ret None
  | Some v =>
      if str_empty v then m_ret None
      else match strtol v 10 with
           | Some (parsed, rest) =>
               if negb (str_empty rest) || (parsed <? 0)
               then throw "MTDD_HOST_INDEX must be a non-negative integer"
               else m_ret (Some (to_int32 parsed))
           | None => throw "MTDD_HOST_INDEX must be a non-negative integer"
           end
  end.

(** The loop that erases the first of two leading slashes. *)
Fixpoint strip_double_slash (path : string) : string :=
  match path with
  | String a (String b _ as rest) =>
      if ascii_eqb a SLASH && ascii_eqb b SLASH then strip_double_slash rest else path
  | _ => path
  end.

Definition NormalizeUnixPath (path : string) : M S string :=
  if str_empty path then throw "MTDD_LISTEN unix path must not be empty"
  else
    let path := strip_double_slash path in
    if negb (starts_with "/" path) then throw "MTDD_LISTEN unix path must be absolute"
    else m_ret path.

Definition COLON : ascii := ":"%char.

Definition ParseListen (value : option string) (config : ServerConfig) : M S ServerConfig :=
  match value with
  | None => m_ret (set_unix_listen "/run/mtdd/grpc.sock" config)
  | Some listen =>
      if str_empty listen then m_ret (set_unix_listen "/run/mtdd/grpc.sock" config)
      else if starts_with "unix:" listen then
        let* path := NormalizeUnixPath (str_drop 5 listen) in
        m_ret (set_unix_listen path config)
      else
        match find_last (ascii_eqb COLON) listen with
        | None => throw "MTDD_LISTEN must be unix:/path or host:port"
        | Some colon =>
            let* port := ParsePositiveInt "MTDD_LISTEN port"
                           (Some (c_str (str_drop (colon + 1) listen))) (listen_port config) in
            m_ret (set_tcp_listen (str_take colon listen) port config)
        end
  end.

Definition ParseBoolEnv (value : option string) (default_value : bool) : M S bool :=
  match value with
  | None => m_ret default_value
  | Some v =>
      if str_empty v then m_ret default_value
      else if bool_decide (v ∈ ["1"; "true"; "TRUE"; "yes"; "YES"]) then m_ret true
      else if bool_decide (v ∈ ["0"; "false"; "FALSE"; "no"; "NO"]) then m_ret false
      else throw ("invalid boolean env value: " +:+ v)
  end.

Definition IsProductionEnv (value : option string) : bool :=
  match value with
  | None => false
  | Some v => bool_decide (v = "production") || bool_decide (v = "prod")
  end.

Definition kTlsVars : list string :=
  ["MTDD_GRPC_TLS"; "MTDD_GRPC_TLS_CERT_FILE"; "MTDD_GRPC_TLS_KEY_FILE";
   "MTDD_GRPC_TLS_CLIENT_CA_FILE"].

Fixpoint RejectTlsVars (names : list string) (getenv : string → option string) : M S unit :=
  match names with
  | [] => m_ret tt
  | name :: names' =>
      if negb (unset (getenv name)) then
        throw (name +:+ (" is not supported: mtdd_server uses plain gRPC over a unix domain socket; "
                         +:+ "terminate TLS and compression at nginx"))
      else RejectTlsVars names' getenv
  end.

Definition RejectServerTlsEnv (getenv : string → option string) : M S unit :=
  RejectTlsVars kTlsVars getenv.

Definition ValidateProductionConfig (getenv : string → option string) (config : ServerConfig)
  : M S unit :=
  if negb (production_mode config) then m_ret tt
  else if negb (bool_decide (is_Some (host_index config))) then
    throw "MTDD_HOST_INDEX is required when MTDD_ENV=production"
  else if bool_decide (listen_mode config ≠ Unix) then
    let* allow := ParseBoolEnv (getenv "MTDD_ALLOW_TCP_LISTEN") false in
    if negb allow then
      throw ("MTDD_LISTEN must be a unix: path in production "
             +:+ "(set MTDD_ALLOW_TCP_LISTEN=1 for dev-only TCP)")
    else m_ret tt
  else m_ret tt.

End Parsers.

Definition IsLoopbackAddress (address : string) : bool :=
  bool_decide (address = "127.0.0.1") || bool_decide (address = "::1")
  || bool_decide (address = "localhost").

Definition FormatListenTarget (config : ServerConfig) : string :=
  match listen_mode config with
  | Unix => "unix:" +:+ unix_socket_path config
  | Tcp => listen_address config +:+ ":" +:+ to_string (listen_port config)
  end.

Definition FormatListenLogLabel (config : ServerConfig) : string :=
  match listen_mode config with
  | Unix => "unix:" +:+ unix_socket_path config
  | Tcp => listen_address config +:+ ":" +:+ to_string (listen_port config)
  end.

(** [hw] is [std::thread::hardware_concurrency()]. *)
Definition LoadConfigFromEnv {S} (getenv : string → option string) (hw : Z) : M S ServerConfig :=
  let d := default_config in
  RejectServerTlsEnv getenv ;;
  let* l := ParseListen (getenv "MTDD_LISTEN") d in
  let pg_host' := match getenv "MTDD_PG_HOST" with
                  | Some h => if str_empty h then pg_host d else h
                  | None => pg_host d
                  end in
  let* host_index' := ParseOptionalHostIndex (getenv "MTDD_HOST_INDEX") in
  let* pool_size' := ParsePositiveInt "MTDD_POOL_SIZE" (getenv "MTDD_POOL_SIZE") (pool_size d) in
  let* fetch' :=
    ParsePositiveInt "MTDD_PG_FETCH_ROWS" (getenv "MTDD_PG_FETCH_ROWS") (pg_fetch_rows d) in
  let* wire' := ParsePositiveInt "MTDD_PG_WIRE_BATCH_ROWS" (getenv "MTDD_PG_WIRE_BATCH_ROWS")
                  (pg_wire_batch_rows d) in
  let* ctimeout' := ParsePositiveInt "MTDD_PG_CONNECT_TIMEOUT_SEC"
                      (getenv "MTDD_PG_CONNECT_TIMEOUT_SEC") (pg_connect_timeout_sec d) in
  let* sessions' := ParsePositiveInt "MTDD_MAX_SESSIONS" (getenv "MTDD_MAX_SESSIONS")
                      (max_sessions d) in
  let hw' := to_int32 hw in
  let* threads' := ParsePositiveInt "MTDD_GRPC_MAX_THREADS" (getenv "MTDD_GRPC_MAX_THREADS")
                     (if 0 <? hw' then hw' else 4) in
  let production' := IsProductionEnv (getenv "MTDD_ENV") in
  let* reflection' := ParseBoolEnv (getenv "MTDD_GRPC_REFLECTION") (negb production') in
  let* notify' := ParseBoolEnv (getenv "MTDD_NOTIFY_ENABLED") true in
  let* stimeout' := ParseNonNegativeInt "MTDD_STATEMENT_TIMEOUT_MS"
                      (getenv "MTDD_STATEMENT_TIMEOUT_MS") 0 in
  let* qbytes' := ParsePositiveInt "MTDD_MAX_QUERY_TEXT_BYTES"
                    (getenv "MTDD_MAX_QUERY_TEXT_BYTES") (max_query_text_bytes d) in
  let* pbytes' := ParsePositiveInt "MTDD_MAX_NOTIFY_PAYLOAD_BYTES"
                    (getenv "MTDD_MAX_NOTIFY_PAYLOAD_BYTES") (max_notify_payload_bytes d) in
  let* cbytes' := ParsePositiveInt "MTDD_MAX_NOTIFY_CHANNEL_BYTES"
                    (getenv "MTDD_MAX_NOTIFY_CHANNEL_BYTES") (max_notify_channel_bytes d) in
  let* probe' := ParsePositiveInt "MTDD_HEALTH_PROBE_INTERVAL_SEC"
                   (getenv "MTDD_HEALTH_PROBE_INTERVAL_SEC") (health_probe_interval_sec d) in
  let* require' := ParseBoolEnv (getenv "MTDD_HEALTH_REQUIRE_PG") true in
  let* mode' := ParseOctalMode "MTDD_UNIX_SOCKET_MODE" (getenv "MTDD_UNIX_SOCKET_MODE")
                  (unix_socket_mode d) in
  let* dmode' := ParseOctalMode "MTDD_UNIX_SOCKET_DIR_MODE" (getenv "MTDD_UNIX_SOCKET_DIR_MODE")
                   (unix_socket_dir_mode d) in
  let* create' := ParseBoolEnv (getenv "MTDD_UNIX_SOCKET_CREATE_DIR") (unix_socket_create_dir d) in
  let config := {|
    listen_mode := listen_mode l;
    unix_socket_path := unix_socket_path l;
    listen_address := listen_address l;
    listen_port := listen_port l;
    unix_socket_mode := mode';
    unix_socket_dir_mode := dmode';
    unix_socket_create_dir := create';
    host_index := host_index';
    pg_host := pg_host';
    pool_size := pool_size';
    pg_fetch_rows := fetch';
    pg_wire_batch_rows := wire';
    pg_connect_timeout_sec := ctimeout';
    max_sessions := sessions';
    grpc_max_threads := threads';
    production_mode := production';
    grpc_reflection := reflection';
    notify_enabled := notify';
    statement_timeout_ms := stimeout';
    max_query_text_bytes := qbytes';
    max_notify_payload_bytes := pbytes';
    max_notify_channel_bytes := cbytes';
    health_probe_interval_sec := probe';
    health_require_pg := require';
  |} in
  (if bool_decide (listen_mode config = Unix)
   then ValidateUnixSocketPath (unix_socket_path config) else m_ret tt) ;;
  ValidateProductionConfig getenv config ;;
  m_ret config.

(** ** What each parser accepts *)

(** Split a returning sequence into its steps. *)
Ltac m_inv H :=
  repeat match type of H with
  | m_bind _ _ _ = (Ret _, _) =>
      let a := fresh "a" in let s := fresh "s" in let Hm := fresh "Hm" in
      apply m_bind_Ret in H as (a & s & Hm & H)
  end.

Section ParserFacts.
Context {S : Type}.
Implicit Types s : S.

(** A value the text denotes fits in an [int]. *)
Definition fits_int (value : option string) : Prop :=
  ∀ v p rest, value = Some v → strtol v 10 = Some (p, rest) → p ≤ INT_MAX.

Lemma ParsePositiveInt_Ret name value d s z s' :
  ParsePositiveInt name value d s = (Ret z, s') →
  s' = s ∧ ((unset value = true ∧ z = d)
            ∨ ∃ v p, value = Some v ∧ strtol v 10 = Some (p, "") ∧ 0 < p ∧ z = to_int32 p).
Proof.
  unfold ParsePositiveInt, throw, m_ret. destruct value as [v|]; [|intros [= <- <-]; auto].
  simpl. destruct (str_empty v) eqn:Hv; [intros [= <- <-]; auto|].
  destruct (strtol v 10) as [[p rest]|] eqn:E; [|done]. case_if; [done|].
  intros [= <- <-]. bool_to_prop. apply str_empty_spec in H. subst rest.
  split; [done|]. right. exists v, p. repeat split; [done..|lia].
Qed.

Lemma ParsePositiveInt_pos name value d s z s' :
  0 < d → fits_int value → ParsePositiveInt name value d s = (Ret z, s') → 0 < z.
Proof.
  intros Hd Hfit H. apply ParsePositiveInt_Ret in H as [_ [[_ ->]|(v & p & -> & E & Hp & ->)]];
    [done|]. pose proof (Hfit v p "" eq_refl E).
  rewrite to_int32_id; [done|]. unfold int32_range, INT_MAX in *. lia.
Qed.

Lemma ParseBoolEnv_state value d s b s' : ParseBoolEnv value d s = (Ret b, s') → s' = s.
Proof.
  unfold ParseBoolEnv, throw, m_ret. destruct value as [v|]; [|congruence].
  repeat (case_if; [congruence|]). done.
Qed.

Lemma ParseOctalMode_Ret name value d s z s' :
  0 ≤ d ≤ 511 → ParseOctalMode name value d s = (Ret z, s') → 0 ≤ z ≤ 511.
Proof.
  intros Hd. unfold ParseOctalMode, throw, m_ret. destruct value as [v|]; [|congruence].
  case_if; [congruence|]. destruct (strtol v 8) as [[p rest]|]; [|done]. case_if; [done|].
  intros [= <- <-]. bool_to_prop. rewrite to_int32_id; unfold int32_range, INT_MAX; lia.
Qed.

Lemma RejectTlsVars_Ret names getenv s u s' :
  RejectTlsVars names getenv s = (Ret u, s') → Forall (λ n, unset (getenv n) = true) names.
Proof.
  induction names as [|n names IH]; simpl; [done|]. case_if; [done|].
  bool_to_prop. constructor; auto.
Qed.

Lemma ValidateProductionConfig_Ret getenv c s u s' :
  ValidateProductionConfig getenv c s = (Ret u, s') → production_mode c = true →
  is_Some (host_index c) ∧
  (listen_mode c = Unix ∨
   ParseBoolEnv (getenv "MTDD_ALLOW_TCP_LISTEN") false s = (Ret true, s)).
Proof.
  unfold ValidateProductionConfig. intros H Hp. rewrite Hp in H. simpl in H.
  case_if; [done|]. bool_to_prop. split; [done|]. case_bool_decide.
  - right. m_inv H. destruct a; simpl in H; [|done]. by rewrite (ParseBoolEnv_state _ _ _ _ _ Hm) in Hm.
  - left. by destruct (listen_mode c).
Qed.

Lemma strip_double_slash_id path :
  starts_with "//" path = false → strip_double_slash path = path.
Proof.
  destruct path as [|a [|b path]]; try done. simpl. rewrite andb_true_r. intros H.
  case_if; [|done]. bool_to_prop. apply ascii_eqb_spec in H0 as ->, H1 as ->. by destruct H.
Qed.

(** The accepted path starts with exactly one slash. *)
Lemma strip_double_slash_no_double path : starts_with "//" (strip_double_slash path) = false.
Proof.
  induction path as [|a path IH]; [done|]. destruct path as [|b path].
  - simpl. by rewrite andb_false_r.
  - cbn [strip_double_slash]. case_if; [exact IH|]. simpl. rewrite andb_true_r.
    bool_to_prop. rewrite !ascii_eqb_neq in *. apply andb_false_iff. rewrite !ascii_eqb_neq.
    unfold SLASH in *. intuition congruence.
Qed.

Lemma NormalizeUnixPath_id path s :
  (∃ rest, path = String SLASH rest) → starts_with "//" path = false →
  NormalizeUnixPath path s = (Ret path, s).
Proof.
  intros [rest ->] H. unfold NormalizeUnixPath. rewrite (strip_double_slash_id _ H). simpl str_empty.
  by rewrite (starts_with_app "/" rest : starts_with "/" (String SLASH rest) = true).
Qed.

End ParserFacts.

Lemma digits_no_char p z :
  (∀ ch, is_Some (digit_val 10 ch) → p ch = false) → 0 ≤ z → find_first p (to_string z) = None.
Proof.
  intros Hp Hz. destruct (to_string_digits z Hz) as [_ Hd]. revert Hd.
  generalize 0 at 1. intros acc. revert acc.
  induction (to_string z) as [|ch s IH]; intros acc; [done|]. simpl.
  destruct (digit_val 10 ch) as [d|] eqn:E; [|done]. intros H.
  rewrite Hp by (by exists d). by rewrite (IH _ H).
Qed.

Lemma str_drop_colon addr t :
  str_drop (String.length addr + 1) (addr +:+ ":" +:+ t) = t.
Proof. induction addr as [|a addr IH]; [done|]. rewrite str_app_cons. simpl. apply IH. Qed.

Lemma c_str_digits z : 0 ≤ z → c_str (to_string z) = to_string z.
Proof.
  intros Hz. apply c_str_id, digits_no_char; [|done].
  intros ch Hch. apply ascii_eqb_neq. intros <-. by destruct Hch.
Qed.

Lemma ParseListen_tcp {S} c (s : S) addr port :
  0 < port → port ≤ INT_MAX → starts_with "unix:" (addr +:+ ":" +:+ to_string port) = false →
  ParseListen (Some (addr +:+ ":" +:+ to_string port)) c s
  = (Ret (set_tcp_listen addr port c), s).
Proof.
  intros Hpos Hmax Hnu. unfold ParseListen.
  replace (str_empty (addr +:+ ":" +:+ to_string port)) with false by (by destruct addr).
  rewrite Hnu.
  replace (find_last (ascii_eqb COLON) (addr +:+ ":" +:+ to_string port))
    with (Some (String.length addr)).
  2: { symmetry. apply (find_last_app_cons _ addr COLON (to_string port)); [done|].
       apply digits_no_char; [|lia]. intros ch Hch. apply ascii_eqb_neq. intros <-. by destruct Hch. }
  rewrite str_take_app, str_drop_colon. unfold m_bind, ParsePositiveInt. rewrite c_str_digits by lia.
  destruct (to_string_digits port) as [Hs _]; [lia|].
  destruct (to_string port) as [|d t] eqn:E; [done|]. cbn [str_empty]. rewrite <-E.
  rewrite strtol_to_string by (unfold INT_MAX, LONG_MAX in *; lia). simpl.
  replace (port <=? 0) with false by lia. simpl.
  rewrite to_int32_id; [done|]. unfold int32_range. lia.
Qed.

(** What the individual steps of a successful load establish. *)
Lemma LoadConfigFromEnv_inv {S} getenv hw (s s' : S) c :
  LoadConfigFromEnv getenv hw s = (Ret c, s') →
  Forall (λ n, unset (getenv n) = true) kTlsVars
  ∧ (listen_mode c = Unix → valid_socket_path (unix_socket_path c))
  ∧ (∃ s1 s2 : S, ValidateProductionConfig getenv c s1 = (Ret tt, s2))
  ∧ production_mode c = IsProductionEnv (getenv "MTDD_ENV").
Proof.
  unfold LoadConfigFromEnv. cbv zeta. intros H. m_inv H. unfold m_ret in H. injection H as <- <-.
  split; [by eapply RejectTlsVars_Ret|].
  split; [|split; [by do 2 eexists; match goal with
    H : ValidateProductionConfig _ _ _ = (Ret ?u, _) |- _ => destruct u; exact H end|done]].
  simpl in *. intros Heq. rewrite Heq in *.
  match goal with H : (if bool_decide (Unix = Unix) then _ else _) _ = _ |- _ =>
    rewrite bool_decide_eq_true_2 in H by done;
    by apply ValidateUnixSocketPath_Ret in H as [? _]
  end.
Qed.

(** The integer settings that have to be positive. *)
Definition positive_settings (c : ServerConfig) : list Z :=
  [pool_size c; pg_fetch_rows c; pg_wire_batch_rows c; pg_connect_timeout_sec c;
   max_sessions c; grpc_max_threads c; max_query_text_bytes c; max_notify_payload_bytes c;
   max_notify_channel_bytes c; health_probe_interval_sec c].

Definition positive_setting_names : list string :=
  ["MTDD_POOL_SIZE"; "MTDD_PG_FETCH_ROWS"; "MTDD_PG_WIRE_BATCH_ROWS";
   "MTDD_PG_CONNECT_TIMEOUT_SEC"; "MTDD_MAX_SESSIONS"; "MTDD_GRPC_MAX_THREADS";
   "MTDD_MAX_QUERY_TEXT_BYTES"; "MTDD_MAX_NOTIFY_PAYLOAD_BYTES";
   "MTDD_MAX_NOTIFY_CHANNEL_BYTES"; "MTDD_HEALTH_PROBE_INTERVAL_SEC"].

(** ** Properties *)

(** C35: a configuration that loads in production mode has a host index, and it
    listens on a unix socket unless [MTDD_ALLOW_TCP_LISTEN] is a true value. *)
Theorem load_production_safe getenv hw c :
  LoadConfigFromEnv getenv hw tt = (Ret c, tt) →
  IsProductionEnv (getenv "MTDD_ENV") = true →
  is_Some (host_index c) ∧
  (listen_mode c = Unix ∨
   ParseBoolEnv (getenv "MTDD_ALLOW_TCP_LISTEN") false tt = (Ret true, tt)).
Proof.
  intros H Hp. apply LoadConfigFromEnv_inv in H as (_ & _ & ([] & [] & Hv) & Hpm).
  eapply ValidateProductionConfig_Ret; [exact Hv|congruence].
Qed.

(** No configuration loads while a TLS variable of the server is set. *)
Theorem load_rejects_tls getenv hw c name :
  name ∈ kTlsVars → unset (getenv name) = false →
  LoadConfigFromEnv getenv hw tt ≠ (Ret c, tt).
Proof.
  intros Hn Hset H. apply LoadConfigFromEnv_inv in H as (Hf & _).
  rewrite Forall_forall in Hf. specialize (Hf name Hn). congruence.
Qed.

(** The socket path of a loaded unix configuration is absolute, fits in
    [sockaddr_un], does not end in a slash and has no [..] component. *)
Theorem load_unix_path_valid getenv hw c :
  LoadConfigFromEnv getenv hw tt = (Ret c, tt) → listen_mode c = Unix →
  valid_socket_path (unix_socket_path c).
Proof. intros H. by apply LoadConfigFromEnv_inv in H as (_ & ? & _). Qed.

(** C40: when the integer texts of the environment denote values that fit in an
    [int], every setting that has to be positive is positive after loading. *)
Theorem load_settings_positive getenv hw c :
  Forall (λ n, fits_int (getenv n)) positive_setting_names →
  LoadConfigFromEnv getenv hw tt = (Ret c, tt) →
  Forall (λ z, 0 < z) (positive_settings c).
Proof.
  unfold positive_setting_names. rewrite !Forall_cons. intros Hfit. destruct_and! Hfit.
  unfold LoadConfigFromEnv. cbv zeta. intros H'. m_inv H'. unfold m_ret in H'. injection H' as <- .
  repeat constructor; simpl; eapply ParsePositiveInt_pos;
    try match goal with H : ParsePositiveInt _ _ _ _ = (Ret ?z, _) |- ParsePositiveInt _ _ _ _ = (Ret ?z, _) => exact H end;
    try done; try lia.
  destruct (0 <? to_int32 hw) eqn:E; lia.
Qed.

(** The listen target printed for a configuration parses back to the same
    listener: a unix path with one leading slash, or a host and a port. *)
Theorem listen_target_roundtrip c :
  match listen_mode c with
  | Unix => (∃ rest, unix_socket_path c = String SLASH rest)
            ∧ starts_with "//" (unix_socket_path c) = false
  | Tcp => 0 < listen_port c ≤ INT_MAX ∧ starts_with "unix:" (FormatListenTarget c) = false
  end →
  ∃ c', ParseListen (Some (FormatListenTarget c)) default_config tt = (Ret c', tt)
    ∧ FormatListenTarget c' = FormatListenTarget c ∧ listen_mode c' = listen_mode c.
Proof.
  unfold FormatListenTarget. destruct (listen_mode c) eqn:Hm.
  - intros [Habs Hdd]. exists (set_unix_listen (unix_socket_path c) default_config).
    split; [|done]. unfold ParseListen.
    change (str_empty ("unix:" +:+ unix_socket_path c)) with false.
    rewrite starts_with_app. change (str_drop 5 ("unix:" +:+ unix_socket_path c)) with (unix_socket_path c).
    unfold m_bind. by rewrite NormalizeUnixPath_id.
  - intros [Hport Hnu]. exists (set_tcp_listen (listen_address c) (listen_port c) default_config).
    split; [|done]. apply ParseListen_tcp; [lia|unfold INT_MAX in *; lia|done].
Qed.

(** The range check of [ParsePositiveInt] is on the 64-bit value, before
    the conversion to [int]: a decimal text between 2^31 and 2^32 - 1 is
    accepted as a positive integer and yields a negative setting (zero for
    2^32, which the same check also accepts). *)
Theorem ParsePositiveInt_wraps name d z :
  2 ^ 31 ≤ z ≤ 2 ^ 32 →
  ParsePositiveInt name (Some (to_string z)) d tt = (Ret (z - 2 ^ 32), tt) ∧ z - 2 ^ 32 ≤ 0.
Proof.
  intros Hz. split; [|lia]. unfold ParsePositiveInt.
  destruct (to_string_digits z) as [Hs _]; [lia|].
  destruct (to_string z) as [|c t] eqn:E; [done|]. cbn [str_empty]. rewrite <-E.
  rewrite strtol_to_string by (unfold LONG_MAX; lia). simpl.
  replace (z <=? 0) with false by lia. simpl. unfold m_ret, to_int32. do 2 f_equal.
  replace (z + 2 ^ 31) with ((z - 2 ^ 31) + 1 * 2 ^ 32) by lia.
  rewrite Z.mod_add, Z.mod_small by lia. lia.
Qed.

(** ** Concrete runs *)

Definition env_of (l : list (string * string)) (name : string) : option string :=
  (list_to_map l : gmap string string) !! name.

Definition production_env : string → option string :=
  env_of [("MTDD_ENV", "production"); ("MTDD_HOST_INDEX", "2");
          ("MTDD_LISTEN", "unix:///run/mtdd/grpc.sock"); ("MTDD_POOL_SIZE", "16")].

Definition production_config : ServerConfig :=
  match LoadConfigFromEnv production_env 8 tt with
  | (Ret c, _) => c
  | _ => default_config
  end.

Lemma production_env_loads :
  LoadConfigFromEnv production_env 8 tt = (Ret production_config, tt).
Proof. vm_compute. reflexivity. Qed.

Lemma load_production_safe_witness :
  is_Some (host_index production_config) ∧
  (listen_mode production_config = Unix ∨
   ParseBoolEnv (production_env "MTDD_ALLOW_TCP_LISTEN") false tt = (Ret true, tt)).
Proof.
  apply (load_production_safe production_env 8 production_config production_env_loads).
  vm_compute. reflexivity.
Defined.

Lemma load_rejects_tls_witness :
  LoadConfigFromEnv (env_of [("MTDD_GRPC_TLS_CERT_FILE", "/tmp/cert.pem")]) 8 tt
  ≠ (Ret default_config, tt).
Proof.
  apply (load_rejects_tls _ 8 default_config "MTDD_GRPC_TLS_CERT_FILE").
  - right. left.
  - vm_compute. reflexivity.
Defined.

Lemma load_unix_path_valid_witness : valid_socket_path "/run/mtdd/grpc.sock".
Proof.
  apply (load_unix_path_valid production_env 8 production_config production_env_loads).
  vm_compute. reflexivity.
Defined.

Lemma load_settings_positive_witness : Forall (λ z, 0 < z) (positive_settings production_config).
Proof.
  apply (load_settings_positive production_env 8 production_config); [|apply production_env_loads].
  repeat constructor; intros v p rest Hv Hs; vm_compute in Hv; simplify_eq;
    vm_compute in Hs; simplify_eq; unfold INT_MAX; lia.
Defined.

Definition tcp_config : ServerConfig := set_tcp_listen "::1" 50051 default_config.

Lemma listen_target_roundtrip_witness :
  FormatListenTarget tcp_config = "::1:50051" ∧
  ∃ c', ParseListen (Some (FormatListenTarget tcp_config)) default_config tt = (Ret c', tt)
    ∧ FormatListenTarget c' = FormatListenTarget tcp_config
    ∧ listen_mode c' = listen_mode tcp_config.
Proof.
  split; [vm_compute; reflexivity|]. apply (listen_target_roundtrip tcp_config).
  split; [unfold INT_MAX; simpl; lia|vm_compute; reflexivity].
Defined.

Lemma ParsePositiveInt_wraps_witness :
  ParsePositiveInt "MTDD_POOL_SIZE" (Some (to_string 2147483648)) 8 tt = (Ret (-2147483648), tt).
Proof.
  apply (ParsePositiveInt_wraps "MTDD_POOL_SIZE" 8 2147483648). lia.
Defined.

(** The cases of the repository's own configuration tests. *)
Example config_test_production :
  listen_mode production_config = Unix ∧ host_index production_config = Some 2
  ∧ unix_socket_path production_config = "/run/mtdd/grpc.sock".
Proof. by vm_compute. Qed.

Example config_test_requires_host_index :
  LoadConfigFromEnv (env_of [("MTDD_ENV", "production"); ("MTDD_LISTEN", "unix:/run/mtdd/grpc.sock")])
    8 tt = (Throw "MTDD_HOST_INDEX is required when MTDD_ENV=production", tt).
Proof. by vm_compute. Qed.

Example config_test_trailing_slash :
  LoadConfigFromEnv (env_of [("MTDD_LISTEN", "unix:/run/mtdd/")]) 8 tt
  = (Throw "unix socket path must not end with '/': /run/mtdd/", tt).
Proof. by vm_compute. Qed.
