(* ===== verification/UnixSocket.v ===== *)
(** * The unix socket listener (src/src/unix/unix_socket.cpp, second part)

    The functions that prepare, finish and remove the socket file, and
    [ScopedListen]. The POSIX calls are a parameter over the state of the file
    system. *)
From S2P Require Import Prelude CppStd Log UnixPath Config.
Local Open Scope Z_scope.
Local Open Scope cpp_scope.

(** [errno] values the code names, and the file type bits of [st_mode]. *)
Definition ENOENT : Z := 2.
Definition EEXIST : Z := 17.
Definition S_IFMT : Z := 15 * 8 ^ 4.
Definition S_IFDIR : Z := 4 * 8 ^ 4.
Definition S_IFSOCK : Z := 12 * 8 ^ 4.
Definition S_ISDIR (st_mode : Z) : bool := Z.land st_mode S_IFMT =? S_IFDIR.
Definition S_ISSOCK (st_mode : Z) : bool := Z.land st_mode S_IFMT =? S_IFSOCK.

(** The calls: [inl] is a failure with its [errno]. [px_stat] gives [st_mode],
    [px_access] asks for [W_OK | X_OK], [px_connect] says whether a connection
    to the socket at the path is accepted. *)
Class Posix (W : Type) := {
  px_stat : string → W → Z + Z;
  px_access : string → W → Z + unit;
  px_mkdir : string → Z → W → (Z + unit) * W;
  px_unlink : string → W → (Z + unit) * W;
  px_chmod : string → Z → W → (Z + unit) * W;
  px_socket : W → Z + unit;
  px_connect : string → W → bool;
  px_strerror : Z → string;
}.

(** The file system and the log. *)
Record UState (W : Type) := mkUState { us_fs : W; us_cerr : list string }.
Arguments mkUState {W} _ _.
Arguments us_fs {W} _.
Arguments us_cerr {W} _.

Section Unix.
Context {W : Type} `{!Posix W}.

Definition fs_read {A} (f : W → A) : M (UState W) A := gets (λ s, f (us_fs s)).
Definition fs_call {A} (f : W → A * W) : M (UState W) A := λ s,
  let '(a, w) := f (us_fs s) in (Ret a, mkUState w (us_cerr s)).
Definition us_log (f : list string → list string) : M (UState W) unit :=
  modify (λ s, mkUState (us_fs s) (f (us_cerr s))).

Definition ErrnoMessage (context : string) (errno : Z) : string :=
  context +:+ ": " +:+ px_strerror errno.

(** The recursion on the parent; [fuel] bounds its depth. *)
Fixpoint ensure_directory (fuel : nat) (dir : string) (mode : Z) (create : bool)
  : M (UState W) unit :=
  match fuel with
  | O => hang OutOfFuel
  | S fuel' =>
      let* st := fs_read (px_stat (c_str dir)) in
      match st with
      | inr st_mode =>
          if negb (S_ISDIR st_mode)
          then throw ("unix socket parent path is not a directory: " +:+ dir)
          else
            let* acc := fs_read (px_access (c_str dir)) in
            match acc with
            | inl errno =>
                throw ("unix socket directory is not writable: " +:+ dir +:+ " ("
                  +:+ px_strerror errno
                  +:+ "); ensure systemd RuntimeDirectory=mtdd or add the service user to the directory group")
            | inr _ => m_ret tt
            end
      | inl errno =>
          if negb (errno =? ENOENT) then
            throw (ErrnoMessage (c_str ("stat unix socket directory " +:+ dir)) errno)
          else if negb create then
            throw ("unix socket directory does not exist: " +:+ dir
              +:+ " (set MTDD_UNIX_SOCKET_CREATE_DIR=1 or configure systemd RuntimeDirectory=mtdd)")
          else
            let parent := ParentDirectory dir in
            (if negb (bool_decide (parent = dir)) then ensure_directory fuel' parent mode true
             else m_ret tt) ;;
            let* made := fs_call (px_mkdir (c_str dir) mode) in
            match made with
            | inl errno =>
                if negb (errno =? EEXIST)
                then throw (ErrnoMessage (c_str ("mkdir unix socket directory " +:+ dir)) errno)
                else m_ret tt
            | inr _ => m_ret tt
            end ;;
            let* st := fs_read (px_stat (c_str dir)) in
            match st with
            | inl errno => throw (ErrnoMessage (c_str ("stat unix socket directory " +:+ dir)) errno)
            | inr st_mode =>
                if negb (S_ISDIR st_mode)
                then throw ("unix socket parent path is not a directory: " +:+ dir)
                else
                  let* acc := fs_read (px_access (c_str dir)) in
                  match acc with
                  | inl errno => throw ("created unix socket directory is not writable: " +:+ dir
                                        +:+ " (" +:+ px_strerror errno +:+ ")")
                  | inr _ => m_ret tt
                  end
            end
      end
  end.

(** The parent is shorter, but for relative names, whose parent is the root. *)
Definition EnsureDirectory (dir : string) (mode : Z) (create : bool) : M (UState W) unit :=
  ensure_directory (String.length dir + 2) dir mode create.

(** [sizeof(sun_path)] is 108. *)
Definition IsLiveUnixSocket (path : string) : M (UState W) bool :=
  let* fd := fs_read px_socket in
  match fd with
  | inl errno => throw (ErrnoMessage "socket(AF_UNIX) probe failed" errno)
  | inr _ =>
      if 108 <=? str_size path
      then throw ("unix socket path too long for sockaddr_un probe: " +:+ path)
      else fs_read (px_connect (c_str path))
  end.

Definition RemoveStaleSocketFile (path : string) : M (UState W) unit :=
  let* st := fs_read (px_stat (c_str path)) in
  match st with
  | inl errno =>
      if errno =? ENOENT then m_ret tt
      else throw (ErrnoMessage (c_str ("stat unix socket " +:+ path)) errno)
  | inr st_mode =>
      if S_ISDIR st_mode then throw ("unix socket path is a directory: " +:+ path)
      else if negb (S_ISSOCK st_mode) then
        throw ("unix socket path is occupied by a non-socket file: " +:+ path
               +:+ " (remove it or choose a different MTDD_LISTEN path)")
      else
        let* live := IsLiveUnixSocket path in
        if live : bool then
          throw ("another process is already listening on unix socket: " +:+ path
                 +:+ " (stop the other mtdd_server instance or choose a different MTDD_LISTEN path)")
        else
          let* gone := fs_call (px_unlink (c_str path)) in
          match gone with
          | inl errno => throw (ErrnoMessage (c_str ("unlink stale unix socket " +:+ path)) errno)
          | inr _ => us_log (Info "unix_socket_stale_removed" path)
          end
  end.

Definition VerifySocketNode (path : string) (expected_mode : Z) : M (UState W) unit :=
  let* st := fs_read (px_stat (c_str path)) in
  match st with
  | inl errno => throw (ErrnoMessage (c_str ("stat bound unix socket " +:+ path)) errno)
  | inr st_mode =>
      if negb (S_ISSOCK st_mode)
      then throw ("expected unix socket after bind, found non-socket at: " +:+ path)
      else
        let actual_mode := Z.land st_mode 511 in
        when negb (actual_mode =? expected_mode) do
          us_log (Warn "unix_socket_mode_mismatch"
                    (path +:+ " expected=" +:+ to_string expected_mode
                     +:+ " actual=" +:+ to_string actual_mode))
  end.

Definition PrepareListen (config : ServerConfig) : M (UState W) unit :=
  ValidateUnixSocketPath (unix_socket_path config) ;;
  let dir := ParentDirectory (unix_socket_path config) in
  EnsureDirectory dir (to_uint32 (unix_socket_dir_mode config)) (unix_socket_create_dir config) ;;
  RemoveStaleSocketFile (unix_socket_path config).

Definition FinalizeListen (config : ServerConfig) : M (UState W) unit :=
  let mode := to_uint32 (unix_socket_mode config) in
  let* done := fs_call (px_chmod (c_str (unix_socket_path config)) mode) in
  match done with
  | inl errno => throw (ErrnoMessage (c_str ("chmod unix socket " +:+ unix_socket_path config)) errno)
  | inr _ =>
      VerifySocketNode (unix_socket_path config) mode ;;
      us_log (Info "unix_socket_ready" (unix_socket_path config +:+ " mode=" +:+ to_string mode))
  end.

Definition CleanupListen (path : string) : M (UState W) unit :=
  let* st := fs_read (px_stat (c_str path)) in
  match st with
  | inl errno =>
      if errno =? ENOENT then m_ret tt
      else us_log (Warn "unix_socket_cleanup_stat_failed" (path +:+ " (" +:+ px_strerror errno +:+ ")"))
  | inr st_mode =>
      if negb (S_ISSOCK st_mode)
      then us_log (Warn "unix_socket_cleanup_skipped" (path +:+ " (not a socket)"))
      else
        let* gone := fs_call (px_unlink (c_str path)) in
        match gone with
        | inl errno => us_log (Warn "unix_socket_cleanup_failed"
                                 (path +:+ " (" +:+ px_strerror errno +:+ ")"))
        | inr _ => us_log (Info "unix_socket_removed" path)
        end
  end.

(** ** [ScopedListen] *)

Record ScopedListen := mkScopedListen {
  sl_config : ServerConfig; sl_prepared : bool; sl_finalized : bool }.

Definition new_ScopedListen (config : ServerConfig) : ScopedListen := mkScopedListen config false false.

(** The members change the object, which stays as it is when they throw. *)
Definition ScopedListen_Prepare (l : ScopedListen) : M (UState W) ScopedListen :=
  PrepareListen (sl_config l) ;;
  m_ret (mkScopedListen (sl_config l) true (sl_finalized l)).

Definition ScopedListen_Finalize (l : ScopedListen) : M (UState W) ScopedListen :=
  if negb (sl_prepared l) then throw "ScopedListen::Finalize called before Prepare"
  else
    FinalizeListen (sl_config l) ;;
    m_ret (mkScopedListen (sl_config l) (sl_prepared l) true).

Definition ScopedListen_Abort (l : ScopedListen) : M (UState W) ScopedListen :=
  if sl_prepared l && negb (sl_finalized l) then
    CleanupListen (unix_socket_path (sl_config l)) ;;
    m_ret (mkScopedListen (sl_config l) false (sl_finalized l))
  else m_ret l.

Definition ScopedListen_destroy (l : ScopedListen) : M (UState W) unit :=
  when sl_finalized l do CleanupListen (unix_socket_path (sl_config l)).

(** ** Directories *)

Lemma str_take_length k s : (String.length (str_take k s) ≤ k)%nat.
Proof. revert s. induction k as [|k IH]; intros [|c s]; simpl; try lia. specialize (IH s). lia. Qed.

(** A parent is the root or shorter. *)
Lemma ParentDirectory_shorter dir :
  ParentDirectory dir = "/" ∨ (String.length (ParentDirectory dir) < String.length dir)%nat.
Proof.
  unfold ParentDirectory. destruct (find_last (ascii_eqb SLASH) dir) as [[|k]|] eqn:E; [by left| |by left].
  right. pose proof (str_take_length (S k) dir).
  destruct (find_last_Some _ _ _ E) as (a & c & b & -> & Ha & _).
  rewrite str_length_app in *. cbn [String.length] in *. lia.
Qed.

(** The directory exists and is writable. *)
Definition dir_ready (dir : string) (w : W) : Prop :=
  ∃ m u, px_stat (c_str dir) w = inr m ∧ S_ISDIR m = true ∧ px_access (c_str dir) w = inr u.

Lemma hoare_fs_read {A} (f : W → A) P T E :
  hoare P (fs_read f) (λ a s, P s ∧ a = f (us_fs s)) T E.
Proof. apply hoare_gets. Qed.

Lemma hoare_throw' {A} what P (Q : A → UState W → Prop) E : hoare P (throw what) Q (λ _, True) E.
Proof. by intros s. Qed.

(** The final checks of both branches. *)
Lemma access_ready dir m e :
  hoare (λ s, px_stat (c_str dir) (us_fs s) = inr m ∧ S_ISDIR m = true)
    (let* acc := fs_read (px_access (c_str dir)) in
     match acc with inl errno => throw (e errno) | inr _ => m_ret tt end)
    (λ _ s, dir_ready dir (us_fs s)) (λ _, True) (λ _, False).
Proof.
  eapply hoare_bind; [apply hoare_fs_read|]. intros [errno|u]; [apply hoare_throw'|].
  apply hoare_ret. intros s [[Hm Hd] Ha]. by exists m, u.
Qed.

Lemma ensure_directory_ready fuel dir mode create :
  dir = "/" ∧ (1 ≤ fuel)%nat ∨ (String.length dir + 2 ≤ fuel)%nat →
  hoare (λ _, True) (ensure_directory fuel dir mode create)
    (λ _ s, dir_ready dir (us_fs s)) (λ _, True) (λ _, False).
Proof.
  revert dir create. induction fuel as [|fuel IH]; intros dir create Hf; [lia|].
  cbn [ensure_directory]. eapply hoare_bind; [apply hoare_fs_read|]. intros [errno|m].
  - destruct (negb _); [apply hoare_throw'|]. destruct (negb create); [apply hoare_throw'|].
    cbv zeta. eapply hoare_bind with (Q := λ _ _, True).
    { case_bool_decide as Hp; [by apply hoare_ret|]. cbn [negb].
      eapply hoare_conseq; [apply IH|done..]. destruct Hf as [[-> _]|Hf].
      - by destruct Hp.
      - destruct (ParentDirectory_shorter dir) as [->|Hlt]; [left; split; [done|lia]|right; lia]. }
    intros _. eapply hoare_bind with (Q := λ _ _, True).
    { intros s _. unfold fs_call. by destruct (px_mkdir _ _ _). }
    intros made. eapply hoare_bind with (Q := λ _ _, True).
    { destruct made as [e|]; [|by apply hoare_ret]. destruct (negb _); [apply hoare_throw'|by apply hoare_ret]. }
    intros _. eapply hoare_bind; [apply hoare_fs_read|]. intros [e|m]; [apply hoare_throw'|].
    destruct (S_ISDIR m) eqn:Ed; cbn [negb]; [|apply hoare_throw'].
    eapply hoare_conseq; [apply access_ready| |done..]. intros s [_ H]. by split.
  - destruct (S_ISDIR m) eqn:Ed; cbn [negb]; [|apply hoare_throw'].
    eapply hoare_conseq; [apply access_ready| |done..]. intros s [_ H]. by split.
Qed.

(** Without the permission to create, the file system is only read. *)
Lemma ensure_directory_reads fuel dir mode s :
  us_fs (snd (ensure_directory (S fuel) dir mode false s)) = us_fs s.
Proof.
  cbn [ensure_directory]. unfold m_bind at 1, fs_read, gets.
  destruct (px_stat (c_str dir) (us_fs s)) as [e|m]; [by case_match|].
  destruct (S_ISDIR m); [|done]. simpl. unfold m_bind. by destruct (px_access _ _).
Qed.

(** The recursion of [EnsureDirectory] over the parents always comes to an
    end, with an error or with a directory that exists and is writable; when
    it may not create directories it changes nothing. *)
Theorem EnsureDirectory_total dir mode create (s : UState W) :
  match EnsureDirectory dir mode create s with
  | (Ret _, s') => dir_ready dir (us_fs s')
  | (Throw _, _) => True
  | (Stuck _, _) => False
  end
  ∧ (create = false → us_fs (snd (EnsureDirectory dir mode create s)) = us_fs s).
Proof.
  split.
  - pose proof (ensure_directory_ready (String.length dir + 2) dir mode create) as H.
    specialize (H ltac:(right; lia) s I). unfold EnsureDirectory.
    by destruct (ensure_directory _ _ _ _ s) as [[] ?].
  - intros ->. unfold EnsureDirectory. rewrite Nat.add_comm. apply ensure_directory_reads.
Qed.

(** ** Stale sockets *)

(** A socket file is at the path, and connecting to it fails (for whatever
    reason: the code takes any error of [connect] for a sign that nobody
    listens). *)
Definition stale (path : string) (w : W) : Prop :=
  ∃ m, px_stat (c_str path) w = inr m ∧ S_ISSOCK m = true ∧ px_connect (c_str path) w = false.

(** Every run of [RemoveStaleSocketFile]. *)
Lemma RemoveStaleSocketFile_cases path (s : UState W) :
  match RemoveStaleSocketFile path s with
  | (Ret _, s') =>
      px_stat (c_str path) (us_fs s) = inl ENOENT ∧ us_fs s' = us_fs s
      ∨ stale path (us_fs s) ∧ ∃ u, px_unlink (c_str path) (us_fs s) = (inr u, us_fs s')
  | (Throw _, s') =>
      px_stat (c_str path) (us_fs s) ≠ inl ENOENT
      ∧ (us_fs s' = us_fs s
         ∨ stale path (us_fs s) ∧ ∃ e, px_unlink (c_str path) (us_fs s) = (inl e, us_fs s'))
  | (Stuck _, _) => False
  end.
Proof.
  unfold RemoveStaleSocketFile, m_bind at 1, fs_read, gets.
  destruct (px_stat (c_str path) (us_fs s)) as [e|m] eqn:Es.
  - destruct (e =? ENOENT) eqn:E; simpl; [apply Z.eqb_eq in E; subst e; by left|].
    split; [|by left]. intros [= ->]. done.
  - destruct (S_ISDIR m); [by split; [|left]|]. destruct (S_ISSOCK m) eqn:Ek; [|by split; [|left]].
    cbn [negb]. unfold m_bind at 1, IsLiveUnixSocket, m_bind at 1, fs_read, gets.
    destruct (px_socket (us_fs s)); [by split; [|left]|]. case_if; [by split; [|left]|].
    destruct (px_connect (c_str path) (us_fs s)) eqn:Ec; [by split; [|left]|].
    assert (Hst : stale path (us_fs s)) by (by exists m).
    unfold m_bind, fs_call. destruct (px_unlink (c_str path) (us_fs s)) as [[e|v] w'] eqn:Eu; simpl.
    + split; [done|]. right. split; [done|]. by exists e.
    + right. split; [done|]. by exists v.
Qed.

(** [CleanupListen] always returns, and removes nothing but a socket file;
    it does not ask whether another process listens on it, so that [Abort]
    after a bind lost to another server removes that server's live socket. *)
Theorem Abort_cleanup (l : ScopedListen) (s : UState W) :
  sl_prepared l = true → sl_finalized l = false →
  ∃ l' s', ScopedListen_Abort l s = (Ret l', s')
    ∧ sl_prepared l' = false ∧ ScopedListen_destroy l' s' = (Ret tt, s')
    ∧ match px_stat (c_str (unix_socket_path (sl_config l))) (us_fs s) with
      | inr m =>
          if S_ISSOCK m
          then us_fs s' = snd (px_unlink (c_str (unix_socket_path (sl_config l))) (us_fs s))
          else us_fs s' = us_fs s
      | inl _ => us_fs s' = us_fs s
      end.
Proof.
  intros Hp Hf. unfold ScopedListen_Abort. rewrite Hp, Hf. cbn [andb negb].
  assert (Hc : ∃ s', CleanupListen (unix_socket_path (sl_config l)) s = (Ret tt, s')
    ∧ match px_stat (c_str (unix_socket_path (sl_config l))) (us_fs s) with
      | inr m =>
          if S_ISSOCK m
          then us_fs s' = snd (px_unlink (c_str (unix_socket_path (sl_config l))) (us_fs s))
          else us_fs s' = us_fs s
      | inl _ => us_fs s' = us_fs s
      end).
  { unfold CleanupListen, m_bind at 1, fs_read, gets.
    destruct (px_stat _ (us_fs s)) as [e|m]; [case_if; by eexists|].
    destruct (S_ISSOCK m); simpl; [|by eexists]. unfold m_bind, fs_call.
    destruct (px_unlink _ (us_fs s)) as [[e|u] w']; by eexists. }
  destruct Hc as (s' & E & H). rewrite (m_bind_run _ _ _ _ _ E). eexists _, _. split; [reflexivity|].
  done.
Qed.

End Unix.

(** ** After [Prepare] *)

(** A file that was removed is absent, and removing a socket leaves the
    directories as they are: no path to a directory leads through it. *)
Class PosixLaws (W : Type) `{!Posix W} := {
  unlink_absent p w u w' : px_unlink p w = (inr u, w') → px_stat p w' = inl ENOENT;
  unlink_directories p q w u w' m d :
    px_unlink p w = (inr u, w') → px_stat p w = inr m → S_ISSOCK m = true →
    px_stat q w = inr d → S_ISDIR d = true →
    px_stat q w' = inr d ∧ px_access q w' = px_access q w;
}.

Section Prepare.
Context {W : Type} `{!Posix W, !PosixLaws W}.

(** C32: [RemoveStaleSocketFile] removes nothing but a socket file to which
    [connect] fails: it leaves the file system alone when there is no file, on
    every other kind of file, on a socket that accepts a connection and when
    [stat] or [socket] fails. It returns only if [stat] found nothing or the
    stale socket was removed, so that [stat] finds nothing any more, and it
    throws only if there was something. *)
Theorem RemoveStaleSocketFile_safe path (s : UState W) :
  match RemoveStaleSocketFile path s with
  | (Ret _, s') =>
      (px_stat (c_str path) (us_fs s) = inl ENOENT ∧ us_fs s' = us_fs s
       ∨ stale path (us_fs s) ∧ ∃ u, px_unlink (c_str path) (us_fs s) = (inr u, us_fs s'))
      ∧ px_stat (c_str path) (us_fs s') = inl ENOENT
  | (Throw _, s') =>
      px_stat (c_str path) (us_fs s) ≠ inl ENOENT
      ∧ (us_fs s' = us_fs s
         ∨ stale path (us_fs s) ∧ ∃ e, px_unlink (c_str path) (us_fs s) = (inl e, us_fs s'))
  | (Stuck _, _) => False
  end.
Proof.
  pose proof (RemoveStaleSocketFile_cases path s) as H.
  destruct (RemoveStaleSocketFile path s) as [[u|e|w] s']; [|done..].
  split; [done|]. destruct H as [[H1 ->]|[_ (v & H2)]]; [done|]. by eapply unlink_absent.
Qed.

(** C33: when [Prepare] returns, [stat] finds nothing at the path (there may be a
    symbolic link that leads nowhere) and its directory exists and is
    writable, whether or not a stale socket was removed. *)
Theorem PrepareListen_ready config (s s' : UState W) :
  PrepareListen config s = (Ret tt, s') →
  px_stat (c_str (unix_socket_path config)) (us_fs s') = inl ENOENT
  ∧ dir_ready (ParentDirectory (unix_socket_path config)) (us_fs s').
Proof.
  set (path := unix_socket_path config). intros E. unfold PrepareListen in E. fold path in E.
  apply m_bind_Ret in E as ([] & s0 & Ev & E). apply m_bind_Ret in E as ([] & s1 & Ed & E).
  apply ValidateUnixSocketPath_Ret in Ev as [_ ->].
  pose proof (ensure_directory_ready (String.length (ParentDirectory path) + 2) (ParentDirectory path)
    (to_uint32 (unix_socket_dir_mode config)) (unix_socket_create_dir config)
    ltac:(right; lia) s I) as Hd.
  unfold EnsureDirectory in Ed. rewrite Ed in Hd. destruct Hd as (m & u & Hm & Hdir & Ha).
  pose proof (RemoveStaleSocketFile_cases path s1) as Hr. rewrite E in Hr.
  destruct Hr as [[H1 ->]|[(k & Hk & Hs & _) (v & H2)]].
  - split; [done|]. by exists m, u.
  - split; [by eapply unlink_absent|]. exists m, u.
    destruct (unlink_directories _ _ _ _ _ _ _ H2 Hk Hs Hm Hdir) as [-> ->]. done.
Qed.

End Prepare.

(** ** A small file system *)

(** A path has a mode, and a process may listen on it. *)

#[global] Instance fs_posix : Posix (gmap string (Z * bool)) := {
  px_stat p w := match w !! p with Some (m, _) => inr m | None => inl ENOENT end;
  px_access p w := inr tt;
  px_mkdir p m w := match w !! p with
                    | Some _ => (inl EEXIST, w)
                    | None => (inr tt, <[p := (S_IFDIR + m, false)]> w)
                    end;
  px_unlink p w := match w !! p with
                   | Some _ => (inr tt, delete p w)
                   | None => (inl ENOENT, w)
                   end;
  px_chmod p m w := match w !! p with
                    | Some (o, l) => (inr tt, <[p := (Z.land o S_IFMT + m, l)]> w)
                    | None => (inl ENOENT, w)
                    end;
  px_socket w := inr tt;
  px_connect p w := match w !! p with Some (_, l) => l | None => false end;
  px_strerror e := "error " +:+ to_string e;
}.

#[global] Instance fs_laws : PosixLaws (gmap string (Z * bool)).
Proof.
  split; cbn [px_unlink px_stat px_access fs_posix]; intros p.
  - intros w u w'. destruct (w !! p) as [[m l]|]; [|done]. intros ?. simplify_eq.
    by rewrite lookup_delete_eq.
  - intros q w u w' m d. destruct (w !! p) as [[m0 l]|] eqn:Ep; [|done]. intros ? Hm Hs Hq Hd.
    simplify_eq. rewrite lookup_delete_ne; [done|]. intros ->. rewrite Ep in Hq. simplify_eq.
    unfold S_ISDIR, S_ISSOCK in *. apply Z.eqb_eq in Hs, Hd. rewrite Hs in Hd. done.
Qed.

Definition socket_mode : Z := S_IFSOCK + 432.
Definition dir_mode : Z := S_IFDIR + 493.
Definition stale_fs : gmap string (Z * bool) :=
  {["/run" := (dir_mode, false); "/run/mtdd" := (dir_mode, false);
    "/run/mtdd/grpc.sock" := (socket_mode, false)]}.
Definition live_fs : gmap string (Z * bool) := <["/run/mtdd/grpc.sock" := (socket_mode, true)]> stale_fs.

Definition prepared_state : UState (gmap string (Z * bool)) := snd (PrepareListen default_config (mkUState stale_fs [])).

Lemma PrepareListen_ready_witness :
  px_stat "/run/mtdd/grpc.sock" (us_fs prepared_state) = inl ENOENT
  ∧ dir_ready (ParentDirectory "/run/mtdd/grpc.sock") (us_fs prepared_state).
Proof.
  apply (PrepareListen_ready default_config (mkUState stale_fs []) prepared_state).
  apply (run_fst (PrepareListen default_config (mkUState stale_fs []))). by vm_compute.
Defined.

Definition cleaned_state : UState (gmap string (Z * bool)) :=
  snd (RemoveStaleSocketFile "/run/mtdd/grpc.sock" (mkUState stale_fs [])).

Lemma RemoveStaleSocketFile_safe_witness :
  us_fs cleaned_state = delete "/run/mtdd/grpc.sock" stale_fs
  ∧ px_stat "/run/mtdd/grpc.sock" (us_fs cleaned_state) = inl ENOENT.
Proof.
  split; [by vm_compute|].
  pose proof (RemoveStaleSocketFile_safe "/run/mtdd/grpc.sock" (mkUState stale_fs [])) as H.
  rewrite (run_fst (RemoveStaleSocketFile "/run/mtdd/grpc.sock" (mkUState stale_fs [])) (Ret tt))
    in H by reflexivity.
  exact (proj2 H).
Defined.

Lemma Abort_cleanup_witness :
  ∃ l' s', ScopedListen_Abort (mkScopedListen default_config true false) (mkUState live_fs [])
           = (Ret l', s')
    ∧ sl_prepared l' = false ∧ ScopedListen_destroy l' s' = (Ret tt, s')
    ∧ us_fs s' = delete "/run/mtdd/grpc.sock" live_fs.
Proof.
  destruct (Abort_cleanup (mkScopedListen default_config true false) (mkUState live_fs [])
    eq_refl eq_refl) as (l' & s' & H1 & H2 & H3 & H4).
  exists l', s'. split_and!; [exact H1|exact H2|exact H3|exact H4].
Defined.

(** A live socket is kept. *)
Example live_socket_kept :
  fst (PrepareListen default_config (mkUState live_fs []))
  = Throw ("another process is already listening on unix socket: /run/mtdd/grpc.sock"
           +:+ " (stop the other mtdd_server instance or choose a different MTDD_LISTEN path)").
Proof. by vm_compute. Qed.

Example created_parents :
  fst (EnsureDirectory "/run/a/b" 488 true (mkUState stale_fs [])) = Ret tt
  ∧ us_fs (snd (EnsureDirectory "/run/a/b" 488 true (mkUState stale_fs [])))
    = <["/run/a/b" := (S_IFDIR + 488, false)]> (<["/run/a" := (S_IFDIR + 488, false)]> stale_fs).
Proof. by vm_compute. Qed.
