(* ===== verification/Registry.v ===== *)
(** * LISTEN/NOTIFY registry (src/src/notify/channel_key.cpp, src/src/notify/registry.cpp)

    The in-memory subscription tables of [NotifyRegistry]. Each public member
    function holds [mutex_] for its whole effect on the tables, so it is one
    function on the registry state; [Publish] copies its targets under the lock
    and writes to them afterwards, so it is a snapshot and a delivery. *)
From S2P Require Import Prelude CppStd.
Local Open Scope Z_scope.

(** ** Channel keys *)

Definition kGlobalTidScope : string := "__global__".

Definition NormalizeTidScope (tid_scope : string) : string :=
  if str_empty tid_scope then kGlobalTidScope else tid_scope.

Definition ChannelKey (channel tid_scope : string) : string :=
  NormalizeTidScope tid_scope +:+ ":" +:+ channel.

(** ** State *)

(** The address of a [grpc::ServerWriter]; [nullptr] is [None]. *)
Definition writer := nat.

Record NotifyMessage := mkNotifyMessage {
  nm_channel : string;
  nm_payload : string;
  nm_process_id : Z;
}.

Record NotifyRegistry := mkRegistry {
  subscriptions_ : gmap string (gset string);
  client_keys_ : gmap string (gset string);
  watchers_ : gmap string (list writer);
}.

Definition empty_registry : NotifyRegistry := mkRegistry ∅ ∅ ∅.

Definition IsValidClientId (client_id : string) : bool := negb (str_empty client_id).
Definition IsValidChannel (channel : string) : bool := negb (str_empty channel).

Definition MakeMessage (channel payload : string) : NotifyMessage :=
  {| nm_channel := channel; nm_payload := payload; nm_process_id := 0 |}.

(** [m[k].insert(x)]: the entry is created empty when it is missing. *)
Definition set_insert (k x : string) (m : gmap string (gset string)) : gmap string (gset string) :=
  <[k := {[x]} ∪ default ∅ (m !! k)]> m.

(** [auto it = m.find(k); if (it != end) { it->second.erase(x); if empty, m.erase(it); }] *)
Definition set_erase (k x : string) (m : gmap string (gset string)) : gmap string (gset string) :=
  match m !! k with
  | Some X =>
      let X' := X ∖ {[x]} in
      if bool_decide (X' = ∅) then delete k m else <[k := X']> m
  | None => m
  end.

Definition Subscribe (client_id channel tid_scope : string) (r : NotifyRegistry) : NotifyRegistry :=
  if negb (IsValidClientId client_id) || negb (IsValidChannel channel) then r
  else
    let key := ChannelKey channel tid_scope in
    mkRegistry (set_insert key client_id (subscriptions_ r))
               (set_insert client_id key (client_keys_ r)) (watchers_ r).

Definition RemoveClientFromKey (client_id key : string) (r : NotifyRegistry) : NotifyRegistry :=
  mkRegistry (set_erase key client_id (subscriptions_ r))
             (set_erase client_id key (client_keys_ r)) (watchers_ r).

Definition Unsubscribe (client_id channel tid_scope : string) (r : NotifyRegistry)
  : NotifyRegistry :=
  if negb (IsValidClientId client_id) || negb (IsValidChannel channel) then r
  else RemoveClientFromKey client_id (ChannelKey channel tid_scope) r.

Definition RegisterWatch (client_id : string) (w : option writer) (r : NotifyRegistry)
  : NotifyRegistry :=
  match w with
  | None => r
  | Some w =>
      if negb (IsValidClientId client_id) then r
      else mkRegistry (subscriptions_ r) (client_keys_ r)
             (<[client_id := default [] (watchers_ r !! client_id) ++ [w]]> (watchers_ r))
  end.

Definition UnregisterWatch (client_id : string) (w : option writer) (r : NotifyRegistry)
  : NotifyRegistry :=
  match w with
  | None => r
  | Some w =>
      if negb (IsValidClientId client_id) then r
      else match watchers_ r !! client_id with
           | None => r
           | Some streams =>
               let streams' := filter (λ v, v ≠ w) streams in
               mkRegistry (subscriptions_ r) (client_keys_ r)
                 (if bool_decide (streams' = []) then delete client_id (watchers_ r)
                  else <[client_id := streams']> (watchers_ r))
           end
  end.

Definition SubscriptionCountForTest (channel_key : string) (r : NotifyRegistry) : nat :=
  match subscriptions_ r !! channel_key with
  | None => 0
  | Some X => size X
  end.

Definition ClearForTest (r : NotifyRegistry) : NotifyRegistry := mkRegistry ∅ ∅ ∅.

(** The order in which a [std::unordered_set] is iterated is not specified. *)
Class HashOrder := {
  hash_order : gset string → list string;
  hash_order_perm X : hash_order X ≡ₚ elements X;
}.

(** The gRPC stream a message is written to; [Write] says whether the stream
    accepted the message. *)
Class NotifyStreams (net : Type) := {
  notify_write : writer → NotifyMessage → net → bool * net;
}.

Section Iterating.
Context `{!HashOrder}.

Definition UnsubscribeAll (client_id : string) (r : NotifyRegistry) : NotifyRegistry :=
  if negb (IsValidClientId client_id) then r
  else match client_keys_ r !! client_id with
       | None => r
       | Some keys => foldl (λ r key, RemoveClientFromKey client_id key r) r (hash_order keys)
       end.

(** The targets collected under the lock. *)
Definition PublishTargets (channel tid_scope : string) (r : NotifyRegistry) : list writer :=
  match subscriptions_ r !! ChannelKey channel tid_scope with
  | None => []
  | Some clients => hash_order clients ≫= λ c, default [] (watchers_ r !! c)
  end.

Fixpoint Deliver {net} `{!NotifyStreams net} (targets : list writer) (message : NotifyMessage)
    (delivered : Z) (n : net) : Z * net :=
  match targets with
  | [] => (delivered, n)
  | w :: targets' =>
      let '(ok, n') := notify_write w message n in
      Deliver targets' message (if ok then delivered + 1 else delivered) n'
  end.

Definition Publish {net} `{!NotifyStreams net} (channel payload tid_scope : string)
    (r : NotifyRegistry) (n : net) : Z * net :=
  if negb (IsValidChannel channel) then (0, n)
  else Deliver (PublishTargets channel tid_scope r) (MakeMessage channel payload) 0 n.

End Iterating.

(** ** Abstract specification

    What the registry promises: a set of (client, channel key) subscriptions
    and a list of (client, stream) watches in registration order. The
    specification has the keys of the code, so that it is exact for every scope;
    [topics_of] below has the channels and scopes themselves, and the two agree
    as long as no scope contains a colon. *)
Record notify_spec := mkSpec {
  subs : gset (string * string);
  watches : list (string * writer);
}.

Inductive op :=
| OpSubscribe (client_id channel tid_scope : string)
| OpUnsubscribe (client_id channel tid_scope : string)
| OpUnsubscribeAll (client_id : string)
| OpRegisterWatch (client_id : string) (w : option writer)
| OpUnregisterWatch (client_id : string) (w : option writer).

Definition spec_op (a : notify_spec) (o : op) : notify_spec :=
  match o with
  | OpSubscribe c ch t =>
      if bool_decide (c ≠ "" ∧ ch ≠ "")
      then mkSpec ({[(c, ChannelKey ch t)]} ∪ subs a) (watches a) else a
  | OpUnsubscribe c ch t =>
      if bool_decide (c ≠ "" ∧ ch ≠ "")
      then mkSpec (subs a ∖ {[(c, ChannelKey ch t)]}) (watches a) else a
  | OpUnsubscribeAll c =>
      if bool_decide (c ≠ "") then mkSpec (filter (λ p, p.1 ≠ c) (subs a)) (watches a) else a
  | OpRegisterWatch c (Some w) =>
      if bool_decide (c ≠ "") then mkSpec (subs a) (watches a ++ [(c, w)]) else a
  | OpUnregisterWatch c (Some w) =>
      if bool_decide (c ≠ "")
      then mkSpec (subs a) (filter (λ p, p ≠ (c, w)) (watches a)) else a
  | OpRegisterWatch _ None | OpUnregisterWatch _ None => a
  end.

Definition apply_op `{!HashOrder} (r : NotifyRegistry) (o : op) : NotifyRegistry :=
  match o with
  | OpSubscribe c ch t => Subscribe c ch t r
  | OpUnsubscribe c ch t => Unsubscribe c ch t r
  | OpUnsubscribeAll c => UnsubscribeAll c r
  | OpRegisterWatch c w => RegisterWatch c w r
  | OpUnregisterWatch c w => UnregisterWatch c w r
  end.

(** The two tables are inverse views of one relation, the watch lists are the
    abstract list split by client, and no table keeps an empty entry. *)
Record refines (r : NotifyRegistry) (a : notify_spec) : Prop := {
  ref_subs c k : c ∈ default ∅ (subscriptions_ r !! k) ↔ (c, k) ∈ subs a;
  ref_keys c k : k ∈ default ∅ (client_keys_ r !! c) ↔ (c, k) ∈ subs a;
  ref_watch c : default [] (watchers_ r !! c) = (filter (λ p, p.1 = c) (watches a)).*2;
  ref_subs_ne : map_Forall (λ _ X, X ≠ ∅) (subscriptions_ r);
  ref_keys_ne : map_Forall (λ _ X, X ≠ ∅) (client_keys_ r);
  ref_watch_ne : map_Forall (λ _ l, l ≠ []) (watchers_ r);
}.

Definition spec_init : notify_spec := mkSpec ∅ [].

(** ** Channel keys and tenant isolation *)

Definition no_colon (s : string) : Prop := find_first (ascii_eqb ":") s = None.

Lemma no_colon_normalize t : no_colon t → no_colon (NormalizeTidScope t).
Proof. unfold NormalizeTidScope. by destruct t. Qed.

Lemma split_at_colon s t u v :
  no_colon s → no_colon t → s +:+ ":" +:+ u = t +:+ ":" +:+ v → s = t ∧ u = v.
Proof.
  unfold no_colon. revert t. induction s as [|c s IH]; intros [|d t]; cbn [find_first].
  - intros _ _ Heq. split; [done|]. by apply (inj (String.app ":")) in Heq.
  - rewrite str_app_cons. intros _ Ht Heq. change ("" +:+ ":" +:+ u) with (String ":" u) in Heq.
    injection Heq as <- _. done.
  - rewrite str_app_cons. intros Hs _ Heq. change ("" +:+ ":" +:+ v) with (String ":" v) in Heq.
    injection Heq as -> _. done.
  - destruct (ascii_eqb ":" c) eqn:Ec, (ascii_eqb ":" d) eqn:Ed; try done.
    rewrite !fmap_None. rewrite !str_app_cons. intros Hs Ht [= -> Heq].
    by destruct (IH t Hs Ht Heq) as [-> ->].
Qed.

(** Channel keys separate channels and tenants: when the scopes contain no
    colon, equal keys come from the same channel and the same scope, where the
    empty scope is the global one. *)
Theorem ChannelKey_inj channel1 tid1 channel2 tid2 :
  no_colon tid1 → no_colon tid2 →
  ChannelKey channel1 tid1 = ChannelKey channel2 tid2 →
  channel1 = channel2 ∧ NormalizeTidScope tid1 = NormalizeTidScope tid2.
Proof.
  intros H1 H2 Heq. apply no_colon_normalize in H1, H2.
  destruct (split_at_colon _ _ _ _ H1 H2 Heq). auto.
Qed.

(** ** Channels and scopes

    The subscriptions by channel and scope, where the empty scope is the global
    one. *)
Definition topic (channel tid_scope : string) : string * string :=
  (channel, if bool_decide (tid_scope = "") then "__global__" else tid_scope).

Definition topic_op (t : gset (string * (string * string))) (o : op)
  : gset (string * (string * string)) :=
  match o with
  | OpSubscribe c ch s =>
      if bool_decide (c ≠ "" ∧ ch ≠ "") then {[(c, topic ch s)]} ∪ t else t
  | OpUnsubscribe c ch s =>
      if bool_decide (c ≠ "" ∧ ch ≠ "") then t ∖ {[(c, topic ch s)]} else t
  | OpUnsubscribeAll c => if bool_decide (c ≠ "") then filter (λ p, p.1 ≠ c) t else t
  | OpRegisterWatch _ _ | OpUnregisterWatch _ _ => t
  end.

(** Who is subscribed to what after some operations. *)
Definition topics_of (ops : list op) : gset (string * (string * string)) := foldl topic_op ∅ ops.

Definition scope_of (o : op) : string :=
  match o with OpSubscribe _ _ s | OpUnsubscribe _ _ s => s | _ => "" end.

(** The operations name no scope with a colon. *)
Definition plain_scopes (ops : list op) : Prop := Forall (λ o, no_colon (scope_of o)) ops.

Lemma ChannelKey_topic ch1 s1 ch2 s2 :
  no_colon s1 → no_colon s2 → ChannelKey ch1 s1 = ChannelKey ch2 s2 ↔ topic ch1 s1 = topic ch2 s2.
Proof.
  intros H1 H2. assert (Ht : ∀ ch s, topic ch s = (ch, NormalizeTidScope s)).
  { intros ch s. unfold topic, NormalizeTidScope. by destruct s. }
  rewrite !Ht. split.
  - intros E. by destruct (ChannelKey_inj _ _ _ _ H1 H2 E) as [-> ->].
  - intros [= -> E]. unfold ChannelKey. by rewrite E.
Qed.

(** The two views agree. *)
Definition same_topics (a : notify_spec) (t : gset (string * (string * string))) : Prop :=
  ∀ c ch s, no_colon s → (c, ChannelKey ch s) ∈ subs a ↔ (c, topic ch s) ∈ t.

Lemma same_topics_op a t o :
  no_colon (scope_of o) → same_topics a t → same_topics (spec_op a o) (topic_op t o).
Proof.
  intros Ho Ha c ch s Hs. specialize (Ha c ch s Hs).
  destruct o as [c' ch' s'|c' ch' s'|c'|c' [w|]|c' [w|]]; cbn [spec_op topic_op scope_of] in *;
    try case_bool_decide; try done; simpl.
  - rewrite !elem_of_union, !elem_of_singleton, !pair_equal_spec, Ha, ChannelKey_topic; done.
  - rewrite !elem_of_difference, !elem_of_singleton, !pair_equal_spec, Ha, ChannelKey_topic; done.
  - rewrite !elem_of_filter. simpl. by rewrite Ha.
Qed.

Lemma same_topics_run ops a t :
  plain_scopes ops → same_topics a t → same_topics (foldl spec_op a ops) (foldl topic_op t ops).
Proof.
  intros Ho. revert a t. induction Ho as [|o ops Hs _ IH]; intros a t Ha; [done|].
  by apply IH, same_topics_op.
Qed.

Lemma same_topics_of ops : plain_scopes ops → same_topics (foldl spec_op spec_init ops) (topics_of ops).
Proof. intros Ho. apply same_topics_run; [done|]. intros c ch s _. set_solver. Qed.

(** ** The table operations *)

Lemma set_insert_elem k x m k' y :
  y ∈ default ∅ (set_insert k x m !! k') ↔ (k' = k ∧ y = x) ∨ y ∈ default ∅ (m !! k').
Proof.
  unfold set_insert. destruct (decide (k' = k)) as [->|Hne].
  - rewrite lookup_insert_eq. simpl. set_solver.
  - rewrite lookup_insert_ne by done. naive_solver.
Qed.

Lemma set_insert_ne k x m :
  map_Forall (λ _ X, X ≠ ∅) m → map_Forall (λ _ X, X ≠ ∅) (set_insert k x m).
Proof. intros Hm. apply map_Forall_insert_2; [set_solver|done]. Qed.

Lemma set_erase_elem k x m k' y :
  y ∈ default ∅ (set_erase k x m !! k') ↔ y ∈ default ∅ (m !! k') ∧ ¬ (k' = k ∧ y = x).
Proof.
  unfold set_erase. destruct (m !! k) as [X|] eqn:E.
  - case_bool_decide as HX; destruct (decide (k' = k)) as [->|Hne].
    + rewrite lookup_delete_eq, E. simpl. set_solver.
    + rewrite lookup_delete_ne by done. naive_solver.
    + rewrite lookup_insert_eq, E. simpl. set_solver.
    + rewrite lookup_insert_ne by done. naive_solver.
  - split; [|naive_solver]. intros Hy. split; [done|]. intros [-> ->]. rewrite E in Hy. set_solver.
Qed.

Lemma set_erase_ne k x m :
  map_Forall (λ _ X, X ≠ ∅) m → map_Forall (λ _ X, X ≠ ∅) (set_erase k x m).
Proof.
  intros Hm. unfold set_erase. case_match; [|done].
  case_bool_decide; [by apply map_Forall_delete|by apply map_Forall_insert_2].
Qed.

Lemma valid_guard c : negb (IsValidClientId c) = true ↔ c = "".
Proof. unfold IsValidClientId. rewrite negb_involutive. apply str_empty_spec. Qed.

Lemma valid_guard2 c ch :
  negb (IsValidClientId c) || negb (IsValidChannel ch) = true ↔ c = "" ∨ ch = "".
Proof.
  unfold IsValidClientId, IsValidChannel. by rewrite !negb_involutive, orb_true_iff, !str_empty_spec.
Qed.

(** The early return on an empty argument is the guard of the specification. *)
Ltac guards :=
  match goal with
  | |- context [if negb (IsValidClientId ?c) || negb (IsValidChannel ?ch) then _ else _] =>
      let E := fresh in
      destruct (negb (IsValidClientId c) || negb (IsValidChannel ch)) eqn:E;
      [apply valid_guard2 in E; rewrite bool_decide_eq_false_2 by naive_solver
      |apply not_true_iff_false in E; rewrite valid_guard2 in E;
       rewrite bool_decide_eq_true_2 by (split; intros ->; auto)]
  | |- context [if negb (IsValidClientId ?c) then _ else _] =>
      let E := fresh in
      destruct (negb (IsValidClientId c)) eqn:E;
      [apply valid_guard in E; rewrite bool_decide_eq_false_2 by naive_solver
      |apply not_true_iff_false in E; rewrite valid_guard in E;
       rewrite bool_decide_eq_true_2 by done]
  end.

Lemma refines_init : refines empty_registry spec_init.
Proof.
  split; simpl; intros; rewrite ?lookup_empty; simpl; try set_solver;
    apply map_Forall_empty.
Qed.

Lemma refines_Subscribe r a c ch t :
  refines r a → refines (Subscribe c ch t r) (spec_op a (OpSubscribe c ch t)).
Proof.
  intros []. unfold Subscribe. cbn [spec_op]. guards; [done|].
  split; simpl; intros; rewrite ?set_insert_elem; auto using set_insert_ne; set_solver.
Qed.

Lemma refines_RemoveClientFromKey r a c k :
  refines r a →
  refines (RemoveClientFromKey c k r) (mkSpec (subs a ∖ {[(c, k)]}) (watches a)).
Proof.
  intros []. split; simpl; intros; rewrite ?set_erase_elem; auto using set_erase_ne; set_solver.
Qed.

Lemma refines_Unsubscribe r a c ch t :
  refines r a → refines (Unsubscribe c ch t r) (spec_op a (OpUnsubscribe c ch t)).
Proof.
  intros Hr. unfold Unsubscribe. cbn [spec_op]. guards; [done|].
  by apply refines_RemoveClientFromKey.
Qed.

(** Erasing a list of keys one by one erases exactly these pairs. *)
Lemma refines_remove_keys r a c ks :
  refines r a →
  refines (foldl (λ r key, RemoveClientFromKey c key r) r ks)
    (mkSpec (filter (λ p, ¬ (p.1 = c ∧ p.2 ∈ ks)) (subs a)) (watches a)).
Proof.
  revert r a. induction ks as [|k ks IH]; intros r a Hr; simpl.
  - replace (filter _ (subs a)) with (subs a); [by destruct a|].
    apply set_eq. intros p. rewrite elem_of_filter. set_solver.
  - apply (refines_RemoveClientFromKey _ _ c k), IH in Hr. simpl in Hr.
    replace (filter _ (subs a)) with
      (filter (λ p : string * string, ¬ (p.1 = c ∧ p.2 ∈ ks)) (subs a ∖ {[(c, k)]})); [done|].
    apply set_eq. intros [c' k']. rewrite !elem_of_filter. set_solver.
Qed.

Section Refinement.
Context `{!HashOrder}.

Lemma refines_UnsubscribeAll r a c :
  refines r a → refines (UnsubscribeAll c r) (spec_op a (OpUnsubscribeAll c)).
Proof.
  intros Hr. unfold UnsubscribeAll. cbn [spec_op]. guards; [done|].
  pose proof (ref_keys _ _ Hr c) as Hk. destruct (client_keys_ r !! c) as [keys|] eqn:E; simpl in Hk.
  - apply (refines_remove_keys _ _ c (hash_order keys)) in Hr.
    replace (filter (λ p, p.1 ≠ c) (subs a)) with
      (filter (λ p : string * string, ¬ (p.1 = c ∧ p.2 ∈ hash_order keys)) (subs a)); [done|].
    apply set_eq. intros [c' k']. rewrite !elem_of_filter, hash_order_perm, elem_of_elements, Hk.
    simpl. naive_solver.
  - replace (filter (λ p, p.1 ≠ c) (subs a)) with (subs a); [by destruct a|].
    apply set_eq. intros [c' k']. rewrite elem_of_filter. simpl. set_solver.
Qed.

Lemma refines_RegisterWatch r a c w :
  refines r a → refines (RegisterWatch c w r) (spec_op a (OpRegisterWatch c w)).
Proof.
  intros Hr. unfold RegisterWatch. cbn [spec_op]. destruct w as [w|]; [|done]. guards; [done|].
  destruct Hr as [Hs Hk Hw]. split; simpl; auto.
  - intros c'. rewrite filter_app, fmap_app, filter_cons. simpl.
    destruct (decide (c = c')) as [->|Hne].
    + rewrite lookup_insert_eq. simpl. by rewrite Hw.
    + rewrite lookup_insert_ne by done. rewrite filter_nil. simpl. by rewrite app_nil_r.
  - apply map_Forall_insert_2; [|done]. by destruct (default _ _).
Qed.

Lemma filter_watch_same c w (l : list (string * writer)) :
  (filter (λ p, p.1 = c) (filter (λ p, p ≠ (c, w)) l)).*2
  = filter (λ v, v ≠ w) (filter (λ p, p.1 = c) l).*2.
Proof.
  induction l as [|[c' v] l IH]; [done|]. rewrite !filter_cons. simpl.
  destruct (decide (c' = c)) as [->|]; repeat case_decide; simplify_eq/=;
    rewrite ?filter_cons; simpl; repeat case_decide; simplify_eq/=; congruence.
Qed.

Lemma filter_watch_other c c' w (l : list (string * writer)) :
  c' ≠ c →
  filter (λ p, p.1 = c') (filter (λ p, p ≠ (c, w)) l) = filter (λ p, p.1 = c') l.
Proof.
  intros Hne. induction l as [|[c'' v] l IH]; [done|]. rewrite !filter_cons. simpl.
  repeat case_decide; simplify_eq/=; rewrite ?filter_cons; simpl; repeat case_decide;
    simplify_eq/=; congruence.
Qed.

Lemma refines_UnregisterWatch r a c w :
  refines r a → refines (UnregisterWatch c w r) (spec_op a (OpUnregisterWatch c w)).
Proof.
  intros Hr. unfold UnregisterWatch. cbn [spec_op]. destruct w as [w|]; [|done]. guards; [done|].
  destruct Hr as [Hs Hk Hw Hsn Hkn Hwn]. pose proof (Hw c) as Hc.
  destruct (watchers_ r !! c) as [streams|] eqn:E; simpl in Hc.
  - rewrite Hc. split; simpl; auto.
    + intros c'. destruct (decide (c' = c)) as [->|Hne].
      * rewrite filter_watch_same.
        case_bool_decide as Hb; [by rewrite lookup_delete_eq, Hb|by rewrite lookup_insert_eq].
      * rewrite filter_watch_other by done.
        case_bool_decide; [rewrite lookup_delete_ne by done|rewrite lookup_insert_ne by done]; apply Hw.
    + case_bool_decide; [by apply map_Forall_delete|by apply map_Forall_insert_2].
  - split; simpl; auto. intros c'. destruct (decide (c' = c)) as [->|Hne].
    + rewrite filter_watch_same, <-Hc, E. done.
    + by rewrite filter_watch_other.
Qed.

Lemma refines_op r a o : refines r a → refines (apply_op r o) (spec_op a o).
Proof.
  destruct o; eauto using refines_Subscribe, refines_Unsubscribe, refines_UnsubscribeAll,
    refines_RegisterWatch, refines_UnregisterWatch.
Qed.

Lemma refines_run (ops : list op) r a :
  refines r a → refines (foldl apply_op r ops) (foldl spec_op a ops).
Proof. revert r a. induction ops; simpl; auto using refines_op. Qed.

(** C9: after any sequence of operations the registry implements its abstract
    specification: the two tables are inverse views of the same subscription
    set, the streams of each client are its watches in order, and no entry is
    left empty. As long as no scope contains a colon, that set is who has
    subscribed to which channel in which scope. *)
Theorem registry_refines_spec (ops : list op) :
  refines (foldl apply_op empty_registry ops) (foldl spec_op spec_init ops)
  ∧ (plain_scopes ops → ∀ c ch s, no_colon s →
       (c, ChannelKey ch s) ∈ subs (foldl spec_op spec_init ops) ↔ (c, topic ch s) ∈ topics_of ops).
Proof. split; [apply refines_run, refines_init|apply same_topics_of]. Qed.

(** ** Publishing *)

Lemma watch_segments (cs : list string) (l : list (string * writer)) :
  NoDup cs →
  (cs ≫= λ c, (filter (λ p, p.1 = c) l).*2) ≡ₚ (filter (λ p, p.1 ∈ cs) l).*2.
Proof.
  induction 1 as [|c cs Hc Hnd IH]; simpl.
  - rewrite filter_none; [done|]. set_solver.
  - rewrite IH, <-fmap_app, filter_disjoint_perm by (intros ? -> ?; done).
    apply fmap_Permutation, reflexive_eq, list_filter_iff. set_solver.
Qed.

Lemma PublishTargets_refines r a ch t :
  refines r a →
  PublishTargets ch t r ≡ₚ (filter (λ p, (p.1, ChannelKey ch t) ∈ subs a) (watches a)).*2.
Proof.
  intros [Hs _ Hw _ _ _]. unfold PublishTargets.
  pose proof (λ c, Hs c (ChannelKey ch t)) as Hk.
  destruct (subscriptions_ r !! ChannelKey ch t) as [X|]; simpl in Hk.
  - rewrite (list_bind_ext _ (λ c, (filter (λ p, p.1 = c) (watches a)).*2) _ (hash_order X)) by done.
    rewrite watch_segments.
    + apply fmap_Permutation, reflexive_eq, list_filter_iff. intros [c w]. simpl.
      by rewrite hash_order_perm, elem_of_elements, Hk.
    + rewrite hash_order_perm. apply NoDup_elements.
  - rewrite filter_none; [done|].
    intros [c w] _ Hin. apply Hk in Hin. set_solver.
Qed.

Context {net : Type} `{!NotifyStreams net}.

(** The successive writes of one message to some streams: their answers and the
    streams afterwards. *)
Fixpoint write_all (targets : list writer) (m : NotifyMessage) (n : net) : list bool * net :=
  match targets with
  | [] => ([], n)
  | w :: targets' =>
      let '(ok, n1) := notify_write w m n in
      let '(oks, n2) := write_all targets' m n1 in (ok :: oks, n2)
  end.

Definition accepted_writes (oks : list bool) : Z := Z.of_nat (length (filter (eq true) oks)).

Lemma Deliver_write_all targets m d n :
  Deliver targets m d n
  = (d + accepted_writes (write_all targets m n).1, (write_all targets m n).2).
Proof.
  unfold accepted_writes. revert d n.
  induction targets as [|w ts IH]; intros d n; simpl; [f_equal; lia|].
  destruct (notify_write w m n) as [ok n'] eqn:E. rewrite IH.
  destruct (write_all ts m n') as [oks n2]. cbn [fst snd]. f_equal.
  rewrite filter_cons. destruct ok; case_decide; simpl; try done; lia.
Qed.

(** C22: after any sequence of operations on scopes without a colon, [Publish] on
    a non-empty channel and such a scope writes the message once to every
    stream watched by a client that is subscribed to that channel in that
    scope, and to no other stream, and it returns the number of these writes
    that the streams accepted. *)
Theorem publish_delivers (ops : list op) channel payload tid_scope (n : net) :
  channel ≠ "" → plain_scopes ops → no_colon tid_scope →
  ∃ targets,
    targets ≡ₚ (filter (λ p, (p.1, topic channel tid_scope) ∈ topics_of ops)
                  (watches (foldl spec_op spec_init ops))).*2 ∧
    Publish channel payload tid_scope (foldl apply_op empty_registry ops) n =
      (accepted_writes (write_all targets (MakeMessage channel payload) n).1,
       (write_all targets (MakeMessage channel payload) n).2).
Proof.
  intros Hch Hops Hs. exists (PublishTargets channel tid_scope (foldl apply_op empty_registry ops)). split.
  - etrans; [apply PublishTargets_refines, refines_run, refines_init|].
    apply fmap_Permutation, reflexive_eq, list_filter_iff. intros [c w]. simpl. by apply same_topics_of.
  - unfold Publish, IsValidChannel. rewrite negb_involutive.
    destruct (str_empty channel) eqn:E; [by apply str_empty_spec in E|]. by rewrite Deliver_write_all.
Qed.

End Refinement.

(** ** Scopes with a colon *)

(** A scope with a colon is not separated: what is published in scope [a]
    on channel [b:c] goes to the subscribers of channel [c] in scope [a:b]. *)
Theorem ChannelKey_collision `{!HashOrder} (a b c : string) (r : NotifyRegistry) :
  a ≠ "" →
  PublishTargets (b +:+ ":" +:+ c) a r = PublishTargets c (a +:+ ":" +:+ b) r.
Proof.
  intros Ha. unfold PublishTargets.
  replace (ChannelKey (b +:+ ":" +:+ c) a) with (ChannelKey c (a +:+ ":" +:+ b)); [done|].
  unfold ChannelKey, NormalizeTidScope. destruct a as [|x a]; [done|].
  rewrite str_app_cons. cbn [str_empty]. by rewrite <-!str_app_assoc.
Qed.

(** ** Concrete runs *)

Definition sorted_order : HashOrder := {|
  hash_order X := elements X;
  hash_order_perm X := reflexivity _;
|}.

(** Streams 1 and 2 accept messages, the others are closed; the network
    remembers what was written. *)
Definition mock_streams : NotifyStreams (list (writer * NotifyMessage)) := {|
  notify_write w m n := ((w =? 1)%nat || (w =? 2)%nat, n ++ [(w, m)]);
|}.

Definition sample_ops : list op :=
  [OpSubscribe "client-a" "events" ""; OpSubscribe "client-b" "events" "__global__";
   OpSubscribe "client-c" "alerts" "t1";
   OpRegisterWatch "client-a" (Some 1%nat); OpRegisterWatch "client-b" (Some 3%nat);
   OpRegisterWatch "client-c" (Some 2%nat); OpUnsubscribeAll "client-c"].

Lemma sample_scopes : plain_scopes sample_ops.
Proof. repeat (apply Forall_cons; split; [reflexivity|]). by apply Forall_nil. Qed.

Lemma publish_delivers_witness :
  (@Publish sorted_order _ mock_streams "events" "hello" "" 
     (foldl (@apply_op sorted_order) empty_registry sample_ops) []).1 = 1 ∧
  ∃ targets, targets ≡ₚ (filter (λ p, (p.1, topic "events" "") ∈ topics_of sample_ops)
                        (watches (foldl spec_op spec_init sample_ops))).*2 ∧
    @Publish sorted_order _ mock_streams "events" "hello" ""
       (foldl (@apply_op sorted_order) empty_registry sample_ops) [] =
      (accepted_writes (@write_all _ mock_streams targets (MakeMessage "events" "hello") []).1,
       (@write_all _ mock_streams targets (MakeMessage "events" "hello") []).2).
Proof.
  split; [vm_compute; reflexivity|].
  apply (@publish_delivers sorted_order _ mock_streams sample_ops "events" "hello" "" []).
  - discriminate.
  - exact sample_scopes.
  - reflexivity.
Defined.

Lemma registry_refines_spec_witness :
  ("client-a", ChannelKey "events" "__global__") ∈ subs (foldl spec_op spec_init sample_ops)
  ↔ ("client-a", topic "events" "__global__") ∈ topics_of sample_ops.
Proof.
  apply (@registry_refines_spec sorted_order sample_ops); [exact sample_scopes|reflexivity].
Defined.

Lemma ChannelKey_inj_witness :
  "events" = "events" ∧ NormalizeTidScope "" = NormalizeTidScope "__global__".
Proof.
  apply (ChannelKey_inj "events" "" "events" "__global__"); vm_compute; reflexivity.
Defined.

Lemma ChannelKey_collision_witness :
  @PublishTargets sorted_order "orders:new" "acme"
    (foldl (@apply_op sorted_order) empty_registry
       [OpSubscribe "spy" "new" "acme:orders"; OpRegisterWatch "spy" (Some 7%nat)]) = [7%nat].
Proof.
  etransitivity; [apply (@ChannelKey_collision sorted_order "acme" "orders" "new"); discriminate|].
  vm_compute. reflexivity.
Defined.

(** The cases of the repository's own registry tests. *)
Example registry_test_unsubscribe_all :
  let r := foldl (@apply_op sorted_order) empty_registry
    [OpSubscribe "client-a" "events" "tenant-1"; OpSubscribe "client-a" "alerts" "tenant-1"] in
  SubscriptionCountForTest "tenant-1:events" r = 1%nat ∧
  SubscriptionCountForTest "tenant-1:events" (@UnsubscribeAll sorted_order "client-a" r) = 0%nat.
Proof. by vm_compute. Qed.
