(* ===== verification/Grpc.v ===== *)
(** * Messages and statuses of the RPC layer (src/proto/mtdd.proto)

    The protobuf messages as records, with their proto3 default values where a
    handler may leave a response untouched, and [grpc::Status]. *)
From S2P Require Import Prelude CppStd.
Local Open Scope Z_scope.

(** The status codes the handlers return. *)
Inductive StatusCode := OK | INVALID_ARGUMENT | FAILED_PRECONDITION | CANCELLED.

#[global] Instance StatusCode_eq_dec : EqDecision StatusCode.
Proof. solve_decision. Defined.

Record Status := mkStatus { status_code : StatusCode; error_message : string }.

Definition Status_OK : Status := mkStatus OK "".

(** [status.ok()]. *)
Definition status_ok (s : Status) : bool := bool_decide (status_code s = OK).

(** ** MtddNotify *)

Record NotifySubscribeRequest := mkNotifySubscribeRequest {
  ns_client_id : string; ns_channel : string; ns_tid_scope : string }.
Record NotifyUnsubscribeRequest := mkNotifyUnsubscribeRequest {
  nu_client_id : string; nu_channel : string; nu_tid_scope : string }.
Record NotifyUnsubscribeAllRequest := mkNotifyUnsubscribeAllRequest { nua_client_id : string }.
Record NotifyPublishRequest := mkNotifyPublishRequest {
  np_channel : string; np_payload : string; np_tid_scope : string }.
Record NotifyWatchRequest := mkNotifyWatchRequest { nw_client_id : string }.

Record NotifyAck := mkNotifyAck { ack_ok : bool; ack_message : string; ack_delivered_count : Z }.

Definition NotifyAck_default : NotifyAck := mkNotifyAck false "" 0.

(** ** MtddShard *)

Inductive ChunkKind :=
| CHUNK_KIND_UNSPECIFIED | CHUNK_KIND_SCHEMA | CHUNK_KIND_BATCH | CHUNK_KIND_TRAILER
| CHUNK_KIND_ERROR.

#[global] Instance ChunkKind_eq_dec : EqDecision ChunkKind.
Proof. solve_decision. Defined.

(** The fields of [ConnectRequest] the server reads. *)
Record ConnectRequest := mkConnectRequest {
  cr_host_index : Z; cr_dbname : string; cr_user : string; cr_password : string;
  cr_port : Z; cr_database : string }.

Record ConnectResponse := mkConnectResponse { cresp_ok : bool; cresp_message : string }.

Record QueryParam := mkQueryParam { qp_oid : Z; qp_format : Z; qp_value : string }.

Record QueryRequest := mkQueryRequest {
  qr_host_index : Z; qr_text : string; qr_name : string; qr_row_mode : string;
  qr_session_id : string; qr_params : list QueryParam; qr_result_format : Z }.

Record ResultChunk := mkResultChunk {
  rc_kind : ChunkKind; rc_flatbuffer_meta : string; rc_payload : string }.

Record DisconnectRequest := mkDisconnectRequest { dr_host_index : Z }.
Record DisconnectResponse := mkDisconnectResponse { dresp_ok : bool }.
