(* ===== verification/NotifyService.v ===== *)
(** * The MtddNotify service (src/src/service/mtdd_notify_service.cpp)

    The RPC handlers: argument checks, the registry operation, the log line and
    the acknowledgement. A handler that returns early leaves the response at
    its default. *)
From S2P Require Import Prelude CppStd Log Config Grpc Registry.
Local Open Scope Z_scope.
Local Open Scope cpp_scope.

Definition ValidateClientId (client_id : string) : Status :=
  if str_empty client_id then mkStatus INVALID_ARGUMENT "client_id is required" else Status_OK.

Definition ValidateChannel (channel : string) : Status :=
  if str_empty channel then mkStatus INVALID_ARGUMENT "channel is required" else Status_OK.

Definition SetAck (ok : bool) (message : string) (delivered_count : Z) : NotifyAck :=
  mkNotifyAck ok message delivered_count.

(** [config_] is the configuration the service was built with. *)
Definition ValidateNotifyLimits (config_ : ServerConfig) (channel payload : string) : Status :=
  if max_notify_channel_bytes config_ <? to_int32 (str_size channel) then
    mkStatus INVALID_ARGUMENT "channel exceeds MTDD_MAX_NOTIFY_CHANNEL_BYTES"
  else if max_notify_payload_bytes config_ <? to_int32 (str_size payload) then
    mkStatus INVALID_ARGUMENT "payload exceeds MTDD_MAX_NOTIFY_PAYLOAD_BYTES"
  else Status_OK.

Section Handlers.
Context `{!HashOrder} {net : Type} `{!NotifyStreams net}.

(** The registry, the gRPC streams and the log. *)
Record notify_state := mkNotifyState {
  registry_ : NotifyRegistry;
  streams : net;
  cerr : list string;
}.

Definition on_registry (f : NotifyRegistry → NotifyRegistry) : M notify_state unit :=
  modify (λ s, mkNotifyState (f (registry_ s)) (streams s) (cerr s)).

Definition log_info (event detail : string) : M notify_state unit :=
  modify (λ s, mkNotifyState (registry_ s) (streams s) (Info event detail (cerr s))).

(** [if (status = check; !status.ok()) return status;] before the rest. *)
Definition guard {A} (check : Status) (dflt : A) (k : M notify_state (Status * A))
  : M notify_state (Status * A) :=
  if negb (status_ok check) then m_ret (check, dflt) else k.

Definition Subscribe (config_ : ServerConfig) (request : NotifySubscribeRequest)
  : M notify_state (Status * NotifyAck) :=
  guard (ValidateClientId (ns_client_id request)) NotifyAck_default (
  guard (ValidateChannel (ns_channel request)) NotifyAck_default (
  guard (ValidateNotifyLimits config_ (ns_channel request) "") NotifyAck_default (
  on_registry (Registry.Subscribe (ns_client_id request) (ns_channel request)
                 (ns_tid_scope request)) ;;
  log_info "notify_subscribe" (ns_client_id request +:+ " " +:+ ns_channel request) ;;
  m_ret (Status_OK, SetAck true "subscribed" 0)))).

Definition Unsubscribe (request : NotifyUnsubscribeRequest)
  : M notify_state (Status * NotifyAck) :=
  guard (ValidateClientId (nu_client_id request)) NotifyAck_default (
  guard (ValidateChannel (nu_channel request)) NotifyAck_default (
  on_registry (Registry.Unsubscribe (nu_client_id request) (nu_channel request)
                 (nu_tid_scope request)) ;;
  log_info "notify_unsubscribe" (nu_client_id request +:+ " " +:+ nu_channel request) ;;
  m_ret (Status_OK, SetAck true "unsubscribed" 0))).

Definition UnsubscribeAll (request : NotifyUnsubscribeAllRequest)
  : M notify_state (Status * NotifyAck) :=
  guard (ValidateClientId (nua_client_id request)) NotifyAck_default (
  on_registry (Registry.UnsubscribeAll (nua_client_id request)) ;;
  log_info "notify_unsubscribe_all" (nua_client_id request) ;;
  m_ret (Status_OK, SetAck true "unsubscribed all" 0)).

Definition registry_publish (channel payload tid_scope : string) : M notify_state Z :=
  λ s, let '(delivered, n) := Registry.Publish channel payload tid_scope (registry_ s) (streams s) in
       (Ret delivered, mkNotifyState (registry_ s) n (cerr s)).

Definition Publish (config_ : ServerConfig) (request : NotifyPublishRequest)
  : M notify_state (Status * NotifyAck) :=
  guard (ValidateChannel (np_channel request)) NotifyAck_default (
  guard (ValidateNotifyLimits config_ (np_channel request) (np_payload request)) NotifyAck_default (
  let* delivered := registry_publish (np_channel request) (np_payload request)
                      (np_tid_scope request) in
  log_info "notify_publish" (np_channel request +:+ " delivered=" +:+ to_string delivered) ;;
  m_ret (Status_OK, SetAck true "published" delivered))).

(** [Watch] registers the stream, polls for cancellation and unregisters it;
    other handlers run while it polls. *)
Definition Watch_begin (request : NotifyWatchRequest) (w : writer) : M notify_state unit :=
  on_registry (RegisterWatch (nw_client_id request) (Some w)) ;;
  log_info "notify_watch" (nw_client_id request).

Definition Watch_end (request : NotifyWatchRequest) (w : writer) : M notify_state unit :=
  on_registry (UnregisterWatch (nw_client_id request) (Some w)) ;;
  log_info "notify_watch_end" (nw_client_id request).

(** [cancelled i] is the answer of the [i]-th [context->IsCancelled()], and
    [others i] what the other handlers do to the state during the sleep that
    follows it; [fuel] bounds the number of polls. *)
Fixpoint Watch_loop (fuel : nat) (cancelled : nat → bool) (others : nat → M notify_state unit)
    (i : nat) : M notify_state unit :=
  match fuel with
  | O => hang OutOfFuel
  | S fuel' =>
      if cancelled i then m_ret tt
      else others i ;; Watch_loop fuel' cancelled others (i + 1)
  end.

Definition Watch (fuel : nat) (cancelled : nat → bool) (others : nat → M notify_state unit)
    (request : NotifyWatchRequest) (w : writer) : M notify_state (Status * unit) :=
  guard (ValidateClientId (nw_client_id request)) tt (
  Watch_begin request w ;;
  Watch_loop fuel cancelled others 0 ;;
  Watch_end request w ;;
  m_ret (Status_OK, tt)).

(** ** Properties *)

(** The request passes the checks of [Subscribe]. *)
Definition subscribe_accepted (config_ : ServerConfig) (request : NotifySubscribeRequest) : Prop :=
  ns_client_id request ≠ "" ∧ ns_channel request ≠ ""
  ∧ to_int32 (str_size (ns_channel request)) ≤ max_notify_channel_bytes config_
  ∧ 0 ≤ max_notify_payload_bytes config_.

Lemma ValidateClientId_ok c : status_ok (ValidateClientId c) = true ↔ c ≠ "".
Proof. unfold ValidateClientId. destruct c; split; done. Qed.

Lemma ValidateChannel_ok c : status_ok (ValidateChannel c) = true ↔ c ≠ "".
Proof. unfold ValidateChannel. destruct c; split; done. Qed.

Lemma ValidateNotifyLimits_ok config_ ch p :
  status_ok (ValidateNotifyLimits config_ ch p) = true ↔
  to_int32 (str_size ch) ≤ max_notify_channel_bytes config_
  ∧ to_int32 (str_size p) ≤ max_notify_payload_bytes config_.
Proof. unfold ValidateNotifyLimits, status_ok. repeat case_if; simpl; split; try done; lia. Qed.

Lemma Validate_codes :
  (∀ c, status_ok (ValidateClientId c) = false →
        status_code (ValidateClientId c) = INVALID_ARGUMENT)
  ∧ (∀ c, status_ok (ValidateChannel c) = false →
          status_code (ValidateChannel c) = INVALID_ARGUMENT)
  ∧ (∀ config_ ch p, status_ok (ValidateNotifyLimits config_ ch p) = false →
          status_code (ValidateNotifyLimits config_ ch p) = INVALID_ARGUMENT).
Proof.
  unfold ValidateClientId, ValidateChannel, ValidateNotifyLimits.
  repeat split; intros *; repeat case_if; done.
Qed.

(** A guard either stops with its status or lets the handler go on. *)
Lemma guard_run {A} check (dflt : A) k s :
  guard check dflt k s = if status_ok check then k s else (Ret (check, dflt), s).
Proof. unfold guard. by destruct (status_ok check). Qed.

(** [Subscribe] acknowledges a request exactly when the client and the
    channel are named and the channel fits the configured limit; it then
    registers the subscription, and otherwise it answers INVALID_ARGUMENT with
    an empty acknowledgement and changes nothing. *)
Theorem Subscribe_behaviour config_ request s :
  (subscribe_accepted config_ request →
   ∃ log, Subscribe config_ request s =
     (Ret (Status_OK, SetAck true "subscribed" 0),
      mkNotifyState (Registry.Subscribe (ns_client_id request) (ns_channel request)
                       (ns_tid_scope request) (registry_ s)) (streams s) log))
  ∧ (¬ subscribe_accepted config_ request →
     ∃ st, Subscribe config_ request s = (Ret (st, NotifyAck_default), s)
       ∧ status_code st = INVALID_ARGUMENT).
Proof.
  unfold Subscribe, subscribe_accepted. rewrite !guard_run.
  destruct Validate_codes as (C1 & C2 & C3).
  specialize (C1 (ns_client_id request)). specialize (C2 (ns_channel request)).
  specialize (C3 config_ (ns_channel request) "").
  rewrite <-ValidateClientId_ok, <-ValidateChannel_ok.
  pose proof (ValidateNotifyLimits_ok config_ (ns_channel request) "") as HL.
  change (to_int32 (str_size "")) with 0 in HL.
  repeat case_if; split; intros Hacc;
    try (eexists; split; [reflexivity|by auto]); try (eexists; reflexivity);
    exfalso; intuition congruence.
Qed.

Definition publish_accepted (config_ : ServerConfig) (request : NotifyPublishRequest) : Prop :=
  np_channel request ≠ ""
  ∧ to_int32 (str_size (np_channel request)) ≤ max_notify_channel_bytes config_
  ∧ to_int32 (str_size (np_payload request)) ≤ max_notify_payload_bytes config_.

(** [Publish] delivers exactly the requests within the limits: it then
    reports the registry's delivery count, and otherwise it answers
    INVALID_ARGUMENT without writing to any stream. The subscription tables
    are the same in both cases. *)
Theorem Publish_behaviour config_ request s :
  (publish_accepted config_ request →
   ∃ log, Publish config_ request s =
     let '(delivered, n) := Registry.Publish (np_channel request) (np_payload request)
                              (np_tid_scope request) (registry_ s) (streams s) in
     (Ret (Status_OK, SetAck true "published" delivered), mkNotifyState (registry_ s) n log))
  ∧ (¬ publish_accepted config_ request →
     ∃ st, Publish config_ request s = (Ret (st, NotifyAck_default), s)
       ∧ status_code st = INVALID_ARGUMENT).
Proof.
  unfold Publish, publish_accepted. rewrite !guard_run.
  destruct Validate_codes as (_ & C2 & C3). specialize (C2 (np_channel request)).
  specialize (C3 config_ (np_channel request) (np_payload request)).
  rewrite <-ValidateChannel_ok, <-ValidateNotifyLimits_ok.
  repeat case_if; split; intros Hacc; try (eexists; split; [reflexivity|by auto]);
    try (exfalso; intuition congruence).
  unfold m_bind, registry_publish. destruct (Registry.Publish _ _ _ _ _) as [d n].
  eexists. reflexivity.
Qed.

Lemma Watch_loop_returns cancelled others i k s :
  cancelled (k + i)%nat = true →
  (∀ j s, ∃ s1, others j s = (Ret tt, s1)) →
  ∃ s1, Watch_loop (S i) cancelled others k s = (Ret tt, s1).
Proof.
  intros Hc Ho. revert k s Hc. induction i as [|i IH]; intros k s Hc; cbn [Watch_loop].
  - rewrite Nat.add_0_r in Hc. rewrite Hc. by eexists.
  - destruct (cancelled k); [by eexists|]. destruct (Ho k s) as [s1 E]. unfold m_bind. rewrite E.
    apply (IH (k + 1)%nat s1). by replace (k + 1 + i)%nat with (k + S i)%nat by lia.
Qed.

Lemma UnregisterWatch_gone c w r :
  c ≠ "" → w ∉ default [] (watchers_ (UnregisterWatch c (Some w) r) !! c).
Proof.
  intros Hc. unfold UnregisterWatch, IsValidClientId. rewrite negb_involutive.
  destruct (str_empty c) eqn:E; [by apply str_empty_spec in E|].
  destruct (watchers_ r !! c) as [l|] eqn:El; simpl.
  - case_bool_decide; [rewrite lookup_delete_eq; apply not_elem_of_nil|].
    rewrite lookup_insert_eq. simpl. rewrite list_elem_of_filter. naive_solver.
  - rewrite El. apply not_elem_of_nil.
Qed.

(** C39: a [Watch] call whose client cancels at its [i]-th poll returns OK after
    that poll, whatever the other handlers do in between, and its stream is no
    longer among the streams of its client. *)
Theorem Watch_returns_clean cancelled others i request w s :
  nw_client_id request ≠ "" → cancelled i = true →
  (∀ j s, ∃ s1, others j s = (Ret tt, s1)) →
  ∃ s', Watch (S i) cancelled others request w s = (Ret (Status_OK, tt), s')
    ∧ w ∉ default [] (watchers_ (registry_ s') !! nw_client_id request).
Proof.
  intros Hc Hi Ho. unfold Watch. rewrite guard_run, (proj2 (ValidateClientId_ok _) Hc).
  unfold m_bind at 1. unfold Watch_begin, on_registry, log_info, modify, m_bind at 1. cbn -[Watch_loop].
  match goal with |- context [m_bind (Watch_loop _ _ _ _) _ ?s0] =>
    destruct (Watch_loop_returns cancelled others i 0 s0 Hi Ho) as [s1 E] end.
  unfold m_bind at 1. rewrite E. eexists. split; [reflexivity|]. by apply UnregisterWatch_gone.
Qed.

End Handlers.

Arguments notify_state : clear implicits.

(** ** Concrete runs *)

Definition init_state : notify_state (list (writer * NotifyMessage)) :=
  mkNotifyState (foldl (@apply_op sorted_order) empty_registry sample_ops) [] [].

(** The loop answers: not cancelled twice, then cancelled. *)
Lemma Watch_returns_clean_witness :
  ∃ s', Watch 3 (λ i, Nat.leb 2 i) (λ _, m_ret tt) (mkNotifyWatchRequest "client-a") 9%nat init_state
      = (Ret (Status_OK, tt), s')
    ∧ 9%nat ∉ default [] (watchers_ (registry_ s') !! "client-a").
Proof.
  apply (Watch_returns_clean (λ i, Nat.leb 2 i) (λ _, m_ret tt) 2
           (mkNotifyWatchRequest "client-a") 9%nat init_state).
  - discriminate.
  - reflexivity.
  - intros j s. exists s. reflexivity.
Defined.

Example publish_rejects_long_channel :
  (@Publish sorted_order _ mock_streams default_config
     (mkNotifyPublishRequest "0123456789012345678901234567890123456789012345678901234567890123" "x" "")
     init_state).1
  = Ret (mkStatus INVALID_ARGUMENT "channel exceeds MTDD_MAX_NOTIFY_CHANNEL_BYTES",
         NotifyAck_default).
Proof. by vm_compute. Qed.

Example publish_reports_delivery :
  match @Publish sorted_order _ mock_streams default_config
          (mkNotifyPublishRequest "events" "hello" "") init_state with
  | (Ret (st, ack), s) => status_ok st = true ∧ ack = SetAck true "published" 1
                          ∧ length (streams s) = 2%nat
  | _ => False
  end.
Proof. vm_compute. by repeat split. Qed.
