(* ===== verification/NotifyConc.v ===== *)
(** * Interleavings of Publish and Watch
    (src/src/notify/registry.cpp, src/src/service/mtdd_notify_service.cpp)

    The handlers run on different gRPC threads. The registry mutex makes each
    table operation atomic; [Publish] writes to the streams it copied after it
    has released the mutex. A stream exists as long as its [Watch] call runs.
    The steps below are the atomic sections of the handlers. *)
From S2P Require Import Prelude CppStd Grpc Registry.

Section Interleaving.
Context `{!HashOrder}.

Record conc := mkConc {
  c_reg : NotifyRegistry;
  (** the running [Watch] calls: their stream and their client *)
  c_open : gmap writer string;
  (** the publishers between their snapshot and their last write *)
  c_pubs : list (list writer);
  (** the writes so far, and whether the stream still existed *)
  c_writes : list (writer * bool);
}.

Definition conc_init : conc := mkConc empty_registry ∅ [] [].

Definition is_subscription (o : op) : bool :=
  match o with
  | OpSubscribe _ _ _ | OpUnsubscribe _ _ _ | OpUnsubscribeAll _ => true
  | _ => false
  end.

Inductive cstep : conc → conc → Prop :=
| cs_subscription s o :
    is_subscription o = true →
    cstep s (mkConc (apply_op (c_reg s) o) (c_open s) (c_pubs s) (c_writes s))
| cs_watch_begin s c w :
    c ≠ "" → c_open s !! w = None →
    cstep s (mkConc (RegisterWatch c (Some w) (c_reg s)) (<[w := c]> (c_open s))
               (c_pubs s) (c_writes s))
| cs_watch_end s c w :
    c_open s !! w = Some c →
    cstep s (mkConc (UnregisterWatch c (Some w) (c_reg s)) (delete w (c_open s))
               (c_pubs s) (c_writes s))
| cs_snapshot s channel tid_scope :
    channel ≠ "" →
    cstep s (mkConc (c_reg s) (c_open s)
               (c_pubs s ++ [PublishTargets channel tid_scope (c_reg s)]) (c_writes s))
| cs_write s i w rest :
    c_pubs s !! i = Some (w :: rest) →
    cstep s (mkConc (c_reg s) (c_open s) (<[i := rest]> (c_pubs s))
               (c_writes s ++ [(w, bool_decide (is_Some (c_open s !! w)))])).

Definition reachable (s : conc) : Prop := rtc cstep conc_init s.

(** ** The tables only hold streams of running calls *)

Definition watchers_of (r : NotifyRegistry) (c : string) : list writer :=
  default [] (watchers_ r !! c).

Lemma RemoveClientFromKey_watchers c ks r :
  watchers_ (foldl (λ r key, RemoveClientFromKey c key r) r ks) = watchers_ r.
Proof. revert r. induction ks as [|k ks IH]; intros r; simpl; [done|]. by rewrite IH. Qed.

Lemma subscription_watchers o r :
  is_subscription o = true → watchers_ (apply_op r o) = watchers_ r.
Proof.
  destruct o; try done; intros _; simpl.
  - unfold Subscribe. by case_if.
  - unfold Unsubscribe. by case_if.
  - unfold UnsubscribeAll. case_if; [done|]. case_match; [|done].
    apply RemoveClientFromKey_watchers.
Qed.

Lemma RegisterWatch_elem c w r c' w' :
  w' ∈ watchers_of (RegisterWatch c (Some w) r) c' →
  w' ∈ watchers_of r c' ∨ (c' = c ∧ w' = w).
Proof.
  unfold RegisterWatch, watchers_of. case_if; [auto|]. simpl.
  destruct (decide (c = c')) as [->|Hne].
  - rewrite lookup_insert_eq. simpl. rewrite elem_of_app, list_elem_of_singleton. naive_solver.
  - rewrite lookup_insert_ne by done. auto.
Qed.

Lemma UnregisterWatch_elem c w r c' w' :
  c ≠ "" →
  w' ∈ watchers_of (UnregisterWatch c (Some w) r) c' →
  w' ∈ watchers_of r c' ∧ ¬ (c' = c ∧ w' = w).
Proof.
  unfold UnregisterWatch, watchers_of, IsValidClientId. intros Hc. rewrite negb_involutive.
  destruct (str_empty c) eqn:Ec; [by apply str_empty_spec in Ec|].
  destruct (watchers_ r !! c) as [l|] eqn:El; simpl.
  - destruct (decide (c = c')) as [->|Hne].
    + case_bool_decide; [rewrite lookup_delete_eq; simpl; intros []%not_elem_of_nil|].
      rewrite lookup_insert_eq, El. simpl. rewrite list_elem_of_filter. naive_solver.
    + case_bool_decide; [rewrite lookup_delete_ne by done|rewrite lookup_insert_ne by done];
        naive_solver.
  - intros Hw. split; [done|]. intros [-> ->]. rewrite El in Hw. by apply not_elem_of_nil in Hw.
Qed.

Record conc_inv (s : conc) : Prop := {
  inv_open c w : w ∈ watchers_of (c_reg s) c → c_open s !! w = Some c;
  inv_named w c : c_open s !! w = Some c → c ≠ "";
}.

Lemma conc_inv_init : conc_inv conc_init.
Proof.
  split; unfold watchers_of; simpl; intros *; rewrite lookup_empty; [|done].
  intros []%not_elem_of_nil.
Qed.

Lemma conc_inv_step s s' : cstep s s' → conc_inv s → conc_inv s'.
Proof.
  intros Hstep [Ho Hn]. destruct Hstep as [s o Hs|s c w Hc Hw|s c w Hw|s ch t Hch|s i w rest Hi];
    split; simpl; auto.
  - unfold watchers_of. rewrite subscription_watchers by done. apply Ho.
  - intros c' w' [Hin|[-> ->]]%RegisterWatch_elem; [|by rewrite lookup_insert_eq].
    rewrite lookup_insert_ne; [by apply Ho|]. intros ->. apply Ho in Hin. congruence.
  - intros w' c'. rewrite lookup_insert. case_decide; naive_solver.
  - intros c' w' [Hin Hne]%UnregisterWatch_elem; [|by eapply Hn].
    rewrite lookup_delete_ne; [by apply Ho|]. intros ->. apply Ho in Hin.
    apply Hne. split; congruence.
  - intros w' c'. rewrite lookup_delete. case_decide; naive_solver.
Qed.

(** C30: in every reachable state, the streams the registry knows for a client
    belong to [Watch] calls of that client that are still running; so the
    targets of a publisher are all alive at the moment of its snapshot. *)
Theorem registered_streams_alive s :
  reachable s →
  (∀ c w, w ∈ watchers_of (c_reg s) c → c_open s !! w = Some c) ∧
  (∀ channel tid_scope w, w ∈ PublishTargets channel tid_scope (c_reg s) →
     is_Some (c_open s !! w)).
Proof.
  intros Hr. apply (rtc_invariant _ conc_inv) in Hr as [Ho _];
    [|apply conc_inv_init|by eauto using conc_inv_step].
  split; [done|]. intros ch t w. unfold PublishTargets. case_match; [|intros []%not_elem_of_nil].
  rewrite list_elem_of_bind. intros (c & Hw & _). apply Ho in Hw. eauto.
Qed.

(** Two publishers have taken their snapshot, then the watching call returns. *)
Definition hazard_reg : NotifyRegistry :=
  RegisterWatch "c" (Some 0) (Subscribe "c" "events" "" empty_registry).

Lemma hazard_targets : PublishTargets "events" "" hazard_reg = [0].
Proof.
  unfold PublishTargets.
  replace (subscriptions_ hazard_reg !! ChannelKey "events" "") with (Some ({["c"]} : gset string))
    by by vm_compute.
  assert (hash_order {["c"]} = ["c"]) as ->; [|by vm_compute].
  apply Permutation_singleton_r. rewrite hash_order_perm. by rewrite elements_singleton.
Qed.

(** Liveness at the snapshot is all the mutex guarantees: from the initial
    state the handlers can reach a state where two publishers are about to
    write to the same stream at the same time, and from there a state where a
    publisher has written to a stream whose [Watch] call had returned. *)
Theorem publish_outlives_watch :
  ∃ s s', reachable s ∧ rtc cstep s s'
    ∧ c_pubs s = [[0]; [0]] ∧ c_open s !! 0 = Some "c"
    ∧ (0, false) ∈ c_writes s'.
Proof.
  exists (mkConc hazard_reg {[0 := "c"]} [[0]; [0]] []).
  exists (mkConc (UnregisterWatch "c" (Some 0) hazard_reg) ∅ [[]; [0]] [(0, false)]).
  split_and!; [| |done|done|by left].
  - eapply rtc_l; [apply (cs_subscription _ (OpSubscribe "c" "events" "")); done|].
    eapply rtc_l; [apply (cs_watch_begin _ "c" 0); done|].
    eapply rtc_l; [apply (cs_snapshot _ "events" ""); done|].
    eapply rtc_l; [apply (cs_snapshot _ "events" ""); done|].
    cbn [c_reg c_open c_pubs c_writes apply_op conc_init].
    change (RegisterWatch "c" (Some 0) (Subscribe "c" "events" "" empty_registry)) with hazard_reg.
    rewrite hazard_targets. apply rtc_refl.
  - eapply rtc_l; [apply (cs_watch_end _ "c" 0); done|].
    eapply rtc_l; [apply (cs_write _ 0 0 []); done|]. apply rtc_refl.
Qed.

End Interleaving.

Lemma registered_streams_alive_witness :
  @reachable sorted_order
    (mkConc hazard_reg {[0 := "c"]} [] []) ∧
  (∀ c w, w ∈ watchers_of hazard_reg c → ({[0 := "c"]} : gmap writer string) !! w = Some c).
Proof.
  assert (@reachable sorted_order (mkConc hazard_reg {[0 := "c"]} [] [])) as Hr.
  { eapply rtc_l; [apply (@cs_subscription sorted_order _ (OpSubscribe "c" "events" "")); reflexivity|].
    eapply rtc_l; [apply (@cs_watch_begin sorted_order _ "c" 0); [discriminate|reflexivity]|].
    apply rtc_refl. }
  split; [exact Hr|]. exact (proj1 (@registered_streams_alive sorted_order _ Hr)).
Defined.
