(* ===== verification/Libpq.v ===== *)
(** * The libpq interface

    libpq and the PostgreSQL server behind it are not part of the repository:
    they are parameters, one class for the accessors of a [PGresult] and one
    for the operations on connections. The documented facts that some theorems
    rely on are separate classes of laws. *)
From S2P Require Import Prelude CppStd.
Local Open Scope Z_scope.

Inductive ConnStatusType := CONNECTION_OK | CONNECTION_BAD.

Inductive ExecStatusType :=
| PGRES_EMPTY_QUERY | PGRES_COMMAND_OK | PGRES_TUPLES_OK | PGRES_COPY_OUT | PGRES_COPY_IN
| PGRES_BAD_RESPONSE | PGRES_NONFATAL_ERROR | PGRES_FATAL_ERROR | PGRES_COPY_BOTH
| PGRES_SINGLE_TUPLE | PGRES_PIPELINE_SYNC | PGRES_PIPELINE_ABORTED.

Inductive PGTransactionStatusType :=
| PQTRANS_IDLE | PQTRANS_ACTIVE | PQTRANS_INTRANS | PQTRANS_INERROR | PQTRANS_UNKNOWN.

(** The error fields the server reads. *)
Inductive PG_DIAG :=
| PG_DIAG_SQLSTATE | PG_DIAG_SEVERITY | PG_DIAG_MESSAGE_PRIMARY | PG_DIAG_MESSAGE_DETAIL
| PG_DIAG_STATEMENT_POSITION.

#[global] Instance ConnStatusType_eq_dec : EqDecision ConnStatusType.
Proof. solve_decision. Defined.
#[global] Instance ExecStatusType_eq_dec : EqDecision ExecStatusType.
Proof. solve_decision. Defined.
#[global] Instance PGTransactionStatusType_eq_dec : EqDecision PGTransactionStatusType.
Proof. solve_decision. Defined.

(** Accessors of a result that is not null; a [char*] that may be null is an
    option. [PQgetvalue] gives the bytes from the start of the cell on. *)
Class PGResult (pgresult : Type) := {
  PQresultStatus : pgresult → ExecStatusType;
  PQresultErrorMessage : pgresult → string;
  PQresultErrorField : pgresult → PG_DIAG → option string;
  PQcmdStatus : pgresult → option string;
  PQcmdTuples : pgresult → option string;
  PQnfields : pgresult → Z;
  PQntuples : pgresult → Z;
  PQfname : pgresult → Z → option string;
  PQftable : pgresult → Z → Z;
  PQftablecol : pgresult → Z → Z;
  PQftype : pgresult → Z → Z;
  PQfformat : pgresult → Z → Z;
  PQgetisnull : pgresult → Z → Z → bool;
  PQgetvalue : pgresult → Z → Z → option string;
  PQgetlength : pgresult → Z → Z → Z;
}.

(** [PQresultStatus] and [PQresultErrorMessage] also accept a null result. *)
Definition result_status {R} `{!PGResult R} (r : option R) : ExecStatusType :=
  match r with Some r => PQresultStatus r | None => PGRES_FATAL_ERROR end.
Definition result_error {R} `{!PGResult R} (r : option R) : string :=
  match r with Some r => PQresultErrorMessage r | None => "" end.

(** The content of a cell: SQL NULL, or its bytes. *)
Definition cell {R} `{!PGResult R} (r : R) (row col : Z) : option string :=
  if PQgetisnull r row col then None
  else Some (match PQgetvalue r row col with
             | Some v => str_take (Z.to_nat (PQgetlength r row col)) v
             | None => ""
             end).

(** The shape of results: counts are not negative and fit in an [int]; a cell
    that is not NULL has a pointer to at least [PQgetlength] bytes. *)
Class PGResultLaws (R : Type) `{!PGResult R} := {
  PQnfields_range r : 0 ≤ PQnfields r ≤ INT_MAX;
  PQntuples_range r : 0 ≤ PQntuples r ≤ INT_MAX;
  PQgetlength_range r i j : 0 ≤ PQgetlength r i j ≤ INT_MAX;
  PQgetvalue_bytes r i j : PQgetisnull r i j = false →
    ∃ v, PQgetvalue r i j = Some v ∧ PQgetlength r i j ≤ str_size v;
}.

(** One bound parameter as [PQexecParams] receives it: its type, its value
    ([None] for a null pointer), its length and its format. *)
Record exec_param := mkExecParam {
  ep_type : Z; ep_value : option string; ep_length : Z; ep_format : Z }.

(** Operations on connections, over the state [W] of libpq and the server. *)
Class PGConn (pgconn pgresult W : Type) := {
  PQconnectdb : string → W → option pgconn * W;
  PQfinish : pgconn → W → W;
  PQstatus : pgconn → W → ConnStatusType;
  PQerrorMessage : pgconn → W → string;
  PQtransactionStatus : pgconn → W → PGTransactionStatusType;
  PQexec : pgconn → string → W → option pgresult * W;
  PQexecParams : pgconn → string → list exec_param → Z → W → option pgresult * W;
  PQclear : pgresult → W → W;
}.

(** libpq as one parameter: its handle types, the state of the library and the
    server, and the operations. *)
Class Libpq := {
  pgconn : Type;
  pgresult : Type;
  pgworld : Type;
  libpq_result :: PGResult pgresult;
  libpq_conn :: PGConn pgconn pgresult pgworld;
}.
