(* ===== verification/MockResult.v ===== *)
(** * A concrete result table

    An instance of the result interface of libpq, a table of optional byte
    strings, on which the definitions of the library are run. It also shows
    that the laws of [PGResultLaws] can hold. *)
From S2P Require Import Prelude CppStd Libpq.
Local Open Scope Z_scope.

Record table := mkTable {
  t_status : ExecStatusType;
  t_error : string;
  t_cmd : option string;
  t_tuples : option string;
  t_fields : list (string * Z * Z);  (* name, type OID, format *)
  t_rows : list (list (option string));
}.

Definition t_cell (t : table) (i j : Z) : option string :=
  match t_rows t !! Z.to_nat i with
  | Some row => match row !! Z.to_nat j with Some c => c | None => None end
  | None => None
  end.

#[global] Instance table_result : PGResult table := {
  PQresultStatus := t_status;
  PQresultErrorMessage := t_error;
  PQresultErrorField t d := match d with PG_DIAG_MESSAGE_PRIMARY => Some (t_error t) | _ => None end;
  PQcmdStatus := t_cmd;
  PQcmdTuples := t_tuples;
  PQnfields t := Z.min INT_MAX (Z.of_nat (length (t_fields t)));
  PQntuples t := Z.min INT_MAX (Z.of_nat (length (t_rows t)));
  PQfname t j := match t_fields t !! Z.to_nat j with Some (n, _, _) => Some n | None => None end;
  PQftable _ _ := 0;
  PQftablecol _ _ := 0;
  PQftype t j := match t_fields t !! Z.to_nat j with Some (_, o, _) => o | None => 0 end;
  PQfformat t j := match t_fields t !! Z.to_nat j with Some (_, _, f) => f | None => 0 end;
  PQgetisnull t i j := match t_cell t i j with Some _ => false | None => true end;
  PQgetvalue t i j := t_cell t i j;
  PQgetlength t i j :=
    match t_cell t i j with Some v => Z.min INT_MAX (str_size v) | None => 0 end;
}.

#[global] Instance table_laws : PGResultLaws table.
Proof.
  split; simpl; intros.
  - unfold INT_MAX. lia.
  - unfold INT_MAX. lia.
  - destruct (t_cell r i j) as [v|]; [pose proof (str_size_nonneg v)|]; unfold INT_MAX; lia.
  - destruct (t_cell r i j) as [v|]; [|done]. exists v. split; [done|]. lia.
Qed.

(** Two columns, three rows, one NULL. *)
Definition sample_table : table := mkTable PGRES_TUPLES_OK "" (Some "SELECT 3") (Some "3")
  [("id", 23, 1); ("name", 25, 1)]
  [[Some "1"; Some "alpha"]; [Some "2"; None]; [Some "3"; Some ""]].

(** The result of a statement without rows. *)
Definition command_table (tag tuples : string) : table :=
  mkTable PGRES_COMMAND_OK "" (Some tag) (Some tuples) [] [].

Definition error_table (message : string) : table :=
  mkTable PGRES_FATAL_ERROR message (Some "") (Some "") [] [].
