(* ===== verification/Rpgb.v ===== *)
(** * RPGB v1 batches (src/src/codec/raw_batch_encoder.{h,cpp})

    The encoder of the server and the decoder of the client
    (src/integration/lib/pg-binary-decode.js), with their round trip. *)
From S2P Require Import Prelude CppStd Libpq MockResult.
From Stdlib Require Import NArith.
Local Open Scope Z_scope.
Local Open Scope cpp_scope.

(** A byte of a [std::string] from its value, and back. *)
Definition byte_of_Z (z : Z) : ascii := Ascii.ascii_of_N (Z.to_N z).
Definition Z_of_byte (c : ascii) : Z := Z.of_N (Ascii.N_of_ascii c).

(** 'RPGB' *)
Definition kRawPgBatchMagic : Z := 0x42504752.
Definition kRawPgBatchVersion : Z := 1.

Definition u32_bytes (value : Z) : string :=
  String (byte_of_Z (Z.land value 0xFF))
  (String (byte_of_Z (Z.land (Z.shiftr value 8) 0xFF))
  (String (byte_of_Z (Z.land (Z.shiftr value 16) 0xFF))
  (String (byte_of_Z (Z.land (Z.shiftr value 24) 0xFF)) ""))).

Definition AppendU32 (out : string) (value : Z) : string := out +:+ u32_bytes value.

Definition AppendBytes (out : string) (data : option string) (length : Z) : string :=
  match data with
  | Some d => if 0 <? length then out +:+ str_take (Z.to_nat length) d else out
  | None => out
  end.

Section Encoder.
Context {S R : Type} `{!PGResult R}.

(** The body of the inner loop. *)
Definition EncodeCell (r : R) (col : Z) (out : string) (row : Z) : M S string :=
  if PQgetisnull r row col then m_ret (out +:+ String "001" "")
  else
    let out := out +:+ String "000" "" in
    let value := PQgetvalue r row col in
    let length := PQgetlength r row col in
    if length <? 0 then throw "EncodeRawPgBatch negative cell length"
    else
      let out := AppendU32 out (to_uint32 length) in
      m_ret (AppendBytes out value length).

Definition EncodeColumn (r : R) (row_begin row_end : Z) (out : string) (col : Z) : M S string :=
  m_foldl (EncodeCell r col) out (seqZ row_begin (row_end - row_begin)).

Definition EncodeRawPgBatch (result : option R) (row_begin row_end : Z) : M S string :=
  match result with
  | None => throw "EncodeRawPgBatch result is null"
  | Some r =>
      if (row_begin <? 0) || (row_end <? row_begin)
      then throw "EncodeRawPgBatch invalid row range"
      else
        let num_cols := PQnfields r in
        let num_rows := row_end - row_begin in
        (* the [int] argument of [out.reserve] *)
        if INT_MAX <? 16 + num_rows * num_cols * 8 then hang SignedOverflow
        else
          let out := AppendU32 "" kRawPgBatchMagic in
          let out := AppendU32 out kRawPgBatchVersion in
          let out := AppendU32 out (to_uint32 num_rows) in
          let out := AppendU32 out (to_uint32 num_cols) in
          m_foldl (EncodeColumn r row_begin row_end) out (seqZ 0 num_cols)
  end.

(** The encoder does not touch the state. *)
Lemma EncodeRawPgBatch_pure result row_begin row_end :
  preserves eq (EncodeRawPgBatch result row_begin row_end).
Proof.
  intros s. unfold EncodeRawPgBatch. destruct result as [r|]; [|done]. do 2 (case_if; [done|]).
  apply (preserves_foldl eq). intros out col. apply (preserves_foldl eq). intros out' row s'.
  unfold EncodeCell. by do 2 (case_if; [done|]).
Qed.
End Encoder.

(** ** The client's decoder

    The buffer is what remains from [offset] on. A row is a JavaScript object,
    a map from column names to values. [decodePgCell], which throws for bytes
    that are no value of the field's type ([Cells]), and the value of SQL NULL
    are arguments. The error text of a wrong magic number leaves out its
    hexadecimal digits. *)
Definition readU32 (buffer : string) : Z :=
  match buffer with
  | String a (String b (String c (String d _))) =>
      Z_of_byte a + Z_of_byte b * 2 ^ 8 + Z_of_byte c * 2 ^ 16 + Z_of_byte d * 2 ^ 24
  | _ => 0
  end.

Section Decoder.
Context {V : Type} (null : V) {field : Type} (field_name : field → string)
        (decodePgCell : field → string → string + V).

Fixpoint decode_column (f : field) (todo row : nat) (buffer : string) (rows : list (gmap string V))
  : string + string * list (gmap string V) :=
  match todo with
  | O => inr (buffer, rows)
  | S todo' =>
      match buffer with
      | EmptyString => inl "raw PG batch truncated"
      | String flag buffer =>
          if negb (Z_of_byte flag =? 0) then
            decode_column f todo' (row + 1) buffer (alter (<[field_name f := null]>) row rows)
          else if str_size buffer <? 4 then inl "raw PG batch truncated at length"
          else
            let valueLen := readU32 buffer in
            let buffer := str_drop 4 buffer in
            if str_size buffer <? valueLen then inl "raw PG batch truncated at value"
            else
              let valueBytes := str_take (Z.to_nat valueLen) buffer in
              match decodePgCell f valueBytes with
              | inl e => inl e
              | inr value =>
                  decode_column f todo' (row + 1) (str_drop (Z.to_nat valueLen) buffer)
                    (alter (<[field_name f := value]>) row rows)
              end
      end
  end.

Fixpoint decode_columns (fields : list field) (num_rows : nat) (buffer : string)
    (rows : list (gmap string V)) : string + list (gmap string V) :=
  match fields with
  | [] => inr rows
  | f :: fields' =>
      match decode_column f num_rows 0 buffer rows with
      | inl e => inl e
      | inr (buffer, rows) => decode_columns fields' num_rows buffer rows
      end
  end.

Definition decodeRawPgBatch (payload : string) (fields : list field)
  : string + list (gmap string V) :=
  if str_empty payload then inr []
  else if str_size payload <? 16 then inl "raw PG batch too short"
  else if negb (readU32 payload =? kRawPgBatchMagic) then inl "invalid raw PG batch magic"
  else if negb (readU32 (str_drop 4 payload) =? kRawPgBatchVersion)
  then inl ("unsupported raw PG batch version: " +:+ to_string (readU32 (str_drop 4 payload)))
  else
    let numRows := readU32 (str_drop 8 payload) in
    let numCols := readU32 (str_drop 12 payload) in
    if negb (numCols =? Z.of_nat (length fields))
    then inl ("column count mismatch: batch=" +:+ to_string numCols +:+ " schema="
              +:+ to_string (Z.of_nat (length fields)))
    else decode_columns fields (Z.to_nat numRows) (str_drop 16 payload)
           (replicate (Z.to_nat numRows) ∅).
End Decoder.

(** ** Words *)

Lemma Z_of_byte_of_Z z : 0 ≤ z < 256 → Z_of_byte (byte_of_Z z) = z.
Proof.
  intros Hz. unfold Z_of_byte, byte_of_Z. rewrite Ascii.N_ascii_embedding by lia. lia.
Qed.

Lemma byte_at value k :
  0 ≤ k → Z_of_byte (byte_of_Z (Z.land (Z.shiftr value k) 0xFF)) = (value / 2 ^ k) `mod` 256.
Proof.
  intros Hk. change 0xFF with (Z.ones 8). rewrite Z.land_ones, Z.shiftr_div_pow2 by lia.
  change (2 ^ 8) with 256. apply Z_of_byte_of_Z, Z.mod_pos_bound. lia.
Qed.

(** Four little-endian bytes determine the 32-bit value they were made from. *)
Lemma readU32_bytes value rest :
  0 ≤ value < 2 ^ 32 → readU32 (u32_bytes value +:+ rest) = value.
Proof.
  intros Hv. unfold u32_bytes. rewrite !str_app_cons. cbn [readU32].
  rewrite <-(Z.shiftr_0_r value) at 1. rewrite !byte_at by lia.
  change (2 ^ 0) with 1. rewrite Z.div_1_r.
  change (2 ^ 8) with 256. change (2 ^ 16) with (256 * 256). change (2 ^ 24) with (256 * 256 * 256).
  change (2 ^ 32) with (256 * 256 * 256 * 256) in Hv.
  rewrite <-!Z.div_div by lia.
  pose proof (Z.div_mod value 256). pose proof (Z.div_mod (value / 256) 256).
  pose proof (Z.div_mod (value / 256 / 256) 256).
  rewrite (Z.mod_small (value / 256 / 256 / 256)); [lia|].
  split; [repeat apply Z.div_pos; lia|]. repeat apply Z.div_lt_upper_bound; lia.
Qed.

Lemma u32_bytes_length value : String.length (u32_bytes value) = 4%nat.
Proof. done. Qed.

(** ** The encoded form *)

Fixpoint str_concat (l : list string) : string :=
  match l with
  | [] => ""
  | s :: l' => s +:+ str_concat l'
  end.

Definition cell_bytes (c : option string) : string :=
  match c with
  | None => String "001" ""
  | Some v => String "000" (u32_bytes (str_size v) +:+ v)
  end.

Lemma str_take_size n v :
  Z.of_nat n ≤ str_size v → str_size (str_take n v) = Z.of_nat n.
Proof.
  unfold str_size. revert v. induction n as [|n IH]; intros v Hv; [done|].
  destruct v as [|c v]; simpl in *; [lia|]. specialize (IH v). lia.
Qed.

Section EncoderFacts.
Context {S R : Type} `{!PGResult R, !PGResultLaws R}.
Implicit Types (s : S) (r : R).

Lemma EncodeCell_bytes r col out row s :
  EncodeCell r col out row s = (Ret (out +:+ cell_bytes (cell r row col)), s).
Proof.
  unfold EncodeCell, cell. destruct (PQgetisnull r row col) eqn:En; [done|].
  destruct (PQgetvalue_bytes r row col En) as (v & Hv & Hlen). rewrite Hv.
  pose proof (PQgetlength_range r row col) as Hr. unfold INT_MAX in Hr.
  replace (PQgetlength r row col <? 0) with false by lia.
  unfold AppendBytes, AppendU32, cell_bytes, m_ret. do 2 f_equal.
  rewrite str_take_size by lia. rewrite Z2Nat.id by lia. rewrite to_uint32_id by lia.
  destruct (0 <? PQgetlength r row col) eqn:E; [by rewrite !str_app_assoc|].
  replace (PQgetlength r row col) with 0 by lia. simpl str_take.
  by rewrite str_app_nil_r, str_app_assoc.
Qed.

Lemma EncodeColumn_bytes r row_begin row_end out col s :
  EncodeColumn r row_begin row_end out col s =
  (Ret (out +:+ str_concat ((λ row, cell_bytes (cell r row col))
                              <$> seqZ row_begin (row_end - row_begin))), s).
Proof.
  unfold EncodeColumn. generalize (seqZ row_begin (row_end - row_begin)). intros rows. revert out.
  induction rows as [|row rows IH]; intros out; simpl; [by rewrite str_app_nil_r|].
  unfold m_bind. rewrite EncodeCell_bytes, IH. by rewrite str_app_assoc.
Qed.

Definition column_bytes r (row_begin row_end col : Z) : string :=
  str_concat ((λ row, cell_bytes (cell r row col)) <$> seqZ row_begin (row_end - row_begin)).

Definition header_bytes (num_rows num_cols : Z) : string :=
  u32_bytes kRawPgBatchMagic +:+ u32_bytes kRawPgBatchVersion
  +:+ u32_bytes num_rows +:+ u32_bytes num_cols.

(** The range is valid and the size hint does not overflow. *)
Definition batch_ok r (row_begin row_end : Z) : Prop :=
  0 ≤ row_begin ≤ row_end ∧ 16 + (row_end - row_begin) * PQnfields r * 8 ≤ INT_MAX
  ∧ row_end - row_begin ≤ INT_MAX.

Lemma EncodeRawPgBatch_bytes r row_begin row_end s :
  batch_ok r row_begin row_end →
  EncodeRawPgBatch (Some r) row_begin row_end s =
  (Ret (header_bytes (row_end - row_begin) (PQnfields r)
        +:+ str_concat (column_bytes r row_begin row_end <$> seqZ 0 (PQnfields r))), s).
Proof.
  intros (Hr & Hov & Hmax). unfold EncodeRawPgBatch. pose proof (PQnfields_range r) as Hn.
  replace ((row_begin <? 0) || (row_end <? row_begin)) with false by lia.
  replace (INT_MAX <? _) with false by lia. unfold INT_MAX in *.
  rewrite !to_uint32_id by lia. unfold AppendU32. rewrite !str_app_assoc, str_app_nil_l.
  fold (header_bytes (row_end - row_begin) (PQnfields r)).
  generalize (header_bytes (row_end - row_begin) (PQnfields r)). intros out. revert out.
  induction (seqZ 0 (PQnfields r)) as [|col cols IH]; intros out; simpl; [by rewrite str_app_nil_r|].
  unfold m_bind. rewrite EncodeColumn_bytes, IH. by rewrite str_app_assoc.
Qed.

End EncoderFacts.

(** ** Decoding what was encoded *)

Section RoundTrip.
Context {V : Type} (null : V) {field : Type} (field_name : field → string)
        (decodePgCell : field → string → string + V).

(** What the client makes of a cell: an exception, or a value. *)
Definition cell_decode (f : field) (c : option string) : string + V :=
  match c with None => inr null | Some v => decodePgCell f v end.

Definition cell_error (f : field) (c : option string) : option string :=
  match cell_decode f c with inl e => Some e | inr _ => None end.

Definition cell_value (f : field) (c : option string) : V :=
  match cell_decode f c with inl _ => null | inr v => v end.

Lemma cell_no_error f c : cell_error f c = None → cell_decode f c = inr (cell_value f c).
Proof. unfold cell_error, cell_value. by destruct (cell_decode f c). Qed.

Lemma cell_error_decode f c e : cell_error f c = Some e → cell_decode f c = inl e.
Proof. unfold cell_error. destruct (cell_decode f c); [by intros [= ->]|done]. Qed.

(** The first exception, if there is one. *)
Definition unless {A} (errors : list string) (a : A) : string + A :=
  match errors with e :: _ => inl e | [] => inr a end.

Lemma alter_middle {A} (g : A → A) (l1 l2 : list A) x :
  alter g (length l1) (l1 ++ x :: l2) = l1 ++ g x :: l2.
Proof. induction l1 as [|y l1 IH]; simpl; [done|]. by f_equal. Qed.

Definition cell_fits (c : option string) : Prop :=
  match c with None => True | Some v => str_size v < 2 ^ 32 end.

Lemma decode_column_bytes f cells done todo rest :
  length todo = length cells → Forall cell_fits cells →
  decode_column null field_name decodePgCell f (length cells) (length done)
    (str_concat (cell_bytes <$> cells) +:+ rest) (done ++ todo)
  = unless (omap (cell_error f) cells)
      (rest, done ++ zip_with (λ c obj, <[field_name f := cell_value f c]> obj) cells todo).
Proof.
  intros Hlen Hfit. revert done todo Hlen.
  induction Hfit as [|c cells Hc _ IH]; intros done todo Hlen; [by destruct todo|].
  destruct todo as [|obj todo]; [done|]. injection Hlen as Hlen.
  assert (∀ v, decode_column null field_name decodePgCell f (length cells) (length done + 1)
      (str_concat (cell_bytes <$> cells) +:+ rest) (done ++ (<[field_name f := v]> obj) :: todo)
    = unless (omap (cell_error f) cells) (rest, done ++ (<[field_name f := v]> obj)
        :: zip_with (λ c obj, <[field_name f := cell_value f c]> obj) cells todo)) as IH'.
  { intros v. specialize (IH (done ++ [<[field_name f := v]> obj]) todo Hlen).
    rewrite length_app in IH. simpl in IH. rewrite <-!app_assoc in IH. exact IH. }
  destruct c as [v|]; cbn [fmap list_fmap str_concat length decode_column cell_bytes].
  - rewrite !str_app_cons. replace (negb (Z_of_byte "000" =? 0)) with false by done.
    rewrite !str_app_assoc. rewrite str_size_app, readU32_bytes
      by (pose proof (str_size_nonneg v); done).
    change (str_size (u32_bytes (str_size v))) with 4.
    pose proof (str_size_nonneg (v +:+ str_concat (cell_bytes <$> cells) +:+ rest)).
    replace (_ <? 4) with false by lia.
    rewrite (str_drop_app (u32_bytes (str_size v))). rewrite str_size_app.
    pose proof (str_size_nonneg (str_concat (cell_bytes <$> cells) +:+ rest)).
    replace (_ <? str_size v) with false by lia.
    unfold str_size at 1 2. rewrite Nat2Z.id, str_take_app, str_drop_app. simpl.
    unfold cell_error at 1, cell_value at 1. simpl.
    destruct (decodePgCell f v) as [e|x]; [done|]. rewrite alter_middle. apply IH'.
  - rewrite !str_app_cons, str_app_nil_l. rewrite alter_middle. apply IH'.
Qed.

(** The object of a row: the columns assigned in order. *)
Definition row_object {R} `{!PGResult R} (r : R) (fields : list field) (row : Z) : gmap string V :=
  foldl (λ obj fj, <[field_name fj.1 := cell_value fj.1 (cell r row fj.2)]> obj) ∅
    (zip fields (seqZ 0 (Z.of_nat (length fields)))).

Context {R : Type} `{!PGResult R, !PGResultLaws R}.
Implicit Types r : R.

Lemma cell_fits_result r row col : cell_fits (cell r row col).
Proof.
  unfold cell. destruct (PQgetisnull r row col) eqn:E; simpl; [done|].
  destruct (PQgetvalue_bytes r row col E) as (v & -> & Hl).
  pose proof (PQgetlength_range r row col) as Hr. unfold INT_MAX in Hr.
  rewrite str_take_size; lia.
Qed.

Lemma zip_with_fmap_same {A B C D} (h : B → C → D) (g1 : A → B) (g2 : A → C) (l : list A) :
  zip_with h (g1 <$> l) (g2 <$> l) = (λ x, h (g1 x) (g2 x)) <$> l.
Proof. induction l as [|x l IH]; [done|]. rewrite !fmap_cons. simpl. by rewrite IH. Qed.

(** The exceptions of the cells of some columns, in the order in which the
    decoder comes to them. *)
Definition column_errors r (rows : list Z) (columns : list (field * Z)) : list string :=
  columns ≫= λ fj, omap (λ row, cell_error fj.1 (cell r row fj.2)) rows.

Lemma omap_fmap_cells {A B C} (g : B → option C) (k : A → B) (l : list A) :
  omap g (k <$> l) = omap (λ x, g (k x)) l.
Proof. induction l as [|x l IH]; [done|]. simpl. destruct (g (k x)); [f_equal|]; exact IH. Qed.

Lemma decode_columns_bytes r rb re fields js (g : Z → gmap string V) :
  length fields = length js →
  decode_columns null field_name decodePgCell fields (length (seqZ rb (re - rb)))
    (str_concat (column_bytes r rb re <$> js)) (g <$> seqZ rb (re - rb))
  = unless (column_errors r (seqZ rb (re - rb)) (zip fields js))
      ((λ row, foldl (λ obj fj, <[field_name fj.1 := cell_value fj.1 (cell r row fj.2)]> obj)
                 (g row) (zip fields js)) <$> seqZ rb (re - rb)).
Proof.
  revert js g. induction fields as [|f fields IH]; intros [|j js] g Hlen; try done.
  injection Hlen as Hlen. cbn [decode_columns fmap list_fmap str_concat zip zip_with].
  pose proof (decode_column_bytes f ((λ row, cell r row j) <$> seqZ rb (re - rb)) []
    (g <$> seqZ rb (re - rb)) (str_concat (column_bytes r rb re <$> js))) as Hcol.
  rewrite !length_fmap in Hcol. unfold column_bytes at 1.
  rewrite <-list_fmap_compose, omap_fmap_cells in Hcol. unfold compose in Hcol.
  simpl app in Hcol. simpl length in Hcol. rewrite Hcol; [|done|].
  - unfold column_errors. simpl. destruct (omap _ _) as [|e es]; [|done]. simpl.
    rewrite zip_with_fmap_same. by apply IH.
  - apply Forall_fmap, Forall_forall. intros row _. apply cell_fits_result.
Qed.

(** The columns of a batch, and the exceptions of its rows from [rb] to [re]. *)
Definition batch_columns (fields : list field) : list (field * Z) :=
  zip fields (seqZ 0 (Z.of_nat (length fields))).
Definition batch_errors r (rb re : Z) (fields : list field) : list string :=
  column_errors r (seqZ rb (re - rb)) (batch_columns fields).

Lemma batch_errors_spec r rb re fields e :
  e ∈ batch_errors r rb re fields
  ↔ ∃ row k f, rb ≤ row < re ∧ fields !! k = Some f
      ∧ cell_decode f (cell r row (Z.of_nat k)) = inl e.
Proof.
  unfold batch_errors, column_errors, batch_columns. rewrite list_elem_of_bind. split.
  - intros ([f j] & He & Hin). apply list_elem_of_omap in He as (row & Hrow & He). simpl in He.
    apply list_elem_of_lookup in Hin as [k Hk]. apply lookup_zip_with_Some in Hk as (f' & j' & [= <- <-] & Hf & Hj).
    apply lookup_seqZ in Hj as [-> _]. apply elem_of_seqZ in Hrow. exists row, k, f.
    split; [lia|]. split; [done|]. apply cell_error_decode. by rewrite Z.add_0_l in He.
  - intros (row & k & f & Hrow & Hf & He). exists (f, Z.of_nat k). split.
    + apply list_elem_of_omap. exists row. split; [apply elem_of_seqZ; lia|]. unfold cell_error. simpl. by rewrite He.
    + apply list_elem_of_lookup. exists k. apply lookup_zip_with_Some. exists f, (Z.of_nat k).
      split_and!; [done..|]. apply lookup_seqZ. apply lookup_lt_Some in Hf. lia.
Qed.

Lemma batch_errors_nil r rb re fields :
  batch_errors r rb re fields = []
  ↔ ∀ row k f, rb ≤ row < re → fields !! k = Some f → cell_error f (cell r row (Z.of_nat k)) = None.
Proof.
  split.
  - intros Hn row k f Hrow Hf. destruct (cell_error f _) as [e|] eqn:E; [|done].
    assert (Hin : e ∈ batch_errors r rb re fields)
      by (apply batch_errors_spec; exists row, k, f; split; [done|split; [done|by apply cell_error_decode]]).
    rewrite Hn in Hin. by apply elem_of_nil in Hin.
  - intros H. destruct (batch_errors r rb re fields) as [|e es] eqn:E; [done|].
    assert (Hin : e ∈ batch_errors r rb re fields) by (rewrite E; by left).
    apply batch_errors_spec in Hin as (row & k & f & Hrow & Hf & He). specialize (H row k f Hrow Hf).
    unfold cell_error in H. by rewrite He in H.
Qed.

Lemma decode_batch_bytes r rb re fields :
  batch_ok r rb re → Z.of_nat (length fields) = PQnfields r →
  decodeRawPgBatch null field_name decodePgCell
    (header_bytes (re - rb) (PQnfields r)
     +:+ str_concat (column_bytes r rb re <$> seqZ 0 (PQnfields r))) fields
  = unless (batch_errors r rb re fields) (row_object r fields <$> seqZ rb (re - rb)).
Proof.
  intros (Hr & _ & Hmax) Hlen. pose proof (PQnfields_range r) as Hn. unfold INT_MAX in *.
  set (body := str_concat _). unfold decodeRawPgBatch, header_bytes. rewrite !str_app_assoc.
  replace (str_empty _) with false by done. rewrite str_size_app.
  set (p3 := u32_bytes (PQnfields r) +:+ body). set (p2 := u32_bytes (re - rb) +:+ p3).
  set (p1 := u32_bytes kRawPgBatchVersion +:+ p2).
  change (str_drop 4 (u32_bytes kRawPgBatchMagic +:+ p1)) with p1.
  change (str_drop 8 (u32_bytes kRawPgBatchMagic +:+ p1)) with p2.
  change (str_drop 12 (u32_bytes kRawPgBatchMagic +:+ p1)) with p3.
  change (str_drop 16 (u32_bytes kRawPgBatchMagic +:+ p1)) with body.
  replace (_ <? 16) with false by (symmetry; apply Z.ltb_ge; unfold p1, p2, p3;
    rewrite !str_size_app; change (str_size (u32_bytes _)) with 4;
    pose proof (str_size_nonneg body); lia).
  rewrite (readU32_bytes kRawPgBatchMagic) by (unfold kRawPgBatchMagic; lia).
  unfold p1. rewrite (readU32_bytes kRawPgBatchVersion) by (unfold kRawPgBatchVersion; lia).
  unfold p2. rewrite readU32_bytes by lia. unfold p3. rewrite readU32_bytes by lia.
  rewrite !Z.eqb_refl, Hlen, Z.eqb_refl. cbn [negb].
  replace (replicate (Z.to_nat (re - rb)) ∅) with ((λ _ : Z, ∅ : gmap string V) <$> seqZ rb (re - rb)).
  2: { apply list_eq_same_length with (length (seqZ rb (re - rb))).
       - by rewrite length_replicate, length_seqZ.
       - by rewrite length_fmap.
       - intros i x y Hi. rewrite list_lookup_fmap, lookup_replicate.
         intros (z & _ & ->)%fmap_Some [-> _]. done. }
  replace (Z.to_nat (re - rb)) with (length (seqZ rb (re - rb))) by (by rewrite length_seqZ).
  unfold body. rewrite decode_columns_bytes by (rewrite length_seqZ; lia).
  unfold row_object, batch_errors, batch_columns. by rewrite Hlen.
Qed.

Lemma row_object_lookup_gen r row (l : list (field * Z)) (obj : gmap string V) i f j :
  NoDup (field_name <$> l.*1) → l !! i = Some (f, j) →
  foldl (λ obj fj, <[field_name fj.1 := cell_value fj.1 (cell r row fj.2)]> obj) obj l
    !! field_name f = Some (cell_value f (cell r row j)).
Proof.
  revert obj i. induction l as [|[f' j'] l IH]; intros obj i Hnd Hi; [done|].
  rewrite !fmap_cons in Hnd. apply NoDup_cons in Hnd as [Hnotin Hnd].
  destruct i as [|i]; [|by eapply IH]. injection Hi as -> ->. simpl.
  assert (∀ (l : list (field * Z)) (obj : gmap string V), field_name f ∉ field_name <$> l.*1 →
    foldl (λ obj fj, <[field_name fj.1 := cell_value fj.1 (cell r row fj.2)]> obj) obj l
      !! field_name f = obj !! field_name f) as Hrest; [|by rewrite Hrest, lookup_insert_eq].
  clear. induction l as [|[f' j'] l IH]; intros obj Hn; [done|].
  rewrite !fmap_cons, not_elem_of_cons in Hn. simpl in *. rewrite IH by naive_solver.
  apply lookup_insert_ne. naive_solver.
Qed.

Lemma row_object_lookup r fields row i f :
  NoDup (field_name <$> fields) → fields !! i = Some f →
  row_object r fields row !! field_name f = Some (cell_value f (cell r row (Z.of_nat i))).
Proof.
  intros Hnd Hi. assert (Hlen : (i < length fields)%nat) by (by eapply lookup_lt_Some).
  apply (row_object_lookup_gen r row _ ∅ i).
  - rewrite fst_zip; [done|]. rewrite length_seqZ. lia.
  - apply lookup_zip_with_Some. exists f, (Z.of_nat i). split_and!; [done..|].
    rewrite lookup_seqZ. lia.
Qed.

(** C8: decoding a batch with the fields of its result gives back the rows of
    the encoded range, in order, where with distinct column names each object
    maps every column to the value of its cell; or it ends with the exception of
    a cell of the range that is no value of its column's type. *)
Theorem rpgb_roundtrip {S} r row_begin row_end fields (s : S) :
  batch_ok r row_begin row_end → Z.of_nat (length fields) = PQnfields r →
  NoDup (field_name <$> fields) →
  ∃ payload,
    EncodeRawPgBatch (Some r) row_begin row_end s = (Ret payload, s)
    ∧ match decodeRawPgBatch null field_name decodePgCell payload fields with
      | inr rows =>
          length rows = Z.to_nat (row_end - row_begin)
          ∧ ∀ i k f obj, rows !! i = Some obj → fields !! k = Some f →
              ∃ v, cell_decode f (cell r (row_begin + Z.of_nat i) (Z.of_nat k)) = inr v
                ∧ obj !! field_name f = Some v
      | inl e =>
          ∃ row k f, row_begin ≤ row < row_end ∧ fields !! k = Some f
            ∧ cell_decode f (cell r row (Z.of_nat k)) = inl e
      end.
Proof.
  intros Hok Hlen Hnd. eexists. split; [by apply EncodeRawPgBatch_bytes|].
  rewrite decode_batch_bytes by done. pose proof (batch_errors_spec r row_begin row_end fields) as Hs.
  pose proof (batch_errors_nil r row_begin row_end fields) as Hn.
  destruct (batch_errors r row_begin row_end fields) as [|e es]; simpl; [|apply Hs; by left].
  rewrite length_fmap, length_seqZ. split; [done|].
  intros i k f obj Hi Hk. rewrite list_lookup_fmap, fmap_Some in Hi.
  destruct Hi as (row & Hrow & ->). apply lookup_seqZ in Hrow as [-> Hi].
  eexists. split; [|by apply row_object_lookup]. apply cell_no_error. apply Hn; [done|lia|done].
Qed.

(** C25: where the rows are cut into batches makes no difference: a range decodes
    to some objects exactly if its two pieces, cut at any row, decode to the
    first of these and to the others. *)
Theorem rpgb_split {S} r row_begin cut row_end fields (s : S) :
  row_begin ≤ cut ≤ row_end → batch_ok r row_begin row_end →
  Z.of_nat (length fields) = PQnfields r →
  ∃ whole first second,
    EncodeRawPgBatch (Some r) row_begin row_end s = (Ret whole, s)
    ∧ EncodeRawPgBatch (Some r) row_begin cut s = (Ret first, s)
    ∧ EncodeRawPgBatch (Some r) cut row_end s = (Ret second, s)
    ∧ ∀ rows1 rows2, length rows1 = Z.to_nat (cut - row_begin) →
        decodeRawPgBatch null field_name decodePgCell whole fields = inr (rows1 ++ rows2)
        ↔ decodeRawPgBatch null field_name decodePgCell first fields = inr rows1
          ∧ decodeRawPgBatch null field_name decodePgCell second fields = inr rows2.
Proof.
  intros Hcut Hok Hlen. pose proof (PQnfields_range r) as Hn.
  assert (H1 : batch_ok r row_begin cut) by (unfold batch_ok in *; split_and!; nia).
  assert (H2 : batch_ok r cut row_end) by (unfold batch_ok in *; split_and!; nia).
  eexists _, _, _. split_and!; [by apply EncodeRawPgBatch_bytes..|]. intros rows1 rows2 Hl1.
  rewrite !decode_batch_bytes by done.
  assert (Hrows : row_object r fields <$> seqZ row_begin (row_end - row_begin)
    = (row_object r fields <$> seqZ row_begin (cut - row_begin))
      ++ (row_object r fields <$> seqZ cut (row_end - cut))).
  { rewrite <-fmap_app. replace cut with (row_begin + (cut - row_begin)) at 2 by lia.
    rewrite <-seqZ_app by lia. by replace (_ - _ + (_ - _)) with (row_end - row_begin) by lia. }
  assert (Hnil : batch_errors r row_begin row_end fields = []
    ↔ batch_errors r row_begin cut fields = [] ∧ batch_errors r cut row_end fields = []).
  { rewrite !batch_errors_nil. split.
    - intros H. split; intros row k f Hrow Hf; (apply H; [lia|exact Hf]).
    - intros [Ha Hb] row k f Hrow. destruct (decide (row < cut)); [apply Ha|apply Hb]; lia. }
  rewrite Hrows. unfold unless. split.
  - intros H. destruct (batch_errors r row_begin row_end fields); [|done].
    destruct (proj1 Hnil eq_refl) as [-> ->]. injection H as H.
    apply app_inj_1 in H as [-> ->]; [done|]. by rewrite length_fmap, length_seqZ.
  - intros [Ha Hb]. destruct (batch_errors r row_begin cut fields), (batch_errors r cut row_end fields); try done.
    rewrite (proj2 Hnil) by done. congruence.
Qed.

End RoundTrip.

(** The encoder fails exactly on a null result (never dereferenced) and on
    an invalid range, with the message of each case, and for any other range
    whose size hint fits in an [int] it returns a batch. *)
Theorem EncodeRawPgBatch_errors {S R} `{!PGResult R, !PGResultLaws R} (result : option R)
    (row_begin row_end : Z) (s : S) :
  match result with
  | None => EncodeRawPgBatch result row_begin row_end s
            = (Throw "EncodeRawPgBatch result is null", s)
  | Some r =>
      (row_begin < 0 ∨ row_end < row_begin →
       EncodeRawPgBatch result row_begin row_end s
       = (Throw "EncodeRawPgBatch invalid row range", s))
      ∧ (batch_ok r row_begin row_end →
         ∃ payload, EncodeRawPgBatch result row_begin row_end s = (Ret payload, s)
                    ∧ 16 ≤ str_size payload)
  end.
Proof.
  destruct result as [r|]; [|done]. split.
  - intros H. unfold EncodeRawPgBatch.
    by replace ((row_begin <? 0) || (row_end <? row_begin)) with true by lia.
  - intros Hok. eexists. split; [by apply EncodeRawPgBatch_bytes|]. rewrite str_size_app.
    change (str_size (header_bytes _ _)) with 16.
    pose proof (str_size_nonneg (str_concat (column_bytes r row_begin row_end <$> seqZ 0 (PQnfields r)))).
    lia.
Qed.

(** ** Concrete runs *)

(** A client that takes the text of every value but the empty one. *)
Definition nonempty_text (f : string * Z) (v : string) : string + string :=
  if str_empty v then inl "empty value" else inr v.

Lemma rpgb_roundtrip_witness :
  ∃ payload,
    EncodeRawPgBatch (Some sample_table) 0 2 tt = (Ret payload, tt)
    ∧ match decodeRawPgBatch "<null>" fst nonempty_text payload [("id", 23); ("name", 25)] with
      | inr rows =>
          length rows = 2%nat
          ∧ ∀ i k f obj, rows !! i = Some obj → [("id", 23); ("name", 25)] !! k = Some f →
              ∃ v, cell_decode "<null>" nonempty_text f
                     (cell sample_table (0 + Z.of_nat i) (Z.of_nat k)) = inr v
                ∧ obj !! fst f = Some v
      | inl e =>
          ∃ row k f, 0 ≤ row < 2 ∧ [("id", 23); ("name", 25)] !! k = Some f
            ∧ cell_decode "<null>" nonempty_text f (cell sample_table row (Z.of_nat k)) = inl e
      end.
Proof.
  apply (rpgb_roundtrip "<null>" fst nonempty_text sample_table 0 2 [("id", 23); ("name", 25)] tt).
  - unfold batch_ok, INT_MAX. simpl. lia.
  - reflexivity.
  - apply (bool_decide_unpack (NoDup ["id"; "name"])). vm_compute. exact I.
Defined.

Lemma rpgb_split_witness :
  ∃ whole first second,
    EncodeRawPgBatch (Some sample_table) 0 3 tt = (Ret whole, tt)
    ∧ EncodeRawPgBatch (Some sample_table) 0 1 tt = (Ret first, tt)
    ∧ EncodeRawPgBatch (Some sample_table) 1 3 tt = (Ret second, tt)
    ∧ ∀ rows1 rows2, length rows1 = 1%nat →
        decodeRawPgBatch "<null>" fst nonempty_text whole [("id", 23); ("name", 25)] = inr (rows1 ++ rows2)
        ↔ decodeRawPgBatch "<null>" fst nonempty_text first [("id", 23); ("name", 25)] = inr rows1
          ∧ decodeRawPgBatch "<null>" fst nonempty_text second [("id", 23); ("name", 25)] = inr rows2.
Proof.
  apply (rpgb_split "<null>" fst nonempty_text sample_table 0 1 3 [("id", 23); ("name", 25)] tt);
    [lia|unfold batch_ok, INT_MAX; simpl; lia|reflexivity].
Defined.

Lemma EncodeRawPgBatch_errors_witness :
  EncodeRawPgBatch (Some sample_table) 2 1 tt = (Throw "EncodeRawPgBatch invalid row range", tt)
  ∧ ∃ payload, EncodeRawPgBatch (Some sample_table) 0 3 tt = (Ret payload, tt)
               ∧ 16 ≤ str_size payload.
Proof.
  split.
  - apply (EncodeRawPgBatch_errors (Some sample_table) 2 1 tt). lia.
  - apply (EncodeRawPgBatch_errors (Some sample_table) 0 3 tt).
    unfold batch_ok, INT_MAX. simpl. lia.
Defined.

(** A client that takes every text gets both rows, one that does not take the empty
    name of the second gets its exception. *)
Example rpgb_sample :
  match EncodeRawPgBatch (Some sample_table) 1 3 tt with
  | (Ret p, _) =>
      decodeRawPgBatch "<null>" fst (λ _ v, inr v) p [("id", 23); ("name", 25)]
      = inr [ {["id" := "2"; "name" := "<null>"]}; {["id" := "3"; "name" := ""]} ]
      ∧ decodeRawPgBatch "<null>" fst nonempty_text p [("id", 23); ("name", 25)] = inl "empty value"
  | _ => False
  end.
Proof. by vm_compute. Qed.
