(* ===== verification/FlexMeta.v ===== *)
(** * FlexBuffers control messages (src/src/codec/flex_meta.{h,cpp})

    The encoders build a FlexBuffers value with [flexbuffers::Builder] and
    return its buffer. The builder library is a parameter: a value tree goes to
    bytes. String values pass through [c_str()]. *)
From S2P Require Import Prelude CppStd.
Local Open Scope Z_scope.
Local Set Warnings "-register-all".

Record FieldInfo := mkFieldInfo {
  fi_name : string;
  fi_table_oid : Z;
  fi_column_id : Z;
  fi_data_type_oid : Z;
  fi_format : Z;
}.

Record ResultSchema := mkResultSchema { rs_command : string; rs_fields : list FieldInfo }.

Record ResultTrailer := mkResultTrailer {
  rt_command_tag : string; rt_row_count : Z; rt_oid : Z }.

Record PgError := mkPgError {
  pe_sqlstate : string; pe_severity : string; pe_message : string; pe_detail : string;
  pe_position : string }.

(** Values a [flexbuffers::Builder] is asked to build. *)
Inductive flex :=
| FlexString (s : string)
| FlexUInt (n : Z)
| FlexInt (n : Z)
| FlexVector (l : list flex)
| FlexMap (l : list (string * flex)).

(** Equal up to the order of the keys of a map, which the library sorts. *)
Inductive flex_same : flex → flex → Prop :=
| same_string s : flex_same (FlexString s) (FlexString s)
| same_uint n : flex_same (FlexUInt n) (FlexUInt n)
| same_int n : flex_same (FlexInt n) (FlexInt n)
| same_vector l l' : Forall2 flex_same l l' → flex_same (FlexVector l) (FlexVector l')
| same_map l l0 l' :
    l ≡ₚ l0 → Forall2 (λ p q, p.1 = q.1 ∧ flex_same p.2 q.2) l0 l' →
    flex_same (FlexMap l) (FlexMap l').

(** The keys of a map are distinct and the integers have 64 bits. *)
Fixpoint flex_valid (v : flex) : Prop :=
  match v with
  | FlexString _ => True
  | FlexUInt n => 0 ≤ n < 2 ^ 64
  | FlexInt n => - 2 ^ 63 ≤ n < 2 ^ 63
  | FlexVector l =>
      (fix all (l : list flex) : Prop :=
         match l with [] => True | x :: l' => flex_valid x ∧ all l' end) l
  | FlexMap l =>
      NoDup l.*1 ∧
      (fix all (l : list (string * flex)) : Prop :=
         match l with [] => True | p :: l' => flex_valid p.2 ∧ all l' end) l
  end.

(** [GetBuffer] after [Finish], and the reader of the same library. A finished
    buffer is never empty, and reading it gives the value that was built. *)
Class FlexBuffers := {
  flex_buffer : flex → string;
  flex_root : string → option flex;
  flex_buffer_nonempty v : flex_buffer v ≠ "";
  flex_read_back v : flex_valid v → ∃ v', flex_root (flex_buffer v) = Some v' ∧ flex_same v v';
}.

Definition AddFieldInfo (field : FieldInfo) : flex :=
  FlexMap [("name", FlexString (c_str (fi_name field)));
        ("table_oid", FlexUInt (fi_table_oid field));
        ("column_id", FlexUInt (fi_column_id field));
        ("data_type_oid", FlexUInt (fi_data_type_oid field));
        ("format", FlexInt (fi_format field))].

Definition schema_value (schema : ResultSchema) : flex :=
  FlexMap [("command", FlexString (c_str (rs_command schema)));
        ("fields", FlexVector (AddFieldInfo <$> rs_fields schema))].

Definition trailer_value (trailer : ResultTrailer) : flex :=
  FlexMap [("command_tag", FlexString (c_str (rt_command_tag trailer)));
        ("row_count", FlexInt (rt_row_count trailer));
        ("oid", FlexUInt (rt_oid trailer))].

Definition error_value (error : PgError) : flex :=
  FlexMap [("sqlstate", FlexString (c_str (pe_sqlstate error)));
        ("severity", FlexString (c_str (pe_severity error)));
        ("message", FlexString (c_str (pe_message error)));
        ("detail", FlexString (c_str (pe_detail error)));
        ("position", FlexString (c_str (pe_position error)))].

Section Encoders.
Context `{!FlexBuffers}.
Definition EncodeResultSchema (schema : ResultSchema) : string := flex_buffer (schema_value schema).
Definition EncodeResultTrailer (trailer : ResultTrailer) : string :=
  flex_buffer (trailer_value trailer).
Definition EncodePgError (error : PgError) : string := flex_buffer (error_value error).
End Encoders.

(** ** Reading the messages back

    The decoders of src/integration/flatbuffers/result-meta-codec.js. An absent
    key takes its default; [None] stands for what the encoder never writes: a
    value of another type, whose JavaScript conversion is not modelled, or an
    integer that a [Number] does not represent exactly. *)

(** The value under a key of a map. *)
Definition flex_get (key : string) (v : flex) : option flex :=
  match v with
  | FlexMap l => (list_to_map l : gmap string flex) !! key
  | _ => None
  end.

Definition MAX_EXACT : Z := 2 ^ 53.

Lemma MAX_EXACT_LONG : MAX_EXACT ≤ LONG_MAX.
Proof. done. Qed.

Definition as_string (v : flex) : option string :=
  match v with FlexString s => Some s | _ => None end.
Definition as_number (v : flex) : option Z :=
  match v with
  | FlexUInt n | FlexInt n => if Z.abs n <=? MAX_EXACT then Some n else None
  | _ => None
  end.

(** [map.key ?? dflt]. *)
Definition get_string (key dflt : string) (v : flex) : option string :=
  match flex_get key v with None => Some dflt | Some w => as_string w end.
Definition get_number (key : string) (v : flex) : option Z :=
  match flex_get key v with None => Some 0 | Some w => as_number w end.

(** [Number(field.key ?? field.alias ?? 0) >>> 0]. *)
Definition get_uint32 (key alias : string) (v : flex) : option Z :=
  to_uint32 <$> match flex_get key v with None => get_number alias v | Some w => as_number w end.

Definition normalizeFieldInfo (v : flex) : option FieldInfo :=
  name ← get_string "name" "" v; t ← get_uint32 "table_oid" "tableOid" v;
  c ← get_uint32 "column_id" "columnId" v; d ← get_uint32 "data_type_oid" "dataTypeID" v;
  f ← get_number "format" v;
  Some (mkFieldInfo name t c d f).

Definition decodeResultSchema `{!FlexBuffers} (bytes : string) : option ResultSchema :=
  v ← flex_root bytes;
  fields ← match flex_get "fields" v with
           | Some (FlexVector fs) => mapM normalizeFieldInfo fs
           | _ => Some []
           end;
  cmd ← get_string "command" "SELECT" v;
  Some (mkResultSchema cmd fields).

(** The trailer as the client has it: an [oid] of 0 is null. *)
Record client_trailer := mkClientTrailer {
  ct_command_tag : string; ct_row_count : Z; ct_oid : option Z }.

Definition decodeResultTrailer `{!FlexBuffers} (bytes : string) : option client_trailer :=
  v ← flex_root bytes; tag ← get_string "command_tag" "" v; n ← get_number "row_count" v;
  oid ← get_number "oid" v;
  Some (mkClientTrailer tag n (if oid =? 0 then None else Some oid)).

Definition decodePgError `{!FlexBuffers} (bytes : string) : option PgError :=
  v ← flex_root bytes; a ← get_string "sqlstate" "" v; b ← get_string "severity" "ERROR" v;
  c ← get_string "message" "unknown error" v; d ← get_string "detail" "" v;
  e ← get_string "position" "" v;
  Some (mkPgError a b c d e).

(** What survives the C string conversion. *)
Definition field_c (f : FieldInfo) : FieldInfo :=
  mkFieldInfo (c_str (fi_name f)) (fi_table_oid f) (fi_column_id f) (fi_data_type_oid f)
    (fi_format f).
Definition schema_c (s : ResultSchema) : ResultSchema :=
  mkResultSchema (c_str (rs_command s)) (field_c <$> rs_fields s).
Definition trailer_c (t : ResultTrailer) : client_trailer :=
  mkClientTrailer (c_str (rt_command_tag t)) (rt_row_count t)
    (if rt_oid t =? 0 then None else Some (rt_oid t)).
Definition error_c (e : PgError) : PgError :=
  mkPgError (c_str (pe_sqlstate e)) (c_str (pe_severity e)) (c_str (pe_message e))
    (c_str (pe_detail e)) (c_str (pe_position e)).

(** Looking up a key does not depend on the order of distinct keys. *)
Lemma flex_get_same l v' key v :
  flex_same (FlexMap l) v' → NoDup l.*1 → (list_to_map l : gmap string flex) !! key = Some v →
  ∃ w, flex_get key v' = Some w ∧ flex_same v w.
Proof.
  intros Hs Hnd Hk. inversion Hs as [| | | |l1 l0 l' Hp H2]; subst. simpl.
  rewrite (list_to_map_proper _ l0) in Hk by done.
  assert (NoDup l0.*1) as Hnd0 by (by rewrite <-Hp). clear Hp Hs Hnd l.
  induction H2 as [|[k1 v1] [k2 v2] l0 l' [Hk12 Hv12] H2 IH]; [done|].
  simpl in *. subst k2. apply NoDup_cons in Hnd0 as [_ Hnd0].
  destruct (decide (k1 = key)) as [->|Hne].
  - rewrite lookup_insert_eq in *. injection Hk as ->. eauto.
  - rewrite lookup_insert_ne in * by done. auto.
Qed.

Ltac flex_field Hs key :=
  let w := fresh "w" in let Hw := fresh "Hw" in let Hv := fresh "Hv" in
  pose proof (λ v0, flex_get_same _ _ key v0 Hs) as Hw;
  edestruct Hw as (w & Hw' & Hv);
  [by apply (bool_decide_unpack _); vm_compute|reflexivity|];
  clear Hw; rename Hw' into Hw; inversion Hv; subst; clear Hv.

(** The integers of the messages are in the ranges of their C++ types, and the
    row count in the range where a [Number] is exact. *)
Definition field_ok (f : FieldInfo) : Prop :=
  0 ≤ fi_table_oid f < 2 ^ 32 ∧ 0 ≤ fi_column_id f < 2 ^ 32
  ∧ 0 ≤ fi_data_type_oid f < 2 ^ 32 ∧ int32_range (fi_format f).
Definition schema_ok (s : ResultSchema) : Prop := Forall field_ok (rs_fields s).
Definition trailer_ok (t : ResultTrailer) : Prop :=
  - MAX_EXACT ≤ rt_row_count t ≤ MAX_EXACT ∧ 0 ≤ rt_oid t < 2 ^ 32.

Lemma schema_valid s : schema_ok s → flex_valid (schema_value s).
Proof.
  unfold schema_ok. intros Hs. split; [by apply (bool_decide_unpack _); vm_compute|].
  split; [done|]. split; [|done]. simpl.
  induction Hs as [|f fs (H1 & H2 & H3 & H4) _ IH]; [done|]. split; [|exact IH].
  unfold int32_range, INT_MAX in *. split; [by apply (bool_decide_unpack _); vm_compute|].
  simpl. lia.
Qed.

Lemma trailer_valid t : trailer_ok t → flex_valid (trailer_value t).
Proof.
  intros [H1 H2]. unfold MAX_EXACT in H1.
  split; [by apply (bool_decide_unpack _); vm_compute|]. simpl. lia.
Qed.

Lemma error_valid e : flex_valid (error_value e).
Proof. split; [by apply (bool_decide_unpack _); vm_compute|]. done. Qed.

Lemma number_exact n : - MAX_EXACT ≤ n ≤ MAX_EXACT → (Z.abs n <=? MAX_EXACT) = true.
Proof. lia. Qed.

Lemma uint32_exact n :
  0 ≤ n < 2 ^ 32 → (if Z.abs n <=? MAX_EXACT then Some n else None) = Some n ∧ to_uint32 n = n.
Proof.
  intros Hn. rewrite number_exact by (unfold MAX_EXACT; lia).
  by rewrite (to_uint32_id n) by lia.
Qed.

Lemma normalizeFieldInfo_same f v :
  field_ok f → flex_same (AddFieldInfo f) v → normalizeFieldInfo v = Some (field_c f).
Proof.
  intros (H1 & H2 & H3 & H4) Hs. flex_field Hs "name". flex_field Hs "table_oid".
  flex_field Hs "column_id". flex_field Hs "data_type_oid". flex_field Hs "format".
  apply uint32_exact in H1 as [H1 H1'], H2 as [H2 H2'], H3 as [H3 H3'].
  unfold normalizeFieldInfo, get_string, get_uint32, get_number.
  rewrite Hw, Hw0, Hw1, Hw2, Hw3. simpl. rewrite H1, H2, H3. simpl.
  rewrite H1', H2', H3', number_exact; [done|].
  unfold int32_range, INT_MAX, MAX_EXACT in *. lia.
Qed.

Section Reading.
Context `{!FlexBuffers}.

Lemma decode_schema_encode s :
  schema_ok s → decodeResultSchema (EncodeResultSchema s) = Some (schema_c s).
Proof.
  intros Hok. unfold decodeResultSchema, EncodeResultSchema.
  destruct (flex_read_back (schema_value s) (schema_valid s Hok)) as (v & -> & Hs). simpl.
  flex_field Hs "command". flex_field Hs "fields".
  unfold get_string. rewrite Hw, Hw0. simpl.
  replace (mapM normalizeFieldInfo l') with (Some (field_c <$> rs_fields s)); [done|].
  match goal with H : Forall2 _ _ _ |- _ => revert H end. revert Hok. unfold schema_ok. clear.
  generalize (rs_fields s). intros fs Hok.
  revert l'. induction Hok as [|f fs Hf _ IH]; intros l' H2; inversion H2; subst; [done|].
  simpl. erewrite normalizeFieldInfo_same by done. simpl. rewrite <-IH by done. done.
Qed.

Lemma decode_trailer_encode t :
  trailer_ok t → decodeResultTrailer (EncodeResultTrailer t) = Some (trailer_c t).
Proof.
  intros Hok. unfold decodeResultTrailer, EncodeResultTrailer.
  destruct (flex_read_back (trailer_value t) (trailer_valid t Hok)) as (v & -> & Hs). simpl.
  destruct Hok as [Hn Ho]. apply uint32_exact in Ho as [Ho _].
  flex_field Hs "command_tag". flex_field Hs "row_count". flex_field Hs "oid".
  unfold get_string, get_number. rewrite Hw, Hw0, Hw1. simpl. by rewrite Ho, number_exact.
Qed.

Lemma decode_error_encode e : decodePgError (EncodePgError e) = Some (error_c e).
Proof.
  unfold decodePgError, EncodePgError.
  destruct (flex_read_back (error_value e) (error_valid e)) as (v & -> & Hs). simpl.
  flex_field Hs "sqlstate". flex_field Hs "severity". flex_field Hs "message".
  flex_field Hs "detail". flex_field Hs "position".
  unfold get_string. by rewrite Hw, Hw0, Hw1, Hw2, Hw3.
Qed.

End Reading.
