(* ===== verification/MockFlex.v ===== *)
(** * A concrete FlexBuffers codec

    An instance of the [FlexBuffers] interface by a byte code of value trees
    (not the FlexBuffers format), on which the definitions are run. It shows
    that the laws of the interface can hold. *)
From S2P Require Import Prelude CppStd FlexMeta.
From stdpp Require Import countable.

(** Induction that goes through the lists of a value. *)
Section FlexInd.
Variable P : flex → Prop.
Hypothesis Hstring : ∀ s, P (FlexString s).
Hypothesis Huint : ∀ n, P (FlexUInt n).
Hypothesis Hint : ∀ n, P (FlexInt n).
Hypothesis Hvector : ∀ l, Forall P l → P (FlexVector l).
Hypothesis Hmap : ∀ l, Forall (λ p, P p.2) l → P (FlexMap l).

Fixpoint flex_ind_nested (v : flex) : P v :=
  match v with
  | FlexString s => Hstring s
  | FlexUInt n => Huint n
  | FlexInt n => Hint n
  | FlexVector l =>
      Hvector l ((fix go l : Forall P l :=
        match l with [] => Forall_nil_2 P | x :: l' => Forall_cons_2 P x l' (flex_ind_nested x) (go l') end) l)
  | FlexMap l =>
      Hmap l ((fix go l : Forall (λ p, P p.2) l :=
        match l with
        | [] => Forall_nil_2 _
        | p :: l' => Forall_cons_2 (λ p, P p.2) p l' (flex_ind_nested p.2) (go l')
        end) l)
  end.
End FlexInd.

Lemma flex_same_refl v : flex_same v v.
Proof.
  induction v as [s|n|n|l IH|l IH] using flex_ind_nested; try constructor.
  - by induction IH; constructor.
  - apply (same_map l l l); [done|]. by induction IH; constructor.
Qed.

Fixpoint to_tree (v : flex) : gen_tree (string + Z) :=
  match v with
  | FlexString s => GenNode 0 [GenLeaf (inl s)]
  | FlexUInt n => GenNode 1 [GenLeaf (inr n)]
  | FlexInt n => GenNode 2 [GenLeaf (inr n)]
  | FlexVector l => GenNode 3 (map to_tree l)
  | FlexMap l => GenNode 4 (map (λ p, GenNode 0 [GenLeaf (inl p.1); to_tree p.2]) l)
  end.

Fixpoint of_tree (t : gen_tree (string + Z)) : flex :=
  match t with
  | GenNode 0 [GenLeaf (inl s)] => FlexString s
  | GenNode 1 [GenLeaf (inr n)] => FlexUInt n
  | GenNode 2 [GenLeaf (inr n)] => FlexInt n
  | GenNode 3 l => FlexVector (map of_tree l)
  | GenNode 4 l =>
      FlexMap (map (λ t, match t with
                      | GenNode _ [GenLeaf (inl k); v] => (k, of_tree v)
                      | _ => ("", FlexInt 0)
                      end) l)
  | _ => FlexInt 0
  end.

Lemma of_to_tree v : of_tree (to_tree v) = v.
Proof.
  induction v as [s|n|n|l IH|l IH] using flex_ind_nested; try done; simpl; f_equal.
  - induction IH as [|x l Hx _ IH]; simpl; [done|]. by rewrite Hx, IH.
  - induction IH as [|[k x] l Hx _ IH]; simpl in *; [done|]. by rewrite Hx, IH.
Qed.

Fixpoint pos_to_bits (p : positive) : string :=
  match p with
  | xH => ""
  | xO p' => String "0" (pos_to_bits p')
  | xI p' => String "1" (pos_to_bits p')
  end.

Fixpoint bits_to_pos (s : string) : positive :=
  match s with
  | EmptyString => xH
  | String c s' => if ascii_eqb c "0" then xO (bits_to_pos s') else xI (bits_to_pos s')
  end.

Lemma bits_to_pos_to_bits p : bits_to_pos (pos_to_bits p) = p.
Proof. induction p; simpl; congruence. Qed.

Definition tree_buffer (v : flex) : string := String "F" (pos_to_bits (encode (to_tree v))).

Definition tree_root (s : string) : option flex :=
  match s with
  | EmptyString => None
  | String _ bits => of_tree <$> decode (bits_to_pos bits)
  end.

#[global] Instance tree_flexbuffers : FlexBuffers.
Proof.
  refine {| flex_buffer := tree_buffer; flex_root := tree_root |}.
  - done.
  - intros v _. exists v. split; [|apply flex_same_refl].
    simpl. by rewrite bits_to_pos_to_bits, decode_encode; simpl; rewrite of_to_tree.
Defined.

Example tree_schema :
  decodeResultSchema (EncodeResultSchema (mkResultSchema "SELECT" [mkFieldInfo "id" 1 1 23 0]))
  = Some (mkResultSchema "SELECT" [mkFieldInfo "id" 1 1 23 0]).
Proof. by vm_compute. Qed.
