(* ===== verification/QueryMeta.v ===== *)
(** * Statement classification and result metadata (src/src/codec/query_meta.cpp) *)
From S2P Require Import Prelude CppStd Libpq MockResult FlexMeta MockFlex.
Local Open Scope Z_scope.

(** [" \t"], [" \t\r\n"] and [" \t\r\n("]. *)
Definition blank (c : ascii) : bool := ascii_eqb c " " || ascii_eqb c "009".
Definition white (c : ascii) : bool := blank c || ascii_eqb c "013" || ascii_eqb c "010".
Definition token_end (c : ascii) : bool := white c || ascii_eqb c "(".

Definition CommandFromStatus (status : option string) : string :=
  match status with
  | None => "SELECT"
  | Some tag =>
      if str_empty tag then "SELECT"
      else
        let token := match find_first blank tag with
                     | None => tag
                     | Some space => str_take space tag
                     end in
        if str_empty token then "SELECT" else str_map toupper token
  end.

Definition TrimSql (sql : string) : string :=
  match find_first (λ c, negb (white c)) sql with
  | None => ""
  | Some begin =>
      match find_last (λ c, negb (white c)) sql with
      | None => ""
      | Some last => str_take (last - begin + 1) (str_drop begin sql)
      end
  end.

Definition UpperToken (sql : string) : string :=
  let trimmed := TrimSql sql in
  let token := match find_first token_end trimmed with
               | None => trimmed
               | Some space => str_take space trimmed
               end in
  str_map toupper token.

Definition IsTupleStreamingSql (sql : string) : bool :=
  let token := UpperToken sql in
  bool_decide (token = "SELECT") || bool_decide (token = "WITH")
  || bool_decide (token = "TABLE") || bool_decide (token = "VALUES").

Section Meta.
Context {R : Type} `{!PGResult R}.

Definition BuildFieldInfo (result : R) (col : Z) : FieldInfo :=
  {| fi_name := default "" (PQfname result col);
     fi_table_oid := to_uint32 (PQftable result col);
     fi_column_id := to_uint32 (PQftablecol result col);
     fi_data_type_oid := to_uint32 (PQftype result col);
     fi_format := PQfformat result col |}.

Definition BuildSchemaMeta (result : R) : ResultSchema :=
  {| rs_command := CommandFromStatus (PQcmdStatus result);
     rs_fields := BuildFieldInfo result <$> seqZ 0 (PQnfields result) |}.

(** [std::strtoll(tuples, nullptr, 10)]: zero when there is no number. *)
Definition strtoll (s : string) : Z :=
  match strtol s 10 with Some (v, _) => v | None => 0 end.

Definition BuildCommandTrailer (result : R) : ResultTrailer :=
  let cmd_status := PQcmdStatus result in
  let tag := CommandFromStatus cmd_status in
  if bool_decide (PQresultStatus result = PGRES_COMMAND_OK) then
    {| rt_row_count := match PQcmdTuples result with Some t => strtoll t | None => 0 end;
       rt_command_tag := match cmd_status with Some s => s | None => tag end;
       rt_oid := 0 |}
  else
    let num_rows := PQntuples result in
    let tag := tag +:+ " " +:+ to_string num_rows in
    {| rt_row_count := num_rows;
       rt_command_tag := match cmd_status with Some s => s | None => tag end;
       rt_oid := 0 |}.
End Meta.

(** ** The token, without the trimming *)

Fixpoint drop_while (p : ascii → bool) (s : string) : string :=
  match s with
  | String c s' => if p c then drop_while p s' else s
  | EmptyString => s
  end.

Fixpoint take_while (p : ascii → bool) (s : string) : string :=
  match s with
  | String c s' => if p c then String c (take_while p s') else ""
  | EmptyString => s
  end.

(** The first word of a statement: skip white space, stop at white space or an
    opening parenthesis. *)
Definition first_word (sql : string) : string :=
  take_while (λ c, negb (token_end c)) (drop_while white sql).

Lemma find_first_drop p s :
  match find_first p s with
  | None => drop_while (λ c, negb (p c)) s = ""
  | Some i => drop_while (λ c, negb (p c)) s = str_drop i s ∧ str_drop i s ≠ ""
  end.
Proof.
  induction s as [|c s IH]; [done|]. simpl. destruct (p c); simpl; [done|].
  destruct (find_first p s); simpl; done.
Qed.

Lemma token_is_take_while p s :
  match find_first p s with None => s | Some i => str_take i s end
  = take_while (λ c, negb (p c)) s.
Proof.
  induction s as [|c s IH]; [done|]. simpl. destruct (p c); simpl; [done|].
  destruct (find_first p s); simpl; by rewrite <-IH.
Qed.

(** Cutting the tail after the last character that is not [p] does not change
    what a prefix that stops at [p] sees. *)
Lemma take_while_trim q (p : ascii → bool) s i :
  (∀ c, p c = true → q c = false) →
  find_last (λ c, negb (p c)) s = Some i →
  take_while q (str_take (i + 1) s) = take_while q s.
Proof.
  intros Hpq. revert i. induction s as [|c s IH]; intros i; [done|]. cbn [find_last].
  destruct (find_last _ s) as [j|] eqn:E.
  - intros [= <-]. simpl. by rewrite (IH j eq_refl).
  - case_if; [|done]. intros [= <-]. simpl. destruct (q c); [|done]. f_equal.
    apply find_last_None in E. destruct s as [|d s]; [done|]. simpl in *.
    destruct (p d) eqn:Hd; [|done]. by rewrite (Hpq d Hd).
Qed.

Lemma find_last_drop p s i j :
  find_first p s = Some i → find_last p s = Some j →
  (i ≤ j)%nat ∧ find_last p (str_drop i s) = Some (j - i)%nat.
Proof.
  revert i j. induction s as [|c s IH]; intros i j; [done|]. cbn [find_first].
  destruct (p c) eqn:Hc.
  - intros [= <-] Hj. split; [lia|]. by rewrite Nat.sub_0_r.
  - destruct (find_first p s) as [i'|] eqn:Ei; [|done]. intros [= <-]. cbn [find_last].
    destruct (find_last p s) as [j'|] eqn:Ej; [|by rewrite Hc].
    intros [= <-]. destruct (IH i' j' eq_refl eq_refl). simpl. split; [lia|done].
Qed.

Lemma white_ends c : white c = true → negb (token_end c) = false.
Proof. unfold token_end. by intros ->. Qed.

Lemma UpperToken_first_word sql : UpperToken sql = str_map toupper (first_word sql).
Proof.
  unfold UpperToken, first_word. rewrite token_is_take_while. f_equal. unfold TrimSql.
  assert (Hdw : ∀ s, drop_while (λ c, negb (negb (white c))) s = drop_while white s).
  { induction s as [|c s IH]; [done|]. simpl. rewrite negb_involutive. by rewrite IH. }
  pose proof (find_first_drop (λ c, negb (white c)) sql) as Hd. simpl in Hd. rewrite Hdw in Hd.
  destruct (find_first _ sql) as [i|] eqn:Ei; [|by rewrite Hd].
  destruct Hd as [-> Hne].
  destruct (find_last (λ c, negb (white c)) sql) as [j|] eqn:Ej.
  - destruct (find_last_drop _ _ _ _ Ei Ej) as [Hle Hl].
    by apply (take_while_trim _ white); [apply white_ends|].
  - apply find_last_None in Ej. congruence.
Qed.

(** An identifier: neither white space nor a null character. *)
Definition plain_name (name : string) : Prop :=
  find_first (λ c, isspace c || ascii_eqb NUL c) name = None.

Lemma take_while_app p s t :
  take_while p s = s → (match t with String c _ => p c = false | EmptyString => True end) →
  take_while p (s +:+ t) = s.
Proof.
  induction s as [|c s IH]; simpl; intros Hs Ht.
  - destruct t as [|c t]; [done|]. simpl. by rewrite Ht.
  - destruct (p c); [|done]. injection Hs as Hs. by rewrite IH.
Qed.

Lemma plain_c_str s : plain_name s → c_str s = s.
Proof.
  unfold plain_name. intros H. apply c_str_id. revert H. induction s as [|c s IH]; [done|].
  cbn [find_first]. destruct (isspace c || ascii_eqb NUL c) eqn:E; [done|].
  apply orb_false_iff in E as [_ ->]. destruct (find_first _ s) eqn:Ef; [done|].
  intros _. by rewrite IH.
Qed.

Lemma plain_take s : plain_name s → take_while (λ c, negb (isspace c)) s = s.
Proof.
  unfold plain_name. induction s as [|c s IH]; [done|]. cbn [find_first take_while].
  destruct (isspace c); [done|]. destruct (_ || _); [done|].
  destruct (find_first _ s) eqn:Ef; [done|]. intros _. simpl. by rewrite IH.
Qed.

Lemma plain_drop s t : plain_name s → s ≠ "" → drop_while isspace (s +:+ t) = s +:+ t.
Proof.
  destruct s as [|c s]; [done|]. unfold plain_name. cbn [find_first]. rewrite str_app_cons.
  cbn [drop_while]. by destruct (isspace c).
Qed.

(** A statement is streamed through a cursor exactly when its first word,
    after leading white space and up to white space or an opening parenthesis,
    is SELECT, WITH, TABLE or VALUES in any letter case. *)
Theorem IsTupleStreamingSql_spec sql :
  IsTupleStreamingSql sql = true ↔
  str_map toupper (first_word sql) ∈ ["SELECT"; "WITH"; "TABLE"; "VALUES"].
Proof.
  unfold IsTupleStreamingSql. rewrite UpperToken_first_word.
  rewrite !orb_true_iff, !bool_decide_eq_true, !elem_of_cons, elem_of_nil. naive_solver.
Qed.

(** ** What the client reads *)

Lemma take_while_blank s : plain_name s → take_while (λ c, negb (blank c)) s = s.
Proof.
  unfold plain_name. induction s as [|c s IH]; [done|]. cbn [find_first take_while].
  destruct (isspace c) eqn:Es; [done|]. cbn [orb]. destruct (ascii_eqb NUL c); [done|].
  destruct (find_first _ s) eqn:Ef; [done|]. intros _. rewrite IH by done.
  assert (blank c = false) as ->; [|done]. destruct (blank c) eqn:Eb; [|done].
  unfold blank in Eb. apply orb_true_iff in Eb as [E|E]; apply ascii_eqb_spec in E; by subst c.
Qed.

(** The first word of a command tag. *)
Lemma CommandFromStatus_word cmd rest :
  plain_name cmd → cmd ≠ "" → str_map toupper cmd = cmd →
  CommandFromStatus (Some (cmd +:+ " " +:+ rest)) = cmd.
Proof.
  intros Hp Hne Hu. unfold CommandFromStatus. rewrite (proj2 (str_empty_false _)) by (by destruct cmd).
  cbv zeta. rewrite token_is_take_while, take_while_app; [|by apply take_while_blank|done].
  by rewrite (proj2 (str_empty_false _)).
Qed.

(** The numbers of a column are in the ranges of [Oid] and [int]. *)
Definition column_ok {R} `{!PGResult R} (r : R) (col : Z) : Prop :=
  0 ≤ PQftable r col < 2 ^ 32 ∧ 0 ≤ PQftablecol r col < 2 ^ 32 ∧ 0 ≤ PQftype r col < 2 ^ 32
  ∧ int32_range (PQfformat r col).

Lemma schema_columns_ok {R} `{!PGResult R} (r : R) :
  (∀ col, column_ok r col) → schema_ok (BuildSchemaMeta r).
Proof.
  intros Hc. apply Forall_fmap, Forall_forall. intros col _. destruct (Hc col) as (H1 & H2 & H3 & H4).
  unfold compose, field_ok. simpl. by rewrite !to_uint32_id by lia.
Qed.

(** C38: the client reads from the schema message the columns of the result,
    each once and in order: its name, the object identifiers of its table and
    type, the number of its column and its format, as libpq reports them; and
    the command of the result's tag. From the trailer message of a command it
    reads the tag and the number of affected rows, and for a result with rows
    their number. *)
Theorem metadata_of_result `{!FlexBuffers} {R} `{!PGResult R} (r : R) :
  (∀ col, column_ok r col) →
  (∃ s, decodeResultSchema (EncodeResultSchema (BuildSchemaMeta r)) = Some s
     ∧ length (rs_fields s) = Z.to_nat (PQnfields r)
     ∧ (∀ i f, rs_fields s !! i = Some f →
          fi_name f = c_str (default "" (PQfname r (Z.of_nat i)))
          ∧ fi_table_oid f = PQftable r (Z.of_nat i) ∧ fi_column_id f = PQftablecol r (Z.of_nat i)
          ∧ fi_data_type_oid f = PQftype r (Z.of_nat i) ∧ fi_format f = PQfformat r (Z.of_nat i))
     ∧ (∀ cmd rest, PQcmdStatus r = Some (cmd +:+ " " +:+ rest) → plain_name cmd → cmd ≠ "" →
          str_map toupper cmd = cmd → rs_command s = cmd))
  ∧ (∀ tag n, PQcmdStatus r = Some tag → 0 ≤ n ≤ MAX_EXACT →
       (PQresultStatus r = PGRES_COMMAND_OK ∧ PQcmdTuples r = Some (to_string n)
        ∨ PQresultStatus r = PGRES_TUPLES_OK ∧ PQntuples r = n) →
       decodeResultTrailer (EncodeResultTrailer (BuildCommandTrailer r))
       = Some (mkClientTrailer (c_str tag) n None)).
Proof.
  intros Hc. split.
  - eexists. split; [by apply decode_schema_encode, schema_columns_ok|]. split_and!.
    + simpl. by rewrite !length_fmap, length_seqZ.
    + intros i f Hf. simpl in Hf. rewrite !list_lookup_fmap in Hf.
      destruct (seqZ 0 (PQnfields r) !! i) as [col|] eqn:E; [|done]. apply lookup_seqZ in E as [-> _].
      simpl in Hf. injection Hf as <-. rewrite Z.add_0_l.
      destruct (Hc (Z.of_nat i)) as (H1 & H2 & H3 & _). simpl. by rewrite !to_uint32_id by lia.
    + intros cmd rest Hs Hp Hne Hu. simpl. rewrite Hs, CommandFromStatus_word by done. by apply plain_c_str.
  - intros tag n Ht Hn Hr.
    assert (E : BuildCommandTrailer r = mkResultTrailer tag n 0).
    { unfold BuildCommandTrailer. rewrite Ht. destruct Hr as [[-> ->]|[-> ->]]; [|done].
      rewrite bool_decide_eq_true_2 by done. unfold strtoll. rewrite strtol_to_string; [done|].
      pose proof MAX_EXACT_LONG. lia. }
    rewrite E, decode_trailer_encode; [done|]. unfold trailer_ok. simpl. lia.
Qed.

Example classify_select : IsTupleStreamingSql (String "010" "  select(1)") = true.
Proof. by vm_compute. Qed.
Example classify_insert : IsTupleStreamingSql "INSERT INTO t VALUES (1)" = false.
Proof. by vm_compute. Qed.
Example classify_paren : IsTupleStreamingSql "(SELECT 1)" = false.
Proof. by vm_compute. Qed.
Lemma sample_columns_ok col : column_ok sample_table col.
Proof.
  unfold column_ok, int32_range, INT_MAX. simpl. by destruct (Z.to_nat col) as [|[|]].
Qed.

Lemma metadata_of_result_witness :
  (∃ s, decodeResultSchema (EncodeResultSchema (BuildSchemaMeta sample_table)) = Some s
     ∧ rs_command s = "SELECT")
  ∧ decodeResultTrailer (EncodeResultTrailer (BuildCommandTrailer sample_table))
    = Some (mkClientTrailer "SELECT 3" 3 None).
Proof.
  destruct (metadata_of_result sample_table sample_columns_ok) as [(s & E & _ & _ & Hcmd) Ht]. split.
  - exists s. split; [exact E|]. by apply (Hcmd "SELECT" "3").
  - assert (Hn : 0 ≤ 3 ≤ MAX_EXACT) by (unfold MAX_EXACT; lia).
    rewrite (Ht "SELECT 3" 3 eq_refl Hn (or_intror (conj eq_refl eq_refl))). reflexivity.
Defined.

Example trailer_insert :
  BuildCommandTrailer (command_table "INSERT 0 2" "2") = mkResultTrailer "INSERT 0 2" 2 0.
Proof. by vm_compute. Qed.
