(* ===== verification/PgState.v ===== *)
(** * Shared state of the database side

    The data of [PqConnection] (src/src/pg/pq_conn.h), [ConnectionManager]
    (src/src/pg/connection_manager.h) and [SessionStore]
    (src/src/pg/session_store.h), the state record they live in, and the two
    C++ mechanisms the code relies on: the mutex of a connection and the
    reference counts of [std::shared_ptr]. *)
From S2P Require Import Prelude CppStd Libpq.
Local Open Scope Z_scope.
Local Open Scope cpp_scope.

Record ConnectParams := mkConnectParams {
  cp_pg_host : string;
  cp_port : Z;
  cp_dbname : string;
  cp_user : string;
  cp_password : string;
  cp_connect_timeout_sec : Z;
  cp_statement_timeout_ms : Z;
}.

(** The member initialisers of [ConnectParams]. *)
Definition default_params : ConnectParams := mkConnectParams "" 5432 "" "" "" 5 0.

Section State.
Context `{L : Libpq}.

(** A heap object: its address, which identifies it and its mutex, and the
    libpq handle it owns. *)
Record PqConnection := mkPqConnection { pq_addr : nat; pq_conn_ : option pgconn }.

Record ConnectionManager := mkConnectionManager {
  params_ : ConnectParams;
  pool_size_ : Z;
  configured_ : bool;
  idle_ : list PqConnection;
  in_use_ : Z;
  cv_ : nat;                            (* the notifications sent so far *)
}.

Definition default_pool : ConnectionManager := mkConnectionManager default_params 8 false [] 0 0.

Record Sys := mkSys {
  sy_pg : pgworld;                      (* libpq and the server *)
  sy_next : nat;                        (* next heap address *)
  sy_pool : ConnectionManager;
  sy_max_sessions : Z;                  (* SessionStore::max_sessions_ *)
  sy_sessions : gmap string PqConnection;
  sy_refs : list PqConnection;          (* shared_ptr held by running calls *)
  sy_locked : gset nat;                 (* connection mutexes that are locked *)
  sy_cursor : Z;                        (* g_cursor_counter *)
}.

Definition set_pg (w : pgworld) (s : Sys) : Sys :=
  mkSys w (sy_next s) (sy_pool s) (sy_max_sessions s) (sy_sessions s) (sy_refs s) (sy_locked s)
    (sy_cursor s).
Lemma set_pg_same (s : Sys) : set_pg (sy_pg s) s = s.
Proof. by destruct s. Qed.
Definition set_next (n : nat) (s : Sys) : Sys :=
  mkSys (sy_pg s) n (sy_pool s) (sy_max_sessions s) (sy_sessions s) (sy_refs s) (sy_locked s)
    (sy_cursor s).
Definition set_pool (p : ConnectionManager) (s : Sys) : Sys :=
  mkSys (sy_pg s) (sy_next s) p (sy_max_sessions s) (sy_sessions s) (sy_refs s) (sy_locked s)
    (sy_cursor s).
Definition set_sessions (m : gmap string PqConnection) (s : Sys) : Sys :=
  mkSys (sy_pg s) (sy_next s) (sy_pool s) (sy_max_sessions s) m (sy_refs s) (sy_locked s)
    (sy_cursor s).
Definition set_refs (l : list PqConnection) (s : Sys) : Sys :=
  mkSys (sy_pg s) (sy_next s) (sy_pool s) (sy_max_sessions s) (sy_sessions s) l (sy_locked s)
    (sy_cursor s).
Definition set_locked (l : gset nat) (s : Sys) : Sys :=
  mkSys (sy_pg s) (sy_next s) (sy_pool s) (sy_max_sessions s) (sy_sessions s) (sy_refs s) l
    (sy_cursor s).
Definition set_cursor (n : Z) (s : Sys) : Sys :=
  mkSys (sy_pg s) (sy_next s) (sy_pool s) (sy_max_sessions s) (sy_sessions s) (sy_refs s)
    (sy_locked s) n.

Definition set_idle (l : list PqConnection) (p : ConnectionManager) : ConnectionManager :=
  mkConnectionManager (params_ p) (pool_size_ p) (configured_ p) l (in_use_ p) (cv_ p).
Definition set_in_use (n : Z) (p : ConnectionManager) : ConnectionManager :=
  mkConnectionManager (params_ p) (pool_size_ p) (configured_ p) (idle_ p) n (cv_ p).

(** ** libpq calls, in the state *)

Definition pg_call {A} (f : pgworld → A * pgworld) : M Sys A :=
  λ s, let '(a, w) := f (sy_pg s) in (Ret a, set_pg w s).
Definition pg_do (f : pgworld → pgworld) : M Sys unit := modify (λ s, set_pg (f (sy_pg s)) s).
Definition pg_read {A} (f : pgworld → A) : M Sys A := gets (λ s, f (sy_pg s)).

(** [ClearResult] and [PQclear], which accept a null result. *)
Definition pg_clear (r : option pgresult) : M Sys unit :=
  match r with Some r => pg_do (PQclear r) | None => m_ret tt end.

(** ** States that contain the database state *)

Class HasSys (S : Type) := {
  the_sys : S → Sys;
  put_sys : Sys → S → S;
  put_the s : put_sys (the_sys s) s = s;
  the_put y s : the_sys (put_sys y s) = y;
  put_put y y' s : put_sys y (put_sys y' s) = put_sys y s;
}.
#[global] Instance sys_has_sys : HasSys Sys.
Proof. by refine {| the_sys s := s; put_sys s' _ := s' |}. Defined.

(** A call on the database state, from a larger state. *)
Definition sysM {S A} `{!HasSys S} (m : M Sys A) : M S A := zoom the_sys put_sys m.

(** ** [std::lock_guard] on the mutex of a connection

    The thread runs [m] with the mutex; a second lock by the same thread never
    returns. The guard's destructor also runs when [m] throws. *)
Definition with_lock {S A} `{!HasSys S} (c : PqConnection) (m : M S A) : M S A := λ s,
  if bool_decide (pq_addr c ∈ sy_locked (the_sys s)) then (Stuck SelfDeadlock, s)
  else
    let y := the_sys s in
    let '(o, s') := m (put_sys (set_locked ({[pq_addr c]} ∪ sy_locked y) y) s) in
    match o with
    | Stuck w => (Stuck w, s')
    | _ => let y' := the_sys s' in
           (o, put_sys (set_locked (sy_locked y' ∖ {[pq_addr c]}) y') s')
    end.

(** ** The calls on [connection->Raw()], which libpq accepts to be null *)

Definition conn_transactionStatus (c : PqConnection) : M Sys PGTransactionStatusType :=
  match pq_conn_ c with
  | Some raw => pg_read (PQtransactionStatus raw)
  | None => m_ret PQTRANS_UNKNOWN
  end.

Definition conn_exec (c : PqConnection) (sql : string) : M Sys (option pgresult) :=
  match pq_conn_ c with
  | Some raw => pg_call (PQexec raw (c_str sql))
  | None => m_ret None
  end.

Definition conn_execParams (c : PqConnection) (sql : string) (params : list exec_param) (fmt : Z)
  : M Sys (option pgresult) :=
  match pq_conn_ c with
  | Some raw => pg_call (PQexecParams raw (c_str sql) params fmt)
  | None => m_ret None
  end.

(** ** Reference counts

    The owners of a connection are the idle queue, the session table and the
    running calls. When the last one goes, [~PqConnection] finishes it. *)
Definition same_conn (c d : PqConnection) : bool := Nat.eqb (pq_addr c) (pq_addr d).

Definition owned (c : PqConnection) (s : Sys) : bool :=
  existsb (same_conn c) (sy_refs s) || existsb (same_conn c) (idle_ (sy_pool s))
  || existsb (same_conn c) (map_to_list (sy_sessions s)).*2.

Definition destroy_if_unowned (c : PqConnection) : M Sys unit := λ s,
  if owned c s then (Ret tt, s)
  else match pq_conn_ c with
       | Some raw => pg_do (PQfinish raw) s
       | None => (Ret tt, s)
       end.

Definition take_ref (c : PqConnection) : M Sys unit := modify (λ s, set_refs (c :: sy_refs s) s).

Fixpoint remove_first (c : PqConnection) (l : list PqConnection) : list PqConnection :=
  match l with
  | [] => []
  | d :: l' => if same_conn c d then l' else d :: remove_first c l'
  end.

(** [ptr.reset()] in a running call. *)
Definition drop_ref (c : PqConnection) : M Sys unit :=
  modify (λ s, set_refs (remove_first c (sy_refs s)) s) ;; destroy_if_unowned c.

(** ** Frame conditions *)

(** A call that leaves the session table and the pool alone. *)
Definition frame (s s' : Sys) : Prop :=
  sy_sessions s' = sy_sessions s ∧ sy_pool s' = sy_pool s
  ∧ sy_max_sessions s' = sy_max_sessions s ∧ sy_refs s' = sy_refs s
  ∧ sy_locked s' = sy_locked s ∧ sy_cursor s' = sy_cursor s.

#[global] Instance frame_refl : Reflexive frame.
Proof. by intros s. Qed.

#[global] Instance frame_trans : Transitive frame.
Proof. intros s1 s2 s3. unfold frame. intuition congruence. Qed.

Lemma frame_pg_call {A} (f : pgworld → A * pgworld) : preserves frame (pg_call f).
Proof. intros s. unfold pg_call. by destruct (f (sy_pg s)). Qed.
Lemma frame_pg_do f : preserves frame (pg_do f).
Proof. by intros s. Qed.
Lemma frame_pg_read {A} (f : pgworld → A) : preserves frame (pg_read f).
Proof. by intros s. Qed.
Lemma frame_pg_clear r : preserves frame (pg_clear r).
Proof. by destruct r. Qed.
Lemma frame_gets {A} (f : Sys → A) : preserves frame (gets f).
Proof. by intros s. Qed.
Lemma frame_next n : preserves frame (modify (set_next n)).
Proof. by intros s. Qed.
Lemma frame_ret {A} (a : A) : preserves frame (m_ret a).
Proof. by intros s. Qed.
Lemma frame_destroy c : preserves frame (destroy_if_unowned c).
Proof. intros s. unfold destroy_if_unowned. destruct (owned c s); [done|]. by destruct (pq_conn_ c). Qed.

Lemma frame_conn_exec c sql : preserves frame (conn_exec c sql).
Proof. unfold conn_exec. destruct (pq_conn_ c); [apply frame_pg_call|by intros s]. Qed.
Lemma frame_conn_execParams c sql ps fmt : preserves frame (conn_execParams c sql ps fmt).
Proof. unfold conn_execParams. destruct (pq_conn_ c); [apply frame_pg_call|by intros s]. Qed.
Lemma frame_conn_transactionStatus c : preserves frame (conn_transactionStatus c).
Proof. unfold conn_transactionStatus. by destruct (pq_conn_ c). Qed.

Lemma sysM_run {S A} `{!HasSys S} (m : M Sys A) (s : S) a y :
  m (the_sys s) = (Ret a, y) → sysM m s = (Ret a, put_sys y s).
Proof. unfold sysM, zoom. by intros ->. Qed.

Lemma sysM_read {S A} `{!HasSys S} (m : M Sys A) (s : S) a :
  m (the_sys s) = (Ret a, the_sys s) → sysM m s = (Ret a, s).
Proof. intros H. rewrite (sysM_run _ _ _ _ H). by rewrite put_the. Qed.

(** ** Mutexes and running to the end *)

(** A call that returns holds the mutexes it held before. *)
Definition locks_kept {S A} `{!HasSys S} (m : M S A) : Prop :=
  ∀ s a s', m s = (Ret a, s') → sy_locked (the_sys s') = sy_locked (the_sys s).

(** From a state where the thread holds no connection mutex the call returns,
    and holds none again. *)
Definition runs {S A} `{!HasSys S} (m : M S A) : Prop :=
  ∀ s, sy_locked (the_sys s) = ∅ → ∃ a s', m s = (Ret a, s') ∧ sy_locked (the_sys s') = ∅.

Lemma locks_kept_bind {S A B} `{!HasSys S} (m : M S A) (k : A → M S B) :
  locks_kept m → (∀ a, locks_kept (k a)) → locks_kept (m_bind m k).
Proof.
  intros Hm Hk s b s' Hb. apply m_bind_Ret in Hb as (a & s1 & H1 & H2).
  rewrite (Hk _ _ _ _ H2). exact (Hm _ _ _ H1).
Qed.

Lemma runs_bind {S A B} `{!HasSys S} (m : M S A) (k : A → M S B) :
  runs m → (∀ a, runs (k a)) → runs (m_bind m k).
Proof.
  intros Hm Hk s Hl. unfold m_bind. destruct (Hm s Hl) as (a & s1 & -> & Hl1). by apply Hk.
Qed.

Lemma runs_intro {S A} `{!HasSys S} (m : M S A) : returns m → locks_kept m → runs m.
Proof.
  intros Hr Hk s Hl. destruct (Hr s) as (a & s' & E). exists a, s'. split; [done|].
  by rewrite (Hk _ _ _ E).
Qed.

Lemma frame_locks {A} (m : M Sys A) : preserves frame m → locks_kept m.
Proof.
  intros Hm s a s' E. specialize (Hm s). rewrite E in Hm. by destruct Hm as (_ & _ & _ & _ & H & _).
Qed.

Lemma locks_kept_sysM {S A} `{!HasSys S} (m : M Sys A) :
  locks_kept m → locks_kept (S := S) (sysM m).
Proof.
  intros Hm s a s'. unfold sysM, zoom. destruct (m (the_sys s)) as [o y] eqn:E.
  intros [= -> <-]. rewrite the_put. by apply (Hm _ _ _ E).
Qed.

Lemma locks_kept_ret {S A} `{!HasSys S} (a : A) : locks_kept (S := S) (m_ret a).
Proof. by intros s b s' [= _ <-]. Qed.
Lemma locks_kept_gets {S A} `{!HasSys S} (f : S → A) : locks_kept (gets f).
Proof. by intros s b s' [= _ <-]. Qed.

Lemma lock_unlock (a : nat) (l : gset nat) : a ∉ l → ({[a]} ∪ l) ∖ {[a]} = l.
Proof. set_solver. Qed.

Lemma locks_kept_with_lock {S A} `{!HasSys S} c (m : M S A) :
  locks_kept m → locks_kept (with_lock c m).
Proof.
  intros Hm s a s'. unfold with_lock. case_bool_decide as Hc; [done|].
  destruct (m _) as [[b|e|w] s1] eqn:E; [|done..]. intros [= -> <-].
  apply Hm in E. rewrite !the_put in *. simpl in *. rewrite E. by apply lock_unlock.
Qed.

(** A region that does not come to an end. *)
Lemma with_lock_stuck {S A} `{!HasSys S} c (m : M S A) s w :
  pq_addr c ∉ sy_locked (the_sys s) →
  fst (m (put_sys (set_locked ({[pq_addr c]} ∪ sy_locked (the_sys s)) (the_sys s)) s)) = Stuck w →
  fst (with_lock c m s) = Stuck w.
Proof.
  intros Hc E. unfold with_lock. rewrite bool_decide_eq_false_2 by done.
  destruct (m _) as [o s1]. simpl in E. by subst o.
Qed.

(** A region that returned. *)
Lemma with_lock_Ret {S A} `{!HasSys S} c (m : M S A) s a s' :
  with_lock c m s = (Ret a, s') → ∃ s0 s1, m s0 = (Ret a, s1).
Proof.
  unfold with_lock. case_bool_decide; [done|]. destruct (m _) as [[b|e|w] s1] eqn:E; [|done..].
  intros [= -> _]. eauto.
Qed.

(** A run of a locked region. *)
Lemma with_lock_run {S A} `{!HasSys S} c (m : M S A) s o s1 :
  pq_addr c ∉ sy_locked (the_sys s) →
  m (put_sys (set_locked ({[pq_addr c]} ∪ sy_locked (the_sys s)) (the_sys s)) s) = (o, s1) →
  sy_locked (the_sys s1) = {[pq_addr c]} ∪ sy_locked (the_sys s) →
  with_lock c m s
  = (o, match o with
        | Stuck _ => s1
        | _ => put_sys (set_locked (sy_locked (the_sys s)) (the_sys s1)) s1
        end).
Proof.
  intros Hc E Hl. unfold with_lock. rewrite bool_decide_eq_false_2 by done. rewrite E.
  destruct o; [|by rewrite Hl, lock_unlock..|done]. by rewrite Hl, lock_unlock.
Qed.

(** A locked region that waits for nothing. *)
Lemma runs_with_lock {S A} `{!HasSys S} c (m : M S A) :
  returns m → locks_kept m → runs (with_lock c m).
Proof.
  intros Hr Hk s Hl. pose proof (locks_kept_with_lock c m Hk s) as Hk'. unfold with_lock in *.
  rewrite bool_decide_eq_false_2 in * by (rewrite Hl; set_solver).
  destruct (Hr (put_sys (set_locked ({[pq_addr c]} ∪ sy_locked (the_sys s)) (the_sys s)) s))
    as (a & s' & E).
  rewrite E in *. eexists _, _. split; [reflexivity|]. rewrite <-Hl. by eapply Hk'.
Qed.

Lemma returns_pg_call {A} (f : pgworld → A * pgworld) : returns (pg_call f).
Proof. intros s. unfold pg_call. destruct (f (sy_pg s)). by eexists _, _. Qed.
Lemma returns_pg_clear r : returns (pg_clear r).
Proof. destruct r; intros s; by eexists _, _. Qed.
Lemma returns_destroy c : returns (destroy_if_unowned c).
Proof.
  intros s. unfold destroy_if_unowned. destruct (owned c s); [by eexists _, _|].
  destruct (pq_conn_ c); by eexists _, _.
Qed.
Lemma returns_conn_exec c sql : returns (conn_exec c sql).
Proof. unfold conn_exec. destruct (pq_conn_ c); [apply returns_pg_call|apply returns_ret]. Qed.
Lemma returns_conn_execParams c sql ps fmt : returns (conn_execParams c sql ps fmt).
Proof. unfold conn_execParams. destruct (pq_conn_ c); [apply returns_pg_call|apply returns_ret]. Qed.
Lemma returns_conn_transactionStatus c : returns (conn_transactionStatus c).
Proof.
  unfold conn_transactionStatus. destruct (pq_conn_ c); [apply returns_gets|apply returns_ret].
Qed.

End State.

#[export] Hint Resolve frame_pg_call frame_pg_do frame_pg_read frame_pg_clear frame_gets frame_next
  frame_ret frame_destroy frame_conn_exec frame_conn_execParams frame_conn_transactionStatus : mtdd.

#[export] Hint Resolve returns_pg_call returns_pg_clear returns_destroy returns_conn_exec
  returns_conn_execParams returns_conn_transactionStatus : mtdd.
#[export] Hint Extern 1 (returns (pg_do _)) => (apply returns_modify) : mtdd.
#[export] Hint Extern 1 (returns (pg_read _)) => (apply returns_gets) : mtdd.

#[export] Hint Resolve locks_kept_ret locks_kept_gets locks_kept_sysM frame_locks
  locks_kept_with_lock : mtdd.

(** Walk through the binds and branches of a call. *)
Ltac frame_walk :=
  repeat first
    [ solve [eauto with mtdd]
    | apply preserves_bind; [apply _| |intros]
    | apply returns_bind; [|intros]
    | apply locks_kept_bind; [|intros]
    | apply runs_bind; [|intros]
    | case_match ].


Arguments PqConnection {L}.
Arguments ConnectionManager {L}.
Arguments Sys {L}.
Arguments HasSys {L} _.
