(* ===== verification/PqConn.v ===== *)
(** * Connections (src/src/pg/pq_conn.cpp) *)
From S2P Require Import Prelude CppStd Libpq PgState.
Local Open Scope Z_scope.
Local Open Scope cpp_scope.

Definition BuildConninfo (params : ConnectParams) : string :=
  "host=" +:+ cp_pg_host params +:+ " "
  +:+ "port=" +:+ to_string (cp_port params) +:+ " "
  +:+ "dbname=" +:+ cp_dbname params +:+ " "
  +:+ "user=" +:+ cp_user params +:+ " "
  +:+ "password=" +:+ cp_password params +:+ " "
  +:+ "application_name=mtdd_server "
  +:+ "connect_timeout=" +:+ to_string (cp_connect_timeout_sec params).

Section PqConn.
Context `{L : Libpq}.

(** The error text, or [None] for success. *)
Definition ApplyStatementTimeout (raw : pgconn) (timeout_ms : Z) : M Sys (option string) :=
  if timeout_ms <=? 0 then m_ret None
  else
    let* result := pg_call (PQexec raw ("SET statement_timeout = " +:+ to_string timeout_ms)) in
    match result with
    | None => m_ret (Some "failed to set statement_timeout")
    | Some r =>
        let ok := bool_decide (PQresultStatus r = PGRES_COMMAND_OK) in
        let error := PQresultErrorMessage r in
        pg_clear (Some r) ;;
        m_ret (if ok then None else Some error)
    end.

(** The error text, or the new connection. *)
Definition PqConnection_Connect (params : ConnectParams) (timeout_arg : Z)
  : M Sys (string + PqConnection) :=
  let conninfo := BuildConninfo params in
  let* raw := pg_call (PQconnectdb (c_str conninfo)) in
  match raw with
  | None => m_ret (inl "PQconnectdb returned null")
  | Some raw =>
      let* status := pg_read (PQstatus raw) in
      if bool_decide (status ≠ CONNECTION_OK) then
        let* error := pg_read (PQerrorMessage raw) in
        pg_do (PQfinish raw) ;;
        m_ret (inl error)
      else
        let* probe := pg_call (PQexec raw "SELECT 1") in
        if bool_decide (result_status probe ≠ PGRES_TUPLES_OK) then
          let* error := match probe with
                        | Some p => m_ret (PQresultErrorMessage p)
                        | None => pg_read (PQerrorMessage raw)
                        end in
          pg_clear probe ;;
          pg_do (PQfinish raw) ;;
          m_ret (inl error)
        else
          pg_clear probe ;;
          let timeout_ms := if 0 <? timeout_arg then timeout_arg
                            else cp_statement_timeout_ms params in
          let* failed := ApplyStatementTimeout raw timeout_ms in
          match failed with
          | Some error => pg_do (PQfinish raw) ;; m_ret (inl error)
          | None =>
              let* addr := gets sy_next in
              modify (set_next (addr + 1)) ;;
              m_ret (inr (mkPqConnection addr (Some raw)))
          end
  end.

Definition PqConnection_Adopt (raw : option pgconn) : M Sys PqConnection :=
  let* addr := gets sy_next in
  modify (set_next (addr + 1)) ;;
  m_ret (mkPqConnection addr raw).

Definition IsHealthy (c : PqConnection) : M Sys bool :=
  match pq_conn_ c with
  | None => m_ret false
  | Some raw => pg_read (λ w, bool_decide (PQstatus raw w = CONNECTION_OK))
  end.

Definition ErrorMessage (c : PqConnection) : M Sys string :=
  match pq_conn_ c with
  | None => m_ret "connection is null"
  | Some raw => pg_read (PQerrorMessage raw)
  end.

(** The value [IsHealthy] has in a state. *)
Definition healthyb (c : PqConnection) (s : Sys) : bool :=
  match pq_conn_ c with
  | Some raw => bool_decide (PQstatus raw (sy_pg s) = CONNECTION_OK)
  | None => false
  end.

Lemma IsHealthy_eq c (s : Sys) : IsHealthy c s = (Ret (healthyb c s), s).
Proof. unfold IsHealthy, healthyb. by destruct (pq_conn_ c). Qed.

Lemma frame_Connect params ms : preserves frame (PqConnection_Connect params ms).
Proof. unfold PqConnection_Connect, ApplyStatementTimeout. frame_walk. Qed.

Lemma returns_Connect params ms : returns (PqConnection_Connect params ms).
Proof. unfold PqConnection_Connect, ApplyStatementTimeout. frame_walk. Qed.

Lemma returns_IsHealthy c : returns (IsHealthy c).
Proof. unfold IsHealthy. frame_walk. Qed.

(** Both facts about a connection attempt. *)
Lemma Connect_runs params ms s :
  ∃ r s', PqConnection_Connect params ms s = (Ret r, s') ∧ frame s s'.
Proof.
  destruct (returns_Connect params ms s) as (r & s' & E). exists r, s'. split; [done|].
  pose proof (frame_Connect params ms s) as H. by rewrite E in H.
Qed.

Lemma frame_IsHealthy c : preserves frame (IsHealthy c).
Proof. unfold IsHealthy. case_match; eauto with mtdd. Qed.

End PqConn.

#[export] Hint Resolve frame_Connect frame_IsHealthy returns_Connect returns_IsHealthy : mtdd.
