(* ===== verification/Conninfo.v ===== *)
(** * The connection string of libpq

    [BuildConninfo] (src/src/pg/pq_conn.cpp) writes the values as they are. The
    parser of connection strings is part of libpq and a parameter: of it, only
    the documented reading of one unquoted [keyword=value] setting at a time is
    used, for keywords that libpq knows. *)
From S2P Require Import Prelude CppStd Libpq PgState PqConn.
Local Open Scope Z_scope.

(** Characters with a meaning in a connection string: white space, quotes,
    backslashes; and the equals sign for keywords. *)
Definition special (c : ascii) : bool :=
  isspace c || ascii_eqb c "'" || ascii_eqb c "092" || ascii_eqb c "=" || ascii_eqb NUL c.

(** A value, or keyword, that needs no quotes. *)
Definition plain (s : string) : Prop := s ≠ "" ∧ find_first special s = None.

Definition pair_text (kv : string * string) : string := kv.1 +:+ "=" +:+ kv.2.

Fixpoint conninfo_text (l : list (string * string)) : string :=
  match l with
  | [] => ""
  | [kv] => pair_text kv
  | kv :: l' => pair_text kv +:+ " " +:+ conninfo_text l'
  end.

(** Keywords that libpq knows; it refuses a string with any other. *)
Definition conninfo_keywords : list string :=
  ["host"; "port"; "dbname"; "user"; "password"; "application_name"; "connect_timeout"].

(** A setting that is read as it is written. *)
Definition plain_setting (kv : string * string) : Prop := kv.1 ∈ conninfo_keywords ∧ plain kv.2.

(** [PQconninfoParse]: the settings in the order they are given, [None] for an
    error. Settings are separated by spaces; a later one overrides an earlier
    one with the same keyword. *)
Class ConninfoParser := {
  conninfo_parse : string → option (list (string * string));
  conninfo_one kv : plain_setting kv → conninfo_parse (pair_text kv) = Some [kv];
  conninfo_more kv rest : plain_setting kv →
    conninfo_parse (pair_text kv +:+ " " +:+ rest) = cons kv <$> conninfo_parse rest;
}.

(** The value in effect for a keyword. *)
Definition effective (keyword : string) (l : list (string * string)) : option string :=
  foldl (λ acc kv, if bool_decide (kv.1 = keyword) then Some kv.2 else acc) None l.

Section Conninfo.
Context `{!ConninfoParser}.

(** A list of plain settings. *)
Lemma conninfo_plain l :
  Forall plain_setting l → l ≠ [] → conninfo_parse (conninfo_text l) = Some l.
Proof.
  induction 1 as [|kv l Hkv Hl IH]; [done|]. intros _. destruct l as [|kv' l]; [by apply conninfo_one|].
  cbn [conninfo_text]. rewrite conninfo_more by done. cbn [conninfo_text] in IH. by rewrite IH.
Qed.

Definition plain_params (p : ConnectParams) : Prop :=
  plain (cp_pg_host p) ∧ plain (cp_user p) ∧ plain (cp_password p)
  ∧ 0 ≤ cp_port p ∧ 0 ≤ cp_connect_timeout_sec p.

Lemma plain_to_string z : 0 ≤ z → plain (to_string z).
Proof.
  intros Hz. destruct (to_string_digits z Hz) as [Hd Hs]. split.
  - intros E. by rewrite E in Hd.
  - eapply find_first_digits; [exact Hs|]. intros c Hc. unfold special.
    rewrite digit_not_space by done. destruct Hc as [d Hc].
    assert (Hne : ∀ e, digit_val 10 e = None → c ≠ e) by (intros e He ->; congruence).
    rewrite !(proj2 (ascii_eqb_neq _ _)) by (first [by apply Hne|apply not_eq_sym; by apply Hne]).
    done.
Qed.

(** The text for a database name that is itself a list of pairs. *)
Definition pairs_of (p : ConnectParams) (dbname : string) (extra : list (string * string))
  : list (string * string) :=
  [("host", cp_pg_host p); ("port", to_string (cp_port p)); ("dbname", dbname)] ++ extra
  ++ [("user", cp_user p); ("password", cp_password p); ("application_name", "mtdd_server");
      ("connect_timeout", to_string (cp_connect_timeout_sec p))].

Definition with_dbname (d : string) (p : ConnectParams) : ConnectParams :=
  mkConnectParams (cp_pg_host p) (cp_port p) d (cp_user p) (cp_password p)
    (cp_connect_timeout_sec p) (cp_statement_timeout_ms p).

Fixpoint extra_text (extra : list (string * string)) : string :=
  match extra with [] => "" | kv :: l => " " +:+ pair_text kv +:+ extra_text l end.

Lemma conninfo_text_app extra kv l :
  conninfo_text (kv :: extra ++ l) =
  pair_text kv +:+ extra_text extra
  +:+ match l with [] => "" | _ => " " +:+ conninfo_text l end.
Proof.
  revert kv. induction extra as [|kv' extra IH]; intros kv.
  - simpl. destruct l; [by rewrite str_app_nil_l, str_app_nil_r|]. by rewrite str_app_nil_l.
  - cbn [app extra_text]. etrans; [|by rewrite !str_app_assoc].
    change (conninfo_text (kv :: kv' :: extra ++ l))
      with (pair_text kv +:+ " " +:+ conninfo_text (kv' :: extra ++ l)).
    by rewrite IH.
Qed.


Lemma BuildConninfo_text p dbname extra :
  BuildConninfo (with_dbname (dbname +:+ extra_text extra) p) = conninfo_text (pairs_of p dbname extra).
Proof.
  unfold pairs_of. cbn [app].
  transitivity (pair_text ("host", cp_pg_host p) +:+ " " +:+ pair_text ("port", to_string (cp_port p))
    +:+ " " +:+ conninfo_text (("dbname", dbname) :: extra ++
      [("user", cp_user p); ("password", cp_password p); ("application_name", "mtdd_server");
       ("connect_timeout", to_string (cp_connect_timeout_sec p))])); [|done].
  rewrite conninfo_text_app. unfold BuildConninfo, pair_text, with_dbname. simpl.
  by rewrite !str_app_assoc.
Qed.

Lemma plain_pairs p dbname extra :
  plain_params p → plain dbname → Forall plain_setting extra → Forall plain_setting (pairs_of p dbname extra).
Proof.
  intros (H1 & H2 & H3 & H4 & H5) Hd He. unfold pairs_of. rewrite !Forall_app.
  apply plain_to_string in H4, H5. assert (Ha : plain "mtdd_server") by done.
  split_and!; [|done|]; repeat (apply Forall_cons; split; [split; [unfold conninfo_keywords; set_solver|done]|]);
    by apply Forall_nil.
Qed.

(** C36: libpq reads back from the connection string exactly the parameters the
    service built, in particular the server's own host, as long as no value is
    empty or contains white space, quotes, backslashes or an equals sign. *)
Theorem conninfo_roundtrip p :
  plain_params p → plain (cp_dbname p) →
  ∃ l, conninfo_parse (BuildConninfo p) = Some l
    ∧ effective "host" l = Some (cp_pg_host p) ∧ effective "dbname" l = Some (cp_dbname p)
    ∧ effective "user" l = Some (cp_user p) ∧ effective "password" l = Some (cp_password p)
    ∧ effective "port" l = Some (to_string (cp_port p)).
Proof.
  intros Hp Hd. exists (pairs_of p (cp_dbname p) []).
  pose proof (BuildConninfo_text p (cp_dbname p) []) as E. simpl extra_text in E.
  rewrite str_app_nil_r in E.
  replace (with_dbname (cp_dbname p) p) with p in E by (by destruct p).
  rewrite E, conninfo_plain; [|by apply plain_pairs|done]. done.
Qed.

(** A database name from a request can carry further pairs. A name of the
    form [db host=other] makes libpq connect to the host the client chose, not
    to the server's own: the values are not quoted. *)
Theorem conninfo_injection p db other :
  plain_params p → plain db → plain other →
  ∃ l, conninfo_parse (BuildConninfo (with_dbname (db +:+ " host=" +:+ other) p)) = Some l
    ∧ effective "host" l = Some other ∧ effective "user" l = Some (cp_user p).
Proof.
  intros Hp Hd Ho. exists (pairs_of p db [("host", other)]).
  pose proof (BuildConninfo_text p db [("host", other)]) as E. cbn [extra_text pair_text fst snd] in E.
  rewrite str_app_nil_r in E.
  change (" " +:+ pair_text ("host", other)) with (" host=" +:+ other) in E.
  rewrite E, conninfo_plain; [done| |done].
  apply plain_pairs; [done|done|]. apply Forall_cons. split; [|done].
  split; [unfold conninfo_keywords; set_solver|done].
Qed.

End Conninfo.

(** ** A parser of unquoted pairs *)

Fixpoint split_spaces (s : string) : list string :=
  match s with
  | EmptyString => [EmptyString]
  | String c s' =>
      if isspace c then EmptyString :: split_spaces s'
      else match split_spaces s' with
           | h :: t => String c h :: t
           | [] => [String c EmptyString]
           end
  end.

Definition split_pair (s : string) : option (string * string) :=
  match find_first (ascii_eqb "=") s with
  | Some i => if bool_decide (str_take i s ∈ conninfo_keywords)
              then Some (str_take i s, str_drop (i + 1) s) else None
  | None => None
  end.

Lemma split_spaces_word w s :
  find_first isspace w = None →
  split_spaces (w +:+ String " " s) = w :: split_spaces s ∧ split_spaces w = [w].
Proof.
  induction w as [|c w IH]; [done|]. cbn [find_first]. destruct (isspace c) eqn:E; [done|].
  destruct (find_first isspace w); [done|]. intros _. destruct (IH eq_refl) as [H1 H2].
  rewrite str_app_cons. cbn [split_spaces]. by rewrite E, H1, H2.
Qed.

Lemma find_first_weaken (p q : ascii → bool) s :
  (∀ c, q c = true → p c = true) → find_first p s = None → find_first q s = None.
Proof.
  intros Hpq. induction s as [|c s IH]; [done|]. simpl. destruct (p c) eqn:E; [done|].
  destruct (find_first p s); [done|]. intros _. rewrite IH by done.
  destruct (q c) eqn:Eq; [|done]. apply Hpq in Eq. congruence.
Qed.

Lemma find_first_app p a b :
  find_first p a = None →
  find_first p (a +:+ b) = (λ i, (String.length a + i)%nat) <$> find_first p b.
Proof.
  induction a as [|c a IH].
  - intros _. rewrite str_app_nil_l. simpl. by destruct (find_first p b).
  - rewrite str_app_cons. simpl. destruct (p c); [done|]. destruct (find_first p a); [done|].
    intros _. rewrite IH by done. by destruct (find_first p b).
Qed.

Lemma plain_no_space s : plain s → find_first isspace s = None.
Proof.
  intros [_ H]. eapply find_first_weaken; [|exact H]. intros c Hc. unfold special. by rewrite Hc.
Qed.
Lemma plain_no_equals s : plain s → find_first (ascii_eqb "=") s = None.
Proof.
  intros [_ H]. eapply find_first_weaken; [|exact H]. intros c Hc. unfold special.
  apply ascii_eqb_spec in Hc. subst c. by vm_compute.
Qed.

Lemma pair_text_no_space kv :
  plain kv.1 → plain kv.2 → find_first isspace (pair_text kv) = None.
Proof.
  intros H1 H2. unfold pair_text. rewrite find_first_app by (by apply plain_no_space).
  change ("=" +:+ kv.2) with (String "=" kv.2). cbn [find_first].
  by rewrite (plain_no_space _ H2).
Qed.

Lemma keyword_plain k : k ∈ conninfo_keywords → plain k.
Proof.
  intros Hk. unfold conninfo_keywords in Hk.
  repeat (apply elem_of_cons in Hk as [->|Hk]; [done|]). by apply elem_of_nil in Hk.
Qed.

Lemma split_pair_text kv : kv.1 ∈ conninfo_keywords → split_pair (pair_text kv) = Some kv.
Proof.
  intros H1. unfold split_pair, pair_text.
  rewrite find_first_app by (by apply plain_no_equals, keyword_plain).
  change ("=" +:+ kv.2) with (String "=" kv.2). simpl. rewrite Nat.add_0_r.
  rewrite str_take_app, bool_decide_eq_true_2 by done. destruct kv as [k v]. simpl. do 2 f_equal.
  clear. induction k as [|c k IH]; [done|]. exact IH.
Qed.

#[global] Instance pairs_parser : ConninfoParser.
Proof.
  refine {| conninfo_parse s := mapM split_pair (split_spaces s) |}.
  - intros kv [Hk Hv]. destruct (split_spaces_word (pair_text kv) "") as [_ ->];
      [apply pair_text_no_space; [by apply keyword_plain|done]|].
    simpl. by rewrite split_pair_text.
  - intros kv rest [Hk Hv]. change (" " +:+ rest) with (String " " rest).
    destruct (split_spaces_word (pair_text kv) rest) as [-> _];
      [apply pair_text_no_space; [by apply keyword_plain|done]|].
    cbn [mapM]. rewrite split_pair_text by done. cbn [mbind option_bind].
    by destruct (mapM split_pair (split_spaces rest)).
Defined.

(** A keyword that libpq does not know. *)
Example unknown_keyword : conninfo_parse "host=a foo=b" = None.
Proof. by vm_compute. Qed.

Definition sample_params : ConnectParams := mkConnectParams "127.0.0.1" 5432 "app" "alice" "secret" 5 0.

Lemma sample_plain : plain_params sample_params.
Proof. repeat split; done. Qed.

Lemma conninfo_roundtrip_witness :
  ∃ l, conninfo_parse (BuildConninfo sample_params) = Some l
    ∧ effective "host" l = Some "127.0.0.1" ∧ effective "dbname" l = Some "app"
    ∧ effective "user" l = Some "alice" ∧ effective "password" l = Some "secret"
    ∧ effective "port" l = Some "5432".
Proof. apply (conninfo_roundtrip sample_params); [apply sample_plain|by split]. Defined.

Lemma conninfo_injection_witness :
  ∃ l, conninfo_parse (BuildConninfo (with_dbname "app host=10.6.6.6" sample_params)) = Some l
    ∧ effective "host" l = Some "10.6.6.6" ∧ effective "user" l = Some "alice".
Proof.
  apply (conninfo_injection sample_params "app" "10.6.6.6"); [apply sample_plain|by split|by split].
Defined.
