(* ===== verification/Pool.v ===== *)
(** * The connection pool (src/src/pg/connection_manager.cpp)

    Each critical section of [ConnectionManager] is a function on its state;
    the member functions compose them with the libpq calls made outside the
    lock. The second half lets the critical sections of several threads
    interleave. *)
From S2P Require Import Prelude CppStd Libpq PgState PqConn.
Local Open Scope Z_scope.
Local Open Scope cpp_scope.

Section Pool.
Context `{L : Libpq}.

(** ** Critical sections *)

Definition Configure_section (params : ConnectParams) (pool_size : Z) (p : ConnectionManager)
  : ConnectionManager :=
  mkConnectionManager params (if 0 <? pool_size then pool_size else 1) true (idle_ p) (in_use_ p)
    (cv_ p).

Definition push_idle (c : PqConnection) (p : ConnectionManager) : ConnectionManager :=
  set_idle (idle_ p ++ [c]) p.

(** What the first section of [Acquire] does once it holds the lock: wait, take
    the front of the idle queue, or reserve a slot for a new connection. *)
Inductive acquire_result :=
| AcquireWait
| AcquireIdle (c : PqConnection) (p : ConnectionManager)
| AcquireReserve (p : ConnectionManager).

Definition Acquire_section (p : ConnectionManager) : acquire_result :=
  match idle_ p with
  | c :: rest => AcquireIdle c (set_in_use (in_use_ p + 1) (set_idle rest p))
  | [] => if in_use_ p <? pool_size_ p
          then AcquireReserve (set_in_use (in_use_ p + 1) p)
          else AcquireWait
  end.

Lemma Acquire_section_idle p c p' :
  Acquire_section p = AcquireIdle c p' →
  ∃ rest, idle_ p = c :: rest ∧ p' = set_in_use (in_use_ p + 1) (set_idle rest p).
Proof.
  unfold Acquire_section. destruct (idle_ p) as [|d rest]; [by case_if|]. intros [= <- <-]. eauto.
Qed.

Lemma Acquire_section_reserve p p' :
  Acquire_section p = AcquireReserve p' →
  idle_ p = [] ∧ in_use_ p < pool_size_ p ∧ p' = set_in_use (in_use_ p + 1) p.
Proof.
  unfold Acquire_section. destruct (idle_ p); [|done].
  destruct (_ <? _) eqn:E; [|done]. intros [= <-]. split_and!; [done|lia|done].
Qed.

Lemma Acquire_section_wait p :
  Acquire_section p = AcquireWait → idle_ p = [] ∧ pool_size_ p ≤ in_use_ p.
Proof.
  unfold Acquire_section. destruct (idle_ p); [|done]. destruct (_ <? _) eqn:E; [done|].
  intros _. split; [done|lia].
Qed.

(** [cv_.notify_one()]. Who is woken is a matter of the threads ([PoolCv],
    [Calls]); the pool keeps the number of notifications. *)
Definition cv_notify_one (p : ConnectionManager) : ConnectionManager :=
  mkConnectionManager (params_ p) (pool_size_ p) (configured_ p) (idle_ p) (in_use_ p) (S (cv_ p)).

(** The notifications that a section has sent. *)
Definition notified (p p' : ConnectionManager) : nat := cv_ p' - cv_ p.

(** The section of [Acquire] after a failed attempt. *)
Definition give_back_slot (p : ConnectionManager) : ConnectionManager :=
  cv_notify_one (set_in_use (in_use_ p - 1) p).

(** The section of [Release] for a connection that is kept or discarded. *)
Definition Release_section (c : PqConnection) (discard : bool) (p : ConnectionManager)
  : ConnectionManager :=
  let p' := set_in_use (in_use_ p - 1) p in
  if discard then cv_notify_one p' else cv_notify_one (push_idle c p').

(** The section of [CloseAll]. *)
Definition CloseAll_section (p : ConnectionManager) : ConnectionManager :=
  mkConnectionManager (params_ p) (pool_size_ p) false [] (in_use_ p) (cv_ p).

(** ** What the pool can serve *)

(** The number of [Acquire] calls that would not wait, one after the other: the
    idle connections are taken first, then slots up to the size. *)
Definition capacity (p : ConnectionManager) : Z :=
  Z.max (Z.of_nat (length (idle_ p))) (pool_size_ p - in_use_ p).

Lemma capacity_wait p : Acquire_section p = AcquireWait ↔ capacity p ≤ 0.
Proof.
  unfold Acquire_section, capacity. destruct (idle_ p) as [|c l]; simpl.
  - destruct (_ <? _) eqn:E; split; try done; intros; lia.
  - split; [done|lia].
Qed.

Definition potential (p : ConnectionManager) : Z := capacity p - Z.of_nat (cv_ p).

(** The configuration is the same. *)
Definition same_config (p p' : ConnectionManager) : Prop :=
  params_ p' = params_ p ∧ pool_size_ p' = pool_size_ p ∧ configured_ p' = configured_ p.

Definition used (p p' : ConnectionManager) : Prop :=
  same_config p p' ∧ (cv_ p ≤ cv_ p')%nat ∧ potential p' ≤ potential p.

#[global] Instance used_refl : Reflexive used.
Proof. intros p. split_and!; [done|lia|lia]. Qed.
#[global] Instance used_trans : Transitive used.
Proof.
  intros p1 p2 p3 ((A1 & A2 & A3) & B & C) ((D1 & D2 & D3) & E & F).
  unfold used, same_config. split_and!; congruence || lia.
Qed.

Lemma used_take p c p' :
  Acquire_section p = AcquireIdle c p' →
  used p p' ∧ cv_ p' = cv_ p ∧ potential p' ≤ potential p - 1.
Proof.
  intros (rest & Hi & ->)%Acquire_section_idle. unfold used, same_config, potential, capacity.
  rewrite Hi. simpl. split_and!; lia || done.
Qed.

Lemma used_reserve p p' :
  Acquire_section p = AcquireReserve p' →
  used p p' ∧ cv_ p' = cv_ p ∧ potential p' ≤ potential p - 1.
Proof.
  intros (Hi & Hs & ->)%Acquire_section_reserve. unfold used, same_config, potential, capacity. simpl.
  rewrite Hi. simpl. split_and!; lia || done.
Qed.

Lemma used_back p : used p (give_back_slot p).
Proof. unfold used, same_config, potential, capacity. simpl. split_and!; lia || done. Qed.

Lemma used_release c d p : used p (Release_section c d p).
Proof.
  unfold used, same_config, potential, capacity.
  destruct d; simpl; rewrite ?length_app; simpl; split_and!; lia || done.
Qed.

(** ** Member functions *)

Definition on_pool (f : ConnectionManager → ConnectionManager) : M Sys unit :=
  modify (λ s, set_pool (f (sy_pool s)) s).

Definition Configure (params : ConnectParams) (pool_size : Z) : M Sys unit :=
  on_pool (Configure_section params pool_size).

Definition IsConfigured : M Sys bool := gets (λ s, configured_ (sy_pool s)).

(** The error text, or [None] for success. *)
Definition Connect : M Sys (option string) :=
  let* params := gets (λ s, params_ (sy_pool s)) in
  let* owned := PqConnection_Connect params 0 in
  match owned with
  | inl error => m_ret (Some error)
  | inr conn => on_pool (push_idle conn) ;; m_ret None
  end.

Definition CreateConnection : M Sys (option PqConnection) :=
  let* params := gets (λ s, params_ (sy_pool s)) in
  let* conn := PqConnection_Connect params 0 in
  match conn with
  | inl _ => m_ret None
  | inr c => m_ret (Some c)
  end.

(** The caller holds a reference to the connection it gets. *)
Definition Acquire : M Sys (option PqConnection) :=
  let* p := gets sy_pool in
  match Acquire_section p with
  | AcquireWait => hang CvWait
  | AcquireIdle c p' => modify (set_pool p') ;; take_ref c ;; m_ret (Some c)
  | AcquireReserve p' =>
      modify (set_pool p') ;;
      let* conn := CreateConnection in
      match conn with
      | None => on_pool give_back_slot ;; m_ret None
      | Some c => take_ref c ;; m_ret (Some c)
      end
  end.

Definition Release (conn : option PqConnection) (broken : bool) : M Sys unit :=
  match conn with
  | None => m_ret tt
  | Some c =>
      let* healthy := IsHealthy c in
      on_pool (Release_section c (broken || negb healthy))
  end.

Fixpoint destroy_all (l : list PqConnection) : M Sys unit :=
  match l with
  | [] => m_ret tt
  | c :: l' => destroy_if_unowned c ;; destroy_all l'
  end.

Definition CloseAll : M Sys unit :=
  let* p := gets sy_pool in
  modify (set_pool (CloseAll_section p)) ;;
  destroy_all (idle_ p).

(** [Acquire] that does not wait takes one away. *)
Lemma used_Acquire (s : Sys) :
  match Acquire s with
  | (Ret _, s') => used (sy_pool s) (sy_pool s') ∧ potential (sy_pool s') ≤ potential (sy_pool s) - 1
  | (Stuck w, s') => w = CvWait ∧ s' = s ∧ capacity (sy_pool s) ≤ 0
  | (Throw _, _) => False
  end.
Proof.
  unfold Acquire, m_bind at 1, gets. destruct (Acquire_section (sy_pool s)) as [|c p'|p'] eqn:Ea.
  - by apply capacity_wait in Ea.
  - by apply used_take in Ea as (Eu & _ & Ep).
  - apply used_reserve in Ea as (Eu & _ & Ep). unfold m_bind at 1, modify. unfold m_bind at 1, CreateConnection. simpl.
    unfold m_bind at 1, gets. unfold m_bind at 1.
    destruct (Connect_runs (params_ (sy_pool (set_pool p' s))) 0 (set_pool p' s))
      as (r & s1 & -> & (_ & Hf & _)).
    destruct r as [e|c]; simpl in *; rewrite Hf; [|done].
    pose proof (used_back p') as Hb.
    split; [exact (transitivity Eu Hb)|]. destruct Hb as (_ & _ & Hb). unfold potential, capacity in *.
    simpl in *. lia.
Qed.

(** ** Interleaved sections

    The threads of the pool: [pt_creating] have reserved a slot and are
    connecting, [pt_holding] are the connections that threads hold, [pt_lost]
    counts the connections that their holder has dropped without [Release], and
    [pt_connects] the completed [Connect] calls. *)
Record pool_threads := mkPoolThreads {
  pt_pool : ConnectionManager;
  pt_creating : nat;
  pt_holding : list PqConnection;
  pt_lost : nat;
  pt_connects : nat;
}.

Inductive pstep : pool_threads → pool_threads → Prop :=
| ps_configure t params :
    pstep t (mkPoolThreads (Configure_section params (pool_size_ (pt_pool t)) (pt_pool t))
               (pt_creating t) (pt_holding t) (pt_lost t) (pt_connects t))
| ps_connect t c :
    pstep t (mkPoolThreads (push_idle c (pt_pool t)) (pt_creating t) (pt_holding t)
               (pt_lost t) (S (pt_connects t)))
| ps_acquire_idle t c p' :
    Acquire_section (pt_pool t) = AcquireIdle c p' →
    pstep t (mkPoolThreads p' (pt_creating t) (c :: pt_holding t) (pt_lost t) (pt_connects t))
| ps_acquire_reserve t p' :
    Acquire_section (pt_pool t) = AcquireReserve p' →
    pstep t (mkPoolThreads p' (S (pt_creating t)) (pt_holding t) (pt_lost t) (pt_connects t))
| ps_created p n h m k c :
    pstep (mkPoolThreads p (S n) h m k) (mkPoolThreads p n (c :: h) m k)
| ps_create_failed p n h m k :
    pstep (mkPoolThreads p (S n) h m k) (mkPoolThreads (give_back_slot p) n h m k)
| ps_release p n h1 c h2 m k discard :
    pstep (mkPoolThreads p n (h1 ++ c :: h2) m k)
          (mkPoolThreads (Release_section c discard p) n (h1 ++ h2) m k)
| ps_drop p n h1 c h2 m k :
    pstep (mkPoolThreads p n (h1 ++ c :: h2) m k) (mkPoolThreads p n (h1 ++ h2) (S m) k)
| ps_close_all t :
    pstep t (mkPoolThreads (CloseAll_section (pt_pool t)) (pt_creating t) (pt_holding t)
               (pt_lost t) (pt_connects t)).

(** The pool after its first [Configure] with a positive size. *)
Definition pool_start (params : ConnectParams) (size : Z) : pool_threads :=
  mkPoolThreads (Configure_section params size default_pool) 0 [] 0 0.

(** The slots in use are the threads that create or hold a connection, and those
    that were lost. Only [Connect] adds connections beyond the configured size. *)
Record pool_inv (size : Z) (t : pool_threads) : Prop := {
  pi_size : pool_size_ (pt_pool t) = size;
  pi_in_use : in_use_ (pt_pool t) = Z.of_nat (pt_creating t + length (pt_holding t) + pt_lost t);
  pi_total : Z.of_nat (length (idle_ (pt_pool t))) + in_use_ (pt_pool t)
             ≤ size + Z.of_nat (pt_connects t);
}.

Lemma pool_inv_start params size : 0 < size → pool_inv size (pool_start params size).
Proof.
  intros Hs. split; simpl; try done; try lia. by replace (0 <? size) with true by lia.
Qed.

Lemma pool_inv_step size t t' : 0 < size → pstep t t' → pool_inv size t → pool_inv size t'.
Proof.
  intros Hsize Hstep [Hs Hu Ht].
  destruct Hstep as [t params|t c|t c p' Ha|t p' Ha|p n h m k c|p n h m k|p n h1 c h2 m k d
    |p n h1 c h2 m k|t]; simpl in *.
  - split; simpl; try done. rewrite Hs. by replace (0 <? size) with true by lia.
  - split; simpl; try done. rewrite length_app. simpl. lia.
  - apply Acquire_section_idle in Ha as (rest & Ei & ->). rewrite Ei in Ht. simpl in *.
    split; simpl; try done; lia.
  - apply Acquire_section_reserve in Ha as (Ei & E & ->). rewrite Ei in Ht. simpl in *.
    split; simpl; [done|lia|rewrite Ei; simpl; lia].
  - split; simpl; [done|lia|done].
  - split; simpl; [done|lia|lia].
  - rewrite length_app in Hu. simpl in Hu.
    destruct d; split; simpl; rewrite ?length_app; simpl; try done; lia.
  - rewrite length_app in Hu. simpl in Hu. split; simpl; rewrite ?length_app; [done|lia|done].
  - split; simpl; [done|done|lia].
Qed.

Lemma pool_inv_reachable params size t :
  0 < size → rtc pstep (pool_start params size) t → pool_inv size t.
Proof.
  intros Hs. apply rtc_invariant; [by apply pool_inv_start|].
  intros y y' Hstep. by apply pool_inv_step.
Qed.

(** C10: under any interleaving of the pool's critical sections, with holders
    that give their connection back and holders that drop it, [in_use_] is
    exactly the number of threads that create or hold a connection and of
    connections that were dropped (it never goes negative), and idle and used
    connections together exceed the configured size by at most one per
    [Connect] call. *)
Theorem pool_accounting params size t :
  0 < size → rtc pstep (pool_start params size) t →
  in_use_ (pt_pool t) = Z.of_nat (pt_creating t + length (pt_holding t) + pt_lost t)
  ∧ Z.of_nat (length (idle_ (pt_pool t))) + in_use_ (pt_pool t)
    ≤ size + Z.of_nat (pt_connects t).
Proof.
  intros Hs Hr. destruct (pool_inv_reachable _ _ _ Hs Hr). auto.
Qed.

(** A thread waits in [Acquire] only while at least as many connections as the
    pool allows are held, being created or lost. Whatever connection is then
    put back, a waiting thread is served, and with the pool exactly full it is
    also served when the connection is discarded or the slot of a failed
    attempt is given back. *)
Theorem pool_wait_is_served params size t :
  0 < size → rtc pstep (pool_start params size) t →
  Acquire_section (pt_pool t) = AcquireWait →
  size ≤ Z.of_nat (pt_creating t + length (pt_holding t) + pt_lost t)
  ∧ (∀ c, ∃ p', Acquire_section (Release_section c false (pt_pool t)) = AcquireIdle c p')
  ∧ (size = in_use_ (pt_pool t) → ∀ c, ∃ p',
       Acquire_section (Release_section c true (pt_pool t)) = AcquireReserve p'
       ∧ Acquire_section (give_back_slot (pt_pool t)) = AcquireReserve p').
Proof.
  intros Hs Hr Hw. destruct (pool_inv_reachable _ _ _ Hs Hr) as [Hsz Hu _].
  apply Acquire_section_wait in Hw as [Ei E]. unfold Acquire_section.
  split_and!; [lia| |].
  - intros c. simpl. rewrite Ei. simpl. eauto.
  - intros He c. simpl. rewrite Ei. replace (_ <? _) with true by lia. eauto.
Qed.

(** The configured size is no bound on the connections: each [Connect]
    call adds one idle connection, whatever the size and the queue, and
    threads are served from the queue even when all slots are in use. *)
Theorem pool_exceeds_size params size (c : PqConnection) (n : nat) :
  0 < size →
  ∃ t, rtc pstep (pool_start params size) t
    ∧ length (pt_holding t) = n ∧ in_use_ (pt_pool t) = Z.of_nat n.
Proof.
  intros Hs. assert (Hn : ∀ n, ∃ t, rtc pstep (pool_start params size) t
    ∧ length (pt_holding t) = n ∧ in_use_ (pt_pool t) = Z.of_nat n ∧ idle_ (pt_pool t) = []).
  { clear n. induction n as [|n (t & Hr & Hh & Hu & Hi)].
    - exists (pool_start params size). by split; [apply rtc_refl|].
    - eexists. split; [|split_and!].
      + eapply rtc_r; [eapply rtc_r; [exact Hr|apply (ps_connect t c)]|].
        eapply ps_acquire_idle. unfold Acquire_section. simpl. rewrite Hi. reflexivity.
      + simpl. by rewrite Hh.
      + simpl. rewrite Hu. lia.
      + done. }
  destruct (Hn n) as (t & ? & ? & ? & ?). eauto.
Qed.

(** [Configure] does not touch the queue: after new credentials have been
    configured, [Acquire] still hands out the connections that were opened with
    the earlier ones, oldest first. *)
Theorem Acquire_serves_old_credentials params size (c : PqConnection) rest (s : Sys) :
  idle_ (sy_pool s) = c :: rest →
  ∃ s', (Configure params size ;; Acquire) s = (Ret (Some c), s')
    ∧ idle_ (sy_pool s') = rest ∧ params_ (sy_pool s') = params ∧ sy_pg s' = sy_pg s.
Proof.
  destruct s as [w n [pa ps co id iu] ms se re lo cu]. simpl. intros ->.
  eexists. split; [reflexivity|]. done.
Qed.

End Pool.
