(* ===== verification/PoolCv.v ===== *)
(** * The pool's condition variable (src/src/pg/connection_manager.cpp)

    The threads of [Pool] with what [cv_.wait] does to them: a thread in
    [Acquire] is ready to test the predicate or asleep until a notification (or
    without one, as the standard allows). Each step is one critical section;
    connections have the addresses they were created at. *)
From S2P Require Import Prelude CppStd Libpq PgState PqConn Pool.
Local Open Scope Z_scope.

Section PoolCv.
Context `{L : Libpq}.

Record cv_threads := mkCvThreads {
  cv_threads_of : pool_threads;
  cv_ready : nat;      (* threads that have to test the predicate *)
  cv_asleep : nat;     (* threads blocked on the condition variable *)
  cv_next : nat;       (* the next address *)
}.

Definition cv_pool (v : cv_threads) : ConnectionManager := pt_pool (cv_threads_of v).

(** The threads after [n] notifications. *)
Definition ready_after (n ready asleep : nat) : nat := ready + n `min` asleep.
Definition asleep_after (n asleep : nat) : nat := asleep - n.

Inductive cvstep : cv_threads → cv_threads → Prop :=
| cv_configure t r a k params :
    cvstep (mkCvThreads t r a k)
      (mkCvThreads (mkPoolThreads (Configure_section params (pool_size_ (pt_pool t)) (pt_pool t))
         (pt_creating t) (pt_holding t) (pt_lost t) (pt_connects t)) r a k)
| cv_connect t r a k raw :
    cvstep (mkCvThreads t r a k)
      (mkCvThreads (mkPoolThreads (push_idle (mkPqConnection k raw) (pt_pool t)) (pt_creating t)
         (pt_holding t) (pt_lost t) (S (pt_connects t))) r a (S k))
| cv_arrive t r a k :
    cvstep (mkCvThreads t r a k) (mkCvThreads t (S r) a k)
| cv_sleep t r a k :
    Acquire_section (pt_pool t) = AcquireWait →
    cvstep (mkCvThreads t (S r) a k) (mkCvThreads t r (S a) k)
| cv_spurious t r a k :
    cvstep (mkCvThreads t r (S a) k) (mkCvThreads t (S r) a k)
| cv_take t r a k c p' :
    Acquire_section (pt_pool t) = AcquireIdle c p' →
    cvstep (mkCvThreads t (S r) a k)
      (mkCvThreads (mkPoolThreads p' (pt_creating t) (c :: pt_holding t) (pt_lost t)
         (pt_connects t)) r a k)
| cv_reserve t r a k p' :
    Acquire_section (pt_pool t) = AcquireReserve p' →
    cvstep (mkCvThreads t (S r) a k)
      (mkCvThreads (mkPoolThreads p' (S (pt_creating t)) (pt_holding t) (pt_lost t)
         (pt_connects t)) r a k)
| cv_created p n h l m r a k raw :
    cvstep (mkCvThreads (mkPoolThreads p (S n) h l m) r a k)
      (mkCvThreads (mkPoolThreads p n (mkPqConnection k raw :: h) l m) r a (S k))
| cv_create_failed p p' n h l m r a k :
    p' = give_back_slot p →
    cvstep (mkCvThreads (mkPoolThreads p (S n) h l m) r a k)
      (mkCvThreads (mkPoolThreads p' n h l m)
         (ready_after (notified p p') r a) (asleep_after (notified p p') a) k)
| cv_release p p' n h1 c h2 l m r a k discard :
    p' = Release_section c discard p →
    cvstep (mkCvThreads (mkPoolThreads p n (h1 ++ c :: h2) l m) r a k)
      (mkCvThreads (mkPoolThreads p' n (h1 ++ h2) l m)
         (ready_after (notified p p') r a) (asleep_after (notified p p') a) k)
| cv_drop p n h1 c h2 l m r a k :
    cvstep (mkCvThreads (mkPoolThreads p n (h1 ++ c :: h2) l m) r a k)
      (mkCvThreads (mkPoolThreads p n (h1 ++ h2) (S l) m) r a k)
| cv_close_all t r a k :
    cvstep (mkCvThreads t r a k)
      (mkCvThreads (mkPoolThreads (CloseAll_section (pt_pool t)) (pt_creating t) (pt_holding t)
         (pt_lost t) (pt_connects t)) r a k).

Definition cv_start (params : ConnectParams) (size : Z) : cv_threads :=
  mkCvThreads (pool_start params size) 0 0 0.

(** Without the condition variable these are the steps of [Pool]. *)
Lemma cvstep_pstep v v' : cvstep v v' → rtc pstep (cv_threads_of v) (cv_threads_of v').
Proof. destruct 1; simpl; subst; try (apply rtc_refl); apply rtc_once; by econstructor. Qed.

Lemma cv_reachable_pool params size v :
  rtc cvstep (cv_start params size) v → rtc pstep (pool_start params size) (cv_threads_of v).
Proof.
  apply (rtc_invariant _ (λ v, rtc pstep (pool_start params size) (cv_threads_of v)));
    [apply rtc_refl|].
  intros y y' Hs Hr. etransitivity; [exact Hr|by apply cvstep_pstep].
Qed.

(** ** Exclusive connections *)

Definition addresses (v : cv_threads) : list nat :=
  pq_addr <$> pt_holding (cv_threads_of v) ++ idle_ (cv_pool v).

Record owned_once (v : cv_threads) : Prop := {
  oo_nodup : NoDup (addresses v);
  oo_fresh : Forall (λ i, (i < cv_next v)%nat) (addresses v);
}.

(** The addresses stay, go to another place, or one of them goes away. *)
Lemma owned_submset v v' :
  addresses v' ⊆+ addresses v → (cv_next v ≤ cv_next v')%nat → owned_once v → owned_once v'.
Proof.
  intros Hs Hn [Hd Hf]. split.
  { apply submseteq_Permutation in Hs as [l Hl]. rewrite Hl in Hd. apply NoDup_app in Hd. tauto. }
  rewrite Forall_forall in *. intros i Hi. eapply Nat.lt_le_trans; [|exact Hn].
  apply Hf. by eapply elem_of_submseteq.
Qed.

Lemma owned_fresh v v' raw :
  addresses v' ≡ₚ pq_addr (mkPqConnection (cv_next v) raw) :: addresses v →
  cv_next v' = S (cv_next v) → owned_once v → owned_once v'.
Proof.
  intros Hp Hn [Hd Hf]. split.
  - rewrite Hp. apply NoDup_cons. split; [|done]. simpl. intros Hi.
    rewrite Forall_forall in Hf. apply Hf in Hi. lia.
  - rewrite Hp, Hn. apply Forall_cons. split; [simpl; lia|].
    eapply Forall_impl; [exact Hf|]. simpl. lia.
Qed.

Lemma owned_once_step v v' : cvstep v v' → owned_once v → owned_once v'.
Proof.
  intros Hs. destruct Hs as [t r a k ps|t r a k raw|t r a k|t r a k _|t r a k|t r a k c p' Ha
    |t r a k p' Ha|p n h l m r a k raw|p p' n h l m r a k ->|p p' n h1 c h2 l m r a k d ->
    |p n h1 c h2 l m r a k|t r a k].
  1,3,4,5,9: by apply owned_submset.
  - apply (owned_fresh _ _ raw); [|done]. unfold addresses, cv_pool. simpl.
    rewrite app_assoc, fmap_app, Permutation_app_comm. done.
  - apply owned_submset; [|done]. unfold addresses, cv_pool. simpl.
    apply Acquire_section_idle in Ha as (rest & -> & ->). simpl.
    apply Permutation_submseteq. rewrite !fmap_app. simpl. by rewrite Permutation_middle.
  - apply owned_submset; [|done]. unfold addresses, cv_pool. simpl.
    apply Acquire_section_reserve in Ha as (Ei & _ & ->). simpl. by rewrite Ei.
  - by apply (owned_fresh _ _ raw).
  - apply owned_submset; [|done]. unfold addresses, cv_pool. simpl.
    rewrite <-!app_assoc, !fmap_app, fmap_cons. destruct d; simpl.
    + rewrite <-Permutation_middle. by apply submseteq_cons.
    + apply Permutation_submseteq. rewrite fmap_app. simpl.
      rewrite (app_assoc _ _ [_]), (app_assoc _ _ [_]), <-Permutation_cons_append.
      by rewrite Permutation_middle.
  - apply owned_submset; [|done]. unfold addresses, cv_pool. simpl.
    rewrite <-!app_assoc, !fmap_app, fmap_cons. simpl. rewrite <-Permutation_middle.
    by apply submseteq_cons.
  - apply owned_submset; [|done]. unfold addresses, cv_pool. simpl.
    rewrite app_nil_r, fmap_app. apply submseteq_inserts_r. reflexivity.
Qed.

(** A connection has one owner at a time. Under any interleaving of the
    pool's critical sections, with any number of [Connect] calls, no connection
    is held by two threads, or held and idle, or idle twice. *)
Theorem pool_exclusive params size v :
  rtc cvstep (cv_start params size) v →
  NoDup (pq_addr <$> pt_holding (cv_threads_of v) ++ idle_ (cv_pool v)).
Proof.
  intros Hr. apply (oo_nodup v). revert Hr. apply rtc_invariant; [by split; [apply NoDup_nil|]|].
  intros y y'. apply owned_once_step.
Qed.

(** ** No lost wakeup *)

(** Since a moment with [connects] completed [Connect] calls: while some thread
    sleeps, what the pool can serve has a thread that is ready for it, or comes
    from a [Connect] call, which announces nothing. *)
Definition awake_enough (connects : nat) (v : cv_threads) : Prop :=
  (0 < cv_asleep v)%nat →
  capacity (cv_pool v)
  ≤ Z.of_nat (cv_ready v) + Z.of_nat (pt_connects (cv_threads_of v)) - Z.of_nat connects.

(** What a section gives back, it announces. *)
Lemma awake_notified connects t t' r a k k' :
  awake_enough connects (mkCvThreads t r a k) → pt_connects t' = pt_connects t →
  used (pt_pool t) (pt_pool t') →
  let n := notified (pt_pool t) (pt_pool t') in
  awake_enough connects (mkCvThreads t' (ready_after n r a) (asleep_after n a) k').
Proof.
  unfold awake_enough, used, notified, ready_after, asleep_after, potential, cv_pool. simpl.
  intros Hv -> (_ & Hc & Hp) Ha. lia.
Qed.

Lemma awake_step size connects v v' :
  0 < size → pool_inv size (cv_threads_of v) → cvstep v v' → awake_enough connects v →
  (connects ≤ pt_connects (cv_threads_of v))%nat → awake_enough connects v'.
Proof.
  intros Hsize [Hs Hu Ht] Hstep. destruct Hstep as [t r a k ps|t r a k raw|t r a k|t r a k Ha|t r a k
    |t r a k c p' Ha|t r a k p' Ha|p n h l m r a k raw|p p' n h l m r a k ->
    |p p' n h1 c h2 l m r a k d ->|p n h1 c h2 l m r a k|t r a k];
    try (intros Hv _; eapply (awake_notified connects (mkPoolThreads _ _ _ _ _) (mkPoolThreads _ _ _ _ _));
         [exact Hv|done|first [apply used_back|apply used_release]]);
    unfold awake_enough, cv_pool; simpl in *; intros Hv Hc Hp; try lia.
  - unfold capacity in *. simpl. specialize (Hv Hp). rewrite Hs in *. replace (0 <? size) with true by lia. lia.
  - unfold capacity in *. simpl. rewrite length_app. simpl. lia.
  - apply capacity_wait in Ha. lia.
  - apply used_take in Ha as (_ & H1 & H2). unfold potential in H2. lia.
  - apply used_reserve in Ha as (_ & H1 & H2). unfold potential in H2. lia.
  - unfold capacity in *. specialize (Hv Hp). cbn [CloseAll_section idle_ pool_size_ in_use_ length]. lia.
Qed.

Lemma connects_mono v v' :
  cvstep v v' → (pt_connects (cv_threads_of v) ≤ pt_connects (cv_threads_of v'))%nat.
Proof. destruct 1; simpl; lia. Qed.

Lemma awake_since params size v0 v :
  0 < size → rtc cvstep (cv_start params size) v0 →
  cv_asleep v0 = 0%nat ∨ Acquire_section (cv_pool v0) = AcquireWait → rtc cvstep v0 v →
  awake_enough (pt_connects (cv_threads_of v0)) v.
Proof.
  intros Hs H0 Hq Hr. set (n := pt_connects (cv_threads_of v0)).
  assert (H : rtc cvstep (cv_start params size) v ∧ (n ≤ pt_connects (cv_threads_of v))%nat
    ∧ awake_enough n v); [|tauto].
  revert Hr. apply (rtc_invariant _ (λ v, rtc cvstep (cv_start params size) v
    ∧ (n ≤ pt_connects (cv_threads_of v))%nat ∧ awake_enough n v)).
  - split; [done|]. split; [lia|]. intros Ha. destruct Hq as [?|Hw%capacity_wait]; [lia|]. lia.
  - intros y y' Hstep (Hp & Hn & Hy). split; [by eapply rtc_r|].
    split; [pose proof (connects_mono _ _ Hstep); lia|].
    eapply awake_step; [done|eapply pool_inv_reachable; [done|by apply cv_reachable_pool]|done..].
Qed.

(** C19: no wakeup is lost but those of [Connect]. Take any reachable moment at
    which nobody sleeps in [Acquire] or the pool has nothing to give: the moment
    at which a thread went to sleep is one. At any later moment, while some
    thread still sleeps, what the pool can give is at most what the ready
    threads are about to take and what [Connect] calls have added since, who
    notify nobody. So without such a call, a thread sleeps with nobody ready
    only while the pool is empty and all its slots are held, being connected or
    lost. *)
Theorem pool_no_lost_wakeup params size v0 v :
  0 < size → rtc cvstep (cv_start params size) v0 →
  cv_asleep v0 = 0%nat ∨ Acquire_section (cv_pool v0) = AcquireWait →
  rtc cvstep v0 v → (0 < cv_asleep v)%nat →
  let t := cv_threads_of v in
  let added := (pt_connects t - pt_connects (cv_threads_of v0))%nat in
  capacity (cv_pool v) ≤ Z.of_nat (cv_ready v + added)
  ∧ ((cv_ready v + added = 0)%nat →
     idle_ (cv_pool v) = [] ∧ size ≤ Z.of_nat (pt_creating t + length (pt_holding t) + pt_lost t)).
Proof.
  intros Hs H0 Hq Hr Ha t added. pose proof (awake_since params size v0 v Hs H0 Hq Hr Ha) as Hw.
  assert (Hc : (pt_connects (cv_threads_of v0) ≤ pt_connects t)%nat).
  { clear -Hr. unfold t. induction Hr as [|v1 v2 v3 Hst _ IH]; [done|].
    pose proof (connects_mono _ _ Hst) as Hm. etrans; [exact Hm|exact IH]. }
  destruct (pool_inv_reachable params size t Hs) as [Hsz Hu _].
  { apply cv_reachable_pool. by etrans. }
  assert (Hcap : capacity (cv_pool v) ≤ Z.of_nat (cv_ready v + added)) by (unfold added; fold t in Hw; lia).
  split; [done|]. intros Hz. rewrite Hz in Hcap. unfold capacity, cv_pool in *. fold t in Hcap |- *.
  destruct (idle_ (pt_pool t)) as [|c l]; cbn [length] in Hcap; [split; [done|lia]|lia].
Qed.

(** [Connect] notifies nobody: it can leave an idle connection in the queue while
    the only thread in [Acquire] stays asleep. *)
Theorem connect_wakes_nobody params (raw raw' : option pgconn) :
  ∃ v c p', rtc cvstep (cv_start params 1) v ∧ cv_asleep v = 1%nat ∧ cv_ready v = 0%nat
    ∧ pq_conn_ c = raw' ∧ Acquire_section (cv_pool v) = AcquireIdle c p'.
Proof.
  eexists _, _, _. split.
  - eapply rtc_l; [apply cv_arrive|]. eapply rtc_l; [apply cv_reserve; reflexivity|].
    eapply rtc_l; [apply (cv_created _ _ _ _ _ _ _ _ raw)|].
    eapply rtc_l; [apply cv_arrive|]. eapply rtc_l; [apply cv_sleep; reflexivity|].
    eapply rtc_l; [apply (cv_connect _ _ _ _ raw')|]. apply rtc_refl.
  - split; [reflexivity|]. split; [reflexivity|]. split; [|reflexivity]. reflexivity.
Qed.
End PoolCv.
