(* ===== verification/Sessions.v ===== *)
(** * Pinned sessions (src/src/pg/session_store.cpp) *)
From S2P Require Import Prelude CppStd Libpq PgState PqConn Pool.
Local Open Scope Z_scope.
Local Open Scope cpp_scope.

Section Sessions.
Context `{L : Libpq}.

(** The constructor's [max_sessions_]. *)
Definition SessionStore_max (max_sessions : Z) : Z := if 0 <? max_sessions then max_sessions else 1.

(** [sessions_.erase(it)]. *)
Definition erase_session (session_id : string) (c : PqConnection) : M Sys unit :=
  modify (λ s, set_sessions (delete session_id (sy_sessions s)) s) ;; destroy_if_unowned c.

(** The part of [GetOrCreate] after the lookup. *)
Definition create_session (session_id : string) (params : ConnectParams)
  : M Sys (option PqConnection * option string) :=
  let* s := get in
  if sy_max_sessions s <=? to_int32 (Z.of_nat (size (sy_sessions s))) then
    m_ret (None, Some "session limit exceeded")
  else
    let* owned := PqConnection_Connect params 0 in
    match owned with
    | inl error => m_ret (None, Some error)
    | inr shared =>
        modify (λ s, set_sessions (<[session_id := shared]> (sy_sessions s)) s) ;;
        take_ref shared ;;
        m_ret (Some shared, None)
    end.

(** The connection, and the text stored in [error_out] if any. *)
Definition GetOrCreate (session_id : string) (params : ConnectParams)
  : M Sys (option PqConnection * option string) :=
  if str_empty session_id then m_ret (None, None)
  else
    let* found := gets (λ s, sy_sessions s !! session_id) in
    match found with
    | Some c =>
        let* healthy := IsHealthy c in
        if healthy then take_ref c ;; m_ret (Some c, None)
        else erase_session session_id c ;; create_session session_id params
    | None => create_session session_id params
    end.

Definition CloseAll_sessions : M Sys unit :=
  let* m := gets sy_sessions in
  modify (set_sessions ∅) ;;
  destroy_all (map_to_list m).*2.

Definition Size : M Sys nat := gets (λ s, size (sy_sessions s)).

(** ** Properties *)

Definition sessions_bounded (s : Sys) : Prop :=
  Z.of_nat (size (sy_sessions s)) ≤ sy_max_sessions s.

(** The room left in the table, as the code computes it. *)
Lemma limit_test (s : Sys) :
  sy_max_sessions s ≤ INT_MAX → sessions_bounded s →
  (sy_max_sessions s <=? to_int32 (Z.of_nat (size (sy_sessions s))))
  = (sy_max_sessions s <=? Z.of_nat (size (sy_sessions s))).
Proof.
  unfold sessions_bounded. intros Hm Hb. rewrite to_int32_id; [done|]. unfold int32_range. lia.
Qed.

(** The table after the creation part: unchanged, or with one new entry. *)
Lemma create_session_runs session_id params s :
  sy_max_sessions s ≤ INT_MAX → sessions_bounded s →
  ∃ r s', create_session session_id params s = (Ret r, s')
    ∧ sy_max_sessions s' = sy_max_sessions s
    ∧ match r.1 with
      | None => sy_sessions s' = sy_sessions s
      | Some c => Z.of_nat (size (sy_sessions s)) < sy_max_sessions s ∧ r.2 = None
                  ∧ sy_sessions s' = <[session_id := c]> (sy_sessions s)
      end.
Proof.
  intros Hm Hb. unfold create_session, m_bind at 1, get. rewrite limit_test by done.
  destruct (_ <=? _) eqn:E; [by eexists _, _|]. unfold m_bind at 1.
  destruct (Connect_runs params 0 s) as (r & s1 & -> & Hf).
  destruct Hf as (H1 & H2 & H3 & H4 & H5 & H6). destruct r as [e|c].
  - eexists _, _. by split_and!.
  - eexists _, _. split; [reflexivity|]. simpl. split_and!; [done|lia|done|by rewrite H1].
Qed.

(** Removing a broken session. *)
Lemma erase_session_runs session_id c s :
  ∃ s', erase_session session_id c s = (Ret tt, s')
    ∧ sy_max_sessions s' = sy_max_sessions s
    ∧ sy_sessions s' = delete session_id (sy_sessions s).
Proof.
  unfold erase_session, m_bind. simpl.
  set (s1 := set_sessions _ s). destruct (returns_destroy c s1) as ([] & s' & E).
  pose proof (frame_destroy c s1) as (H1 & _ & H3 & _). rewrite E in *. simpl in *.
  by exists s'.
Qed.

Lemma GetOrCreate_cases session_id params s :
  session_id ≠ "" →
  GetOrCreate session_id params s =
    match sy_sessions s !! session_id with
    | Some c =>
        if healthyb c s then (Ret (Some c, None), set_refs (c :: sy_refs s) s)
        else (erase_session session_id c ;; create_session session_id params) s
    | None => create_session session_id params s
    end.
Proof.
  intros Hid. unfold GetOrCreate. rewrite (proj2 (str_empty_false _)) by done.
  unfold m_bind at 1, gets. destruct (sy_sessions s !! session_id) as [c|]; [|done].
  unfold m_bind at 1. rewrite IsHealthy_eq. by destruct (healthyb c s).
Qed.

(** What a call does to the table: nothing, or it drops a broken entry of the
    session, or it (re)binds the session to a new connection. *)
Lemma GetOrCreate_runs session_id params s :
  sy_max_sessions s ≤ INT_MAX → sessions_bounded s →
  ∃ r s', GetOrCreate session_id params s = (Ret r, s')
    ∧ sy_max_sessions s' = sy_max_sessions s
    ∧ sessions_bounded s'
    ∧ ∀ c, r.1 = Some c → sy_sessions s' !! session_id = Some c ∧ session_id ≠ "".
Proof.
  intros Hm Hb. destruct (decide (session_id = "")) as [->|Hid].
  { exists (None, None), s. by split_and!. }
  rewrite GetOrCreate_cases by done. destruct (sy_sessions s !! session_id) as [c|] eqn:El.
  - destruct (healthyb c s).
    { eexists _, _. split_and!; [done..|]. by intros ? [= <-]. }
    unfold m_bind. destruct (erase_session_runs session_id c s) as (s1 & -> & Hm1 & Hs1).
    assert (Hsz : (size (sy_sessions s1) < size (sy_sessions s))%nat).
    { rewrite Hs1, map_size_delete_Some by eauto. pose proof (map_size_non_empty_iff (sy_sessions s)).
      destruct (size (sy_sessions s)) eqn:E; [|lia]. apply map_size_empty_inv in E.
      rewrite E in El. by rewrite lookup_empty in El. }
    unfold sessions_bounded in *.
    destruct (create_session_runs session_id params s1) as (r & s2 & -> & Hm2 & Hr);
      [lia|unfold sessions_bounded; lia|].
    exists r, s2. split; [done|]. split; [congruence|]. destruct r as [[d|] e]; simpl in *.
    + destruct Hr as (Hlt & _ & ->). split; [|intros ? [= <-]; by rewrite lookup_insert_eq].
      rewrite map_size_insert. destruct (sy_sessions s1 !! session_id); simpl; lia.
    + rewrite Hr. split; [lia|done].
  - destruct (create_session_runs session_id params s Hm Hb) as (r & s2 & -> & Hm2 & Hr).
    exists r, s2. split; [done|]. split; [done|]. unfold sessions_bounded in *.
    destruct r as [[d|] e]; simpl in *.
    + destruct Hr as (Hlt & _ & ->). split; [|intros ? [= <-]; by rewrite lookup_insert_eq].
      rewrite map_size_insert_None by done. lia.
    + rewrite Hr. split; [lia|done].
Qed.

(** The pool and the mutexes are not involved. *)
Definition pool_frame (s s' : Sys) : Prop :=
  sy_pool s' = sy_pool s ∧ sy_locked s' = sy_locked s.

#[global] Instance pool_frame_refl : Reflexive pool_frame.
Proof. by intros s. Qed.
#[global] Instance pool_frame_trans : Transitive pool_frame.
Proof. intros s1 s2 s3. unfold pool_frame. intuition congruence. Qed.

Lemma frame_pool_frame {A} (m : M Sys A) : preserves frame m → preserves pool_frame m.
Proof. intros Hm. eapply preserves_weaken; [exact Hm|]. unfold frame, pool_frame. tauto. Qed.

Lemma GetOrCreate_pool_frame session_id params : preserves pool_frame (GetOrCreate session_id params).
Proof.
  assert (He : ∀ c, preserves pool_frame (erase_session session_id c)).
  { intros c. apply preserves_bind; [apply _|by intros s|intros _].
    by apply frame_pool_frame, frame_destroy. }
  assert (Hc : preserves pool_frame (create_session session_id params)).
  { apply preserves_bind; [apply _|by intros ?|intros ?]. case_match; [by intros ?|].
    apply preserves_bind; [apply _|by apply frame_pool_frame, frame_Connect|intros r].
    by destruct r; intros ?. }
  unfold GetOrCreate. case_match; [by intros s|].
  apply preserves_bind; [apply _|by intros s|intros [c|]]; [|done].
  apply preserves_bind; [apply _|by apply frame_pool_frame, frame_IsHealthy|intros []].
  - by intros s.
  - by apply preserves_bind; [apply _|..].
Qed.

(** [GetOrCreate] always returns, and never lets the table grow past
    [max_sessions_], whatever the server answers. *)
Theorem GetOrCreate_bounded session_id params (s : Sys) :
  sy_max_sessions s ≤ INT_MAX → sessions_bounded s →
  ∃ r s', GetOrCreate session_id params s = (Ret r, s') ∧ sessions_bounded s'.
Proof.
  intros Hm Hb. destruct (GetOrCreate_runs session_id params s Hm Hb) as (r & s' & H).
  exists r, s'. tauto.
Qed.

(** A session keeps its connection: when [GetOrCreate] has given one out and
    the connection is still healthy, the next call for the same session returns
    that very connection, without talking to the server and without changing
    the table. *)
Theorem session_pinned session_id params params' (s s1 : Sys) c e :
  sy_max_sessions s ≤ INT_MAX → sessions_bounded s →
  GetOrCreate session_id params s = (Ret (Some c, e), s1) → healthyb c s1 = true →
  GetOrCreate session_id params' s1 = (Ret (Some c, None), set_refs (c :: sy_refs s1) s1).
Proof.
  intros Hm Hb Hg Hh.
  destruct (GetOrCreate_runs session_id params s Hm Hb) as (r & s' & Hg' & _ & _ & Hr).
  rewrite Hg in Hg'. injection Hg' as <- <-. destruct (Hr c eq_refl) as [Hl Hid].
  rewrite GetOrCreate_cases by done. by rewrite Hl, Hh.
Qed.

(** A new session is refused when the table is full, before any connection
    is attempted, and the refusal changes nothing; the empty session id is
    refused without a message. *)
Theorem GetOrCreate_refuses session_id params (s : Sys) :
  sy_max_sessions s ≤ INT_MAX → Z.of_nat (size (sy_sessions s)) = sy_max_sessions s →
  sy_sessions s !! session_id = None →
  GetOrCreate session_id params s
  = (Ret (None, if str_empty session_id then None else Some "session limit exceeded"), s).
Proof.
  intros Hm Hfull Hl. destruct (str_empty session_id) eqn:E.
  { unfold GetOrCreate. by rewrite E. }
  rewrite GetOrCreate_cases by (by apply str_empty_false). rewrite Hl.
  unfold create_session, m_bind at 1, get.
  rewrite limit_test by (unfold sessions_bounded; lia). by replace (_ <=? _) with true by lia.
Qed.

Lemma returns_GetOrCreate sid params : returns (GetOrCreate sid params).
Proof.
  assert (Hc : ∀ sid params, returns (create_session sid params)).
  { intros. unfold create_session. apply returns_bind; [apply returns_get|intros s].
    case_match; [apply returns_ret|]. apply returns_bind; [|intros [|]; frame_walk].
    intros s1. destruct (Connect_runs params0 0 s1) as (r & s2 & -> & _). by eexists _, _. }
  unfold GetOrCreate. case_match; [apply returns_ret|]. apply returns_bind; [apply returns_gets|].
  intros [c|]; [|apply Hc]. apply returns_bind; [intros s; rewrite IsHealthy_eq; by eexists _, _|].
  intros [|]; [frame_walk|]. apply returns_bind; [|intros; apply Hc].
  intros s. destruct (erase_session_runs sid c s) as (s' & -> & _). by eexists _, _.
Qed.

End Sessions.
