(* ===== verification/Streaming.v ===== *)
(** * Streaming a query (src/src/pg/streaming_query.{h,cpp})

    [StreamingQuery] takes a connection from the pool or the session table and
    runs the statement, through a cursor when it returns tuples and at once
    otherwise. The state of a call is the database state, the object and the
    string behind the caller's [error_out]. *)
From S2P Require Import Prelude CppStd Libpq QueryMeta Grpc PgState PqConn Pool Sessions.
Local Open Scope Z_scope.
Local Open Scope cpp_scope.

Definition IsOkStatus (status : ExecStatusType) : bool :=
  match status with
  | PGRES_TUPLES_OK | PGRES_COMMAND_OK | PGRES_EMPTY_QUERY => true
  | _ => false
  end.

(** One entry of each of the four parallel vectors. *)
Definition BuildParam (param : QueryParam) : exec_param :=
  let oid := if qp_oid param =? 0 then 0 else to_uint32 (qp_oid param) in
  if str_empty (qp_value param) && (qp_format param =? 0)
  then mkExecParam oid None 0 (qp_format param)
  else mkExecParam oid (Some (qp_value param)) (to_int32 (str_size (qp_value param)))
         (qp_format param).

Definition BuildParams (request : QueryRequest) : list exec_param :=
  BuildParam <$> qr_params request.

(** [request.result_format() != 0 ? 1 : 0]. *)
Definition result_format_of (request : QueryRequest) : Z :=
  if qr_result_format request =? 0 then 0 else 1.

Definition empty_request : QueryRequest := mkQueryRequest 0 "" "" "" "" [] 0.

Section Streaming.
Context `{L : Libpq}.

Record StreamingQuery := mkStreamingQuery {
  session_defaults_ : ConnectParams;
  fetch_size_ : Z;
  connection_ : option PqConnection;
  pooled_ : bool;
  use_session_ : bool;
  use_cursor_ : bool;
  started_local_txn_ : bool;
  cursor_open_ : bool;
  immediate_done_ : bool;
  immediate_result_ : option pgresult;
  cursor_name_ : string;
  request_ : QueryRequest;
}.

(** The constructor. *)
Definition new_StreamingQuery (session_defaults : ConnectParams) (fetch_size : Z)
  : StreamingQuery :=
  mkStreamingQuery session_defaults (if 0 <? fetch_size then fetch_size else 10000)
    None false false false false false false None "" empty_request.

Definition set_connection c (q : StreamingQuery) : StreamingQuery :=
  mkStreamingQuery (session_defaults_ q) (fetch_size_ q) c (pooled_ q) (use_session_ q)
    (use_cursor_ q) (started_local_txn_ q) (cursor_open_ q) (immediate_done_ q)
    (immediate_result_ q) (cursor_name_ q) (request_ q).
Definition set_pooled b (q : StreamingQuery) : StreamingQuery :=
  mkStreamingQuery (session_defaults_ q) (fetch_size_ q) (connection_ q) b (use_session_ q)
    (use_cursor_ q) (started_local_txn_ q) (cursor_open_ q) (immediate_done_ q)
    (immediate_result_ q) (cursor_name_ q) (request_ q).
Definition set_use_session b (q : StreamingQuery) : StreamingQuery :=
  mkStreamingQuery (session_defaults_ q) (fetch_size_ q) (connection_ q) (pooled_ q) b
    (use_cursor_ q) (started_local_txn_ q) (cursor_open_ q) (immediate_done_ q)
    (immediate_result_ q) (cursor_name_ q) (request_ q).
Definition set_request r b (q : StreamingQuery) : StreamingQuery :=
  mkStreamingQuery (session_defaults_ q) (fetch_size_ q) (connection_ q) (pooled_ q)
    (use_session_ q) b (started_local_txn_ q) (cursor_open_ q) (immediate_done_ q)
    (immediate_result_ q) (cursor_name_ q) r.
Definition set_txn b (q : StreamingQuery) : StreamingQuery :=
  mkStreamingQuery (session_defaults_ q) (fetch_size_ q) (connection_ q) (pooled_ q)
    (use_session_ q) (use_cursor_ q) b (cursor_open_ q) (immediate_done_ q)
    (immediate_result_ q) (cursor_name_ q) (request_ q).
Definition set_cursor_open b (q : StreamingQuery) : StreamingQuery :=
  mkStreamingQuery (session_defaults_ q) (fetch_size_ q) (connection_ q) (pooled_ q)
    (use_session_ q) (use_cursor_ q) (started_local_txn_ q) b (immediate_done_ q)
    (immediate_result_ q) (cursor_name_ q) (request_ q).
Definition set_cursor_name n (q : StreamingQuery) : StreamingQuery :=
  mkStreamingQuery (session_defaults_ q) (fetch_size_ q) (connection_ q) (pooled_ q)
    (use_session_ q) (use_cursor_ q) (started_local_txn_ q) (cursor_open_ q)
    (immediate_done_ q) (immediate_result_ q) n (request_ q).
Definition set_immediate r done (q : StreamingQuery) : StreamingQuery :=
  mkStreamingQuery (session_defaults_ q) (fetch_size_ q) (connection_ q) (pooled_ q)
    (use_session_ q) (use_cursor_ q) (started_local_txn_ q) (cursor_open_ q) done r
    (cursor_name_ q) (request_ q).

(** The state of a call: [qc_error] is [*error_out]. *)
Record QCall := mkQCall { qc_sys : Sys; qc_stream : StreamingQuery; qc_error : string }.

#[global] Instance qcall_has_sys : HasSys QCall.
Proof.
  refine {| the_sys := qc_sys; put_sys y s := mkQCall y (qc_stream s) (qc_error s) |};
    [by intros []|done..].
Defined.

Definition on_stream (f : StreamingQuery → StreamingQuery) : M QCall unit :=
  modify (λ s, mkQCall (qc_sys s) (f (qc_stream s)) (qc_error s)).
Definition set_error (e : string) : M QCall unit :=
  modify (λ s, mkQCall (qc_sys s) (qc_stream s) e).
Definition stream_get {A} (f : StreamingQuery → A) : M QCall A := gets (λ s, f (qc_stream s)).

(** [connection_->], which needs a connection. *)
Definition the_connection : M QCall PqConnection :=
  let* c := stream_get connection_ in
  match c with Some c => m_ret c | None => hang NullPointer end.

Definition cursor_name (id : Z) : string := "mtdd_c_" +:+ to_string id.

Definition NextCursorName : M Sys string :=
  let* id := gets sy_cursor in
  modify (set_cursor (to_uint64 (id + 1))) ;;
  m_ret (cursor_name id).

(** [connection_] is null before: [Open] is called once, on a new object. *)
Definition AcquireConnection (request : QueryRequest) : M QCall bool :=
  let use_session := negb (str_empty (qr_session_id request)) in
  on_stream (set_use_session use_session) ;;
  if use_session then
    let* defaults := stream_get session_defaults_ in
    let* r := sysM (GetOrCreate (qr_session_id request) defaults) in
    match r.2 with Some e => set_error e | None => m_ret tt end ;;
    on_stream (set_connection r.1) ;;
    match r.1 with
    | None => m_ret false
    | Some _ => on_stream (set_pooled false) ;; m_ret true
    end
  else
    let* c := sysM Acquire in
    on_stream (set_connection c) ;;
    match c with
    | None => set_error "failed to acquire database connection" ;; m_ret false
    | Some _ => on_stream (set_pooled true) ;; m_ret true
    end.

Definition ReleaseConnection (broken : bool) : M QCall unit :=
  let* conn := stream_get connection_ in
  match conn with
  | None => m_ret tt
  | Some c =>
      let* pooled := stream_get pooled_ in
      (if pooled : bool then
         let* ok := sysM (IsHealthy c) in
         sysM (Release (Some c) (broken || negb ok))
       else m_ret tt) ;;
      on_stream (set_connection None) ;;
      sysM (drop_ref c) ;;
      on_stream (set_pooled false)
  end.

Definition BeginIfNeeded : M QCall bool :=
  let* c := the_connection in
  with_lock c (
    let* txn := sysM (conn_transactionStatus c) in
    match txn with
    | PQTRANS_IDLE =>
        let* result := sysM (conn_exec c "BEGIN") in
        let ok := bool_decide (result_status result = PGRES_COMMAND_OK) in
        (if negb ok then set_error (result_error result) else on_stream (set_txn ok)) ;;
        sysM (pg_clear result) ;;
        m_ret ok
    | PQTRANS_INERROR =>
        set_error "connection is in failed transaction state" ;; m_ret false
    | _ => m_ret true
    end).

(** [*error_out] keeps an earlier message. *)
Definition set_error_if_empty (e : string) : M QCall unit :=
  let* old := gets qc_error in
  when str_empty old do set_error e.

Definition EndTransaction (commit : bool) : M QCall unit :=
  let* started := stream_get started_local_txn_ in
  let* conn := stream_get connection_ in
  match started, conn with
  | true, Some c =>
      with_lock c (
        let* result := sysM (conn_exec c (if commit then "COMMIT" else "ROLLBACK")) in
        when negb (bool_decide (result_status result = PGRES_COMMAND_OK))
          do set_error_if_empty (result_error result) ;;
        sysM (pg_clear result) ;;
        on_stream (set_txn false))
  | _, _ => m_ret tt
  end.

Definition declare_sql (cursor_name text : string) : string :=
  "DECLARE " +:+ cursor_name +:+ " NO SCROLL CURSOR FOR " +:+ text.

Definition OpenCursor (request : QueryRequest) : M QCall bool :=
  let* begun := BeginIfNeeded in
  if negb begun then m_ret false
  else
    let* name := sysM NextCursorName in
    on_stream (set_cursor_name name) ;;
    let params := BuildParams request in
    let result_format := result_format_of request in
    let* c := the_connection in
    with_lock c (
      let* result := sysM (conn_execParams c (declare_sql name (qr_text request)) params
                             result_format) in
      if negb (bool_decide (result_status result = PGRES_COMMAND_OK)) then
        set_error (result_error result) ;;
        sysM (pg_clear result) ;;
        EndTransaction false ;;
        m_ret false
      else
        sysM (pg_clear result) ;;
        on_stream (set_cursor_open true) ;;
        m_ret true).

Definition CloseCursor : M QCall unit :=
  let* is_open := stream_get cursor_open_ in
  let* conn := stream_get connection_ in
  match is_open, conn with
  | true, Some c =>
      with_lock c (
        let* name := stream_get cursor_name_ in
        let* result := sysM (conn_exec c ("CLOSE " +:+ name)) in
        when negb (bool_decide (result_status result = PGRES_COMMAND_OK))
          do set_error_if_empty (result_error result) ;;
        sysM (pg_clear result) ;;
        on_stream (set_cursor_open false))
  | _, _ => m_ret tt
  end.

(** [result != nullptr ? PQresultErrorMessage(result) : connection_->ErrorMessage()]. *)
Definition exec_error_text (c : PqConnection) (result : option pgresult) : M QCall string :=
  match result with
  | Some r => m_ret (PQresultErrorMessage r)
  | None => sysM (ErrorMessage c)
  end.

Definition ExecuteImmediate (request : QueryRequest) : M QCall (option pgresult) :=
  let params := BuildParams request in
  let result_format := result_format_of request in
  let* c := the_connection in
  with_lock c (
    let* result := sysM (conn_execParams c (qr_text request) params result_format) in
    let status := result_status result in
    if bool_decide (status = PGRES_FATAL_ERROR) || bool_decide (status = PGRES_NONFATAL_ERROR) then
      let* e := exec_error_text c result in
      set_error e ;;
      sysM (pg_clear result) ;;
      m_ret None
    else if negb (IsOkStatus status) then
      set_error (result_error result) ;;
      sysM (pg_clear result) ;;
      m_ret None
    else m_ret result).

Definition fetch_sql (fetch_size : Z) (cursor_name : string) : string :=
  "FETCH FORWARD " +:+ to_string fetch_size +:+ " FROM " +:+ cursor_name.

Definition FetchCursor : M QCall (option pgresult) :=
  let* is_open := stream_get cursor_open_ in
  let* conn := stream_get connection_ in
  match is_open, conn with
  | true, Some c =>
      let* fetch := stream_get (λ q, fetch_sql (fetch_size_ q) (cursor_name_ q)) in
      with_lock c (
        let* result := sysM (conn_exec c fetch) in
        if negb (bool_decide (result_status result = PGRES_TUPLES_OK)) then
          let* e := exec_error_text c result in
          set_error e ;;
          sysM (pg_clear result) ;;
          m_ret None
        else m_ret result)
  | _, _ => m_ret None
  end.

Definition Open (request : QueryRequest) : M QCall bool :=
  on_stream (set_request request (IsTupleStreamingSql (qr_text request))) ;;
  let* acquired := AcquireConnection request in
  if negb acquired then m_ret false
  else
    let* use_cursor := stream_get use_cursor_ in
    if use_cursor : bool then OpenCursor request
    else
      let* result := ExecuteImmediate request in
      let* done := stream_get immediate_done_ in
      on_stream (set_immediate result done) ;;
      match result with
      | None => ReleaseConnection true ;; m_ret false
      | Some _ => on_stream (set_immediate result false) ;; m_ret true
      end.

Definition Fetch : M QCall (option pgresult) :=
  let* q := gets qc_stream in
  match connection_ q with
  | None => m_ret None
  | Some _ =>
      if use_cursor_ q then FetchCursor
      else if immediate_done_ q then m_ret None
      else
        on_stream (set_immediate None true) ;;
        m_ret (immediate_result_ q)
  end.

(** The first statement of [Close] and [Abort]. *)
Definition drop_immediate : M QCall unit :=
  let* q := gets qc_stream in
  match immediate_result_ q with
  | None => m_ret tt
  | Some r => sysM (pg_clear (Some r)) ;; on_stream (set_immediate None (immediate_done_ q))
  end.

Definition Close : M QCall unit :=
  drop_immediate ;;
  let* use_cursor := stream_get use_cursor_ in
  when use_cursor do (CloseCursor ;; EndTransaction true) ;;
  ReleaseConnection false.

(** [m] with a local string [ignored] as its [error_out]. *)
Definition ignoring_errors {A} (m : M QCall A) : M QCall A := λ s,
  let '(o, s') := m (mkQCall (qc_sys s) (qc_stream s) "") in
  (o, mkQCall (qc_sys s') (qc_stream s') (qc_error s)).

Definition Abort : M QCall unit :=
  ignoring_errors (
    drop_immediate ;;
    let* q := gets qc_stream in
    when use_cursor_ q && cursor_open_ q do CloseCursor ;;
    let* started := stream_get started_local_txn_ in
    when started do EndTransaction false ;;
    ReleaseConnection true).

(** The destructor of the object: it has none of its own, [connection_] is
    dropped. *)
Definition destroy_StreamingQuery : M QCall unit :=
  let* conn := stream_get connection_ in
  match conn with
  | None => m_ret tt
  | Some c => on_stream (set_connection None) ;; sysM (drop_ref c)
  end.

#[global] Arguments c_str : simpl never.
#[global] Arguments cursor_name : simpl never.
#[global] Arguments declare_sql : simpl never.
#[global] Arguments fetch_sql : simpl never.

(** ** Slots of the pool

    The slots in use by others: [in_use_] less the one this query holds. *)
Definition other_slots (s : QCall) : Z :=
  in_use_ (sy_pool (qc_sys s))
  - match connection_ (qc_stream s) with
    | Some _ => if pooled_ (qc_stream s) then 1 else 0
    | None => 0
    end.

Definition same_slots (s s' : QCall) : Prop := other_slots s' = other_slots s.

#[global] Instance same_slots_refl : Reflexive same_slots.
Proof. by intros s. Qed.
#[global] Instance same_slots_trans : Transitive same_slots.
Proof. intros s1 s2 s3. unfold same_slots. congruence. Qed.

Lemma same_slots_sysM {A} (m : M Sys A) : preserves frame m → preserves same_slots (sysM m).
Proof.
  intros Hm s. specialize (Hm (qc_sys s)). unfold sysM, zoom. simpl.
  destruct (m (qc_sys s)) as [o y]. destruct Hm as (_ & Hp & _). unfold same_slots, other_slots.
  simpl in *. by rewrite Hp.
Qed.

Lemma same_slots_on_stream f :
  (∀ q, connection_ (f q) = connection_ q ∧ pooled_ (f q) = pooled_ q) →
  preserves same_slots (on_stream f).
Proof.
  intros Hf s. unfold same_slots, other_slots. simpl. by destruct (Hf (qc_stream s)) as [-> ->].
Qed.

Lemma same_slots_set_error e : preserves same_slots (set_error e).
Proof. by intros s. Qed.
Lemma same_slots_gets {A} (f : QCall → A) : preserves same_slots (gets f).
Proof. by intros s. Qed.
Lemma same_slots_stream_get {A} (f : StreamingQuery → A) : preserves same_slots (stream_get f).
Proof. by intros s. Qed.
Lemma same_slots_ret {A} (a : A) : preserves same_slots (m_ret a).
Proof. by intros s. Qed.
Lemma same_slots_the_connection : preserves same_slots the_connection.
Proof. intros s. unfold the_connection, m_bind. simpl. by destruct (connection_ (qc_stream s)). Qed.

Lemma same_slots_with_lock {A} c (m : M QCall A) :
  preserves same_slots m → preserves same_slots (with_lock c m).
Proof.
  intros Hm s. unfold with_lock. destruct (bool_decide _); [done|].
  specialize (Hm (put_sys (set_locked ({[pq_addr c]} ∪ sy_locked (qc_sys s)) (qc_sys s)) s)).
  simpl in *. destruct (m _) as [[a|e|w] s']; exact Hm.
Qed.

End Streaming.

#[export] Hint Resolve same_slots_sysM same_slots_set_error same_slots_gets same_slots_ret
  same_slots_the_connection same_slots_with_lock same_slots_stream_get : mtdd.
#[export] Hint Extern 1 (preserves same_slots (on_stream _)) =>
  (by apply same_slots_on_stream) : mtdd.

Ltac slot_walk :=
  repeat first
    [ solve [eauto with mtdd]
    | apply preserves_bind; [apply _| |intros]
    | apply same_slots_with_lock
    | case_match ].

Section Slots.
Context `{L : Libpq}.

Lemma frame_ErrorMessage c : preserves frame (ErrorMessage c).
Proof. unfold ErrorMessage. frame_walk. Qed.
#[local] Hint Resolve frame_ErrorMessage : mtdd.

Lemma same_slots_BeginIfNeeded : preserves same_slots BeginIfNeeded.
Proof. unfold BeginIfNeeded. slot_walk. Qed.

Lemma same_slots_EndTransaction b : preserves same_slots (EndTransaction b).
Proof.
  unfold EndTransaction, set_error_if_empty. slot_walk.
Qed.

Lemma same_slots_CloseCursor : preserves same_slots CloseCursor.
Proof.
  unfold CloseCursor, set_error_if_empty. slot_walk.
Qed.

Lemma frame_NextCursorName_slots : preserves same_slots (sysM NextCursorName).
Proof. by intros s. Qed.
#[local] Hint Resolve same_slots_BeginIfNeeded same_slots_EndTransaction same_slots_CloseCursor
  frame_NextCursorName_slots : mtdd.

Lemma same_slots_OpenCursor r : preserves same_slots (OpenCursor r).
Proof. unfold OpenCursor. slot_walk. Qed.

Lemma same_slots_exec_error_text c r : preserves same_slots (exec_error_text c r).
Proof. unfold exec_error_text. slot_walk. Qed.
#[local] Hint Resolve same_slots_OpenCursor same_slots_exec_error_text : mtdd.

Lemma same_slots_ExecuteImmediate r : preserves same_slots (ExecuteImmediate r).
Proof. unfold ExecuteImmediate. slot_walk. Qed.

Lemma same_slots_Fetch : preserves same_slots Fetch.
Proof.
  unfold Fetch, FetchCursor. slot_walk.
Qed.

Lemma Acquire_slots (s : Sys) :
  match Acquire s with
  | (Ret (Some _), s') => in_use_ (sy_pool s') = in_use_ (sy_pool s) + 1
  | (Ret None, s') => in_use_ (sy_pool s') = in_use_ (sy_pool s)
  | (Stuck _, s') => s' = s
  | (Throw _, _) => False
  end.
Proof.
  unfold Acquire, m_bind at 1, gets. destruct (Acquire_section (sy_pool s)) as [|c p'|p'] eqn:Ea.
  - done.
  - by apply Acquire_section_idle in Ea as (rest & _ & ->).
  - assert (Hp : in_use_ p' = in_use_ (sy_pool s) + 1)
      by (by apply Acquire_section_reserve in Ea as (_ & _ & ->)).
    unfold m_bind at 1, modify. unfold m_bind at 1, CreateConnection. simpl.
    unfold m_bind at 1, gets. unfold m_bind at 1.
    destruct (Connect_runs (params_ (sy_pool (set_pool p' s))) 0 (set_pool p' s))
      as (r & s1 & -> & (_ & Hf & _)).
    destruct r as [e|c]; simpl in *; rewrite Hf; simpl; lia.
Qed.

Lemma Release_slots c b (s : Sys) :
  ∃ s', Release (Some c) b s = (Ret tt, s') ∧ in_use_ (sy_pool s') = in_use_ (sy_pool s) - 1
    ∧ sy_locked s' = sy_locked s ∧ sy_pg s' = sy_pg s.
Proof.
  unfold Release, m_bind. rewrite IsHealthy_eq. simpl. eexists. split; [done|].
  unfold Release_section. by destruct (_ || _).
Qed.

Lemma drop_ref_runs c (s : Sys) :
  ∃ s', drop_ref c s = (Ret tt, s') ∧ sy_pool s' = sy_pool s ∧ sy_locked s' = sy_locked s.
Proof.
  unfold drop_ref, m_bind. simpl. set (s1 := set_refs _ s).
  destruct (returns_destroy c s1) as ([] & s' & E).
  pose proof (frame_destroy c s1) as (_ & Hp & _ & _ & Hl & _). rewrite E in *. by exists s'.
Qed.

(** Giving the connection back. *)
Lemma ReleaseConnection_runs b (s : QCall) :
  ∃ s', ReleaseConnection b s = (Ret tt, s') ∧ connection_ (qc_stream s') = None
    ∧ same_slots s s' ∧ sy_locked (qc_sys s') = sy_locked (qc_sys s).
Proof.
  unfold ReleaseConnection, m_bind at 1, stream_get, gets, same_slots, other_slots.
  destruct (connection_ (qc_stream s)) as [c|] eqn:Ec.
  2: { exists s. split; [done|]. by rewrite Ec. }
  unfold m_bind at 1. destruct (pooled_ (qc_stream s)) eqn:Ep.
  - destruct (Release_slots c (b || negb (healthyb c (qc_sys s))) (qc_sys s))
      as (y1 & E1 & H1 & H2 & _).
    rewrite (m_bind_run _ _ _ tt (put_sys y1 s)).
    2: { erewrite m_bind_run by (apply sysM_read, IsHealthy_eq). apply sysM_run. exact E1. }
    unfold m_bind, sysM, zoom, on_stream, modify. simpl.
    destruct (drop_ref_runs c y1) as (y2 & -> & H3 & H4). eexists. split; [done|]. simpl.
    split_and!; [done| |congruence]. rewrite H3. lia.
  - unfold m_bind, sysM, zoom, on_stream, modify. simpl.
    destruct (drop_ref_runs c (qc_sys s)) as (y2 & -> & H3 & H4). eexists. split; [done|]. simpl.
    split_and!; [done| |congruence]. by rewrite H3.
Qed.

(** The caller's message stays. *)
Lemma ReleaseConnection_error b e : keeps (λ s, qc_error s = e) (ReleaseConnection b).
Proof.
  assert (Hy : ∀ A (m : M Sys A), keeps (λ s : QCall, qc_error s = e) (sysM m)).
  { intros A m s Hs. unfold sysM, zoom. by destruct (m (the_sys s)). }
  unfold ReleaseConnection.
  repeat first [apply Hy | by intros s | apply keeps_bind; [|intros] | case_match].
Qed.

(** Where a pooled connection goes. *)
Lemma ReleaseConnection_pool b (s : QCall) c :
  connection_ (qc_stream s) = Some c → pooled_ (qc_stream s) = true →
  ∃ s', ReleaseConnection b s = (Ret tt, s')
    ∧ sy_pool (qc_sys s')
      = Release_section c (b || negb (healthyb c (qc_sys s))) (sy_pool (qc_sys s)).
Proof.
  intros Hc Hp. unfold ReleaseConnection, m_bind at 1, stream_get, gets. rewrite Hc.
  unfold m_bind at 1. rewrite Hp. unfold m_bind, sysM, zoom, Release. rewrite IsHealthy_eq. simpl.
  unfold m_bind. rewrite IsHealthy_eq. simpl.
  match goal with |- context [drop_ref c ?y] => destruct (drop_ref_runs c y) as (y2 & -> & H3 & _) end.
  eexists. split; [done|]. simpl. rewrite H3. simpl. by rewrite <-orb_assoc, orb_diag.
Qed.

(** Taking a connection, by a query that has none. *)
Lemma AcquireConnection_slots r (s : QCall) :
  connection_ (qc_stream s) = None → same_slots s (snd (AcquireConnection r s)).
Proof.
  intros Hc. unfold AcquireConnection, m_bind at 1, on_stream, modify. simpl.
  destruct (negb _).
  - unfold m_bind at 1 2, stream_get, gets, sysM, zoom. simpl.
    pose proof (GetOrCreate_pool_frame (qr_session_id r) (session_defaults_ (qc_stream s)) (qc_sys s))
      as [Hp _].
    destruct (GetOrCreate _ _ _) as [[[c [e|]]|e|w] y]; simpl in *;
      [destruct c..| |]; unfold same_slots, other_slots; simpl; rewrite ?Hc, Hp; done.
  - unfold m_bind at 1, sysM, zoom. simpl. pose proof (Acquire_slots (qc_sys s)) as Ha.
    destruct (Acquire (qc_sys s)) as [[[c|]|e|w] y]; unfold same_slots, other_slots; simpl;
      rewrite ?Hc; [lia|lia|done|by rewrite Ha].
Qed.

(** ** Fetch, Close and Abort wait for nothing *)

Lemma locks_kept_on_stream f : locks_kept (on_stream f).
Proof. by intros s [] s' [= <-]. Qed.
Lemma locks_kept_set_error e : locks_kept (set_error e).
Proof. by intros s [] s' [= <-]. Qed.
Lemma returns_on_stream f : returns (on_stream f).
Proof. intros s. by eexists _, _. Qed.
Lemma returns_set_error e : returns (set_error e).
Proof. intros s. by eexists _, _. Qed.
Lemma returns_ErrorMessage c : returns (ErrorMessage c).
Proof. unfold ErrorMessage. frame_walk. Qed.
#[local] Hint Resolve locks_kept_on_stream locks_kept_set_error returns_on_stream returns_set_error
  returns_ErrorMessage : mtdd.
#[local] Hint Extern 1 (returns (sysM _)) => (apply returns_zoom) : mtdd.
#[local] Hint Extern 1 (returns (stream_get _)) => (apply returns_gets) : mtdd.
#[local] Hint Extern 1 (locks_kept (stream_get _)) => (apply locks_kept_gets) : mtdd.

(** The query has the connection [o], and the mutexes [l] are locked, by this
    thread or by others. *)
Definition holds (o : option PqConnection) (l : gset nat) (s : QCall) : Prop :=
  connection_ (qc_stream s) = o ∧ sy_locked (qc_sys s) = l.

(** From such a state the call returns, and leaves such a state. *)
Definition runs_own {A} (o : option PqConnection) (l : gset nat) (m : M QCall A) : Prop :=
  ∀ s, holds o l s → ∃ a s', m s = (Ret a, s') ∧ holds o l s'.

Definition mutex_free (o : option PqConnection) (l : gset nat) : Prop :=
  ∀ c, o = Some c → pq_addr c ∉ l.

Lemma nothing_locked o l : l = ∅ → mutex_free o l.
Proof. intros -> c _. set_solver. Qed.

Lemma own_bind {A B} o l (m : M QCall A) (k : A → M QCall B) :
  runs_own o l m → (∀ a, runs_own o l (k a)) → runs_own o l (m_bind m k).
Proof.
  intros Hm Hk s Hs. unfold m_bind. destruct (Hm s Hs) as (a & s1 & -> & Hs1). by apply Hk.
Qed.
Lemma own_ret {A} o l (a : A) : runs_own o l (m_ret a).
Proof. intros s Hs. by eexists _, _. Qed.
Lemma own_gets {A} o l (f : QCall → A) : runs_own o l (gets f).
Proof. intros s Hs. by eexists _, _. Qed.
Lemma own_stream_get {A} o l (f : StreamingQuery → A) : runs_own o l (stream_get f).
Proof. intros s Hs. by eexists _, _. Qed.
Lemma own_set_error o l e : runs_own o l (set_error e).
Proof. intros s Hs. by eexists _, _. Qed.
Lemma own_on_stream o l f :
  (∀ q, connection_ (f q) = connection_ q) → runs_own o l (on_stream f).
Proof.
  intros Hf s [Hc Hl]. eexists _, _. split; [reflexivity|]. split; [|done]. simpl. by rewrite Hf.
Qed.
Lemma own_sysM {A} o l (m : M Sys A) : returns m → locks_kept m → runs_own o l (sysM m).
Proof.
  intros Hr Hk s [Hc Hl]. unfold sysM, zoom. destruct (Hr (the_sys s)) as (a & y & E). rewrite E.
  eexists _, _. split; [reflexivity|]. split; [done|]. apply Hk in E. simpl in *. congruence.
Qed.
Lemma own_with_lock {A} c l (m : M QCall A) :
  mutex_free (Some c) l → runs_own (Some c) ({[pq_addr c]} ∪ l) m →
  runs_own (Some c) l (with_lock c m).
Proof.
  intros Hf Hm s [Hc Hl]. assert (Hn : pq_addr c ∉ l) by (by apply Hf). unfold with_lock. simpl.
  rewrite Hl, bool_decide_eq_false_2 by done.
  destruct (Hm (put_sys (set_locked ({[pq_addr c]} ∪ l) (qc_sys s)) s)) as (a & s' & E & Hc' & Hl');
    [done|]. simpl in E. rewrite E. eexists _, _. split; [reflexivity|]. split; [done|]. simpl.
  rewrite Hl'. by apply lock_unlock.
Qed.
(** The branches on [connection_]. *)
Lemma own_connection {A} o l (k : option PqConnection → M QCall A) :
  runs_own o l (k o) → runs_own o l (m_bind (stream_get connection_) k).
Proof. intros Hk s [Hc Hl]. unfold m_bind, stream_get, gets. rewrite Hc. by apply Hk. Qed.

#[local] Hint Resolve own_ret own_gets own_stream_get own_set_error own_sysM : mtdd.

Ltac own_walk :=
  repeat first
    [ solve [eauto with mtdd]
    | by apply own_on_stream
    | apply own_connection
    | apply own_with_lock; [done|]
    | apply own_bind; [|intros]
    | case_match; simplify_eq ].

Section Own.
Context (o : option PqConnection) (l : gset nat) (Hfree : mutex_free o l).

Lemma own_CloseCursor : runs_own o l CloseCursor.
Proof. unfold CloseCursor, set_error_if_empty. destruct o; own_walk. Qed.
Lemma own_EndTransaction b : runs_own o l (EndTransaction b).
Proof. unfold EndTransaction, set_error_if_empty. destruct o; own_walk. Qed.
Lemma own_Fetch : runs_own o l Fetch.
Proof.
  assert (Hf : runs_own o l FetchCursor).
  { unfold FetchCursor, exec_error_text. destruct o; own_walk. }
  unfold Fetch. own_walk.
Qed.
Lemma own_drop_immediate : runs_own o l drop_immediate.
Proof. unfold drop_immediate. own_walk. Qed.
End Own.
#[local] Hint Resolve own_CloseCursor own_EndTransaction own_drop_immediate : mtdd.

(** A call that waits only for the mutex of its connection. *)
Lemma runs_of_own {A} (m : M QCall A) :
  (∀ o l, mutex_free o l → runs_own o l m) → runs m.
Proof.
  intros Hm s Hl. destruct (Hm (connection_ (qc_stream s)) ∅ (nothing_locked _ _ eq_refl) s) as (a & s' & E & _ & Hl');
    [by split|]. by exists a, s'.
Qed.

Lemma runs_Fetch : runs Fetch.
Proof. apply runs_of_own, own_Fetch. Qed.

(** ** No exceptions *)

Lemma nothrow_with_lock {S A} `{!HasSys S} c (m : M S A) : nothrow m → nothrow (with_lock c m).
Proof.
  intros Hm s e s'. unfold with_lock. case_bool_decide; [done|].
  destruct (m _) as [[a|e1|w] s1] eqn:E; [done| |done]. by apply Hm in E.
Qed.
#[local] Hint Resolve returns_nothrow nothrow_with_lock : mtdd.

Ltac throw_walk :=
  repeat first
    [ solve [eauto with mtdd]
    | apply nothrow_bind; [|intros]
    | apply nothrow_with_lock
    | case_match ].

Lemma nothrow_CloseCursor : nothrow CloseCursor.
Proof. unfold CloseCursor, set_error_if_empty. throw_walk. Qed.
Lemma nothrow_EndTransaction b : nothrow (EndTransaction b).
Proof. unfold EndTransaction, set_error_if_empty. throw_walk. Qed.
Lemma nothrow_ReleaseConnection b : nothrow (ReleaseConnection b).
Proof.
  intros s e s'. by destruct (ReleaseConnection_runs b s) as (s1 & -> & _).
Qed.
Lemma nothrow_drop_immediate : nothrow drop_immediate.
Proof. unfold drop_immediate. throw_walk. Qed.
#[local] Hint Resolve nothrow_CloseCursor nothrow_EndTransaction nothrow_ReleaseConnection
  nothrow_drop_immediate : mtdd.

Lemma nothrow_Close : nothrow Close.
Proof. unfold Close. throw_walk. Qed.
Lemma nothrow_Abort : nothrow Abort.
Proof.
  intros s e s'. unfold Abort, ignoring_errors.
  match goal with |- context [?m (mkQCall _ _ _)] =>
    assert (Hm : nothrow m) by throw_walk;
    destruct (m (mkQCall (qc_sys s) (qc_stream s) "")) as [[a|e1|w] s1] eqn:E end; [done| |done].
  by apply Hm in E.
Qed.

(** ** Closing gives the slot back *)

Lemma same_slots_drop_immediate : preserves same_slots drop_immediate.
Proof. unfold drop_immediate. slot_walk. Qed.
#[local] Hint Resolve same_slots_drop_immediate : mtdd.

(** A computation that ends by giving the connection back. *)
Lemma own_released (m : M QCall unit) b o l s :
  runs_own o l m → preserves same_slots m → holds o l s →
  ∃ s', (m ;; ReleaseConnection b) s = (Ret tt, s') ∧ connection_ (qc_stream s') = None
    ∧ in_use_ (sy_pool (qc_sys s')) = other_slots s ∧ sy_locked (qc_sys s') = l.
Proof.
  intros Hm Hs Hl. destruct (Hm s Hl) as ([] & s1 & E1 & _ & Hl1). specialize (Hs s).
  rewrite E1 in Hs. simpl in Hs. rewrite (m_bind_run _ _ _ _ _ E1).
  destruct (ReleaseConnection_runs b s1) as (s2 & E2 & Hn & Hs2 & Hl2). exists s2.
  split_and!; [done..| |congruence]. unfold same_slots in *.
  assert (Ho : other_slots s2 = in_use_ (sy_pool (qc_sys s2))).
  { unfold other_slots. rewrite Hn. lia. }
  congruence.
Qed.

(** Only the mutex of the query's own connection matters, and without a cursor
    none. *)
Definition closable (s : QCall) : Prop :=
  use_cursor_ (qc_stream s) = true → mutex_free (connection_ (qc_stream s)) (sy_locked (qc_sys s)).

Lemma closable_unlocked (s : QCall) : sy_locked (qc_sys s) = ∅ → closable s.
Proof. intros Hl _. by apply nothing_locked. Qed.

Lemma Close_slot (s : QCall) :
  closable s →
  ∃ s', Close s = (Ret tt, s') ∧ connection_ (qc_stream s') = None
    ∧ in_use_ (sy_pool (qc_sys s')) = other_slots s
    ∧ sy_locked (qc_sys s') = sy_locked (qc_sys s).
Proof.
  intros Hf. destruct (use_cursor_ (qc_stream s)) eqn:Eu.
  - specialize (Hf Eu). unfold Close. rewrite <-!m_bind_assoc.
    eapply own_released; [own_walk|slot_walk|by split].
  - assert (E : Close s = (drop_immediate ;; ReleaseConnection false) s).
    { unfold Close, drop_immediate, m_bind, gets, stream_get. simpl.
      destruct (immediate_result_ (qc_stream s)); simpl; by rewrite Eu. }
    rewrite E. eapply own_released; [own_walk|slot_walk|by split].
Qed.

Lemma Abort_slot (s : QCall) :
  mutex_free (connection_ (qc_stream s)) (sy_locked (qc_sys s)) →
  ∃ s', Abort s = (Ret tt, s') ∧ connection_ (qc_stream s') = None
    ∧ in_use_ (sy_pool (qc_sys s')) = other_slots s
    ∧ sy_locked (qc_sys s') = sy_locked (qc_sys s).
Proof.
  intros Hf. unfold Abort, ignoring_errors.
  match goal with |- context [?m (mkQCall _ _ _)] =>
    assert (H : ∃ s', m (mkQCall (qc_sys s) (qc_stream s) "") = (Ret tt, s')
      ∧ connection_ (qc_stream s') = None ∧ in_use_ (sy_pool (qc_sys s')) = other_slots s
      ∧ sy_locked (qc_sys s') = sy_locked (qc_sys s)) end.
  { rewrite <-!m_bind_assoc. change (other_slots s) with (other_slots (mkQCall (qc_sys s) (qc_stream s) "")).
    eapply own_released; [own_walk|slot_walk|by split]. }
  destruct H as (s' & -> & H). by eexists.
Qed.

(** ** Opening *)

Lemma locks_kept_Acquire : locks_kept Acquire.
Proof.
  intros s a s' E. unfold Acquire in E. apply m_bind_Ret in E as (p & s1 & [= <- <-] & E).
  destruct (Acquire_section (sy_pool s)) as [|c p'|p']; [done|by injection E as <- <-|].
  unfold m_bind at 1, modify in E. apply m_bind_Ret in E as (conn & s2 & E1 & E2).
  unfold CreateConnection, m_bind at 1, gets in E1. apply m_bind_Ret in E1 as (r & s3 & E1 & E3).
  apply (frame_locks _ (frame_Connect _ _)) in E1. simpl in E1.
  destruct r; injection E3 as <- <-; injection E2 as <- <-; exact E1.
Qed.

Lemma locks_kept_GetOrCreate sid ps : locks_kept (GetOrCreate sid ps).
Proof.
  intros s a s' E. pose proof (GetOrCreate_pool_frame sid ps s) as [_ H]. by rewrite E in H.
Qed.

Lemma locks_kept_the_connection : locks_kept the_connection.
Proof. intros s c s'. unfold the_connection, m_bind. simpl. by case_match; intros [= _ <-]. Qed.
Lemma locks_kept_ReleaseConnection b : locks_kept (ReleaseConnection b).
Proof.
  intros s [] s' E. destruct (ReleaseConnection_runs b s) as (s1 & E1 & _ & _ & H).
  rewrite E in E1. by injection E1 as <-.
Qed.
Lemma locks_kept_NextCursorName : locks_kept NextCursorName.
Proof. by intros s a s' [= _ <-]. Qed.
#[local] Hint Resolve locks_kept_Acquire locks_kept_GetOrCreate locks_kept_the_connection
  locks_kept_ReleaseConnection locks_kept_NextCursorName : mtdd.

Ltac lock_walk :=
  repeat first
    [ solve [eauto with mtdd]
    | apply locks_kept_with_lock
    | progress frame_walk ].

Lemma locks_kept_EndTransaction b : locks_kept (EndTransaction b).
Proof. unfold EndTransaction, set_error_if_empty. lock_walk. Qed.
#[local] Hint Resolve locks_kept_EndTransaction : mtdd.

Lemma locks_kept_Open r : locks_kept (Open r).
Proof.
  unfold Open, AcquireConnection, OpenCursor, BeginIfNeeded, ExecuteImmediate, exec_error_text.
  lock_walk.
Qed.

Lemma same_slots_ReleaseConnection b : preserves same_slots (ReleaseConnection b).
Proof.
  intros s. destruct (ReleaseConnection_runs b s) as (s' & E & _ & H & _). by rewrite E.
Qed.
#[local] Hint Resolve same_slots_ReleaseConnection : mtdd.

Lemma same_slots_Close : preserves same_slots Close.
Proof. unfold Close. slot_walk. Qed.
Lemma same_slots_Abort : preserves same_slots Abort.
Proof.
  intros s. unfold Abort, ignoring_errors.
  match goal with |- context [?m (mkQCall _ _ _)] => assert (Hm : preserves same_slots m) by slot_walk end.
  specialize (Hm (mkQCall (qc_sys s) (qc_stream s) "")).
  match goal with |- context [?m (mkQCall _ _ _)] => by destruct (m (mkQCall _ _ _)) end.
Qed.

Lemma same_slots_Open r (s : QCall) :
  connection_ (qc_stream s) = None → same_slots s (snd (Open r s)).
Proof.
  intros Hc. unfold Open, m_bind at 1, on_stream, modify.
  set (s0 := mkQCall _ _ _). transitivity s0; [by unfold same_slots, other_slots|].
  pose proof (AcquireConnection_slots r s0 Hc) as Ha. unfold m_bind at 1.
  destruct (AcquireConnection r s0) as [[b|e|w] s1]; simpl in Ha; [|exact Ha..].
  transitivity s1; [exact Ha|]. clear. revert s1.
  match goal with |- ∀ s1, same_slots s1 (snd (?m s1)) => change (preserves same_slots m) end.
  case_match; [slot_walk|]. apply preserves_bind; [apply _|slot_walk|intros []].
  - apply same_slots_OpenCursor.
  - apply preserves_bind; [apply _|apply same_slots_ExecuteImmediate|intros r0]. slot_walk.
Qed.

(** The fetches of a caller. *)
Fixpoint fetch_n (n : nat) : M QCall unit :=
  match n with O => m_ret tt | S n' => Fetch ;; fetch_n n' end.

Lemma fetch_n_runs n (s : QCall) :
  sy_locked (qc_sys s) = ∅ →
  ∃ s', fetch_n n s = (Ret tt, s') ∧ same_slots s s' ∧ sy_locked (qc_sys s') = ∅.
Proof.
  revert s. induction n as [|n IH]; intros s Hl; [by exists s|]. simpl.
  destruct (runs_Fetch s Hl) as (r & s1 & E & Hl1). rewrite (m_bind_run _ _ _ _ _ E).
  destruct (IH s1 Hl1) as (s' & E' & Hs & Hl'). exists s'. split_and!; [done| |done].
  pose proof (same_slots_Fetch s) as H. rewrite E in H. by transitivity s1.
Qed.

(** Whatever the server answers, a query that was opened gives its pool slot
    back: after any number of fetches both [Close] and [Abort] return, leave
    the query without a connection and [in_use_] at its value before [Open]. *)
Theorem query_gives_slot_back request (s s1 : QCall) opened (n : nat) :
  connection_ (qc_stream s) = None → sy_locked (qc_sys s) = ∅ →
  Open request s = (Ret opened, s1) →
  ∃ sc sa, (fetch_n n ;; Close) s1 = (Ret tt, sc) ∧ (fetch_n n ;; Abort) s1 = (Ret tt, sa)
    ∧ connection_ (qc_stream sc) = None ∧ connection_ (qc_stream sa) = None
    ∧ in_use_ (sy_pool (qc_sys sc)) = in_use_ (sy_pool (qc_sys s))
    ∧ in_use_ (sy_pool (qc_sys sa)) = in_use_ (sy_pool (qc_sys s)).
Proof.
  intros Hc Hl Ho. pose proof (same_slots_Open request s Hc) as Hs. rewrite Ho in Hs. simpl in Hs.
  apply locks_kept_Open in Ho as Hl1. simpl in Hl1. rewrite Hl in Hl1.
  destruct (fetch_n_runs n s1 Hl1) as (s2 & E2 & Hs2 & Hl2).
  rewrite !(m_bind_run _ _ _ _ _ E2).
  pose proof (nothing_locked (connection_ (qc_stream s2)) _ Hl2) as Hf2.
  destruct (Close_slot s2 (λ _, Hf2)) as (sc & -> & Hc1 & Hc2 & _).
  destruct (Abort_slot s2 Hf2) as (sa & -> & Ha1 & Ha2 & _).
  assert (Ho2 : other_slots s2 = in_use_ (sy_pool (qc_sys s))).
  { unfold same_slots in *. rewrite Hs2, Hs. unfold other_slots. rewrite Hc. lia. }
  exists sc, sa. rewrite Hc2, Ha2, Ho2. by split_and!.
Qed.

End Slots.

(** ** Runs of the single steps

    From a state [mkQCall y q e] whose query holds the connection [c], with
    [raw] its libpq handle and its mutex free. *)
Section Runs.
Context `{L : Libpq} (y : Sys) (q : StreamingQuery) (e : string).
Context (c : PqConnection) (raw : pgconn).
Context (Hconn : connection_ q = Some c) (Hraw : pq_conn_ c = Some raw).
Context (Hfree : pq_addr c ∉ sy_locked y).

(** A region locked on [c], on such a state. *)
Lemma region_run {A} (m : M QCall A) o y' q' e' :
  m (mkQCall (set_locked ({[pq_addr c]} ∪ sy_locked y) y) q e)
  = (o, mkQCall (set_locked ({[pq_addr c]} ∪ sy_locked y) y') q' e') →
  with_lock c m (mkQCall y q e)
  = (o, match o with
        | Stuck _ => mkQCall (set_locked ({[pq_addr c]} ∪ sy_locked y) y') q' e'
        | _ => mkQCall (set_locked (sy_locked y) y') q' e'
        end).
Proof. intros E. erewrite with_lock_run; [|exact Hfree|exact E|done]. by destruct o. Qed.

Lemma the_connection_run : the_connection (mkQCall y q e) = (Ret c, mkQCall y q e).
Proof. unfold the_connection, m_bind. simpl. by rewrite Hconn. Qed.

Lemma BeginIfNeeded_run rb w1 :
  PQtransactionStatus raw (sy_pg y) = PQTRANS_IDLE →
  PQexec raw "BEGIN" (sy_pg y) = (Some rb, w1) → PQresultStatus rb = PGRES_COMMAND_OK →
  BeginIfNeeded (mkQCall y q e) = (Ret true, mkQCall (set_pg (PQclear rb w1) y) (set_txn true q) e).
Proof.
  intros Ht Hb Hs. unfold BeginIfNeeded. rewrite (m_bind_run _ _ _ _ _ the_connection_run).
  erewrite (region_run _ (Ret true) (set_pg (PQclear rb w1) y)); [by destruct y|].
  unfold m_bind, sysM, zoom, conn_transactionStatus, conn_exec, pg_call. simpl. rewrite Hraw. simpl.
  rewrite Ht. simpl. change (c_str "BEGIN") with "BEGIN". rewrite Hb. simpl.
  by rewrite bool_decide_eq_true_2.
Qed.

Lemma BeginIfNeeded_fails_run res w1 :
  PQtransactionStatus raw (sy_pg y) = PQTRANS_IDLE →
  PQexec raw "BEGIN" (sy_pg y) = (res, w1) → result_status res ≠ PGRES_COMMAND_OK →
  ∃ w2, BeginIfNeeded (mkQCall y q e) = (Ret false, mkQCall (set_pg w2 y) q (result_error res)).
Proof.
  intros Ht Hb Hs. unfold BeginIfNeeded. rewrite (m_bind_run _ _ _ _ _ the_connection_run).
  exists (match res with Some r => PQclear r w1 | None => w1 end).
  erewrite (region_run _ (Ret false) (set_pg (match res with Some r => PQclear r w1 | None => w1 end) y));
    [by destruct y|].
  unfold m_bind, sysM, zoom, conn_transactionStatus, conn_exec, pg_call. simpl. rewrite Hraw. simpl.
  rewrite Ht. simpl. change (c_str "BEGIN") with "BEGIN". rewrite Hb. simpl.
  rewrite bool_decide_eq_false_2 by done. by destruct res.
Qed.

Lemma FetchCursor_run r w1 :
  cursor_open_ q = true →
  PQexec raw (c_str (fetch_sql (fetch_size_ q) (cursor_name_ q))) (sy_pg y) = (Some r, w1) →
  PQresultStatus r = PGRES_TUPLES_OK →
  FetchCursor (mkQCall y q e) = (Ret (Some r), mkQCall (set_pg w1 y) q e).
Proof.
  intros Ho Hf Hs. unfold FetchCursor, m_bind at 1, stream_get, gets. simpl. rewrite Ho.
  unfold m_bind at 1. simpl. rewrite Hconn. unfold m_bind at 1. simpl.
  erewrite (region_run _ (Ret (Some r)) (set_pg w1 y)); [by destruct y|].
  unfold m_bind, sysM, zoom, conn_exec, pg_call. simpl. rewrite Hraw. simpl. rewrite Hf. simpl.
  by rewrite bool_decide_eq_true_2.
Qed.

Lemma OpenCursor_run request rb w1 rd w2 :
  PQtransactionStatus raw (sy_pg y) = PQTRANS_IDLE →
  PQexec raw "BEGIN" (sy_pg y) = (Some rb, w1) → PQresultStatus rb = PGRES_COMMAND_OK →
  PQexecParams raw (c_str (declare_sql (cursor_name (sy_cursor y)) (qr_text request)))
    (BuildParams request) (result_format_of request) (PQclear rb w1) = (Some rd, w2) →
  PQresultStatus rd = PGRES_COMMAND_OK →
  OpenCursor request (mkQCall y q e)
  = (Ret true, mkQCall (set_pg (PQclear rd w2) (set_cursor (to_uint64 (sy_cursor y + 1)) y))
                 (set_cursor_open true
                    (set_cursor_name (cursor_name (sy_cursor y)) (set_txn true q))) e).
Proof.
  intros Ht Hb Hbs Hd Hds. unfold OpenCursor.
  rewrite (m_bind_run _ _ _ _ _ (BeginIfNeeded_run _ _ Ht Hb Hbs)). cbn [negb].
  unfold m_bind at 1, sysM at 1, zoom at 1. simpl. unfold m_bind at 1, on_stream at 1, modify. simpl.
  unfold m_bind at 1, the_connection, m_bind at 1. simpl. rewrite Hconn. simpl.
  unfold with_lock. simpl. rewrite bool_decide_eq_false_2 by done.
  unfold m_bind, sysM, zoom, conn_execParams, pg_call. simpl. rewrite Hraw. simpl. rewrite Hd. simpl.
  rewrite bool_decide_eq_true_2 by done. simpl. rewrite lock_unlock by done. by destruct y.
Qed.

(** The text a failed statement leaves in [error_out], and the library's state. *)
Definition failure_text (res : option pgresult) (w : pgworld) : string :=
  match res with Some r => PQresultErrorMessage r | None => PQerrorMessage raw w end.
Definition cleared (res : option pgresult) (w : pgworld) : pgworld :=
  match res with Some r => PQclear r w | None => w end.

Lemma ExecuteImmediate_run request res w1 :
  PQexecParams raw (c_str (qr_text request)) (BuildParams request) (result_format_of request)
    (sy_pg y) = (res, w1) →
  ExecuteImmediate request (mkQCall y q e)
  = if IsOkStatus (result_status res) then (Ret res, mkQCall (set_pg w1 y) q e)
    else (Ret None, mkQCall (set_pg (cleared res w1) y) q (failure_text res w1)).
Proof.
  intros Hx. unfold ExecuteImmediate. cbv zeta. rewrite (m_bind_run _ _ _ _ _ the_connection_run).
  destruct (IsOkStatus (result_status res)) eqn:Ho.
  - erewrite (region_run _ (Ret res) (set_pg w1 y)); [by destruct y|].
    unfold m_bind, sysM, zoom, conn_execParams, pg_call. simpl. rewrite Hraw. simpl. rewrite Hx. simpl.
    rewrite !bool_decide_eq_false_2 by (intros Hs; by rewrite Hs in Ho). simpl. by rewrite Ho.
  - erewrite (region_run _ (Ret None) (set_pg (cleared res w1) y)); [by destruct y|].
    unfold m_bind, sysM, zoom, conn_execParams, pg_call. simpl. rewrite Hraw. simpl. rewrite Hx. simpl.
    destruct res as [r|]; simpl in *.
    + destruct (_ || _); [done|]. by rewrite Ho.
    + unfold sysM, zoom, ErrorMessage. simpl. by rewrite Hraw.
Qed.

(** [EndTransaction] inside a region locked on the same connection. *)
Lemma EndTransaction_locked b y0 q0 e0 :
  started_local_txn_ q0 = true → connection_ q0 = Some c → pq_addr c ∈ sy_locked y0 →
  EndTransaction b (mkQCall y0 q0 e0) = (Stuck SelfDeadlock, mkQCall y0 q0 e0).
Proof.
  intros Ht Hc Hl. unfold EndTransaction, m_bind, stream_get, gets. simpl. rewrite Ht, Hc.
  unfold with_lock. simpl. by rewrite bool_decide_eq_true_2.
Qed.
End Runs.

Section Deadlock.
Context `{L : Libpq}.

(** A statement that fails to be declared hangs its thread. When [OpenCursor]
    has started the transaction itself, it calls [EndTransaction] while it
    holds the connection's mutex, and [EndTransaction] locks the same
    non-recursive mutex. *)
Theorem OpenCursor_deadlocks request (s : QCall) c raw rb w1 res w2 :
  connection_ (qc_stream s) = Some c → pq_conn_ c = Some raw → sy_locked (qc_sys s) = ∅ →
  PQtransactionStatus raw (sy_pg (qc_sys s)) = PQTRANS_IDLE →
  PQexec raw "BEGIN" (sy_pg (qc_sys s)) = (Some rb, w1) → PQresultStatus rb = PGRES_COMMAND_OK →
  PQexecParams raw
    (c_str (declare_sql (cursor_name (sy_cursor (qc_sys s))) (qr_text request)))
    (BuildParams request) (result_format_of request) (PQclear rb w1) = (res, w2) →
  result_status res ≠ PGRES_COMMAND_OK →
  fst (OpenCursor request s) = Stuck SelfDeadlock.
Proof.
  destruct s as [y q e]. simpl. intros Hc Hraw Hl Ht Hb Hbs Hd Hds.
  assert (Hfree : pq_addr c ∉ sy_locked y) by set_solver.
  unfold OpenCursor. rewrite (m_bind_run _ _ _ _ _ (BeginIfNeeded_run y q e c raw Hc Hraw Hfree _ _ Ht Hb Hbs)).
  cbn [negb]. set (y1 := set_pg _ y).
  assert (Hn : sysM NextCursorName (mkQCall y1 (set_txn true q) e)
    = (Ret (cursor_name (sy_cursor y)),
       mkQCall (set_cursor (to_uint64 (sy_cursor y + 1)) y1) (set_txn true q) e)) by done.
  rewrite (m_bind_run _ _ _ _ _ Hn). clear Hn. unfold m_bind at 1, on_stream, modify. simpl.
  erewrite m_bind_run by (by apply the_connection_run).
  apply with_lock_stuck; [done|]. unfold m_bind at 1, sysM, zoom, conn_execParams, pg_call. simpl. rewrite Hraw. simpl.
  rewrite Hd. rewrite bool_decide_eq_false_2 by done. simpl.
  destruct res as [r|]; unfold m_bind; simpl; erewrite EndTransaction_locked; try done; set_solver.
Qed.

End Deadlock.

Arguments StreamingQuery {L}.
Arguments QCall {L}.
