(* ===== verification/Handles.v ===== *)
(** * libpq handles: every connection is finished exactly once

    Which handles are open, and whether a call was made on one that is not, as
    an interface to libpq. The functions of the pool, the sessions and the
    streaming query are shown to keep the open handles and the connections
    that have an owner the same, however many calls run. *)
From S2P Require Import Prelude CppStd Libpq PgState PqConn Pool Sessions QueryMeta Grpc Streaming.
Local Open Scope Z_scope.
Local Open Scope cpp_scope.

(** The handles that were opened and not finished yet; [misused] once a call got
    another one. *)
Class HandleLog (L : Libpq) := {
  open_handles : pgworld → list pgconn;
  misused : pgworld → Prop;
  log_connect conninfo w :
    open_handles (PQconnectdb conninfo w).2
    = option_list (PQconnectdb conninfo w).1 ++ open_handles w
    ∧ (misused (PQconnectdb conninfo w).2 → misused w);
  log_exec raw sql w :
    raw ∈ open_handles w →
    open_handles (PQexec raw sql w).2 = open_handles w ∧ (misused (PQexec raw sql w).2 → misused w);
  log_execParams raw sql ps fmt w :
    raw ∈ open_handles w →
    open_handles (PQexecParams raw sql ps fmt w).2 = open_handles w
    ∧ (misused (PQexecParams raw sql ps fmt w).2 → misused w);
  log_finish raw w :
    raw ∈ open_handles w →
    open_handles w ≡ₚ raw :: open_handles (PQfinish raw w)
    ∧ (misused (PQfinish raw w) → misused w);
  log_clear r w :
    open_handles (PQclear r w) = open_handles w ∧ (misused (PQclear r w) → misused w);
}.

(** ** Any libpq, with a record of its handles *)

Section Tracked.
Context {L : Libpq} {D : EqDecision (@pgconn L)}.

Record tracked_world := mkTracked {
  tw_pg : @pgworld L;
  tw_open : list (@pgconn L);     (* opened and not finished *)
  tw_misused : bool;              (* a call got another handle *)
  tw_results : Z;                 (* results that were not cleared *)
}.

Fixpoint remove_one (x : @pgconn L) (l : list (@pgconn L)) : list (@pgconn L) :=
  match l with
  | [] => []
  | y :: l' => if decide (x = y) then l' else y :: remove_one x l'
  end.

Definition misuse (raw : @pgconn L) (w : tracked_world) : bool :=
  tw_misused w || negb (bool_decide (raw ∈ tw_open w)).

Definition returned (r : option (@pgresult L)) (n : Z) : Z :=
  match r with Some _ => n + 1 | None => n end.

(** The calls of [L], with the record brought up to date. *)
Definition tracked_conn : PGConn (@pgconn L) (@pgresult L) tracked_world := {|
  PQconnectdb s w :=
    let '(r, p) := PQconnectdb s (tw_pg w) in
    (r, mkTracked p (option_list r ++ tw_open w) (tw_misused w) (tw_results w));
  PQfinish raw w :=
    mkTracked (PQfinish raw (tw_pg w)) (remove_one raw (tw_open w)) (misuse raw w) (tw_results w);
  PQstatus raw w := PQstatus raw (tw_pg w);
  PQerrorMessage raw w := PQerrorMessage raw (tw_pg w);
  PQtransactionStatus raw w := PQtransactionStatus raw (tw_pg w);
  PQexec raw sql w :=
    let '(r, p) := PQexec raw sql (tw_pg w) in
    (r, mkTracked p (tw_open w) (misuse raw w) (returned r (tw_results w)));
  PQexecParams raw sql ps fmt w :=
    let '(r, p) := PQexecParams raw sql ps fmt (tw_pg w) in
    (r, mkTracked p (tw_open w) (misuse raw w) (returned r (tw_results w)));
  PQclear r w := mkTracked (PQclear r (tw_pg w)) (tw_open w) (tw_misused w) (tw_results w - 1);
|}.

Definition tracked : Libpq :=
  {| pgconn := @pgconn L; pgresult := @pgresult L; pgworld := tracked_world;
     libpq_result := @libpq_result L; libpq_conn := tracked_conn |}.

Lemma remove_one_perm x l : x ∈ l → l ≡ₚ x :: remove_one x l.
Proof.
  induction l as [|y l IH]; [by intros ?%elem_of_nil|]. simpl. case_decide; [by subst|].
  intros [->|Hx]%elem_of_cons; [done|]. rewrite (IH Hx) at 1. apply Permutation_swap.
Qed.

Lemma misuse_open raw w : raw ∈ tw_open w → misuse raw w = tw_misused w.
Proof. intros H. unfold misuse. rewrite bool_decide_eq_true_2 by done. by rewrite orb_false_r. Qed.

#[global] Instance tracked_log : HandleLog tracked.
Proof.
  refine (Build_HandleLog tracked tw_open (λ w, tw_misused w = true) _ _ _ _ _); simpl.
  - intros s w. by destruct (PQconnectdb s (tw_pg w)).
  - intros raw sql w H. destruct (PQexec raw sql (tw_pg w)). simpl. by rewrite misuse_open.
  - intros raw sql ps fmt w H. destruct (PQexecParams raw sql ps fmt (tw_pg w)). simpl.
    by rewrite misuse_open.
  - intros raw w H. split; [by apply remove_one_perm|]. by rewrite misuse_open.
  - done.
Defined.
End Tracked.

(** ** The handles of the connections that have an owner *)

Section Owned.
Context `{L : Libpq} `{!HandleLog L}.

(** The owners of [PgState.owned]. *)
Definition owners (s : Sys) : list PqConnection :=
  sy_refs s ++ idle_ (sy_pool s) ++ (map_to_list (sy_sessions s)).*2.

(** The open handles are those of the connections with an owner; [raws] and
    [locals] are further handles and connections in local variables. *)
Definition handles (raws : list pgconn) (locals : list PqConnection) (s : Sys) : Prop :=
  ∃ l, NoDup (pq_addr <$> l) ∧ (∀ c, c ∈ l ↔ c ∈ locals ++ owners s)
    ∧ Forall (λ c, (pq_addr c < sy_next s)%nat) l
    ∧ open_handles (sy_pg s) ≡ₚ raws ++ omap pq_conn_ l ∧ ¬ misused (sy_pg s).

Lemma owned_spec c (s : Sys) : owned c s = true ↔ ∃ d, d ∈ owners s ∧ pq_addr c = pq_addr d.
Proof.
  unfold owned, owners. rewrite !orb_true_iff, !existsb_exists. unfold same_conn.
  setoid_rewrite elem_of_app. setoid_rewrite elem_of_app. setoid_rewrite Nat.eqb_eq.
  setoid_rewrite list_elem_of_In. firstorder.
Qed.

Lemma handles_inj raws locals s c d :
  handles raws locals s → c ∈ locals ++ owners s → d ∈ locals ++ owners s →
  pq_addr c = pq_addr d → c = d.
Proof.
  intros (l & Hd & Hl & _) Hc%Hl Hd'%Hl. by apply (NoDup_fmap_elem pq_addr l).
Qed.

Lemma handles_fresh raws locals s c :
  handles raws locals s → c ∈ locals ++ owners s → (pq_addr c < sy_next s)%nat.
Proof. intros (l & _ & Hl & Hf & _) Hc%Hl. rewrite Forall_forall in Hf. auto. Qed.

(** A connection with an owner has an open handle. *)
Lemma handles_open raws locals s c raw :
  handles raws locals s → c ∈ locals ++ owners s → pq_conn_ c = Some raw →
  raw ∈ open_handles (sy_pg s).
Proof.
  intros (l & _ & Hl & _ & -> & _) Hc%Hl Hr. apply elem_of_app. right.
  apply list_elem_of_omap. eauto.
Qed.

Lemma handles_raw raw raws locals s :
  handles (raw :: raws) locals s → raw ∈ open_handles (sy_pg s).
Proof. intros (l & _ & _ & _ & -> & _). by left. Qed.

(** Connections that only change hands. *)
Lemma handles_moved raws locals locals' s s' :
  (∀ c, c ∈ locals' ++ owners s' ↔ c ∈ locals ++ owners s) → sy_pg s' = sy_pg s →
  sy_next s' = sy_next s → handles raws locals s → handles raws locals' s'.
Proof.
  intros Ho Hw Hn (l & H1 & H2 & H3 & H4 & H5). exists l. rewrite Hw, Hn.
  split_and!; [done| |done..]. intros c. by rewrite H2, Ho.
Qed.

Lemma handles_pg raws locals s w :
  open_handles w = open_handles (sy_pg s) → (misused w → misused (sy_pg s)) →
  handles raws locals s → handles raws locals (set_pg w s).
Proof.
  intros Ho Hm (l & H1 & H2 & H3 & H4 & H5). exists l. simpl. rewrite Ho. split_and!; auto.
Qed.

(** ** Calls on open handles *)

Lemma handles_call {A} raws locals (f : pgworld → A * pgworld) s :
  (open_handles (f (sy_pg s)).2 = open_handles (sy_pg s)
   ∧ (misused (f (sy_pg s)).2 → misused (sy_pg s))) →
  handles raws locals s → handles raws locals (snd (pg_call f s)).
Proof. intros [Ho Hm]. unfold pg_call. destruct (f (sy_pg s)). by apply handles_pg. Qed.

Lemma handles_clear raws locals r : keeps (handles raws locals) (pg_clear r).
Proof. destruct r as [r|]; [|by intros s]. intros s. apply handles_pg; apply log_clear. Qed.

Lemma handles_exec raws locals c sql s :
  c ∈ locals ++ owners s → handles raws locals s → handles raws locals (snd (conn_exec c sql s)).
Proof.
  intros Hc Hh. unfold conn_exec. destruct (pq_conn_ c) as [raw|] eqn:Er; [|done].
  apply handles_call; [|done]. eapply log_exec, handles_open; eauto.
Qed.

Lemma handles_execParams raws locals c sql ps fmt s :
  c ∈ locals ++ owners s → handles raws locals s →
  handles raws locals (snd (conn_execParams c sql ps fmt s)).
Proof.
  intros Hc Hh. unfold conn_execParams. destruct (pq_conn_ c) as [raw|] eqn:Er; [|done].
  apply handles_call; [|done]. eapply log_execParams, handles_open; eauto.
Qed.

Lemma handles_finish raw raws locals s :
  handles (raw :: raws) locals s → handles raws locals (snd (pg_do (PQfinish raw) s)).
Proof.
  intros Hh. destruct (log_finish raw (sy_pg s) (handles_raw _ _ _ _ Hh)) as [Ho Hm].
  destruct Hh as (l & H1 & H2 & H3 & H4 & H5). exists l. simpl. split_and!; [done|exact H2|done| |by auto].
  apply (Permutation_cons_inv (a := raw)). by rewrite <-Ho, H4.
Qed.

(** The last owner of [c] is gone: its handle is finished. *)
Lemma handles_destroy c locals s :
  handles [] (c :: locals) s → c ∉ locals → handles [] locals (snd (destroy_if_unowned c s)).
Proof.
  intros Hh Hn. unfold destroy_if_unowned. destruct (owned c s) eqn:Eo.
  { apply owned_spec in Eo as (d & Hd & Ha). eapply handles_moved; [|done..|exact Hh].
    assert (c = d) as ->; [|by set_solver].
    eapply handles_inj; [exact Hh|..|done]; set_solver. }
  assert (Ho : c ∉ owners s).
  { intros Hc. assert (owned c s = true); [|congruence]. apply owned_spec. by exists c. }
  destruct Hh as (l & H1 & H2 & H3 & H4 & H5).
  destruct (proj1 (elem_of_Permutation l c)) as [l1 Hl]; [apply H2; set_solver|].
  rewrite Hl in H1, H3, H4. simpl in *. apply NoDup_cons in H1 as [H1 H1']. apply Forall_cons in H3.
  assert (Hs : handles (option_list (pq_conn_ c)) locals s).
  { exists l1. split_and!; [done| |tauto| |done].
    - intros d. specialize (H2 d). rewrite Hl, !elem_of_cons in H2. split.
      + intros Hd. destruct (proj1 H2) as [->|]; [by right| |done].
        destruct H1. by apply list_elem_of_fmap_2.
      + intros Hd. destruct (proj2 H2) as [->|]; [by right| |done]. set_solver.
    - rewrite H4. by destruct (pq_conn_ c). }
  destruct (pq_conn_ c) as [raw|]; [by apply handles_finish|done].
Qed.

(** ** New connections *)

Definition handles_at (n : nat) (raws : list pgconn) (s : Sys) : Prop :=
  handles raws [] s ∧ sy_next s = n.

Lemma at_read {A} n raws (f : pgworld → A) T E :
  hoare (handles_at n raws) (pg_read f) (λ _, handles_at n raws) T E.
Proof. by intros s. Qed.
Lemma at_clear n raws r T E : hoare (handles_at n raws) (pg_clear r) (λ _, handles_at n raws) T E.
Proof.
  intros s [Hh Hn]. pose proof (handles_clear _ _ r s Hh) as H. by destruct r.
Qed.
Lemma at_exec n raw sql T E :
  hoare (handles_at n [raw]) (pg_call (PQexec raw sql)) (λ _, handles_at n [raw]) T E.
Proof.
  intros s [Hh Hn]. pose proof (handles_call [raw] [] (PQexec raw sql) s
    (log_exec _ _ _ (handles_raw _ _ _ _ Hh)) Hh) as H.
  unfold pg_call in *. by destruct (PQexec raw sql (sy_pg s)).
Qed.
Lemma at_finish n raw T E :
  hoare (handles_at n [raw]) (pg_do (PQfinish raw)) (λ _, handles_at n []) T E.
Proof. intros s [Hh Hn]. split; [by apply handles_finish in Hh|done]. Qed.

Lemma at_connectdb n conninfo T E :
  hoare (handles_at n []) (pg_call (PQconnectdb conninfo))
    (λ r, handles_at n (option_list r)) T E.
Proof.
  intros s [(l & H1 & H2 & H3 & H4 & H5) Hn]. destruct (log_connect conninfo (sy_pg s)) as [Ho Hm].
  unfold pg_call. destruct (PQconnectdb conninfo (sy_pg s)) as [r w]. simpl in *. split; [|done].
  exists l. simpl. rewrite Ho, H4. split_and!; auto.
Qed.

Ltac at_walk :=
  repeat first
    [ apply hoare_ret; by auto
    | eapply hoare_bind; [first [apply at_read|apply at_clear|apply at_exec|apply at_finish]|intros] ].

Lemma ApplyStatementTimeout_handles n raw ms T E :
  hoare (handles_at n [raw]) (ApplyStatementTimeout raw ms) (λ _, handles_at n [raw]) T E.
Proof. unfold ApplyStatementTimeout. case_if; at_walk. destruct a; at_walk. Qed.

Lemma handles_new n raw s :
  handles_at n [raw] s → handles [] [mkPqConnection n (Some raw)] (set_next (n + 1) s).
Proof.
  intros [(l & H1 & H2 & H3 & H4 & H5) Hn]. exists (mkPqConnection n (Some raw) :: l). simpl.
  rewrite Hn in H3. rewrite Forall_forall in H3. split_and!; [|..|done].
  - apply NoDup_cons. split; [|done]. intros (c & E & Hc)%list_elem_of_fmap_1. apply H3 in Hc. lia.
  - intros c. rewrite elem_of_cons, H2. set_solver.
  - apply Forall_cons. split; [simpl; lia|]. apply Forall_forall. intros c Hc%H3. lia.
  - done.
Qed.

(** A new connection has a new address and an open handle, a failed attempt
    leaves none open. *)
Lemma Connect_handles n params ms T E :
  hoare (handles_at n []) (PqConnection_Connect params ms)
    (λ r s, match r with
            | inl _ => handles [] [] s
            | inr c => handles [] [c] s ∧ pq_addr c = n
            end) T E.
Proof.
  unfold PqConnection_Connect. eapply hoare_bind; [apply at_connectdb|].
  intros [raw|]; simpl; [|apply hoare_ret; by intros s []]. at_walk. case_match.
  { at_walk. apply hoare_ret. by intros s []. }
  at_walk. case_match.
  { eapply hoare_bind with (Q := λ _, handles_at n [raw]);
      [case_match; [apply hoare_ret; by auto|apply at_read]|intros e].
    at_walk. apply hoare_ret. by intros s []. }
  at_walk. eapply hoare_bind; [apply ApplyStatementTimeout_handles|]. intros [e|].
  { at_walk. apply hoare_ret. by intros s []. }
  intros s Hs. pose proof Hs as [_ Hn]. unfold m_bind, gets, modify. simpl. rewrite Hn.
  split; [|done]. by apply handles_new.
Qed.

Lemma Connect_run_handles params ms s :
  handles [] [] s →
  ∃ r s', PqConnection_Connect params ms s = (Ret r, s') ∧ frame s s' ∧ owners s' = owners s
    ∧ match r with
      | inl _ => handles [] [] s'
      | inr c => handles [] [c] s' ∧ pq_addr c = sy_next s
      end.
Proof.
  intros Hh. destruct (Connect_runs params ms s) as (r & s' & E & Hf). exists r, s'.
  split; [done|]. split; [done|]. split.
  - destruct Hf as (H1 & H2 & _ & H4 & _). unfold owners. congruence.
  - pose proof (Connect_handles (sy_next s) params ms (λ _, True) (λ _, True) s (conj Hh eq_refl)) as H.
    by rewrite E in H.
Qed.

(** ** The database side while calls run *)

(** The references of the calls are the pooled ones and others, to connections
    that are neither pooled nor idle. *)
Definition split_refs (refs pooled idle : list PqConnection) : Prop :=
  ∃ Q, refs ≡ₚ pooled ++ Q ∧ ∀ d, d ∈ Q → d ∉ pooled ++ idle.

#[global] Instance split_refs_proper : Proper ((≡ₚ) ==> (≡ₚ) ==> (≡ₚ) ==> iff) split_refs.
Proof.
  assert (H : ∀ R R' P P' i i', R ≡ₚ R' → P ≡ₚ P' → i ≡ₚ i' → split_refs R P i → split_refs R' P' i').
  { intros R R' P P' i i' HR HP Hi (Q & H1 & H2). exists Q. split; [by rewrite <-HR, <-HP|].
    intros d Hd. rewrite <-HP, <-Hi. by apply H2. }
  intros R R' HR P P' HP i i' Hi. split; apply H; by symmetry.
Qed.

Lemma split_nil : split_refs [] [] [].
Proof. exists []. split; [done|]. by intros d ?%elem_of_nil. Qed.
Lemma split_sub R P i : split_refs R P i → P ⊆ R.
Proof. intros (Q & -> & _). set_solver. Qed.
(** An idle connection becomes a call's. *)
Lemma split_acquire c R P i : split_refs R P (c :: i) → split_refs (c :: R) (c :: P) i.
Proof. intros (Q & H1 & H2). exists Q. split; [by rewrite H1|]. intros d Hd%H2. set_solver. Qed.
(** So does a new one, or one that only sessions have. *)
Lemma split_new c R P i : c ∉ R → split_refs R P i → split_refs (c :: R) (c :: P) i.
Proof.
  intros Hc (Q & H1 & H2). exists Q. split; [by rewrite H1|]. intros d Hd. specialize (H2 d Hd).
  assert (d ≠ c) by (intros ->; apply Hc; rewrite H1; set_solver). set_solver.
Qed.
Lemma split_session c R P i : c ∉ P ++ i → split_refs R P i → split_refs (c :: R) P i.
Proof.
  intros Hc (Q & H1 & H2). exists (c :: Q). split; [by rewrite H1, Permutation_middle|].
  intros d [->|Hd]%elem_of_cons; [done|by apply H2].
Qed.
Lemma split_push c R P i : c ∉ R → split_refs R P i → split_refs R P (i ++ [c]).
Proof.
  intros Hc (Q & H1 & H2). exists Q. split; [done|]. intros d Hd. specialize (H2 d Hd).
  assert (d ≠ c) by (intros ->; apply Hc; rewrite H1; set_solver). set_solver.
Qed.
(** A pooled connection goes back to the idle queue, or is given up. *)
Lemma split_release c R P i : split_refs (c :: R) (c :: P) i → split_refs R P (i ++ [c]).
Proof.
  intros (Q & H1 & H2). exists Q. split; [by apply (Permutation_cons_inv (a := c))|].
  intros d Hd%H2. set_solver.
Qed.
Lemma split_idle R P i i' : i' ⊆ i → split_refs R P i → split_refs R P i'.
Proof. intros Hi (Q & H1 & H2). exists Q. split; [done|]. intros d Hd%H2. set_solver. Qed.
Lemma split_unpool c R P i : split_refs (c :: R) (c :: P) i → split_refs R P i.
Proof. intros H%split_release. eapply split_idle; [|exact H]. set_solver. Qed.
(** A call whose connection is not pooled leaves. *)
Lemma split_drop c R P i : NoDup P → P ⊆ R → split_refs (c :: R) P i → split_refs R P i.
Proof.
  intros Hn HP (Q & H1 & H2). assert (HcP : c ∉ P).
  { intros Hc. destruct (proj1 (elem_of_Permutation P c) Hc) as [P' E]. rewrite E in H1, Hn.
    apply (Permutation_cons_inv (a := c)) in H1. apply NoDup_cons in Hn as [Hn _].
    apply HP in Hc as Hr. rewrite H1 in Hr. apply elem_of_app in Hr as [?|Hq]; [done|].
    apply (H2 c Hq). set_solver. }
  assert (HcQ : c ∈ Q) by (assert (c ∈ P ++ Q) by (rewrite <-H1; by left); set_solver).
  destruct (proj1 (elem_of_Permutation Q c) HcQ) as [Q' E]. exists Q'. split.
  - apply (Permutation_cons_inv (a := c)). by rewrite H1, E, Permutation_middle.
  - intros d Hd. apply H2. rewrite E. by right.
Qed.

(** [refs] are the references the running calls hold, [pooled] those of them
    that come from the pool: besides the open handles, a pooled connection is
    not idle, not a session's and held by one call only, and the session table
    is within its limit. *)
Record safe (refs pooled : list PqConnection) (s : Sys) : Prop := {
  sf_refs : sy_refs s ≡ₚ refs;
  sf_split : split_refs refs pooled (idle_ (sy_pool s));
  sf_handles : handles [] [] s;
  sf_exclusive :
    NoDup (pq_addr <$> pooled ++ idle_ (sy_pool s) ++ (map_to_list (sy_sessions s)).*2);
  sf_bounded : sessions_bounded s ∧ sy_max_sessions s ≤ INT_MAX;
}.

#[global] Instance safe_proper : Proper ((≡ₚ) ==> (≡ₚ) ==> (=) ==> iff) safe.
Proof.
  assert (H : ∀ R R' P P' s, R ≡ₚ R' → P ≡ₚ P' → safe R P s → safe R' P' s).
  { intros R R' P P' s HR HP [H1 H2 H3 H4 H5].
    split; [by rewrite H1|by rewrite <-HP, <-HR|done|by rewrite <-HP|done]. }
  intros R R' HR P P' HP s s' <-. split; apply H; by symmetry.
Qed.

Lemma safe_ref R P s c : safe R P s → c ∈ R → c ∈ [] ++ owners s.
Proof. intros Hs Hc. simpl. apply elem_of_app. left. by rewrite (sf_refs _ _ _ Hs). Qed.

(** The parts [safe] reads. *)
Lemma safe_same R P s s' :
  sy_refs s' = sy_refs s → idle_ (sy_pool s') = idle_ (sy_pool s) →
  sy_sessions s' = sy_sessions s → sy_max_sessions s' = sy_max_sessions s →
  handles [] [] s' → safe R P s → safe R P s'.
Proof.
  intros H1 H2 H3 H4 Hh [S1 S2 _ S4 S5]. unfold sessions_bounded in S5.
  split; [by rewrite H1|by rewrite H2|done|by rewrite H2, H3|unfold sessions_bounded; by rewrite H3, H4].
Qed.

(** The same, where the handles were not in order before. *)
Lemma safe_settled R P s s' :
  frame s s' → handles [] [] s' → sy_refs s ≡ₚ R → split_refs R P (idle_ (sy_pool s)) →
  NoDup (pq_addr <$> P ++ idle_ (sy_pool s) ++ (map_to_list (sy_sessions s)).*2) →
  sessions_bounded s ∧ sy_max_sessions s ≤ INT_MAX → safe R P s'.
Proof.
  unfold sessions_bounded. intros (F1 & F2 & F3 & F4 & _) Hh HR HP Hd Hb.
  split; [by rewrite F4|by rewrite F2|done|by rewrite F1, F2|unfold sessions_bounded; by rewrite F1, F3].
Qed.

Lemma safe_frame R P s s' : frame s s' → handles [] [] s' → safe R P s → safe R P s'.
Proof. intros (H1 & H2 & H3 & H4 & _). apply safe_same; congruence. Qed.

Lemma safe_locked R P s l : safe R P s → safe R P (set_locked l s).
Proof. intros Hs. apply (safe_same _ _ s); [done..| |done]. by eapply handles_moved, Hs. Qed.

Lemma safe_cursor R P s n : safe R P s → safe R P (set_cursor n s).
Proof. intros Hs. apply (safe_same _ _ s); [done..| |done]. by eapply handles_moved, Hs. Qed.

Lemma safe_exec R P s c sql : c ∈ R → safe R P s → safe R P (snd (conn_exec c sql s)).
Proof.
  intros Hc Hs. apply (safe_frame _ _ s); [apply frame_conn_exec| |done].
  apply handles_exec; [by eapply safe_ref|apply Hs].
Qed.
Lemma safe_execParams R P s c sql ps fmt :
  c ∈ R → safe R P s → safe R P (snd (conn_execParams c sql ps fmt s)).
Proof.
  intros Hc Hs. apply (safe_frame _ _ s); [apply frame_conn_execParams| |done].
  apply handles_execParams; [by eapply safe_ref|apply Hs].
Qed.
Lemma safe_clear R P r : keeps (safe R P) (pg_clear r).
Proof.
  intros s Hs. apply (safe_frame _ _ s); [apply frame_pg_clear| |done].
  apply handles_clear, Hs.
Qed.

(** All addresses are below the next one. *)
Lemma safe_fresh R P s c :
  safe R P s → c ∈ P ++ idle_ (sy_pool s) ++ (map_to_list (sy_sessions s)).*2 →
  (pq_addr c < sy_next s)%nat.
Proof.
  intros [H1 H2%split_sub H3 _ _] Hc. eapply handles_fresh; [exact H3|]. unfold owners. rewrite H1.
  set_solver.
Qed.

Lemma new_address R P s c :
  safe R P s → pq_addr c = sy_next s →
  pq_addr c ∉ pq_addr <$> P ++ idle_ (sy_pool s) ++ (map_to_list (sy_sessions s)).*2.
Proof.
  intros Hs Ha (d & E & Hd)%list_elem_of_fmap_1. eapply safe_fresh in Hd; [|exact Hs]. lia.
Qed.

(** A new connection is not referenced yet. *)
Lemma new_unreferenced R P s c : safe R P s → pq_addr c = sy_next s → c ∉ R.
Proof.
  intros Hs Ha Hc. assert (pq_addr c < sy_next s)%nat; [|lia].
  eapply handles_fresh; [apply Hs|by eapply safe_ref].
Qed.

(** The call takes a reference to a session's connection. *)
Lemma safe_take_ref R P s c :
  c ∈ (map_to_list (sy_sessions s)).*2 → safe R P s → safe (c :: R) P (set_refs (c :: sy_refs s) s).
Proof.
  intros Hc [H1 H2 H3 H4 H5]. split; simpl; [by rewrite H1|..|done|done].
  - apply split_session; [|done]. intros Hi. rewrite app_assoc, fmap_app in H4.
    apply NoDup_app in H4 as (_ & H4 & _). by apply (H4 (pq_addr c)); apply list_elem_of_fmap_2.
  - apply (handles_moved [] [] _ s); [|done..|exact H3]. unfold owners in *. set_solver.
Qed.

Lemma remove_first_perm c l :
  (∀ d, d ∈ l → pq_addr c = pq_addr d → c = d) → c ∈ l → l ≡ₚ c :: remove_first c l.
Proof.
  induction l as [|d l IH]; [by intros _ ?%elem_of_nil|]. intros Hi Hc. simpl. unfold same_conn.
  destruct (Nat.eqb _ _) eqn:E; [apply Nat.eqb_eq, Hi in E as ->; [done|by left]|].
  apply elem_of_cons in Hc as [->|Hc]; [by rewrite Nat.eqb_refl in E|].
  rewrite (IH (λ e He, Hi e ltac:(by right)) Hc) at 1. apply Permutation_swap.
Qed.

(** Between the moment a call gives its slot up and the one its reference is
    gone. *)
Record releasing (c : PqConnection) (R P : list PqConnection) (s : Sys) : Prop := {
  rl_refs : sy_refs s ≡ₚ c :: R;
  rl_split : split_refs R P (idle_ (sy_pool s));
  rl_handles : handles [] [] s;
  rl_exclusive :
    NoDup (pq_addr <$> P ++ idle_ (sy_pool s) ++ (map_to_list (sy_sessions s)).*2);
  rl_bounded : sessions_bounded s ∧ sy_max_sessions s ≤ INT_MAX;
}.

Lemma safe_drop_ref R P s c : releasing c R P s → safe R P (snd (drop_ref c s)).
Proof.
  intros [H1 H2 H3 H4 H5]. unfold drop_ref, m_bind. simpl. set (s1 := set_refs _ s).
  assert (Hr : sy_refs s1 ≡ₚ R).
  { apply (Permutation_cons_inv (a := c)). rewrite <-H1. symmetry. apply remove_first_perm.
    - intros d Hd Ha. eapply handles_inj; [exact H3|..|done]; simpl; apply elem_of_app; left;
        rewrite H1; [by left|by rewrite <-H1].
    - rewrite H1. by left. }
  assert (Hh : handles [] [c] s1).
  { apply (handles_moved [] [] _ s); [|done..|exact H3]. intros d. unfold owners.
    rewrite Hr, H1. simpl. set_solver. }
  apply handles_destroy in Hh; [|by apply not_elem_of_nil].
  by apply (safe_settled _ _ s1); [apply frame_destroy|..].
Qed.

(** A pooled connection that is no longer counted, and one that never was. *)
Lemma safe_unpool R P s c : safe (c :: R) (c :: P) s → releasing c R P s.
Proof.
  intros [H1 H2 H3 H4 H5]. simpl in H4. apply NoDup_cons in H4 as [Hn Hd].
  split; [done|by eapply split_unpool|done..].
Qed.
Lemma safe_release R P s c : P ⊆ R → safe (c :: R) P s → releasing c R P s.
Proof.
  intros HP [H1 H2 H3 H4 H5]. split; [done| |done..]. eapply split_drop; [|done..].
  rewrite fmap_app in H4. apply NoDup_app in H4 as [H4 _]. by eapply NoDup_fmap_1.
Qed.

(** ** The pool and the sessions *)

(** A new connection that goes to the call, with its slot if [pooled]. *)
Lemma safe_new R P s s' c pool sessions :
  safe R P s → frame s s' → handles [] [c] s' → pq_addr c = sy_next s →
  idle_ pool = idle_ (sy_pool s') → sessions = sy_sessions s' →
  safe (c :: R) (c :: P) (set_refs (c :: sy_refs s') (set_sessions sessions (set_pool pool s'))).
Proof.
  intros Hs (F1 & F2 & F3 & F4 & _) Hh Ha Hi ->.
  pose proof Hs as [H1 H2 H3 H4 H5]. pose proof (new_address _ _ _ _ Hs Ha) as Hn.
  split; simpl; [by rewrite F4, H1|rewrite Hi, F2; by eapply split_new; [eapply new_unreferenced|]|..].
  - apply (handles_moved [] [c] _ s'); [|done..|exact Hh]. intros d. unfold owners. simpl.
    rewrite Hi. set_solver.
  - rewrite Hi, F1, F2. by apply NoDup_cons.
  - unfold sessions_bounded in *. simpl. by rewrite F1, F3.
Qed.

Lemma Acquire_safe R P s :
  safe R P s →
  match Acquire s with
  | (Ret (Some c), s') => safe (c :: R) (c :: P) s'
  | (Ret None, s') => safe R P s'
  | (Throw _, _) => False
  | (Stuck _, s') => s' = s
  end.
Proof.
  intros Hs. unfold Acquire, m_bind at 1, gets.
  destruct (Acquire_section (sy_pool s)) as [|c p'|p'] eqn:Ea; [done|..].
  - apply Acquire_section_idle in Ea as (rest & Ei & ->). simpl.
    destruct Hs as [H1 H2 H3 H4 H5]. rewrite Ei in H2, H4.
    split; simpl; [by rewrite H1|by apply split_acquire| | |done].
    + apply (handles_moved [] [] _ s); [|done..|exact H3]. intros d. unfold owners. simpl.
      rewrite Ei. set_solver.
    + simpl in H4. by rewrite <-Permutation_middle in H4.
  - apply Acquire_section_reserve in Ea as (_ & _ & ->). unfold m_bind at 1, modify.
    set (s0 := set_pool _ s).
    assert (Hs0 : safe R P s0).
    { apply (safe_same _ _ s); [done..| |done]. by eapply handles_moved, Hs. }
    unfold m_bind at 1, CreateConnection, m_bind at 1, gets. unfold m_bind at 1.
    destruct (Connect_run_handles (params_ (sy_pool s0)) 0 s0 (sf_handles _ _ _ Hs0))
      as (r & s1 & -> & Hf & _ & Hr).
    destruct r as [e|c]; simpl.
    + apply (safe_same _ _ s1); [done..|by eapply handles_moved, Hr|]. by eapply safe_frame.
    + destruct Hr as [Hh Ha]. pose proof (safe_new R P s0 s1 c (sy_pool s1) (sy_sessions s1)) as Hn.
      destruct s1. by apply Hn.
Qed.

(** What a call that asks for a connection of a session gets. *)
Definition safe_answer (R P : list PqConnection)
    (r : outcome (option PqConnection * option string) * Sys) : Prop :=
  match r with
  | (Ret (Some c, _), s') => safe (c :: R) P s'
  | (Ret (None, _), s') => safe R P s'
  | _ => False
  end.

Lemma create_session_safe R P sid params s :
  safe R P s → sy_sessions s !! sid = None → safe_answer R P (create_session sid params s).
Proof.
  intros Hs Hl. unfold create_session, m_bind at 1, get. pose proof (sf_bounded _ _ _ Hs) as [Hb Hm].
  rewrite limit_test by done. destruct (_ <=? _) eqn:Elim; [done|]. unfold m_bind at 1.
  destruct (Connect_run_handles params 0 s (sf_handles _ _ _ Hs)) as (r & s1 & -> & Hf & _ & Hr).
  destruct r as [e|c]; [by eapply safe_frame|]. destruct Hr as [Hh Ha]. simpl.
  pose proof (new_address _ _ _ _ Hs Ha) as Hn. pose proof (new_unreferenced _ _ _ _ Hs Ha) as Hu.
  destruct Hs as [H1 H2 H3 H4 _]. pose proof Hf as (F1 & F2 & F3 & F4 & _).
  assert (Hp : (map_to_list (<[sid := c]> (sy_sessions s1))).*2
    ≡ₚ c :: (map_to_list (sy_sessions s)).*2) by (rewrite F1, map_to_list_insert; done).
  split; simpl; [by rewrite F4, H1|..].
  - rewrite F2. apply split_session; [|done]. intros Hi. apply Hn. apply list_elem_of_fmap_2.
    rewrite app_assoc. apply elem_of_app. by left.
  - apply (handles_moved [] [c] _ s1); [|done..|exact Hh]. intros d. unfold owners. simpl.
    rewrite Hp, F1. set_solver.
  - rewrite F2, Hp, app_assoc, <-Permutation_middle, <-app_assoc. by apply NoDup_cons.
  - unfold sessions_bounded in *. simpl. rewrite F1, F3, map_size_insert_None by done. lia.
Qed.

Lemma erase_session_safe R P sid c s :
  safe R P s → sy_sessions s !! sid = Some c →
  safe R P (snd (erase_session sid c s)) ∧ sy_sessions (snd (erase_session sid c s)) !! sid = None.
Proof.
  intros [H1 H2 H3 H4 H5] Hl. unfold erase_session, m_bind. simpl. set (s1 := set_sessions _ s).
  assert (Hp : (map_to_list (sy_sessions s)).*2 ≡ₚ c :: (map_to_list (sy_sessions s1)).*2)
    by (unfold s1; simpl; by rewrite <-(map_to_list_delete _ sid c) by done).
  assert (Hh : handles [] [c] s1).
  { apply (handles_moved [] [] _ s); [|done..|exact H3]. intros d. unfold owners. rewrite Hp.
    simpl. set_solver. }
  pose proof (frame_destroy c s1) as (F1 & _). apply handles_destroy in Hh; [|by apply not_elem_of_nil].
  split; [|rewrite F1; apply lookup_delete_eq].
  rewrite Hp, app_assoc, <-Permutation_middle, <-app_assoc in H4. apply NoDup_cons in H4 as [_ H4].
  apply (safe_settled _ _ s1); [apply frame_destroy|done..|]. unfold sessions_bounded in *. simpl.
  rewrite map_size_delete_Some by eauto. lia.
Qed.

Lemma GetOrCreate_safe R P sid params s :
  safe R P s → safe_answer R P (GetOrCreate sid params s).
Proof.
  intros Hs. destruct (decide (sid = "")) as [->|Hid]; [done|].
  rewrite GetOrCreate_cases by done. destruct (sy_sessions s !! sid) as [c|] eqn:El;
    [|by apply create_session_safe].
  destruct (healthyb c s).
  - apply safe_take_ref; [|done].
    apply list_elem_of_fmap. exists (sid, c). split; [done|]. by apply elem_of_map_to_list.
  - destruct (erase_session_safe _ _ _ _ _ Hs El) as [Hs' Hl'].
    destruct (erase_session_runs sid c s) as (s1 & E & _). rewrite E in *. unfold m_bind. rewrite E.
    by apply create_session_safe.
Qed.

(** [Release] takes the slot from the call, which still holds its reference. *)
Lemma Release_safe R P b c s :
  safe (c :: R) (c :: P) s → releasing c R P (snd (Release (Some c) b s)).
Proof.
  intros Hs. pose proof (safe_unpool _ _ _ _ Hs) as Hu.
  unfold Release, m_bind. rewrite IsHealthy_eq. simpl. destruct (b || _).
  - destruct Hu as [H1 H2 H3 H4 H5]. split; [done|done| |done..]. by eapply handles_moved, H3.
  - destruct Hs as [H1 H2 H3 H4 H5]. split; simpl; [done|by apply split_release| | |done].
    + apply (handles_moved [] [] _ s); [|done..|exact H3]. intros d. unfold owners. simpl.
      rewrite H1. set_solver.
    + rewrite <-app_assoc. simpl. by rewrite app_assoc, <-Permutation_middle, <-app_assoc.
Qed.

(** [Connect] leaves a new connection in the idle queue. *)
Lemma pool_Connect_safe R P : keeps (safe R P) Pool.Connect.
Proof.
  intros s Hs. unfold Connect, m_bind at 1, gets. unfold m_bind at 1.
  destruct (Connect_run_handles (params_ (sy_pool s)) 0 s (sf_handles _ _ _ Hs))
    as (r & s1 & -> & Hf & _ & Hr).
  destruct r as [e|c]; [by eapply safe_frame|]. destruct Hr as [Hh Ha]. simpl.
  pose proof (new_address _ _ _ _ Hs Ha) as Hn. pose proof (new_unreferenced _ _ _ _ Hs Ha) as Hu.
  destruct Hs as [H1 H2 H3 H4 H5]. pose proof Hf as (F1 & F2 & F3 & F4 & _).
  split; simpl; [by rewrite F4|rewrite F2; by apply split_push| | |unfold sessions_bounded in *; simpl; by rewrite F1, F3].
  - apply (handles_moved [] [c] _ s1); [|done..|exact Hh]. intros d. unfold owners. simpl. set_solver.
  - rewrite F1, F2, <-app_assoc. simpl. rewrite app_assoc, <-Permutation_middle, <-app_assoc.
    by apply NoDup_cons.
Qed.

Lemma Configure_safe R P params size : keeps (safe R P) (Configure params size).
Proof.
  intros s Hs. apply (safe_same _ _ s); [done..| |done]. by eapply handles_moved, Hs.
Qed.

(** ** Closing down *)

Lemma destroy_all_run l (s : Sys) : ∃ s', destroy_all l s = (Ret tt, s') ∧ frame s s'.
Proof.
  revert s. induction l as [|c l IH]; intros s; [by exists s|]. cbn [destroy_all].
  destruct (returns_destroy c s) as ([] & s1 & E). pose proof (frame_destroy c s) as Hf.
  rewrite E in Hf. rewrite (m_bind_run _ _ _ _ _ E). destruct (IH s1) as (s' & E' & Hf').
  exists s'. split; [done|]. by transitivity s1.
Qed.

Lemma destroy_all_handles l (s : Sys) :
  handles [] l s → NoDup l → handles [] [] (snd (destroy_all l s)).
Proof.
  revert s. induction l as [|c l IH]; intros s Hh Hl; [done|].
  apply NoDup_cons in Hl as [Hc Hl]. cbn [destroy_all]. unfold m_bind.
  apply handles_destroy in Hh; [|done]. destruct (returns_destroy c s) as ([] & s1 & E).
  rewrite E in *. by apply IH.
Qed.

(** The owners of [l] give it up at once. *)
Lemma destroy_all_safe R P l s :
  sy_refs s ≡ₚ R → split_refs R P (idle_ (sy_pool s)) → handles [] l s → NoDup (pq_addr <$> l) →
  NoDup (pq_addr <$> P ++ idle_ (sy_pool s) ++ (map_to_list (sy_sessions s)).*2) →
  sessions_bounded s ∧ sy_max_sessions s ≤ INT_MAX → safe R P (snd (destroy_all l s)).
Proof.
  intros HR HP Hh Hl%NoDup_fmap_1 Hd Hb. pose proof (destroy_all_handles l s Hh Hl) as Hh'.
  destruct (destroy_all_run l s) as (s' & E & Hf). rewrite E in *. by apply (safe_settled _ _ s).
Qed.

Lemma CloseAll_safe R P : keeps (safe R P) CloseAll.
Proof.
  intros s [H1 H2 H3 H4 H5]. unfold CloseAll, m_bind at 1, gets. unfold m_bind, modify.
  rewrite (Permutation_app_comm (idle_ _)), app_assoc, fmap_app in H4.
  apply NoDup_app in H4 as (H4 & _ & H6).
  apply destroy_all_safe; [done|apply (split_idle _ _ (idle_ (sy_pool s))); [set_solver|done]| |done|done|done].
  apply (handles_moved [] [] _ s); [|done..|exact H3]. intros d. unfold owners. simpl. set_solver.
Qed.

Lemma CloseAll_sessions_safe R P : keeps (safe R P) CloseAll_sessions.
Proof.
  intros s [H1 H2 H3 H4 [H5 H7]]. unfold CloseAll_sessions, m_bind at 1, gets. unfold m_bind, modify.
  rewrite app_assoc, fmap_app in H4. apply NoDup_app in H4 as (H4 & _ & H6).
  apply destroy_all_safe; [done..| |done| |].
  - apply (handles_moved [] [] _ s); [|done..|exact H3]. intros d. unfold owners. simpl.
    rewrite map_to_list_empty. set_solver.
  - simpl. rewrite map_to_list_empty. simpl. by rewrite app_nil_r.
  - unfold sessions_bounded in *. simpl. rewrite map_size_empty. lia.
Qed.

Lemma CloseAll_run (s : Sys) :
  ∃ s', CloseAll s = (Ret tt, s') ∧ idle_ (sy_pool s') = [] ∧ sy_sessions s' = sy_sessions s.
Proof.
  unfold CloseAll, m_bind at 1, gets. unfold m_bind, modify.
  destruct (destroy_all_run (idle_ (sy_pool s)) (set_pool (CloseAll_section (sy_pool s)) s)) as (s' & -> & F1 & F2 & _).
  exists s'. by rewrite F1, F2.
Qed.

Lemma CloseAll_sessions_run (s : Sys) :
  ∃ s', CloseAll_sessions s = (Ret tt, s') ∧ sy_pool s' = sy_pool s ∧ sy_sessions s' = ∅.
Proof.
  unfold CloseAll_sessions, m_bind at 1, gets. unfold m_bind, modify.
  destruct (destroy_all_run (map_to_list (sy_sessions s)).*2 (set_sessions ∅ s))
    as (s' & -> & F1 & F2 & _).
  exists s'. by rewrite F1, F2.
Qed.
End Owned.

(** ** The streaming query *)

Section Query.
Context `{L : Libpq} `{!HandleLog L}.
(** The references of the other calls, and those of them that are pooled. *)
Context (others pooled : list PqConnection) (Hsub : pooled ⊆ others).

Definition pooled_of (q : StreamingQuery) : list PqConnection :=
  if pooled_ q then option_list (connection_ q) else [].

Definition safe_call (s : QCall) : Prop :=
  safe (option_list (connection_ (qc_stream s)) ++ others) (pooled_of (qc_stream s) ++ pooled)
    (qc_sys s).

(** The query holds [o], which does not change. *)
Definition safe_with (o : option PqConnection) (s : QCall) : Prop :=
  safe_call s ∧ connection_ (qc_stream s) = o.

Lemma with_sysM {A} o (m : M Sys A) :
  (∀ R P, (∀ c, o = Some c → c ∈ R) → keeps (safe R P) m) → keeps (safe_with o) (sysM m).
Proof.
  intros Hm s [Hs Ho]. unfold safe_with, safe_call, sysM, zoom in *. simpl.
  destruct (m (qc_sys s)) as [a y] eqn:E. simpl. split; [|done].
  specialize (Hm (option_list (connection_ (qc_stream s)) ++ others)
    (pooled_of (qc_stream s) ++ pooled)).
  pose proof (Hm ltac:(intros c ->; rewrite Ho; by left) (qc_sys s) Hs) as H. by rewrite E in H.
Qed.

Lemma with_exec c sql : keeps (safe_with (Some c)) (sysM (conn_exec c sql)).
Proof. apply with_sysM. intros R P Hc s. apply safe_exec. by apply Hc. Qed.
Lemma with_execParams c sql ps fmt :
  keeps (safe_with (Some c)) (sysM (conn_execParams c sql ps fmt)).
Proof. apply with_sysM. intros R P Hc s. apply safe_execParams. by apply Hc. Qed.
Lemma with_clear o r : keeps (safe_with o) (sysM (pg_clear r)).
Proof. apply with_sysM. intros R P _. apply safe_clear. Qed.
Lemma with_status o c : keeps (safe_with o) (sysM (conn_transactionStatus c)).
Proof. apply with_sysM. intros R P _ s Hs. unfold conn_transactionStatus. by destruct (pq_conn_ c). Qed.
Lemma with_error_text o c r : keeps (safe_with o) (exec_error_text c r).
Proof.
  unfold exec_error_text. destruct r; [by intros s|]. apply with_sysM. intros R P _ s Hs.
  unfold ErrorMessage. by destruct (pq_conn_ c).
Qed.
Lemma with_cursor_name o : keeps (safe_with o) (sysM NextCursorName).
Proof. apply with_sysM. intros R P _ s. apply safe_cursor. Qed.
Lemma with_set_error o e : keeps (safe_with o) (set_error e).
Proof. by intros s. Qed.
Lemma with_stream_get {A} o (f : StreamingQuery → A) : keeps (safe_with o) (stream_get f).
Proof. by intros s. Qed.
Lemma with_on_stream o f :
  (∀ q, connection_ (f q) = connection_ q ∧ pooled_ (f q) = pooled_ q) →
  keeps (safe_with o) (on_stream f).
Proof.
  intros Hf s. unfold safe_with, safe_call, pooled_of. simpl.
  by destruct (Hf (qc_stream s)) as [-> ->].
Qed.

Lemma with_with_lock {A} o c (m : M QCall A) :
  keeps (safe_with o) m → keeps (safe_with o) (with_lock c m).
Proof.
  intros Hm s [Hs Ho]. unfold with_lock. case_bool_decide; [by split|].
  specialize (Hm (put_sys (set_locked ({[pq_addr c]} ∪ sy_locked (qc_sys s)) (qc_sys s)) s)).
  simpl in *. destruct (m _) as [r s'].
  assert (Hs' : safe_with o s') by (apply Hm; split; [by apply safe_locked|done]).
  destruct r; [|..|done]; (split; [|apply Hs']); by apply safe_locked, Hs'.
Qed.

(** The branches on [connection_]. *)
Lemma with_connection {A} o (k : option PqConnection → M QCall A) :
  keeps (safe_with o) (k o) → keeps (safe_with o) (m_bind (stream_get connection_) k).
Proof.
  intros Hk s Hs. unfold m_bind, stream_get, gets. pose proof Hs as [_ ->]. by apply Hk.
Qed.
Lemma with_the_connection {A} o (k : PqConnection → M QCall A) :
  (∀ c, o = Some c → keeps (safe_with o) (k c)) →
  keeps (safe_with o) (m_bind the_connection k).
Proof.
  intros Hk s Hs. unfold m_bind, the_connection, m_bind, stream_get, gets. pose proof Hs as [_ ->].
  destruct o as [c|]; [by apply (Hk c)|done].
Qed.

Ltac with_walk :=
  repeat first
    [ solve [eauto with mtdd]
    | apply with_exec | apply with_execParams | apply with_clear | apply with_status
    | apply with_error_text | apply with_cursor_name | apply with_set_error
    | by apply with_on_stream
    | apply with_connection
    | apply with_the_connection; intros ? ->
    | apply with_stream_get
    | apply with_with_lock
    | apply keeps_bind; [|intros]
    | case_match ].

Lemma with_EndTransaction o b : keeps (safe_with o) (EndTransaction b).
Proof. unfold EndTransaction, set_error_if_empty. destruct o; with_walk. Qed.
Lemma with_CloseCursor o : keeps (safe_with o) CloseCursor.
Proof. unfold CloseCursor, set_error_if_empty. destruct o; with_walk. Qed.
#[local] Hint Resolve with_EndTransaction with_CloseCursor : mtdd.

Lemma with_OpenCursor o r : keeps (safe_with o) (OpenCursor r).
Proof. unfold OpenCursor, BeginIfNeeded. with_walk. Qed.
Lemma with_ExecuteImmediate o r : keeps (safe_with o) (ExecuteImmediate r).
Proof. unfold ExecuteImmediate. with_walk. Qed.
Lemma with_FetchCursor o : keeps (safe_with o) FetchCursor.
Proof. unfold FetchCursor. destruct o; with_walk. Qed.
#[local] Hint Resolve with_OpenCursor with_ExecuteImmediate with_FetchCursor : mtdd.
Lemma with_Fetch o : keeps (safe_with o) Fetch.
Proof. unfold Fetch. with_walk. Qed.
Lemma with_drop_immediate o : keeps (safe_with o) drop_immediate.
Proof. unfold drop_immediate. with_walk. Qed.

(** ** Taking and giving back *)

Lemma keeps_with {A} (m : M QCall A) : (∀ o, keeps (safe_with o) m) → keeps safe_call m.
Proof. intros Hm s Hs. by apply (Hm (connection_ (qc_stream s))). Qed.

Lemma safe_with_None s :
  connection_ (qc_stream s) = None → safe others pooled (qc_sys s) ↔ safe_with None s.
Proof.
  intros Hc. unfold safe_with, safe_call, pooled_of. rewrite Hc. destruct (pooled_ _); tauto.
Qed.

(** The slot, if the query has one, goes back to the pool. *)
Lemma release_slot_safe b c s :
  safe_call s → connection_ (qc_stream s) = Some c →
  ∃ y, (let* pooled := stream_get pooled_ in
        if pooled : bool then
          let* ok := sysM (IsHealthy c) in sysM (Release (Some c) (b || negb ok))
        else m_ret tt) s = (Ret tt, put_sys y s) ∧ releasing c others pooled y.
Proof.
  unfold safe_call, pooled_of, m_bind at 1, stream_get, gets. intros Hs Ec. rewrite Ec in Hs.
  destruct (pooled_ (qc_stream s)); simpl in Hs.
  - erewrite m_bind_run by (apply sysM_read, IsHealthy_eq).
    pose proof (Release_safe _ _ (b || negb (healthyb c (qc_sys s))) _ _ Hs) as Hr.
    destruct (Release_slots c (b || negb (healthyb c (qc_sys s))) (qc_sys s)) as (y & E & _).
    rewrite E in Hr. exists y. split; [by apply sysM_run|done].
  - exists (qc_sys s). split; [by destruct s|]. by apply safe_release.
Qed.

Lemma ReleaseConnection_safe b s : safe_call s → safe_with None (snd (ReleaseConnection b s)).
Proof.
  intros Hs. unfold ReleaseConnection, m_bind at 1, stream_get at 1, gets.
  destruct (connection_ (qc_stream s)) as [c|] eqn:Ec; [|by split].
  destruct (release_slot_safe b c s Hs Ec) as (y & E & Hy).
  rewrite <-m_bind_assoc, (m_bind_run _ _ _ _ _ E).
  unfold m_bind, on_stream, modify, sysM, zoom. simpl.
  pose proof (safe_drop_ref _ _ _ _ Hy) as Hd. destruct (drop_ref_runs c y) as (y' & E' & _).
  rewrite E' in *. by apply safe_with_None.
Qed.

(** The destructor of a query that still holds a connection. *)
Lemma destroy_safe s : safe_call s → safe_with None (snd (destroy_StreamingQuery s)).
Proof.
  intros Hs. unfold destroy_StreamingQuery, m_bind at 1, stream_get, gets.
  destruct (connection_ (qc_stream s)) as [c|] eqn:Ec; [|by split].
  assert (Hy : releasing c others pooled (qc_sys s)).
  { unfold safe_call, pooled_of in Hs. rewrite Ec in Hs.
    destruct (pooled_ (qc_stream s)); [by apply safe_unpool|by apply safe_release]. }
  unfold m_bind, on_stream, modify, sysM, zoom. simpl.
  pose proof (safe_drop_ref _ _ _ _ Hy) as Hd.
  destruct (drop_ref_runs c (qc_sys s)) as (y' & E' & _). rewrite E' in *. by apply safe_with_None.
Qed.

Lemma AcquireConnection_safe r s : safe_with None s → safe_call (snd (AcquireConnection r s)).
Proof.
  intros Hs. pose proof Hs as [_ Hc]. apply safe_with_None in Hs; [|done].
  unfold AcquireConnection, m_bind at 1, on_stream at 1, modify. destruct (negb _).
  - unfold m_bind at 1, stream_get, gets. unfold m_bind at 1, sysM, zoom. simpl.
    pose proof (GetOrCreate_safe _ _ (qr_session_id r) (session_defaults_ (qc_stream s)) _ Hs) as Ha.
    destruct (GetOrCreate _ _ _) as [[[[c|] [e|]]|e|w] y]; simpl in Ha; try done;
      unfold safe_call, pooled_of; simpl; try done; by destruct (pooled_ (qc_stream s)).
  - unfold m_bind at 1, sysM, zoom. simpl. pose proof (Acquire_safe _ _ _ Hs) as Ha.
    destruct (Acquire (qc_sys s)) as [[[c|]|e|w] y]; simpl in Ha; try done;
      unfold safe_call, pooled_of; simpl; try done; [by destruct (pooled_ (qc_stream s))|].
    subst y. rewrite Hc. by destruct (pooled_ (qc_stream s)).
Qed.

Lemma keeps_ReleaseConnection b : keeps safe_call (ReleaseConnection b).
Proof. intros s Hs. by apply ReleaseConnection_safe. Qed.
Lemma keeps_sys_clear r : keeps safe_call (sysM (pg_clear r)).
Proof. apply keeps_with. intros o. apply with_clear. Qed.
Lemma keeps_stream_get {A} (f : StreamingQuery → A) : keeps safe_call (stream_get f).
Proof. by intros s. Qed.
Lemma keeps_on_stream f :
  (∀ q, connection_ (f q) = connection_ q ∧ pooled_ (f q) = pooled_ q) →
  keeps safe_call (on_stream f).
Proof. intros Hf. apply keeps_with. intros o. by apply with_on_stream. Qed.
#[local] Hint Resolve keeps_ReleaseConnection keeps_sys_clear keeps_stream_get : mtdd.
#[local] Hint Resolve with_Fetch with_drop_immediate : mtdd.

Ltac call_walk :=
  repeat first
    [ solve [eauto with mtdd]
    | apply keeps_with; intros; solve [eauto with mtdd]
    | by apply keeps_on_stream
    | apply keeps_bind; [|intros]
    | case_match ].

Lemma keeps_Fetch : keeps safe_call Fetch.
Proof. call_walk. Qed.
Lemma keeps_Close : keeps safe_call Close.
Proof. unfold Close. call_walk. Qed.
Lemma keeps_Abort : keeps safe_call Abort.
Proof.
  intros s Hs. unfold Abort, ignoring_errors.
  match goal with |- context [?m (mkQCall _ _ _)] => assert (Hm : keeps safe_call m) by call_walk end.
  specialize (Hm (mkQCall (qc_sys s) (qc_stream s) "") Hs).
  match goal with |- context [?m (mkQCall _ _ _)] => by destruct (m (mkQCall _ _ _)) end.
Qed.

Lemma Open_safe r s : safe_with None s → safe_call (snd (Open r s)).
Proof.
  intros Hs. unfold Open, m_bind at 1, on_stream at 1, modify. set (s0 := mkQCall _ _ _).
  pose proof (AcquireConnection_safe r s0 Hs) as Ha. unfold m_bind at 1.
  destruct (AcquireConnection r s0) as [[b|e|w] s1]; simpl in Ha; [|done..].
  revert s1 Ha. match goal with |- ∀ s1, _ → safe_call (snd (?m s1)) => change (keeps safe_call m) end.
  call_walk.
Qed.
End Query.
