(* ===== verification/QueryType.v ===== *)
(** * Well-formed streaming queries (src/src/pg/streaming_query.{h,cpp})

    The flags of a [StreamingQuery] depend on each other: a cursor or a
    transaction of its own belongs to a query in cursor mode, a buffered result
    to one without, and a buffered result is never a failed one. *)
From S2P Require Import Prelude CppStd Libpq PgState PqConn Pool Sessions QueryMeta Grpc Streaming.
Local Open Scope Z_scope.
Local Open Scope cpp_scope.

Section QueryType.
Context `{L : Libpq}.

(** A name made by [NextCursorName]. *)
Definition generated (name : string) : Prop := ∃ id, name = cursor_name id.

Record query_ok (q : StreamingQuery) : Prop := {
  qo_fetch : 0 < fetch_size_ q;
  qo_cursor : cursor_open_ q = true → use_cursor_ q = true ∧ generated (cursor_name_ q);
  qo_txn : started_local_txn_ q = true → use_cursor_ q = true;
  qo_immediate r : immediate_result_ q = Some r →
    use_cursor_ q = false ∧ IsOkStatus (PQresultStatus r) = true;
  qo_pooled : pooled_ q = true → use_session_ q = false;
}.

(** In the mode [b], and [N] of the cursor's name. *)
Record typed (b : bool) (N : string → Prop) (s : QCall) : Prop := {
  ty_ok : query_ok (qc_stream s);
  ty_mode : use_cursor_ (qc_stream s) = b;
  ty_name : N (cursor_name_ (qc_stream s));
}.

Lemma typed_sysM {A} b N (m : M Sys A) : keeps (typed b N) (sysM m).
Proof. intros s [H1 H2]. unfold sysM, zoom. by destruct (m _). Qed.
Lemma typed_set_error b N e : keeps (typed b N) (set_error e).
Proof. by intros s []. Qed.
Lemma typed_stream_get {A} b N (f : StreamingQuery → A) : keeps (typed b N) (stream_get f).
Proof. by intros s. Qed.
Lemma typed_with_lock {A} b N c (m : M QCall A) :
  keeps (typed b N) m → keeps (typed b N) (with_lock c m).
Proof.
  intros Hm s Hs. unfold with_lock. case_bool_decide; [done|]. simpl.
  specialize (Hm (mkQCall (set_locked ({[pq_addr c]} ∪ sy_locked (qc_sys s)) (qc_sys s))
    (qc_stream s) (qc_error s))).
  assert (Hs0 : typed b N (mkQCall (set_locked ({[pq_addr c]} ∪ sy_locked (qc_sys s)) (qc_sys s))
    (qc_stream s) (qc_error s))) by (by destruct Hs). specialize (Hm Hs0).
  destruct (m _) as [[a|e|w] s']; by destruct Hm.
Qed.
Lemma typed_on_stream b N f :
  (∀ q, query_ok q → use_cursor_ q = b → N (cursor_name_ q) →
        query_ok (f q) ∧ use_cursor_ (f q) = b ∧ N (cursor_name_ (f q))) →
  keeps (typed b N) (on_stream f).
Proof. intros Hf s [H1 H2 H3]. destruct (Hf _ H1 H2 H3) as (? & ? & ?). by split. Qed.
Lemma typed_the_connection b N : keeps (typed b N) the_connection.
Proof. intros s Hs. unfold the_connection, m_bind. simpl. by destruct (connection_ (qc_stream s)). Qed.

(** Updates that keep the dependencies. *)
Ltac typed_update :=
  apply typed_on_stream; intros q [? ? ? ? ?] ? ?; split_and!; [split; simpl; auto; congruence|done..].

#[local] Hint Resolve typed_sysM typed_set_error typed_stream_get typed_the_connection : mtdd.

Ltac typed_walk :=
  repeat first
    [ solve [eauto with mtdd]
    | typed_update
    | apply typed_with_lock
    | apply keeps_bind; [|intros]
    | case_match ].

Lemma typed_EndTransaction b N commit : keeps (typed b N) (EndTransaction commit).
Proof. unfold EndTransaction, set_error_if_empty. typed_walk. Qed.
Lemma typed_CloseCursor b N : keeps (typed b N) CloseCursor.
Proof. unfold CloseCursor, set_error_if_empty. typed_walk. Qed.
Lemma typed_ReleaseConnection b N broken : keeps (typed b N) (ReleaseConnection broken).
Proof. unfold ReleaseConnection. typed_walk. Qed.
Lemma typed_drop_immediate b N : keeps (typed b N) drop_immediate.
Proof. unfold drop_immediate. typed_walk. Qed.
Lemma typed_exec_error_text b N c r : keeps (typed b N) (exec_error_text c r).
Proof. unfold exec_error_text. typed_walk. Qed.
#[local] Hint Resolve typed_EndTransaction typed_CloseCursor typed_ReleaseConnection
  typed_drop_immediate typed_exec_error_text : mtdd.
Lemma typed_BeginIfNeeded N : keeps (typed true N) BeginIfNeeded.
Proof. unfold BeginIfNeeded. typed_walk. Qed.
Lemma typed_FetchCursor b N : keeps (typed b N) FetchCursor.
Proof. unfold FetchCursor. typed_walk. Qed.
Lemma typed_ExecuteImmediate b N r : keeps (typed b N) (ExecuteImmediate r).
Proof. unfold ExecuteImmediate. typed_walk. Qed.
Lemma typed_Close b N : keeps (typed b N) Close.
Proof. unfold Close. typed_walk. Qed.
Lemma typed_AcquireConnection b N r s :
  typed b N s → pooled_ (qc_stream s) = false → typed b N (snd (AcquireConnection r s)).
Proof.
  intros [[H1 H2 H3 H4 H5] Hb HN] Hp. unfold AcquireConnection, m_bind at 1, on_stream at 1, modify.
  destruct (negb _).
  - unfold m_bind at 1, stream_get, gets. unfold m_bind at 1, sysM, zoom. simpl.
    destruct (GetOrCreate _ _ _) as [[[[c|] [e|]]|e|w] y]; simpl;
      (split; simpl; [split; simpl; auto; congruence|done|done]).
  - unfold m_bind at 1, sysM, zoom. simpl.
    destruct (Acquire _) as [[[c|]|e|w] y]; simpl;
      (split; simpl; [split; simpl; auto; congruence|done|done]).
Qed.
#[local] Hint Resolve typed_BeginIfNeeded typed_FetchCursor typed_ExecuteImmediate : mtdd.

Lemma typed_Fetch b N : keeps (typed b N) Fetch.
Proof. unfold Fetch. typed_walk. Qed.

Lemma typed_Abort b N : keeps (typed b N) Abort.
Proof.
  intros s Hs. unfold Abort, ignoring_errors.
  match goal with |- context [?m (mkQCall _ _ _)] => assert (Hm : keeps (typed b N) m) by typed_walk end.
  specialize (Hm (mkQCall (qc_sys s) (qc_stream s) "") ltac:(by destruct Hs)).
  match goal with |- context [?m (mkQCall _ _ _)] => destruct (m (mkQCall _ _ _)) end. by destruct Hm.
Qed.

Lemma typed_OpenCursor r : keeps (typed true (λ _, True)) (OpenCursor r).
Proof.
  unfold OpenCursor. apply keeps_bind; [apply typed_BeginIfNeeded|intros begun].
  case_match; [by intros s|]. intros s [[H1 H2 H3 H4 H5] Hb _].
  unfold m_bind at 1, sysM at 1, zoom, NextCursorName, m_bind at 1 2, gets, modify. simpl.
  unfold m_bind at 1, on_stream at 1, modify. simpl. set (s0 := mkQCall _ _ _).
  assert (Hs0 : typed true generated s0).
  { split; simpl; [split; simpl; auto|done|by eexists]. intros Hc. split; [done|by eexists]. }
  clearbody s0. match goal with |- typed _ _ (snd (?m s0)) =>
    assert (Hm : keeps (typed true generated) m) by typed_walk end.
  apply Hm in Hs0. by destruct Hs0.
Qed.

(** ** Results *)

(** To the value a sequence of steps returns. *)
Ltac returns_none E := repeat (apply m_bind_Ret in E as (? & ? & _ & E)).

Lemma FetchCursor_result s r s' :
  FetchCursor s = (Ret (Some r), s') → PQresultStatus r = PGRES_TUPLES_OK.
Proof.
  unfold FetchCursor. intros E. apply m_bind_Ret in E as (b & s1 & _ & E).
  apply m_bind_Ret in E as (o & s2 & _ & E). destruct b, o as [c|]; try done.
  apply m_bind_Ret in E as (f & s3 & _ & E). apply with_lock_Ret in E as (s4 & s5 & E).
  apply m_bind_Ret in E as (res & s6 & _ & E). case_bool_decide as Hr; simpl in E.
  - injection E as -> _. exact Hr.
  - by returns_none E.
Qed.

Lemma ExecuteImmediate_result request s r s' :
  ExecuteImmediate request s = (Ret (Some r), s') → IsOkStatus (PQresultStatus r) = true.
Proof.
  unfold ExecuteImmediate. intros E. apply m_bind_Ret in E as (c & s1 & _ & E).
  apply with_lock_Ret in E as (s2 & s3 & E). apply m_bind_Ret in E as (res & s4 & _ & E).
  destruct (_ || _).
  { by returns_none E. }
  destruct (IsOkStatus (result_status res)) eqn:Ei; simpl in E.
  - by injection E as -> _.
  - by returns_none E.
Qed.

Lemma Fetch_result s r s' :
  query_ok (qc_stream s) → Fetch s = (Ret (Some r), s') →
  if use_cursor_ (qc_stream s) then PQresultStatus r = PGRES_TUPLES_OK
  else IsOkStatus (PQresultStatus r) = true.
Proof.
  intros Hq. unfold Fetch, m_bind at 1, gets. destruct (connection_ (qc_stream s)); [|done].
  destruct (use_cursor_ (qc_stream s)) eqn:Eu; [apply FetchCursor_result|].
  destruct (immediate_done_ (qc_stream s)); [done|]. intros E.
  apply m_bind_Ret in E as ([] & s1 & _ & [= E _]). by apply (qo_immediate _ Hq).
Qed.

Lemma Open_typed request s :
  query_ok (qc_stream s) → pooled_ (qc_stream s) = false → cursor_open_ (qc_stream s) = false →
  started_local_txn_ (qc_stream s) = false → immediate_result_ (qc_stream s) = None →
  query_ok (qc_stream (snd (Open request s))).
Proof.
  intros [H1 H2 H3 H4 H5] Hp Hc Ht Hi. unfold Open, m_bind at 1, on_stream at 1, modify.
  set (b := IsTupleStreamingSql (qr_text request)). set (s0 := mkQCall _ _ _).
  assert (Hs0 : typed b (λ _, True) s0).
  { split; simpl; [split; simpl; auto; congruence|done|done]. }
  pose proof (typed_AcquireConnection b (λ _, True) request s0 Hs0 Hp) as Ha. unfold m_bind at 1.
  destruct (AcquireConnection request s0) as [[ok|e|w] s1]; simpl in Ha; [|by apply Ha..].
  destruct (negb ok); [apply Ha|]. unfold m_bind at 1, stream_get, gets. rewrite (ty_mode _ _ _ Ha).
  destruct b; [by apply (typed_OpenCursor request) in Ha as []|].
  pose proof (typed_ExecuteImmediate false (λ _, True) request s1 Ha) as He.
  pose proof (ExecuteImmediate_result request s1) as Hr. unfold m_bind at 1.
  destruct (ExecuteImmediate request s1) as [[res|e|w] s2]; simpl in He; [|by apply He..].
  assert (Hs2 : ∀ d, typed false (λ _, True) (mkQCall (qc_sys s2) (set_immediate res d (qc_stream s2))
    (qc_error s2))).
  { intros d. destruct He as [[E1 E2 E3 E4 E5] Eb _]. split; simpl; [split; simpl; auto|done|done].
    intros r ->. split; [done|]. by eapply Hr. }
  unfold m_bind, on_stream, modify. simpl. destruct res as [r|].
  - apply (Hs2 false).
  - pose proof (typed_ReleaseConnection false (λ _, True) true _ (Hs2 (immediate_done_ (qc_stream s2))))
      as Hx.
    destruct (ReleaseConnection _ _) as [[]]; by destruct Hx.
Qed.

(** C21: the type invariant of a streaming query. A new query is well-formed, and
    opening it, fetching, closing and aborting keep it so, whatever the server
    answers and however the call ends. In particular a query never has a cursor
    and a buffered result at once, only fetches from a cursor whose name the
    server made up, and [Fetch] never returns a failed result. *)
Theorem query_well_typed defaults n request y e (s : QCall) :
  query_ok (qc_stream s) →
  query_ok (new_StreamingQuery defaults n)
  ∧ query_ok (qc_stream (snd (Open request (mkQCall y (new_StreamingQuery defaults n) e))))
  ∧ query_ok (qc_stream (snd (Fetch s))) ∧ query_ok (qc_stream (snd (Close s)))
  ∧ query_ok (qc_stream (snd (Abort s)))
  ∧ ∀ r s', Fetch s = (Ret (Some r), s') →
      if use_cursor_ (qc_stream s) then PQresultStatus r = PGRES_TUPLES_OK
      else IsOkStatus (PQresultStatus r) = true.
Proof.
  intros Hq. assert (Hn : query_ok (new_StreamingQuery defaults n)).
  { split; simpl; try done. case_if; lia. }
  assert (Ht : typed (use_cursor_ (qc_stream s)) (λ _, True) s) by done.
  split_and!; [done|by apply Open_typed|apply (typed_Fetch _ _ _ Ht)|apply (typed_Close _ _ _ Ht)
    |apply (typed_Abort _ _ _ Ht)|]. intros r s'. by apply Fetch_result.
Qed.
End QueryType.
