(* ===== verification/QueryExecutor.v ===== *)
(** * One-shot execution (src/src/pg/query_executor.{h,cpp})

    [QueryExecutor] runs a statement in one round trip. The handlers use its
    [ExtractPgError]; [Execute] and [FinishQuery] are its other members. *)
From S2P Require Import Prelude CppStd Libpq MockResult Grpc PgState PqConn Pool Sessions Streaming.
Local Open Scope Z_scope.
Local Open Scope cpp_scope.

Record PgErrorMeta := mkPgErrorMeta {
  em_sqlstate : string; em_severity : string; em_message : string; em_detail : string;
  em_position : string }.

Definition empty_meta : PgErrorMeta := mkPgErrorMeta "" "" "" "" "".

Section Extract.
Context {R : Type} `{!PGResult R}.

Definition FieldOrEmpty (result : R) (field : PG_DIAG) : string :=
  default "" (PQresultErrorField result field).

Definition ExtractPgError (result : option R) : PgErrorMeta :=
  match result with
  | None => mkPgErrorMeta "" "" "query returned null result" "" ""
  | Some r =>
      let message := FieldOrEmpty r PG_DIAG_MESSAGE_PRIMARY in
      {| em_sqlstate := FieldOrEmpty r PG_DIAG_SQLSTATE;
         em_severity := FieldOrEmpty r PG_DIAG_SEVERITY;
         em_message := if str_empty message then "unknown PostgreSQL error" else message;
         em_detail := FieldOrEmpty r PG_DIAG_MESSAGE_DETAIL;
         em_position := FieldOrEmpty r PG_DIAG_STATEMENT_POSITION |}
  end.

(** The error a client is sent always has a message, and it is the server's
    primary message whenever there is one. *)
Theorem ExtractPgError_message (result : option R) :
  em_message (ExtractPgError result) ≠ ""
  ∧ ∀ r m, result = Some r → PQresultErrorField r PG_DIAG_MESSAGE_PRIMARY = Some m → m ≠ "" →
      em_message (ExtractPgError result) = m.
Proof.
  split.
  - destruct result as [r|]; [|done]. simpl. case_if; [done|by apply str_empty_false].
  - intros r m -> Hm Hne. simpl. unfold FieldOrEmpty. rewrite Hm. simpl.
    by rewrite (proj2 (str_empty_false m)).
Qed.
End Extract.

Section Executor.
Context `{L : Libpq}.

Record QueryExecution := mkQueryExecution {
  ex_result : option pgresult;
  ex_connection : option PqConnection;
  ex_pooled : bool;
  ex_connection_broken : bool;
}.

Definition no_execution : QueryExecution := mkQueryExecution None None false false.

Definition FinishQuery (execution : QueryExecution) : M Sys QueryExecution :=
  pg_clear (ex_result execution) ;;
  match ex_pooled execution, ex_connection execution with
  | true, Some c =>
      Release (Some c) (ex_connection_broken execution) ;;
      drop_ref c ;;
      m_ret (mkQueryExecution None None false (ex_connection_broken execution))
  | _, _ =>
      m_ret (mkQueryExecution None (ex_connection execution) (ex_pooled execution)
               (ex_connection_broken execution))
  end.

(** The part of [Execute] after the connection is there: [conn] is the local
    [shared_ptr], [execution.connection] a copy of it. *)
Definition execute_on (request : QueryRequest) (use_session : bool) (conn : PqConnection)
  : M Sys QueryExecution :=
  take_ref conn ;;
  let* execution :=
    with_lock conn (
      let* result := conn_execParams conn (qr_text request) (BuildParams request)
                       (result_format_of request) in
      let status := result_status result in
      let ok := bool_decide (status = PGRES_TUPLES_OK) || bool_decide (status = PGRES_COMMAND_OK) in
      let* is_healthy := IsHealthy conn in
      let execution := mkQueryExecution result (Some conn) (negb use_session) (negb is_healthy) in
      if negb ok && negb use_session then FinishQuery execution else m_ret execution) in
  drop_ref conn ;;
  m_ret execution.

(** The execution, and the text stored in [error_out] if any. *)
Definition Execute (session_defaults : ConnectParams) (request : QueryRequest)
  : M Sys (QueryExecution * option string) :=
  let use_session := negb (str_empty (qr_session_id request)) in
  if use_session then
    let* r := GetOrCreate (qr_session_id request) session_defaults in
    match r.1 with
    | None => m_ret (no_execution, r.2)
    | Some conn => let* ex := execute_on request true conn in m_ret (ex, r.2)
    end
  else
    let* c := Acquire in
    match c with
    | None => m_ret (no_execution, Some "failed to acquire database connection")
    | Some conn => let* ex := execute_on request false conn in m_ret (ex, None)
    end.

(** The slot an execution holds. *)
Definition held (ex : QueryExecution) : Z :=
  match ex_connection ex with Some _ => if ex_pooled ex then 1 else 0 | None => 0 end.

Lemma FinishQuery_runs ex (s : Sys) :
  ∃ ex' s', FinishQuery ex s = (Ret ex', s')
    ∧ in_use_ (sy_pool s') = in_use_ (sy_pool s) - held ex
    ∧ sy_locked s' = sy_locked s ∧ ex_result ex' = None ∧ held ex' = 0
    ∧ (ex_connection ex = None ∨ ex_pooled ex = true → ex_connection ex' = None).
Proof.
  destruct ex as [r c p b]. unfold FinishQuery, held. simpl.
  destruct (returns_pg_clear r s) as ([] & s1 & E). rewrite (m_bind_run _ _ _ _ _ E).
  pose proof (frame_pg_clear r s) as (_ & Hp & _ & _ & Hl & _). rewrite E in Hp, Hl. simpl in Hp, Hl.
  destruct p, c as [c|];
    try (eexists _, _; split; [reflexivity|]; rewrite Hp; split_and!; (done || lia || by intros [])).
  destruct (Release_slots c b s1) as (s2 & E2 & H2 & Hl2 & _). rewrite (m_bind_run _ _ _ _ _ E2).
  destruct (drop_ref_runs c s2) as (s3 & E3 & H3 & Hl3). rewrite (m_bind_run _ _ _ _ _ E3).
  eexists _, _. split; [reflexivity|]. rewrite H3, Hl3, H2, Hp, Hl2. by split_and!.
Qed.

(** The locked region of [Execute], for a pooled connection. *)
Lemma region_runs request conn (s : Sys) :
  ∃ ex s',
    (let* result := conn_execParams conn (qr_text request) (BuildParams request)
                      (result_format_of request) in
     let status := result_status result in
     let ok := bool_decide (status = PGRES_TUPLES_OK) || bool_decide (status = PGRES_COMMAND_OK) in
     let* is_healthy := IsHealthy conn in
     let execution := mkQueryExecution result (Some conn) true (negb is_healthy) in
     if negb ok && negb false then FinishQuery execution else m_ret execution) s = (Ret ex, s')
    ∧ in_use_ (sy_pool s') = in_use_ (sy_pool s) - 1 + held ex ∧ sy_locked s' = sy_locked s
    ∧ (ex_connection ex = None ∨ ex_pooled ex = true).
Proof.
  set (m := conn_execParams _ _ _ _). destruct (returns_conn_execParams conn (qr_text request)
    (BuildParams request) (result_format_of request) s) as (r & s1 & E).
  pose proof (frame_conn_execParams conn (qr_text request) (BuildParams request)
    (result_format_of request) s) as (_ & Hp & _ & _ & Hl & _).
  fold m in E, Hp, Hl. rewrite E in Hp, Hl. simpl in Hp, Hl.
  rewrite (m_bind_run _ _ _ _ _ E), (m_bind_run _ _ _ _ _ (IsHealthy_eq conn s1)).
  rewrite andb_true_r. destruct (negb (_ || _)); [|eexists _, _; split; [reflexivity|]; rewrite Hp; simpl;
    split_and!; [unfold held; simpl; lia|done|by right]].
  cbv zeta. match goal with |- context [FinishQuery ?x s1] => destruct (FinishQuery_runs x s1)
    as (ex & s2 & -> & H1 & H2 & H3 & H4 & H5) end.
  eexists _, _. split; [reflexivity|]. rewrite H1, H2, Hp, H4. unfold held. simpl.
  split_and!; [lia|done|]. left. apply H5. by right.
Qed.

(** A pooled execution keeps the pool's accounts: once [FinishQuery] has run
    on what [Execute] returned, the slot is free again and neither the result
    nor the connection is kept. *)
Theorem Execute_FinishQuery defaults request (s s1 : Sys) ex err :
  qr_session_id request = "" → sy_locked s = ∅ →
  Execute defaults request s = (Ret (ex, err), s1) →
  ∃ ex' s2, FinishQuery ex s1 = (Ret ex', s2)
    ∧ in_use_ (sy_pool s2) = in_use_ (sy_pool s)
    ∧ ex_result ex' = None ∧ ex_connection ex' = None.
Proof.
  intros Hid Hl HE. unfold Execute in HE. rewrite Hid in HE. simpl in HE.
  apply m_bind_Ret in HE as (c & s0 & Ha & HE). pose proof (Acquire_slots s) as Hs.
  rewrite Ha in Hs. apply locks_kept_Acquire in Ha. simpl in Ha.
  destruct c as [conn|]; [|injection HE as <- <- <-; by eexists _, _].
  apply m_bind_Ret in HE as (ex0 & s2 & HE & [= <- <- <-]). unfold execute_on in HE.
  unfold m_bind at 1, take_ref, modify in HE. apply m_bind_Ret in HE as (ex1 & s3 & HE & HD).
  set (s0' := set_refs _ s0) in HE.
  destruct (region_runs request conn (set_locked ({[pq_addr conn]} ∪ sy_locked s0') s0'))
    as (ex2 & s4 & E4 & H1 & H2 & H3).
  erewrite with_lock_run in HE; [|simpl; rewrite Ha, Hl; set_solver|exact E4|done].
  injection HE as <- <-. apply m_bind_Ret in HD as ([] & s5 & HD & [= <- <-]).
  match type of HD with drop_ref _ ?st = _ => destruct (drop_ref_runs conn st) as (s6 & E6 & H6 & _) end.
  rewrite HD in E6. injection E6 as <-.
  destruct (FinishQuery_runs ex2 s5) as (ex' & s7 & -> & H7 & _ & H8 & H9 & H10).
  exists ex', s7. split; [done|]. rewrite H7, H6. simpl in *. split_and!; [lia|done|by apply H10].
Qed.

End Executor.
Arguments QueryExecution {L}.
