(* ===== verification/Health.v ===== *)
(** * The health monitor (src/src/health/pg_health_monitor.{h,cpp})

    The object, its probe thread and the serving states of the health service
    of the gRPC server it is attached to. *)
From S2P Require Import Prelude CppStd Log Libpq PgState PqConn.
Local Open Scope Z_scope.
Local Open Scope cpp_scope.

(** [server_] is null or a server; [Some false] is a server without a health
    service. [probe_thread_] is whether the thread is joinable. *)
Record PgHealthMonitor := mkPgHealthMonitor {
  server_ : option bool;
  probe_interval_sec_ : Z;
  stop_ : bool;
  has_params_ : bool;
  probe_thread_ : bool;
  hm_params_ : ConnectParams;
  statement_timeout_ms_ : Z;
  serving_status : gmap string bool;
}.

(** The constructor. *)
Definition new_PgHealthMonitor (probe_interval_sec : Z) : PgHealthMonitor :=
  mkPgHealthMonitor None (if 0 <? probe_interval_sec then probe_interval_sec else 30)
    false false false default_params 0 ∅.

Definition set_server v (h : PgHealthMonitor) : PgHealthMonitor :=
  mkPgHealthMonitor v (probe_interval_sec_ h) (stop_ h) (has_params_ h) (probe_thread_ h)
    (hm_params_ h) (statement_timeout_ms_ h) (serving_status h).
Definition set_stop b (h : PgHealthMonitor) : PgHealthMonitor :=
  mkPgHealthMonitor (server_ h) (probe_interval_sec_ h) b (has_params_ h) (probe_thread_ h)
    (hm_params_ h) (statement_timeout_ms_ h) (serving_status h).
Definition set_thread b (h : PgHealthMonitor) : PgHealthMonitor :=
  mkPgHealthMonitor (server_ h) (probe_interval_sec_ h) (stop_ h) (has_params_ h) b
    (hm_params_ h) (statement_timeout_ms_ h) (serving_status h).
Definition set_params p t (h : PgHealthMonitor) : PgHealthMonitor :=
  mkPgHealthMonitor (server_ h) (probe_interval_sec_ h) (stop_ h) true (probe_thread_ h)
    p t (serving_status h).
Definition set_status m (h : PgHealthMonitor) : PgHealthMonitor :=
  mkPgHealthMonitor (server_ h) (probe_interval_sec_ h) (stop_ h) (has_params_ h)
    (probe_thread_ h) (hm_params_ h) (statement_timeout_ms_ h) m.

(** The three names the monitor sets. *)
Definition service_names : list string := [""; "mtdd.MtddShard"; "mtdd.MtddNotify"].

Definition SetServing (serving : bool) (h : PgHealthMonitor) : PgHealthMonitor :=
  match server_ h with
  | Some true =>
      set_status (<["mtdd.MtddNotify" := serving]>
                 (<["mtdd.MtddShard" := serving]>
                 (<["" := serving]> (serving_status h)))) h
  | _ => h
  end.

Definition AttachServer (has_health_service : bool) (h : PgHealthMonitor) : PgHealthMonitor :=
  SetServing false (set_server (Some has_health_service) h).

Definition OnConnectFailure (h : PgHealthMonitor) : PgHealthMonitor := SetServing false h.
Definition SetServingWithoutPg (h : PgHealthMonitor) : PgHealthMonitor := SetServing true h.

(** [Stop]: the flag, then [join] on a joinable thread; [ProbeLoop_stops] shows
    that the thread it waits for comes to an end. *)
Definition Stop (h : PgHealthMonitor) : PgHealthMonitor := set_thread false (set_stop true h).

(** The destructor. *)
Definition destroy_PgHealthMonitor (h : PgHealthMonitor) : PgHealthMonitor := Stop h.

Section Health.
Context `{L : Libpq}.

Record HState := mkHState { hs_sys : Sys; hs_mon : PgHealthMonitor; hs_cerr : list string }.

#[global] Instance hstate_has_sys : HasSys HState.
Proof.
  refine {| the_sys := hs_sys; put_sys y s := mkHState y (hs_mon s) (hs_cerr s) |};
    [by intros []|done..].
Defined.

Definition on_monitor (f : PgHealthMonitor → PgHealthMonitor) : M HState unit :=
  modify (λ s, mkHState (hs_sys s) (f (hs_mon s)) (hs_cerr s)).
Definition monitor_get {A} (f : PgHealthMonitor → A) : M HState A := gets (λ s, f (hs_mon s)).
Definition log_warn (event detail : string) : M HState unit :=
  modify (λ s, mkHState (hs_sys s) (hs_mon s) (Warn event detail (hs_cerr s))).

(** The connection lives in a [unique_ptr] and is finished on return. *)
Definition probe_connection (params : ConnectParams) (timeout_ms : Z) : M Sys bool :=
  let* conn := PqConnection_Connect params timeout_ms in
  match conn with
  | inl _ => m_ret false
  | inr c => match pq_conn_ c with Some raw => pg_do (PQfinish raw) | None => m_ret tt end ;;
             m_ret true
  end.

Definition ProbeOnce : M HState bool :=
  let* has := monitor_get has_params_ in
  if negb has then m_ret false
  else
    let* params := monitor_get hm_params_ in
    let* timeout_ms := monitor_get statement_timeout_ms_ in
    sysM (probe_connection params timeout_ms).

Definition OnConnectSuccess (params : ConnectParams) (statement_timeout_ms : Z) : M HState unit :=
  on_monitor (set_params params statement_timeout_ms) ;;
  let* healthy := ProbeOnce in
  on_monitor (SetServing healthy) ;;
  let* joinable := monitor_get probe_thread_ in
  when negb joinable do on_monitor (λ h, set_thread true (set_stop false h)).

(** The part of an iteration of [ProbeLoop] before the sleep. *)
Definition probe_tick : M HState unit :=
  let* has := monitor_get has_params_ in
  when has do (
    let* healthy := ProbeOnce in
    on_monitor (SetServing healthy) ;;
    when negb healthy do log_warn "health_probe_failed" "PostgreSQL probe failed").

(** The sleep: [others t] is what other threads do to the state during the
    [t]-th sleep of 100 ms. *)
Fixpoint probe_sleep (n : nat) (others : nat → M HState unit) (t : nat) : M HState nat :=
  match n with
  | O => m_ret t
  | S n' =>
      let* stop := monitor_get stop_ in
      if stop : bool then m_ret t
      else others t ;; probe_sleep n' others (t + 1)
  end.

Fixpoint ProbeLoop (fuel : nat) (others : nat → M HState unit) (t : nat) : M HState unit :=
  match fuel with
  | O => hang OutOfFuel
  | S fuel' =>
      let* stop := monitor_get stop_ in
      if stop : bool then m_ret tt
      else
        probe_tick ;;
        let* interval := monitor_get probe_interval_sec_ in
        if INT_MAX <? interval * 10 then hang SignedOverflow
        else
          let* t' := probe_sleep (Z.to_nat (interval * 10)) others t in
          ProbeLoop fuel' others t'
  end.

(** ** The verdict *)

(** A probe with some parameters, and whether it gets a connection. *)
Definition probe_succeeds (params : ConnectParams) (timeout_ms : Z) (s : Sys) : bool :=
  match PqConnection_Connect params timeout_ms s with (Ret (inr _), _) => true | _ => false end.

Lemma probe_connection_runs params ms s :
  ∃ s', probe_connection params ms s = (Ret (probe_succeeds params ms s), s') ∧ frame s s'.
Proof.
  unfold probe_connection, probe_succeeds. destruct (Connect_runs params ms s) as (r & s1 & E & Hf).
  rewrite (m_bind_run _ _ _ _ _ E), E. destruct r as [e|c]; [by exists s1|].
  destruct (pq_conn_ c) as [raw|]; eexists; (split; [reflexivity|done]).
Qed.

Lemma ProbeOnce_runs (s : HState) :
  ∃ b y', ProbeOnce s = (Ret b, mkHState y' (hs_mon s) (hs_cerr s)) ∧ frame (hs_sys s) y'.
Proof.
  destruct s as [y h l]. unfold ProbeOnce, m_bind, monitor_get, gets. simpl.
  destruct (has_params_ h); simpl; [|by eexists _, _].
  unfold sysM, zoom. simpl.
  destruct (probe_connection_runs (hm_params_ h) (statement_timeout_ms_ h) y) as (y' & -> & Hf).
  by eexists _, _.
Qed.

Lemma OnConnectSuccess_runs params ms (s : HState) :
  ∃ s', OnConnectSuccess params ms s = (Ret tt, s') ∧ frame (hs_sys s) (hs_sys s').
Proof.
  unfold OnConnectSuccess, m_bind at 1, on_monitor at 1, modify.
  set (s1 := mkHState _ _ _). destruct (ProbeOnce_runs s1) as (b & y' & E & Hf).
  rewrite (m_bind_run _ _ _ _ _ E). unfold m_bind, on_monitor, modify, monitor_get, gets. simpl.
  case_if; by eexists.
Qed.

(** The status every name has. *)
Definition all_serving (h : PgHealthMonitor) (b : bool) : Prop :=
  ∀ name, name ∈ service_names → serving_status h !! name = Some b.

Lemma SetServing_all b h : server_ h = Some true → all_serving (SetServing b h) b.
Proof.
  intros Hs name Hn. unfold SetServing. rewrite Hs. simpl.
  repeat (apply elem_of_cons in Hn as [->|Hn]; [by simplify_map_eq|]).
  by apply elem_of_nil in Hn.
Qed.

(** With an attached server, [OnConnectSuccess] publishes the outcome of one
    probe with exactly the new parameters under all three service names, and
    the probe thread runs afterwards. *)
Theorem OnConnectSuccess_publishes params ms (s : HState) :
  server_ (hs_mon s) = Some true →
  ∃ s', OnConnectSuccess params ms s = (Ret tt, s')
    ∧ all_serving (hs_mon s') (probe_succeeds params ms (hs_sys s))
    ∧ probe_thread_ (hs_mon s') = true ∧ has_params_ (hs_mon s') = true
    ∧ (probe_thread_ (hs_mon s) = false → stop_ (hs_mon s') = false)
    ∧ frame (hs_sys s) (hs_sys s').
Proof.
  destruct s as [y h l]. simpl. intros Hs. unfold OnConnectSuccess.
  unfold m_bind at 1, on_monitor at 1, modify. simpl.
  destruct (probe_connection_runs params ms y) as (y1 & E & Hf).
  assert (Ep : ProbeOnce (mkHState y (set_params params ms h) l)
    = (Ret (probe_succeeds params ms y), mkHState y1 (set_params params ms h) l)).
  { unfold ProbeOnce, m_bind, monitor_get, gets. simpl. unfold sysM, zoom. simpl. by rewrite E. }
  rewrite (m_bind_run _ _ _ _ _ Ep). unfold m_bind, on_monitor, modify, monitor_get, gets. simpl.
  pose proof (SetServing_all (probe_succeeds params ms y) (set_params params ms h) Hs) as Ha.
  assert (Hf1 : ∀ b h', probe_thread_ (SetServing b h') = probe_thread_ h'
    ∧ has_params_ (SetServing b h') = has_params_ h').
  { intros b h'. unfold SetServing. by destruct (server_ h') as [[]|]. }
  destruct (Hf1 (probe_succeeds params ms y) (set_params params ms h)) as [H1 H2].
  rewrite H1. simpl. destruct (probe_thread_ h) eqn:Et; simpl; eexists; (split; [reflexivity|]);
    simpl; by rewrite ?H1, ?H2.
Qed.

(** ** Life of a monitor *)

(** The calls of the other components and the iterations of the probe thread. *)
Inductive hevent :=
| EAttach (has_health_service : bool)
| EConnectSuccess (params : ConnectParams) (statement_timeout_ms : Z)
| EConnectFailure
| EServingWithoutPg
| EStop
| ETick.

Definition run_event (e : hevent) : M HState unit :=
  match e with
  | EAttach b => on_monitor (AttachServer b)
  | EConnectSuccess params ms => OnConnectSuccess params ms
  | EConnectFailure => on_monitor OnConnectFailure
  | EServingWithoutPg => on_monitor SetServingWithoutPg
  | EStop => on_monitor Stop
  | ETick => probe_tick
  end.

Fixpoint run_events (l : list hevent) : M HState unit :=
  match l with [] => m_ret tt | e :: l' => run_event e ;; run_events l' end.

(** No name is reported as serving. *)
Definition not_serving (h : PgHealthMonitor) : Prop :=
  ∀ name, serving_status h !! name ≠ Some true.

Lemma not_serving_SetServing h : not_serving h → not_serving (SetServing false h).
Proof.
  intros Hn name. unfold SetServing. destruct (server_ h) as [[]|]; [|apply Hn..]. simpl.
  rewrite !lookup_insert_Some. intros [[_ ?]|[_ [[_ ?]|[_ [[_ ?]|[_ ?]]]]]]; try done.
  by apply (Hn name).
Qed.

(** The probe that an event makes, if it makes one, and its outcome. *)
Definition probe_of (e : hevent) (s : HState) : option bool :=
  match e with
  | EConnectSuccess params ms => Some (probe_succeeds params ms (hs_sys s))
  | ETick => if has_params_ (hs_mon s)
             then Some (probe_succeeds (hm_params_ (hs_mon s)) (statement_timeout_ms_ (hs_mon s)) (hs_sys s))
             else None
  | _ => None
  end.

(** The outcomes of the probes of a run, in order. *)
Fixpoint probes (l : list hevent) (s : HState) : list bool :=
  match l with
  | [] => []
  | e :: l' => option_list (probe_of e s) ++ probes l' (snd (run_event e s))
  end.

(** A probe with the monitor's parameters. *)
Lemma ProbeOnce_probe y h l :
  has_params_ h = true →
  ∃ y', ProbeOnce (mkHState y h l)
    = (Ret (probe_succeeds (hm_params_ h) (statement_timeout_ms_ h) y), mkHState y' h l).
Proof.
  intros Hp. unfold ProbeOnce, m_bind, monitor_get, gets. simpl. rewrite Hp. simpl. unfold sysM, zoom. simpl.
  destruct (probe_connection_runs (hm_params_ h) (statement_timeout_ms_ h) y) as (y' & -> & _). by eexists.
Qed.

(** An event that makes no successful probe leaves the monitor not serving. *)
Lemma run_event_not_serving e (s : HState) :
  e ≠ EServingWithoutPg → probe_of e s ≠ Some true → not_serving (hs_mon s) →
  ∃ s', run_event e s = (Ret tt, s') ∧ not_serving (hs_mon s').
Proof.
  destruct s as [y h l]. intros He Hp Hn. destruct e as [b|p ms| | | |]; simpl in *; try done.
  - eexists. split; [reflexivity|]. by apply not_serving_SetServing.
  - unfold OnConnectSuccess, m_bind at 1, on_monitor at 1, modify. simpl.
    destruct (ProbeOnce_probe y (set_params p ms h) l eq_refl) as (y' & Ep). simpl in Ep.
    rewrite (m_bind_run _ _ _ _ _ Ep). unfold m_bind, on_monitor, modify, monitor_get, gets. simpl.
    assert (Hn' : not_serving (SetServing false (set_params p ms h))) by (by apply not_serving_SetServing).
    destruct (probe_succeeds p ms y); [by destruct Hp|]. case_if; eexists; (split; [reflexivity|done]).
  - eexists. split; [reflexivity|]. by apply not_serving_SetServing.
  - eexists. split; [reflexivity|done].
  - unfold probe_tick, m_bind at 1, monitor_get, gets. simpl.
    destruct (has_params_ h) eqn:Eh; [|eexists; split; [reflexivity|done]].
    destruct (ProbeOnce_probe y h l Eh) as (y' & Ep). rewrite (m_bind_run _ _ _ _ _ Ep).
    destruct (probe_succeeds _ _ _); [by destruct Hp|]. eexists. split; [reflexivity|].
    by apply not_serving_SetServing.
Qed.

Lemma run_events_not_serving l (s : HState) :
  EServingWithoutPg ∉ l → true ∉ probes l s → not_serving (hs_mon s) →
  not_serving (hs_mon (snd (run_events l s))).
Proof.
  revert s. induction l as [|e l IH]; intros s He Hp Hn; [done|].
  apply not_elem_of_cons in He as [He1 He2]. cbn [probes] in Hp. apply not_elem_of_app in Hp as [Hp1 Hp2].
  destruct (run_event_not_serving e s) as (s1 & E & Hn1); [done| |done|].
  { intros Ep. rewrite Ep in Hp1. set_solver. }
  cbn [run_events]. rewrite (m_bind_run _ _ _ _ _ E). rewrite E in Hp2. by apply IH.
Qed.

Lemma serving_without_pg_dec (l : list hevent) : {EServingWithoutPg ∈ l} + {EServingWithoutPg ∉ l}.
Proof.
  induction l as [|e l [IH|IH]]; [right; set_solver|left; by right|].
  destruct e; first [left; by left|right; by intros [?|?]%elem_of_cons].
Qed.

(** C27: the server is not reported as serving before a probe has succeeded: after
    any sequence of [Connect]s, iterations of the probe thread and other calls
    from the construction of the monitor on, a name is serving only if one of
    the probes made so far got a connection, or the node was started as one
    that needs no PostgreSQL. *)
Theorem not_serving_before_probe interval l (y : Sys) cerr name :
  let s := mkHState y (new_PgHealthMonitor interval) cerr in
  serving_status (hs_mon (snd (run_events l s))) !! name = Some true →
  true ∈ probes l s ∨ EServingWithoutPg ∈ l.
Proof.
  intros s Hs. destruct (serving_without_pg_dec l) as [|He]; [by right|left].
  destruct (decide (true ∈ probes l s)) as [|Hp]; [done|].
  exfalso. eapply run_events_not_serving; [exact He|exact Hp|by intros ?|exact Hs].
Qed.

(** ** The probe thread ends *)

Section Loop.
Context (others : nat → M HState unit) (T : nat).
(** The other threads return, do not change the interval, never clear the flag
    again, and have set it after the [T]-th sleep. *)
Hypothesis Hothers : ∀ t s, ∃ s', others t s = (Ret tt, s')
  ∧ probe_interval_sec_ (hs_mon s') = probe_interval_sec_ (hs_mon s)
  ∧ (stop_ (hs_mon s) = true → stop_ (hs_mon s') = true)
  ∧ (t = T → stop_ (hs_mon s') = true).

Lemma probe_sleep_ends n t (s : HState) :
  (t ≤ T)%nat → stop_ (hs_mon s) = false →
  ∃ t' s', probe_sleep n others t s = (Ret t', s')
    ∧ probe_interval_sec_ (hs_mon s') = probe_interval_sec_ (hs_mon s)
    ∧ (stop_ (hs_mon s') = true ∨ stop_ (hs_mon s') = false ∧ t' = (t + n)%nat ∧ (t' ≤ T)%nat).
Proof.
  revert t s. induction n as [|n IH]; intros t s Ht Hs.
  { exists t, s. split_and!; [done..|]. right. split_and!; [done|lia..]. }
  simpl. unfold m_bind at 1, monitor_get, gets. rewrite Hs.
  destruct (Hothers t s) as (s1 & E & Hi & _ & Hset). rewrite (m_bind_run _ _ _ _ _ E).
  destruct (stop_ (hs_mon s1)) eqn:Hs1.
  - exists (t + 1)%nat, s1. destruct n; simpl; unfold m_bind, monitor_get, gets; rewrite ?Hs1;
      (split_and!; [done|congruence|by left]).
  - destruct (decide (t = T)) as [Heq|Hne]; [by discriminate (Hset Heq)|].
    destruct (IH (t + 1)%nat s1) as (t' & s' & -> & Hi' & H'); [lia|done|].
    exists t', s'. split_and!; [done|congruence|]. destruct H' as [|(? & ? & ?)]; [by left|].
    right. split_and!; [done|lia..].
Qed.

Lemma probe_tick_runs (s : HState) :
  ∃ s', probe_tick s = (Ret tt, s') ∧ stop_ (hs_mon s') = stop_ (hs_mon s)
    ∧ probe_interval_sec_ (hs_mon s') = probe_interval_sec_ (hs_mon s).
Proof.
  destruct s as [y h l]. unfold probe_tick, m_bind at 1, monitor_get, gets. simpl.
  destruct (has_params_ h) eqn:Eh; [|by eexists].
  destruct (ProbeOnce_runs (mkHState y h l)) as (b & y' & Ep & _). rewrite (m_bind_run _ _ _ _ _ Ep).
  unfold m_bind, on_monitor, modify, SetServing. simpl.
  destruct b, (server_ h) as [[]|]; by eexists.
Qed.

Lemma ProbeLoop_ends fuel t (s : HState) :
  0 < probe_interval_sec_ (hs_mon s) → probe_interval_sec_ (hs_mon s) * 10 ≤ INT_MAX →
  (t ≤ T)%nat → (T - t + 2 ≤ fuel)%nat →
  ∃ s', ProbeLoop fuel others t s = (Ret tt, s').
Proof.
  revert t s. induction fuel as [|fuel IH]; intros t s Hi1 Hi2 Ht Hf; [lia|].
  simpl. unfold m_bind at 1, monitor_get, gets. destruct (stop_ (hs_mon s)) eqn:Hs; [by eexists|].
  destruct (probe_tick_runs s) as (s1 & E1 & Hs1 & Hint1). rewrite (m_bind_run _ _ _ _ _ E1).
  unfold m_bind at 1. rewrite Hint1. replace (INT_MAX <? _) with false by lia.
  destruct (probe_sleep_ends (Z.to_nat (probe_interval_sec_ (hs_mon s) * 10)) t s1)
    as (t' & s2 & E2 & Hint2 & H2); [done|congruence|].
  rewrite (m_bind_run _ _ _ _ _ E2). destruct H2 as [Hs2|(Hs2 & -> & Ht')].
  - destruct fuel; [lia|]. simpl. unfold m_bind, monitor_get, gets. rewrite Hs2. by eexists.
  - apply IH; rewrite ?Hint2, ?Hint1; lia.
Qed.

(** C28: the probe thread ends, so that the [join] in [Stop] returns: once other
    threads have set the stop flag during the [T]-th sleep, the loop returns
    within [T + 2] iterations, whatever PostgreSQL answers to the probes. *)
Theorem ProbeLoop_stops (s : HState) :
  0 < probe_interval_sec_ (hs_mon s) → probe_interval_sec_ (hs_mon s) * 10 ≤ INT_MAX →
  ∃ s', ProbeLoop (T + 2) others 0 s = (Ret tt, s').
Proof. intros H1 H2. apply ProbeLoop_ends; [done..|lia|lia]. Qed.
End Loop.

End Health.
Arguments HState {L}.
