(* ===== verification/HealthConc.v ===== *)
(** * The probe thread under concurrent calls (src/src/health/pg_health_monitor.cpp)

    [OnConnectSuccess] runs on the gRPC thread of a [Connect] call, [Stop] on the
    main thread. [stop_] is atomic; [probe_thread_] is a plain member that
    [OnConnectSuccess] tests and then assigns. The steps below are these
    accesses; assigning to a [std::thread] that is joinable ends the process. *)
From S2P Require Import Prelude.

Record hconc := mkHconc {
  hc_joinable : bool;      (* probe_thread_.joinable() *)
  hc_stop : bool;          (* stop_ *)
  hc_probing : nat;        (* calls that have not tested probe_thread_ yet *)
  hc_starting : nat;       (* calls that found it not joinable *)
  hc_loops : nat;          (* threads in ProbeLoop *)
  hc_terminated : bool;    (* std::terminate was called *)
}.

Definition hconc_start : hconc := mkHconc false false 0 0 0 false.

(** [serial]: a [Connect] call starts only when no other one is in
    [OnConnectSuccess]. *)
Inductive hcstep (serial : bool) : hconc → hconc → Prop :=
| hc_begin j st p n l t :
    serial = false ∨ (p + n = 0)%nat →
    hcstep serial (mkHconc j st p n l t) (mkHconc j st (S p) n l t)
| hc_test_joinable st p n l t :
    hcstep serial (mkHconc true st (S p) n l t) (mkHconc true st p n l t)
| hc_test_start st p n l t :
    hcstep serial (mkHconc false st (S p) n l t) (mkHconc false st p (S n) l t)
| hc_assign j st p n l t :
    hcstep serial (mkHconc j st p (S n) l t)
      (if j then mkHconc j false p n l true else mkHconc true false p n (S l) t)
| hc_stop_set j st p n l t :
    hcstep serial (mkHconc j st p n l t) (mkHconc j true p n l t)
| hc_loop_ends j p n l t :
    hcstep serial (mkHconc j true p n (S l) t) (mkHconc j true p n l t)
| hc_joined st p n t :
    hcstep serial (mkHconc true st p n 0 t) (mkHconc false st p n 0 t).

Record hconc_inv (v : hconc) : Prop := {
  hi_alone : (hc_probing v + hc_starting v ≤ 1)%nat;
  hi_starting : (0 < hc_starting v)%nat → hc_joinable v = false;
  hi_loops : (hc_loops v ≤ if hc_joinable v then 1 else 0)%nat;
  hi_alive : hc_terminated v = false;
}.

Lemma hconc_inv_step v v' : hcstep true v v' → hconc_inv v → hconc_inv v'.
Proof.
  destruct 1 as [j st p n l t Hs|st p n l t|st p n l t|j st p n l t|j st p n l t|j p n l t|st p n t];
    intros [H1 H2 H3 H4]; simpl in *.
  - destruct Hs as [|Hs]; [done|]. split; simpl; [lia|intros; exfalso; lia|done..].
  - split; simpl; [lia|done..].
  - split; simpl; [lia|done..].
  - assert (j = false) as -> by (apply H2; lia). simpl in *. split; simpl; [lia|intros; exfalso; lia|lia|done].
  - split; simpl; done.
  - split; simpl; [done..|destruct j; lia|done].
  - split; simpl; done.
Qed.

(** C29: as long as [Connect] calls do not overlap, the monitor has at most one
    probe thread, whatever the order of its tests, of [Stop] and of the
    thread's own steps, and never assigns to a thread that still runs. *)
Theorem one_probe_thread v :
  rtc (hcstep true) hconc_start v →
  (hc_loops v ≤ 1)%nat ∧ (0 < hc_loops v → hc_joinable v = true)%nat ∧ hc_terminated v = false.
Proof.
  intros Hr. assert (Hi : hconc_inv v).
  { revert Hr. apply rtc_invariant; [by split; simpl; auto; lia|]. intros y y'. apply hconc_inv_step. }
  destruct Hi as [_ _ H3 H4]. destruct (hc_joinable v); split_and!; auto; lia.
Qed.

Lemma one_probe_thread_witness :
  let v := mkHconc true false 1 0 1 false in
  (hc_loops v ≤ 1)%nat ∧ (0 < hc_loops v → hc_joinable v = true)%nat ∧ hc_terminated v = false.
Proof.
  apply one_probe_thread. eapply rtc_l; [apply hc_begin; by right|].
  eapply rtc_l; [apply hc_test_start|]. eapply rtc_l; [apply hc_assign|]. simpl.
  eapply rtc_l; [apply hc_begin; by right|]. apply rtc_refl.
Defined.

(** Two [Connect] calls at the same time can both find no thread: the second
    assignment then terminates the process. *)
Theorem concurrent_connects_terminate :
  ∃ v, rtc (hcstep false) hconc_start v ∧ hc_terminated v = true.
Proof.
  exists (mkHconc true false 0 0 1 true). split; [|done].
  eapply rtc_l; [apply hc_begin; by left|]. eapply rtc_l; [apply hc_begin; by left|].
  eapply rtc_l; [apply hc_test_start|]. eapply rtc_l; [apply hc_test_start|].
  eapply rtc_l; [apply hc_assign|]. simpl. eapply rtc_l; [apply hc_assign|]. simpl. apply rtc_refl.
Qed.
