(* ===== verification/Queries.v ===== *)
(** * Concurrent queries (src/src/pg/streaming_query.cpp)

    Any number of streaming queries over one pool and one session table: their
    operations, new connections from [Connect] and probes of the health
    monitor interleave in any order. Every operation counts as one step; a
    step that never returns leaves the state in which it hangs. *)
From S2P Require Import Prelude CppStd Libpq PgState PqConn Pool Sessions Grpc Streaming Handles Health.
Local Open Scope Z_scope.
Local Open Scope cpp_scope.

Section Queries.
Context `{L : Libpq}.

Record Server := mkServer { sv_sys : Sys; sv_queries : list StreamingQuery }.

(** The state after an operation of one query. *)
Definition after_op {A} (m : M QCall A) (y : Sys) (q : StreamingQuery) (e : string)
  : Sys * StreamingQuery :=
  let s := snd (m (mkQCall y q e)) in (qc_sys s, qc_stream s).

Inductive qstep : Server → Server → Prop :=
| q_connect y qs params size :
    qstep (mkServer y qs) (mkServer (snd ((Configure params size ;; Connect) y)) qs)
| q_probe y qs params ms :
    qstep (mkServer y qs) (mkServer (snd (probe_connection params ms y)) qs)
| q_open y qs defaults n request e y' q' :
    after_op (Open request) y (new_StreamingQuery defaults n) e = (y', q') →
    qstep (mkServer y qs) (mkServer y' (q' :: qs))
| q_fetch y q1 q q2 e y' q' :
    after_op Fetch y q e = (y', q') →
    qstep (mkServer y (q1 ++ q :: q2)) (mkServer y' (q1 ++ q' :: q2))
| q_close y q1 q q2 e y' q' :
    after_op Close y q e = (y', q') →
    qstep (mkServer y (q1 ++ q :: q2)) (mkServer y' (q1 ++ q' :: q2))
| q_abort y q1 q q2 e y' q' :
    after_op Abort y q e = (y', q') →
    qstep (mkServer y (q1 ++ q :: q2)) (mkServer y' (q1 ++ q' :: q2))
| q_destroy y q1 q q2 e y' q' :
    after_op destroy_StreamingQuery y q e = (y', q') →
    qstep (mkServer y (q1 ++ q :: q2)) (mkServer y' (q1 ++ q2)).

(** An empty pool, no session and no query. *)
Definition server_start (w : pgworld) (max_sessions : Z) : Server :=
  mkServer (mkSys w 0 default_pool (SessionStore_max max_sessions) ∅ [] ∅ 0) [].

(** ** The invariant *)

Context `{!HandleLog L}.

Definition refs_of (qs : list StreamingQuery) : list PqConnection := omap connection_ qs.
Definition pooled_in (qs : list StreamingQuery) : list PqConnection := qs ≫= pooled_of.

Definition server_safe (v : Server) : Prop :=
  safe (refs_of (sv_queries v)) (pooled_in (sv_queries v)) (sv_sys v).

Lemma pooled_of_ref q : pooled_of q ⊆ option_list (connection_ q).
Proof. unfold pooled_of. destruct (pooled_ q); set_solver. Qed.

Lemma pooled_sub qs : pooled_in qs ⊆ refs_of qs.
Proof.
  induction qs as [|q qs IH]; [done|]. pose proof (pooled_of_ref q) as Hq.
  unfold pooled_in, refs_of. simpl. destruct (connection_ q); set_solver.
Qed.

Lemma refs_middle q1 q q2 :
  refs_of (q1 ++ q :: q2) ≡ₚ option_list (connection_ q) ++ refs_of (q1 ++ q2).
Proof.
  unfold refs_of. rewrite !omap_app. simpl. destruct (connection_ q); simpl; [|done].
  by rewrite Permutation_middle.
Qed.

Lemma pooled_middle q1 q q2 :
  pooled_in (q1 ++ q :: q2) ≡ₚ pooled_of q ++ pooled_in (q1 ++ q2).
Proof.
  unfold pooled_in. rewrite !bind_app. simpl. rewrite !app_assoc.
  by rewrite (Permutation_app_comm (pooled_of q)).
Qed.

(** From one query to all of them. *)
Lemma server_safe_call y q1 q q2 e :
  server_safe (mkServer y (q1 ++ q :: q2))
  ↔ safe_call (refs_of (q1 ++ q2)) (pooled_in (q1 ++ q2)) (mkQCall y q e).
Proof. unfold server_safe, safe_call. simpl. by rewrite refs_middle, pooled_middle. Qed.

Lemma server_safe_op {A} (m : M QCall A) y q1 q q2 e y' q' :
  (∀ others pooled, pooled ⊆ others → keeps (safe_call others pooled) m) →
  after_op m y q e = (y', q') → server_safe (mkServer y (q1 ++ q :: q2)) →
  server_safe (mkServer y' (q1 ++ q' :: q2)).
Proof.
  intros Hm [= <- <-] Hs. apply (server_safe_call _ _ _ _ e) in Hs.
  apply Hm in Hs; [|apply pooled_sub].
  apply (server_safe_call _ _ _ _ (qc_error (snd (m (mkQCall y q e))))). by destruct (snd _).
Qed.

(** A probe finishes the connection it opens. *)
Lemma probe_safe R P params ms : keeps (safe R P) (probe_connection params ms).
Proof.
  intros s Hs. unfold probe_connection, m_bind at 1.
  destruct (Connect_run_handles params ms s (sf_handles _ _ _ Hs)) as (r & s1 & -> & Hf & Ho & Hr).
  destruct r as [e|c]; [by eapply safe_frame|]. destruct Hr as [Hh Ha].
  assert (Hn : owned c s1 = false).
  { destruct (owned c s1) eqn:E; [|done]. apply owned_spec in E as (d & Hd & Hc).
    rewrite Ho in Hd. pose proof (handles_fresh _ _ _ _ (sf_handles _ _ _ Hs) Hd). lia. }
  pose proof (frame_destroy c s1) as Hf'.
  apply handles_destroy in Hh; [|by apply not_elem_of_nil]. unfold destroy_if_unowned in Hf', Hh.
  rewrite Hn in Hf', Hh. destruct (pq_conn_ c) as [raw|]; simpl in *;
    (eapply safe_frame; [transitivity s1; [exact Hf|exact Hf']|exact Hh|exact Hs]).
Qed.

Lemma server_safe_step v v' : qstep v v' → server_safe v → server_safe v'.
Proof.
  destruct 1 as [y qs params size|y qs params ms|y qs defaults n request e y' q' E
    |y q1 q q2 e y' q' E|y q1 q q2 e y' q' E|y q1 q q2 e y' q' E|y q1 q q2 e y' q' E].
  - unfold server_safe. simpl. apply keeps_bind; [apply Configure_safe|intros _; apply pool_Connect_safe].
  - apply probe_safe.
  - intros Hs. injection E as <- <-.
    set (s0 := mkQCall y (new_StreamingQuery defaults n) e).
    apply (server_safe_call _ [] _ qs (qc_error (snd (Open request s0)))).
    pose proof (Open_safe (refs_of qs) (pooled_in qs) (pooled_sub qs) request s0) as Ho.
    destruct (snd _). apply Ho. by apply safe_with_None.
  - eapply server_safe_op; [|exact E]. intros. by apply keeps_Fetch.
  - eapply server_safe_op; [|exact E]. intros. by apply keeps_Close.
  - eapply server_safe_op; [|exact E]. intros. by apply keeps_Abort.
  - intros Hs. injection E as <- <-. apply (server_safe_call _ _ _ _ e) in Hs.
    apply destroy_safe in Hs as Hd; [|apply pooled_sub]. pose proof Hd as [_ Hn].
    by apply safe_with_None in Hd.
Qed.

Lemma server_safe_reachable w n v :
  n ≤ INT_MAX → open_handles w = [] → ¬ misused w → rtc qstep (server_start w n) v →
  server_safe v.
Proof.
  intros Hn Ho Hm. apply rtc_invariant; [|intros y y'; apply server_safe_step].
  split; simpl; [done|by apply split_nil| |by rewrite map_to_list_empty; apply NoDup_nil|].
  2: { unfold sessions_bounded, SessionStore_max. simpl. rewrite map_size_empty.
       assert (1 ≤ INT_MAX) by done. case_if; lia. }
  exists []. simpl. rewrite Ho. split_and!; [apply NoDup_nil_2| |done..].
  intros c. unfold owners. simpl. by rewrite map_to_list_empty.
Qed.

(** What safety says of the handles. *)
Lemma safe_exact qs (y : Sys) :
  safe (refs_of qs) (pooled_in qs) y →
  ¬ misused (sy_pg y)
  ∧ ∃ l, NoDup (pq_addr <$> l)
      ∧ (∀ c, c ∈ l ↔ c ∈ omap connection_ qs ∨ c ∈ idle_ (sy_pool y)
                       ∨ ∃ sid, sy_sessions y !! sid = Some c)
      ∧ open_handles (sy_pg y) ≡ₚ omap pq_conn_ l.
Proof.
  intros [H1 _ (l & L1 & L2 & _ & L4 & L5) _ _].
  split; [done|]. exists l. split_and!; [done| |done]. intros c. rewrite L2. unfold owners. simpl.
  rewrite H1, !elem_of_app, list_elem_of_fmap. unfold refs_of.
  assert (Hs : (∃ p, c = p.2 ∧ p ∈ map_to_list (sy_sessions y))
    ↔ ∃ sid, sy_sessions y !! sid = Some c); [|by rewrite Hs].
  setoid_rewrite <-elem_of_map_to_list. split.
  - intros ([sid d] & -> & Hp). by exists sid.
  - intros (sid & Hp). by exists (sid, c).
Qed.

(** No handle is used after it was finished, finished twice or lost. However
    the operations of concurrent queries interleave, and whatever the server
    answers, no libpq call ever gets a finished handle, and the open handles
    are exactly those of the connections that are held by a query, idle in the
    pool or bound to a session, each counted once. *)
Theorem handles_exact w n v :
  n ≤ INT_MAX → open_handles w = [] → ¬ misused w → rtc qstep (server_start w n) v →
  ¬ misused (sy_pg (sv_sys v))
  ∧ ∃ l, NoDup (pq_addr <$> l)
      ∧ (∀ c, c ∈ l ↔ c ∈ omap connection_ (sv_queries v)
                       ∨ c ∈ idle_ (sy_pool (sv_sys v))
                       ∨ ∃ sid, sy_sessions (sv_sys v) !! sid = Some c)
      ∧ open_handles (sy_pg (sv_sys v)) ≡ₚ omap pq_conn_ l.
Proof. intros Hn Ho Hm Hr. by apply safe_exact, (server_safe_reachable w n). Qed.

(** Isolation. However the operations of concurrent queries interleave, a
    pooled connection is held by one query at a time, is not idle meanwhile,
    and is never the connection of a session; two sessions never share a
    connection. *)
Theorem queries_isolated w n v :
  n ≤ INT_MAX → open_handles w = [] → ¬ misused w → rtc qstep (server_start w n) v →
  NoDup (pq_addr <$> pooled_in (sv_queries v) ++ idle_ (sy_pool (sv_sys v))
                     ++ (map_to_list (sy_sessions (sv_sys v))).*2).
Proof. intros Hn Ho Hm Hr. apply (server_safe_reachable w n v Hn Ho Hm Hr). Qed.

(** C26: nothing stays open. When the last query is gone, closing the pool and the
    session table finishes every handle that was ever opened. *)
Theorem closing_finishes_all w n y :
  n ≤ INT_MAX → open_handles w = [] → ¬ misused w → rtc qstep (server_start w n) (mkServer y []) →
  ∃ y', (CloseAll ;; CloseAll_sessions) y = (Ret tt, y')
    ∧ open_handles (sy_pg y') = [] ∧ ¬ misused (sy_pg y').
Proof.
  intros Hn Ho Hm Hr. pose proof (server_safe_reachable w n _ Hn Ho Hm Hr) as Hs. unfold server_safe in Hs.
  simpl in Hs.
  destruct (CloseAll_run y) as (y1 & E1 & Hi1 & Hs1).
  destruct (CloseAll_sessions_run y1) as (y2 & E2 & Hi2 & Hs2).
  apply CloseAll_safe in Hs. rewrite E1 in Hs. simpl in Hs. apply CloseAll_sessions_safe in Hs.
  rewrite E2 in Hs. destruct Hs as [H1 _ (l & _ & L2 & _ & L4 & L5) _ _]. simpl in *.
  rewrite (m_bind_run _ _ _ _ _ E1). exists y2. split; [done|]. split; [|done].
  assert (l = []) as ->; [|by apply Permutation_nil_r in L4].
  destruct l as [|c l]; [done|]. exfalso.
  assert (Hc : c ∈ owners y2) by (apply L2; by left). unfold owners in Hc.
  rewrite H1, Hi2, Hi1, Hs2, map_to_list_empty in Hc. by apply elem_of_nil in Hc.
Qed.
End Queries.
