(* ===== verification/JsNumber.v ===== *)
(** * Numbers and dates of the client

    The JavaScript numbers that src/integration/lib/pg-binary-decode.js computes
    with: binary64 values as [spec_float] of the Standard Library, which has
    their arithmetic with its rounding, the bit patterns of the IEEE formats,
    and [Date] objects as their time value. *)
From Stdlib Require Import SpecFloat.
From S2P Require Import Prelude CppStd.
Local Open Scope Z_scope.

(** ** Arithmetic *)

(** The number nearest to an integer: [Number(bigint)], or a sum or product of
    integers that are numbers themselves. *)
Definition js_of_Z (z : Z) : spec_float := binary_normalize 53 1024 z 0 false.
Definition js_add : spec_float → spec_float → spec_float := SFadd 53 1024.
Definition js_div : spec_float → spec_float → spec_float := SFdiv 53 1024.

(** ** Bit patterns *)

(** The value of an IEEE pattern with [mw] bits of mantissa and [ew] of exponent. *)
Definition ieee_value (mw ew b : Z) : spec_float :=
  let m := b `mod` 2 ^ mw in
  let e := (b / 2 ^ mw) `mod` 2 ^ ew in
  let s := Z.odd (b / 2 ^ (mw + ew)) in
  let emin := 2 - 2 ^ (ew - 1) - mw in
  if e =? 0 then if m =? 0 then S754_zero s else S754_finite s (Z.to_pos m) emin
  else if e =? 2 ^ ew - 1 then if m =? 0 then S754_infinity s else S754_nan
  else S754_finite s (Z.to_pos (m + 2 ^ mw)) (e + emin - 1).

(** The pattern of a value that is not NaN. *)
Definition ieee_bits (mw ew : Z) (x : spec_float) : Z :=
  let pattern (s : bool) (e m : Z) := (if s then 2 ^ (mw + ew) else 0) + e * 2 ^ mw + m in
  let emin := 2 - 2 ^ (ew - 1) - mw in
  match x with
  | S754_zero s => pattern s 0 0
  | S754_infinity s => pattern s (2 ^ ew - 1) 0
  | S754_nan => pattern false (2 ^ ew - 1) (2 ^ (mw - 1))
  | S754_finite s m e =>
      if Z.pos m <? 2 ^ mw then pattern s 0 (Z.pos m)
      else pattern s (e - emin + 1) (Z.pos m - 2 ^ mw)
  end.

(** ** Dates *)

(** The largest time value, 8.64e15 ms. *)
Definition MAX_TIME : Z := 8640000000000000.

(** [new Date(t)]: the time value in whole milliseconds, [None] for an invalid
    date. The number is truncated. *)
Definition js_Date (t : spec_float) : option Z :=
  match t with
  | S754_zero _ => Some 0
  | S754_finite s m e =>
      let beyond := if 0 <=? e then MAX_TIME <? Z.pos m * 2 ^ e
                    else MAX_TIME * 2 ^ (- e) <? Z.pos m in
      let z := if 0 <=? e then Z.pos m * 2 ^ e else Z.pos m / 2 ^ (- e) in
      if beyond then None else Some (if s then - z else z)
  | S754_infinity _ | S754_nan => None
  end.

(** ** Integers are exact *)

Lemma digits2_log2 p : Z.pos (digits2_pos p) = Z.log2 (Z.pos p) + 1.
Proof.
  induction p as [p IH|p IH|]; cbn [digits2_pos]; [..|done]; rewrite Pos2Z.inj_succ, IH.
  - rewrite (Pos2Z.inj_xI p), Z.log2_succ_double by lia. lia.
  - rewrite (Pos2Z.inj_xO p), Z.log2_double by lia. lia.
Qed.

Lemma iter_xO p d : Z.pos (Pos.iter xO p d) = Z.pos p * 2 ^ Z.pos d.
Proof.
  revert p. induction d as [|d IH] using Pos.peano_ind; intros p.
  - simpl. lia.
  - rewrite Pos.iter_succ, Pos2Z.inj_succ, Z.pow_succ_r by lia. rewrite Pos2Z.inj_xO, IH. lia.
Qed.

Lemma fexp_small d : 0 < d → fexp 53 1024 d = d - 53.
Proof. intros Hd. unfold fexp, emin. lia. Qed.

(** A mantissa of 53 digits is not rounded. *)
Lemma round_aux_full s m e :
  Z.log2 (Z.pos m) = 52 → -53 < e ≤ 0 →
  binary_round_aux 53 1024 s (Z.pos m) e loc_Exact = S754_finite s m e.
Proof.
  intros Hm He. unfold binary_round_aux.
  assert (Hf : fexp 53 1024 (Zdigits2 (Z.pos m) + e) - e = 0).
  { cbn [Zdigits2]. rewrite digits2_log2, Hm, fexp_small; lia. }
  unfold shr_fexp. cbn [shr_record_of_loc]. rewrite Hf. cbn [shr shr_m loc_of_shr_record round_nearest_even].
  rewrite Hf. cbn [shr shr_m]. by replace (e <=? 1024 - 53) with true by lia.
Qed.

Lemma binary_round_exact s p :
  Z.pos p < 2 ^ 53 →
  let d := Z.log2 (Z.pos p) + 1 in
  ∃ m, binary_round 53 1024 s p 0 = S754_finite s m (d - 53) ∧ Z.pos m = Z.pos p * 2 ^ (53 - d).
Proof.
  intros Hp d. assert (Hd : 0 < d ≤ 53).
  { unfold d. pose proof (Z.log2_nonneg (Z.pos p)).
    assert (Z.log2 (Z.pos p) < 53) by (apply Z.log2_lt_pow2; lia). lia. }
  unfold binary_round, shl_align. rewrite digits2_log2. fold d. rewrite Z.add_0_r, fexp_small by lia.
  rewrite Z.sub_0_r. destruct (d - 53) as [|k|k] eqn:Ek; [|lia|].
  - exists p. assert (d = 53) as Ed by lia. split; [|rewrite Ed; lia].
    apply round_aux_full; [unfold d in Ed; lia|lia].
  - exists (Pos.iter xO p k). split; [|rewrite iter_xO; by replace (53 - d) with (Z.pos k) by lia].
    rewrite <-Ek. apply round_aux_full; [|lia]. rewrite iter_xO, Z.log2_mul_pow2 by lia. unfold d in *. lia.
Qed.

(** A date at a whole number of milliseconds. *)
Lemma js_Date_of_Z z :
  - 2 ^ 53 < z < 2 ^ 53 →
  js_Date (js_of_Z z) = if Z.abs z <=? MAX_TIME then Some z else None.
Proof.
  intros Hz.
  assert (H : ∀ s p, Z.pos p < 2 ^ 53 → js_Date (binary_round 53 1024 s p 0)
    = if Z.pos p <=? MAX_TIME then Some (if s then Z.neg p else Z.pos p) else None).
  { intros s p Hp. destruct (binary_round_exact s p Hp) as (m & -> & Hm).
    set (d := Z.log2 (Z.pos p) + 1) in *. cbn [js_Date].
    assert (Hd : d ≤ 53).
    { assert (Z.log2 (Z.pos p) < 53) by (apply Z.log2_lt_pow2; lia). lia. }
    pose proof (Z.pow_pos_nonneg 2 (53 - d) ltac:(lia) ltac:(lia)) as Hk.
    replace (- (d - 53)) with (53 - d) by lia. rewrite Hm.
    destruct (0 <=? d - 53) eqn:E.
    - assert (d = 53) as -> by lia. rewrite !Z.mul_1_r.
      destruct (Z.leb_spec (Z.pos p) MAX_TIME), (Z.ltb_spec MAX_TIME (Z.pos p)); try lia; [|done].
      by destruct s.
    - rewrite Z.div_mul by lia.
      destruct (Z.leb_spec (Z.pos p) MAX_TIME);
        destruct (Z.ltb_spec (MAX_TIME * 2 ^ (53 - d)) (Z.pos p * 2 ^ (53 - d))); try nia; [|done].
      by destruct s. }
  unfold js_of_Z, binary_normalize. destruct z as [|p|p]; [done|..].
  - apply (H false). lia.
  - rewrite (H true) by lia. done.
Qed.

(** ** Patterns and values *)

(** Every pattern but that of a NaN is the pattern of its value, so different
    patterns are different numbers. *)
Lemma ieee_bits_value mw ew b :
  0 < mw → 1 < ew → 0 ≤ b < 2 ^ (mw + ew + 1) → ieee_value mw ew b ≠ S754_nan →
  ieee_bits mw ew (ieee_value mw ew b) = b.
Proof.
  intros Hmw Hew Hb. unfold ieee_value.
  set (m := b `mod` 2 ^ mw). set (e := (b / 2 ^ mw) `mod` 2 ^ ew).
  set (s := Z.odd (b / 2 ^ (mw + ew))).
  pose proof (Z.pow_pos_nonneg 2 mw ltac:(lia) ltac:(lia)) as Pm.
  pose proof (Z.pow_pos_nonneg 2 ew ltac:(lia) ltac:(lia)) as Pe.
  assert (Hm : 0 ≤ m < 2 ^ mw) by (apply Z.mod_pos_bound; lia).
  assert (He : 0 ≤ e < 2 ^ ew) by (apply Z.mod_pos_bound; lia).
  assert (Hs : b = (if s then 2 ^ (mw + ew) else 0) + e * 2 ^ mw + m).
  { rewrite (Z.div_mod b (2 ^ mw)) at 1 by lia. fold m.
    rewrite (Z.div_mod (b / 2 ^ mw) (2 ^ ew)) at 1 by lia. fold e.
    rewrite Z.div_div, <-Z.pow_add_r by lia.
    assert (Hq : 0 ≤ b / 2 ^ (mw + ew) < 2).
    { split; [apply Z.div_pos; lia|]. apply Z.div_lt_upper_bound; [lia|].
      replace (2 ^ (mw + ew) * 2) with (2 ^ (mw + ew + 1)); [lia|]. by rewrite Z.pow_add_r by lia. }
    assert (b / 2 ^ (mw + ew) = 0 ∨ b / 2 ^ (mw + ew) = 1) as [Eq|Eq] by lia; unfold s; rewrite Eq;
      cbn [Z.odd]; rewrite ?Z.pow_add_r by lia; ring. }
  assert (1 < 2 ^ ew) by (apply Z.pow_gt_1; lia).
  destruct (e =? 0) eqn:E0; [destruct (m =? 0) eqn:E1|destruct (e =? 2 ^ ew - 1) eqn:E2;
    [destruct (m =? 0) eqn:E1|]]; intros Hn; try done; cbn [ieee_bits].
  - rewrite Hs. lia.
  - rewrite Z2Pos.id by lia. replace (m <? 2 ^ mw) with true by lia. rewrite Hs. lia.
  - rewrite Hs. lia.
  - rewrite Z2Pos.id by lia. replace (m + 2 ^ mw <? 2 ^ mw) with false by lia. rewrite Hs.
    replace (e + (2 - 2 ^ (ew - 1) - mw) - 1 - (2 - 2 ^ (ew - 1) - mw) + 1) with e by lia. lia.
Qed.
