(* ===== verification/Cells.v ===== *)
(** * The client's view of single cells (src/integration/lib/pg-binary-decode.js)

    [decodePgCell] by type: big-endian integers, little-endian floating point
    numbers, dates and timestamps, booleans, UUIDs and [numeric]. Text is kept
    as its bytes; an exception is [inl]. *)
From Stdlib Require Import SpecFloat.
From S2P Require Import Prelude CppStd Rpgb FlexMeta JsNumber.
Local Open Scope Z_scope.

Definition OID_BOOL : Z := 16.
Definition OID_BYTEA : Z := 17.
Definition OID_INT8 : Z := 20.
Definition OID_INT2 : Z := 21.
Definition OID_INT4 : Z := 23.
Definition OID_DATE : Z := 1082.
Definition OID_TIMESTAMP : Z := 1114.
Definition OID_TIMESTAMPTZ : Z := 1184.
Definition OID_NUMERIC : Z := 1700.
Definition OID_FLOAT4 : Z := 700.
Definition OID_FLOAT8 : Z := 701.
Definition OID_UUID : Z := 2950.

(** ** Integers *)

(** [n] bytes from the front, the most significant first. *)
Fixpoint read_be (n : nat) (acc : Z) (s : string) : option Z :=
  match n, s with
  | O, _ => Some acc
  | S n', String c s' => read_be n' (acc * 256 + Z_of_byte c) s'
  | S _, EmptyString => None
  end.

Definition signed (bits u : Z) : Z := if u <? 2 ^ (bits - 1) then u else u - 2 ^ bits.

(** The code of the exception of a read outside the buffer. *)
Definition bounds_error (bytes : nat) (buffer : string) : string :=
  if (String.length buffer <? bytes)%nat then "ERR_BUFFER_OUT_OF_BOUNDS" else "ERR_OUT_OF_RANGE".

(** [buffer.readInt16BE(offset)] and the like, which throw outside the buffer. *)
Definition readIntBE (bytes : nat) (buffer : string) (offset : nat) : string + Z :=
  match read_be bytes 0 (str_drop offset buffer) with
  | Some u => inr (signed (8 * Z.of_nat bytes) u)
  | None => inl (bounds_error bytes buffer)
  end.
Definition readI16BE : string → nat → string + Z := readIntBE 2.
Definition readI32BE : string → nat → string + Z := readIntBE 4.
Definition readI64BE : string → nat → string + Z := readIntBE 8.

(** ** Floating point numbers *)

(** [n] bytes from the front, the least significant first. *)
Fixpoint read_le (n : nat) (s : string) : option Z :=
  match n, s with
  | O, _ => Some 0
  | S n', String c s' => (λ u, Z_of_byte c + 256 * u) <$> read_le n' s'
  | S _, EmptyString => None
  end.

(** [buffer.readFloatLE(offset)] and [buffer.readDoubleLE(offset)]. *)
Definition readFloatLE (bytes : nat) (mw ew : Z) (buffer : string) (offset : nat)
  : string + spec_float :=
  match read_le bytes (str_drop offset buffer) with
  | Some u => inr (ieee_value mw ew u)
  | None => inl (bounds_error bytes buffer)
  end.
Definition readFloat4 : string → nat → string + spec_float := readFloatLE 4 23 8.
Definition readFloat8 : string → nat → string + spec_float := readFloatLE 8 52 11.

(** ** Dates *)

Definition PG_DATE_TO_UNIX_EPOCH_DAYS : Z := 10957.
Definition PG_EPOCH_TO_UNIX_MICROS : Z := 946684800000000.

Definition pgDateToJsDate (pgDays : Z) : option Z :=
  let unixDays := pgDays + PG_DATE_TO_UNIX_EPOCH_DAYS in
  js_Date (js_of_Z (unixDays * 86400000)).

(** [/] and [%] of BigInts truncate. *)
Definition pgTimestampToJsDate (pgMicros : Z) : option Z :=
  let unixMicros := pgMicros + PG_EPOCH_TO_UNIX_MICROS in
  let ms := js_add (js_of_Z (Z.quot unixMicros 1000))
                   (js_div (js_of_Z (Z.rem unixMicros 1000)) (js_of_Z 1000)) in
  js_Date ms.

(** ** numeric *)

Fixpoint repeat_str (n : nat) (s : string) : string :=
  match n with O => "" | S n' => s +:+ repeat_str n' s end.

(** [s.padStart(n, '0')]. *)
Definition padStart (n : nat) (s : string) : string := repeat_str (n - String.length s) "0" +:+ s.

(** The [for] loop over the digits from [i] on. *)
Fixpoint numeric_digits (todo i : nat) (weight : Z) (buffer coeff : string) : string + string :=
  match todo with
  | O => inr coeff
  | S todo' =>
      match readI16BE buffer (8 + i * 2) with
      | inl e => inl e
      | inr digit =>
          let exponent := weight - Z.of_nat i in
          let coeff :=
            if exponent <? 0 then coeff
            else if str_empty coeff then to_string digit +:+ repeat_str (Z.to_nat exponent) "0000"
            else coeff +:+ padStart 4 (to_string digit)
                       +:+ repeat_str (Z.to_nat (Z.max 0 (exponent - 1))) "0000" in
          numeric_digits todo' (i + 1) weight buffer coeff
      end
  end.

(** [None] is the JavaScript [null]. *)
Definition decodeNumericBinary (buffer : string) : string + option string :=
  if str_size buffer <? 8 then inl "numeric binary too short"
  else
    match readI16BE buffer 0, readI16BE buffer 2, readI16BE buffer 4, readI16BE buffer 6 with
    | inr ndigits, inr weight, inr sign, inr dscale =>
        if sign =? 0xc000 then inr None
        else
          match numeric_digits (Z.to_nat ndigits) 0 weight buffer "" with
          | inl e => inl e
          | inr coeff =>
              let coeff := if str_empty coeff then "0" else coeff in
              let coeff :=
                if 0 <? dscale then
                  let n := Z.to_nat dscale in
                  (* while (coeff.length <= dscale) coeff = '0' + coeff *)
                  let coeff := padStart (n + 1) coeff in
                  let cut := (String.length coeff - n)%nat in
                  str_take cut coeff +:+ "." +:+ str_drop cut coeff
                else coeff in
              inr (Some (if (sign =? 0x4000) && negb (bool_decide (coeff = "0"))
                         then "-" +:+ coeff else coeff))
          end
    | _, _, _, _ => inl "ERR_OUT_OF_RANGE"
    end.

(** ** uuid *)

Definition hex_digit (n : Z) : ascii :=
  if n <? 10 then byte_of_Z (48 + n) else byte_of_Z (87 + n).

Fixpoint to_hex (s : string) : string :=
  match s with
  | EmptyString => ""
  | String c s' =>
      String (hex_digit (Z_of_byte c / 16)) (String (hex_digit (Z_of_byte c `mod` 16)) (to_hex s'))
  end.

Definition slice (i j : nat) (s : string) : string := str_take (j - i) (str_drop i s).

Definition uuidBytesToString (bytes : string) : string :=
  let hex := to_hex bytes in
  slice 0 8 hex +:+ "-" +:+ slice 8 12 hex +:+ "-" +:+ slice 12 16 hex +:+ "-"
  +:+ slice 16 20 hex +:+ "-" +:+ str_drop 20 hex.

(** ** A cell *)

(** A [Date] is its time value. *)
Inductive js_value :=
| JNull
| JBool (b : bool)
| JNumber (z : Z)
| JFloat (f : spec_float)
| JDate (d : option Z)
| JString (s : string)
| JBytes (s : string).

Definition map_inr {A B} (f : A → B) (x : string + A) : string + B :=
  match x with inl e => inl e | inr a => inr (f a) end.

(** [bytes] is not null here: the caller handles NULL. *)
Definition decodePgCell (field : FieldInfo) (bytes : string) : string + js_value :=
  let oid := fi_data_type_oid field in
  if fi_format field =? 0 then
    if oid =? OID_BOOL
    then inr (JBool (bool_decide (bytes = "t") || bool_decide (bytes = "T") || bool_decide (bytes = "1")))
    else inr (JString bytes)
  else if oid =? OID_BOOL then
    inr (JBool (match bytes with EmptyString => false | String c _ => negb (Z_of_byte c =? 0) end))
  else if oid =? OID_INT2 then map_inr JNumber (readI16BE bytes 0)
  else if oid =? OID_INT4 then map_inr JNumber (readI32BE bytes 0)
  else if oid =? OID_INT8 then map_inr (λ z, JString (to_string z)) (readI64BE bytes 0)
  else if oid =? OID_FLOAT4 then map_inr JFloat (readFloat4 bytes 0)
  else if oid =? OID_FLOAT8 then map_inr JFloat (readFloat8 bytes 0)
  else if oid =? OID_BYTEA then inr (JBytes bytes)
  else if oid =? OID_DATE then map_inr (λ z, JDate (pgDateToJsDate z)) (readI32BE bytes 0)
  else if (oid =? OID_TIMESTAMP) || (oid =? OID_TIMESTAMPTZ) then
    map_inr (λ z, JDate (pgTimestampToJsDate z)) (readI64BE bytes 0)
  else if oid =? OID_UUID then inr (JString (uuidBytesToString bytes))
  else if oid =? OID_NUMERIC then
    map_inr (λ r, match r with Some s => JString s | None => JNull end) (decodeNumericBinary bytes)
  else inr (JString bytes).

(** The format a test server declares for a column. *)
Definition mockWireFormat (dataTypeOid : Z) (pgFormat : option Z) : Z :=
  match pgFormat with
  | Some f => if negb (f =? 0) then f
              else if bool_decide (dataTypeOid ∈ [OID_BOOL; OID_INT2; OID_INT4; OID_INT8; OID_FLOAT4; OID_FLOAT8])
                   then 1 else 0
  | None => if bool_decide (dataTypeOid ∈ [OID_BOOL; OID_INT2; OID_INT4; OID_INT8; OID_FLOAT4; OID_FLOAT8])
            then 1 else 0
  end.

(** ** Integers are read back *)

(** [n] bytes of the two's complement of [z], the most significant first, as the
    server's [int2send], [int4send] and [int8send] write them. *)
Fixpoint be_bytes (n : nat) (z : Z) : string :=
  match n with
  | O => ""
  | S n' => String (byte_of_Z ((z / 256 ^ Z.of_nat n') `mod` 256)) (be_bytes n' z)
  end.

Lemma read_be_bytes n acc z rest :
  read_be n acc (be_bytes n z +:+ rest) = Some (acc * 256 ^ Z.of_nat n + z `mod` 256 ^ Z.of_nat n).
Proof.
  revert acc. induction n as [|n IH]; intros acc.
  - simpl. f_equal. rewrite Z.mod_1_r. lia.
  - cbn [be_bytes read_be]. rewrite str_app_cons. cbn [read_be]. rewrite IH. f_equal.
    pose proof (Z.pow_pos_nonneg 256 (Z.of_nat n) ltac:(lia) ltac:(lia)).
    rewrite Z_of_byte_of_Z by (apply Z.mod_pos_bound; lia).
    rewrite Nat2Z.inj_succ, Z.pow_succ_r by lia.
    rewrite (Z.mul_comm 256 (256 ^ _)), Z.rem_mul_r by lia. lia.
Qed.

Lemma signed_mod bits z :
  0 < bits → - 2 ^ (bits - 1) ≤ z < 2 ^ (bits - 1) → signed bits (z `mod` 2 ^ bits) = z.
Proof.
  intros Hb Hz. assert (Hp : 2 ^ bits = 2 * 2 ^ (bits - 1)).
  { rewrite <-Z.pow_succ_r by lia. f_equal. lia. }
  unfold signed. destruct (decide (0 ≤ z)).
  - rewrite Z.mod_small by lia. by replace (_ <? _) with true by lia.
  - rewrite <-(Z.mod_unique z (2 ^ bits) (-1) (z + 2 ^ bits)) by lia.
    replace (_ <? _) with false by lia. lia.
Qed.

Lemma readIntBE_bytes n z rest :
  (0 < n)%nat → - 2 ^ (8 * Z.of_nat n - 1) ≤ z < 2 ^ (8 * Z.of_nat n - 1) →
  readIntBE n (be_bytes n z +:+ rest) 0 = inr z.
Proof.
  intros Hn Hz. unfold readIntBE. cbn [str_drop].
  rewrite read_be_bytes. f_equal. rewrite Z.mul_0_l, Z.add_0_l.
  replace (256 ^ Z.of_nat n) with (2 ^ (8 * Z.of_nat n)) by (rewrite Z.pow_mul_r by lia; done).
  apply signed_mod; lia.
Qed.

(** Integer cells arrive unchanged. The big-endian bytes of any [int2] or
    [int4] value decode to that number, and those of any [int8] value to its
    decimal text, whatever bytes follow. *)
Theorem integer_cells field z rest :
  fi_format field = 1 →
  (fi_data_type_oid field = OID_INT2 → - 2 ^ 15 ≤ z < 2 ^ 15 →
   decodePgCell field (be_bytes 2 z +:+ rest) = inr (JNumber z))
  ∧ (fi_data_type_oid field = OID_INT4 → - 2 ^ 31 ≤ z < 2 ^ 31 →
     decodePgCell field (be_bytes 4 z +:+ rest) = inr (JNumber z))
  ∧ (fi_data_type_oid field = OID_INT8 → - 2 ^ 63 ≤ z < 2 ^ 63 →
     decodePgCell field (be_bytes 8 z +:+ rest) = inr (JString (to_string z))).
Proof.
  intros Hf. unfold decodePgCell, readI16BE, readI32BE, readI64BE. rewrite Hf.
  split_and!; intros -> Hz; cbn -[readIntBE be_bytes]; rewrite readIntBE_bytes; done || lia.
Qed.

Lemma integer_cells_witness :
  decodePgCell (mkFieldInfo "n" 0 0 OID_INT4 1) (be_bytes 4 (-5)) = inr (JNumber (-5)).
Proof.
  apply (integer_cells (mkFieldInfo "n" 0 0 OID_INT4 1) (-5) ""); [reflexivity|reflexivity|lia].
Defined.

(** ** Dates and timestamps *)

Lemma date_exact days :
  - 2 ^ 53 < (days + PG_DATE_TO_UNIX_EPOCH_DAYS) * 86400000 < 2 ^ 53 →
  pgDateToJsDate days
  = let ms := (days + PG_DATE_TO_UNIX_EPOCH_DAYS) * 86400000 in
    if Z.abs ms <=? MAX_TIME then Some ms else None.
Proof. intros Hd. by apply js_Date_of_Z. Qed.

Lemma timestamp_exact ms :
  - 2 ^ 53 < ms < 2 ^ 53 →
  pgTimestampToJsDate (ms * 1000 - PG_EPOCH_TO_UNIX_MICROS)
  = if Z.abs ms <=? MAX_TIME then Some ms else None.
Proof.
  intros Hm. unfold pgTimestampToJsDate. replace (_ - _ + _) with (ms * 1000) by lia.
  rewrite Z.quot_mul, Z.rem_mul by lia. change (js_div (js_of_Z 0) (js_of_Z 1000)) with (S754_zero false).
  rewrite <-js_Date_of_Z by done. unfold js_add. by destruct (js_of_Z ms) as [[]|[]| |].
Qed.

(** Dates arrive unchanged. The bytes of a [date] decode to the midnight of its
    day, and those of a [timestamp] or [timestamptz] with whole milliseconds to
    that millisecond, counted from 1970, wherever JavaScript has dates; a day
    or an instant outside that range is an invalid date. *)
Theorem date_cells field z rest :
  fi_format field = 1 →
  (fi_data_type_oid field = OID_DATE → - 2 ^ 31 ≤ z < 2 ^ 31 →
   Z.abs ((z + 10957) * 86400000) < 2 ^ 53 →
   decodePgCell field (be_bytes 4 z +:+ rest)
   = inr (JDate (let ms := (z + 10957) * 86400000 in
                 if Z.abs ms <=? MAX_TIME then Some ms else None)))
  ∧ (fi_data_type_oid field = OID_TIMESTAMP ∨ fi_data_type_oid field = OID_TIMESTAMPTZ →
     - 2 ^ 63 ≤ z < 2 ^ 63 → ∀ ms, z + 946684800000000 = ms * 1000 → Z.abs ms < 2 ^ 53 →
     decodePgCell field (be_bytes 8 z +:+ rest)
     = inr (JDate (if Z.abs ms <=? MAX_TIME then Some ms else None))).
Proof.
  intros Hf. unfold decodePgCell, readI32BE, readI64BE. rewrite Hf. split.
  - intros -> Hz Hr. cbn -[readIntBE be_bytes pgDateToJsDate]. rewrite readIntBE_bytes by lia. cbn [map_inr].
    do 2 f_equal. apply date_exact. unfold PG_DATE_TO_UNIX_EPOCH_DAYS. lia.
  - intros Ho Hz ms E Hm.
    assert (Hd : pgTimestampToJsDate z = if Z.abs ms <=? MAX_TIME then Some ms else None).
    { rewrite <-timestamp_exact by lia. f_equal. unfold PG_EPOCH_TO_UNIX_MICROS. lia. }
    destruct Ho as [-> | ->]; cbn -[readIntBE be_bytes pgTimestampToJsDate]; rewrite readIntBE_bytes by lia;
      cbn [map_inr]; by rewrite Hd.
Qed.

(** 2000-01-01 as a date, 2024-02-29 12:00:00.5 as a timestamp. *)
Lemma date_cells_witness :
  decodePgCell (mkFieldInfo "d" 0 0 OID_DATE 1) (be_bytes 4 0) = inr (JDate (Some 946684800000))
  ∧ decodePgCell (mkFieldInfo "t" 0 0 OID_TIMESTAMP 1) (be_bytes 8 (1709208000500000 - 946684800000000))
    = inr (JDate (Some 1709208000500)).
Proof.
  split.
  - apply (date_cells (mkFieldInfo "d" 0 0 OID_DATE 1) 0 ""); [reflexivity|reflexivity|lia|lia].
  - apply (date_cells (mkFieldInfo "t" 0 0 OID_TIMESTAMP 1) (1709208000500000 - 946684800000000) "")
      with (ms := 1709208000500); [reflexivity|left; reflexivity|lia|lia|lia].
Defined.

(** Microseconds are dropped, but far from now a fraction of .999 ms is rounded up
    into the next millisecond: 2527-06-23 06:20:44.416999 is read as .417. *)
Theorem timestamp_rounds_up :
  pgTimestampToJsDate (1709208000500999 - PG_EPOCH_TO_UNIX_MICROS) = Some 1709208000500
  ∧ pgTimestampToJsDate (17592186044416999 - PG_EPOCH_TO_UNIX_MICROS) = Some 17592186044417.
Proof. split; by vm_compute. Qed.

(** ** Floating point cells *)

(** [n] bytes, the least significant first. *)
Fixpoint le_bytes (n : nat) (z : Z) : string :=
  match n with
  | O => ""
  | S n' => String (byte_of_Z (z `mod` 256)) (le_bytes n' (z / 256))
  end.

Lemma read_le_bytes n z rest :
  0 ≤ z < 256 ^ Z.of_nat n → read_le n (le_bytes n z +:+ rest) = Some z.
Proof.
  revert z. induction n as [|n IH]; intros z Hz.
  - simpl in *. f_equal. lia.
  - cbn [le_bytes]. rewrite str_app_cons. cbn [read_le]. rewrite Nat2Z.inj_succ, Z.pow_succ_r in Hz by lia.
    rewrite IH by (split; [apply Z.div_pos; lia|apply Z.div_lt_upper_bound; lia]). simpl. f_equal.
    rewrite Z_of_byte_of_Z by (apply Z.mod_pos_bound; lia). rewrite (Z.div_mod z 256) at 3 by lia. lia.
Qed.

(** The bytes of a number in the other order. *)
Definition bswap (n : nat) (z : Z) : Z := default 0 (read_le n (be_bytes n z)).

Lemma read_le_be n z rest : ∃ u, read_le n (be_bytes n z +:+ rest) = Some u ∧ bswap n z = u.
Proof.
  unfold bswap.
  assert (H : ∃ u, ∀ rest, read_le n (be_bytes n z +:+ rest) = Some u).
  { clear rest. induction n as [|n [u IH]]; [by exists 0|]. eexists. intros rest. cbn [be_bytes].
    rewrite str_app_cons. cbn [read_le]. by rewrite IH. }
  destruct H as [u H]. exists u. split; [done|]. specialize (H ""). rewrite str_app_nil_r in H. by rewrite H.
Qed.

(** Floating point cells. A [float4] or [float8] cell is the number of its bytes
    in little-endian order. PostgreSQL sends these types, like all others, in
    network byte order: from what it sends, the client makes the number whose
    bytes are reversed. *)
Theorem float_cells field b rest :
  fi_format field = 1 →
  (fi_data_type_oid field = OID_FLOAT4 → 0 ≤ b < 2 ^ 32 →
   decodePgCell field (le_bytes 4 b +:+ rest) = inr (JFloat (ieee_value 23 8 b))
   ∧ decodePgCell field (be_bytes 4 b +:+ rest) = inr (JFloat (ieee_value 23 8 (bswap 4 b))))
  ∧ (fi_data_type_oid field = OID_FLOAT8 → 0 ≤ b < 2 ^ 64 →
     decodePgCell field (le_bytes 8 b +:+ rest) = inr (JFloat (ieee_value 52 11 b))
     ∧ decodePgCell field (be_bytes 8 b +:+ rest) = inr (JFloat (ieee_value 52 11 (bswap 8 b)))).
Proof.
  intros Hf. unfold decodePgCell, readFloat4, readFloat8, readFloatLE. rewrite Hf.
  split; intros -> Hb; cbn -[read_le le_bytes be_bytes ieee_value]; (split; [by rewrite read_le_bytes by lia|]).
  - by destruct (read_le_be 4 b rest) as (u & -> & ->).
  - by destruct (read_le_be 8 b rest) as (u & -> & ->).
Qed.

(** 1.0, as PostgreSQL sends it, is decoded as 61503 * 2^-1074. *)
Lemma float_cells_witness :
  decodePgCell (mkFieldInfo "x" 0 0 OID_FLOAT8 1) (be_bytes 8 0x3ff0000000000000)
  = inr (JFloat (S754_finite false 61503 (-1074)))
  ∧ ieee_value 52 11 0x3ff0000000000000 = S754_finite false 4503599627370496 (-52).
Proof.
  split; [|reflexivity].
  destruct (float_cells (mkFieldInfo "x" 0 0 OID_FLOAT8 1) 0x3ff0000000000000 "" eq_refl) as [_ H].
  apply (H eq_refl); lia.
Defined.

(** ** numeric cells *)

(** What [numeric_send] writes: the digits to the base 10000, [weight] the power
    of the first one. *)
Definition numeric_bytes (weight sign dscale : Z) (digits : list Z) : string :=
  be_bytes 2 (Z.of_nat (length digits)) +:+ be_bytes 2 weight +:+ be_bytes 2 sign
  +:+ be_bytes 2 dscale +:+ foldr (λ d s, be_bytes 2 d +:+ s) "" digits.

(** A number with one digit to the base 10000 is read right; a second digit, a
    fraction or NaN is not: 12345 becomes 100002345, 1.5 becomes 0.1, and NaN
    becomes 0. *)
Theorem numeric_cells_wrong :
  decodeNumericBinary (numeric_bytes 0 0 0 [42]) = inr (Some "42")
  ∧ decodeNumericBinary (numeric_bytes 1 0x4000 0 [7]) = inr (Some "-70000")
  ∧ decodeNumericBinary (numeric_bytes 1 0 0 [1; 2345]) = inr (Some "100002345")
  ∧ decodeNumericBinary (numeric_bytes 0 0 1 [1; 5000]) = inr (Some "0.1")
  ∧ decodeNumericBinary (numeric_bytes 0 0xc000 0 []) = inr (Some "0").
Proof. split_and!; by vm_compute. Qed.

(** The text of a UUID. *)
Example uuid_text :
  uuidBytesToString (be_bytes 16 0x550e8400e29b41d4a716446655440000)
  = "550e8400-e29b-41d4-a716-446655440000".
Proof. by vm_compute. Qed.
