(* ===== verification/Client.v ===== *)
(** * The client's side of a stream

    [decodeQueryStreamToPgResult] of src/integration/lib/grpc-query-client.js:
    the reader that the server's chunks are written for. The value of SQL NULL
    and [decodePgCell] are parameters, as in [Rpgb]. *)
From S2P Require Import Prelude CppStd Grpc Libpq Rpgb FlexMeta QueryMeta.
Local Open Scope Z_scope.

(** [String(commandTag).trim().split(/\s+/)[0].toUpperCase()] with its fallback,
    on ASCII text. *)
Definition commandFromTag (tag : option string) (fallback : option string) : string :=
  match tag with
  | None => default "SELECT" fallback
  | Some t =>
      if str_empty t then default "SELECT" fallback
      else
        let token := take_while (λ c, negb (isspace c)) (drop_while isspace t) in
        if str_empty token then default "SELECT" fallback else str_map toupper token
  end.

(** A command in upper case is read back from the tag it starts. *)
Lemma commandFromTag_app cmd rest fallback :
  plain_name cmd → cmd ≠ "" → str_map toupper cmd = cmd →
  commandFromTag (Some (c_str (cmd +:+ " " +:+ rest))) fallback = cmd.
Proof.
  intros Hp Hne Hu. rewrite c_str_app by (by apply plain_c_str).
  change (c_str (" " +:+ rest)) with (String " " (c_str rest)). unfold commandFromTag.
  rewrite (proj2 (str_empty_false _)) by (by destruct cmd).
  rewrite plain_drop by done. rewrite take_while_app by (done || by apply plain_take).
  by rewrite (proj2 (str_empty_false _)) by done.
Qed.

Section Client.
Context `{!FlexBuffers} {V : Type} (null : V) (decodePgCell : FieldInfo → string → string + V).

(** The variables [schema], [trailer] and [rows]. *)
Record client_state := mkClientState {
  cs_schema : option ResultSchema;
  cs_trailer : option client_trailer;
  cs_rows : list (gmap string V);
}.

Definition client_start : client_state := mkClientState None None [].

(** [if (payload) rows.push(...decodeRawPgBatch(payload, schema.fields))], and
    the loop goes on. *)
Definition push_rows (payload : string) (schema : ResultSchema) (s : client_state)
  : string + (bool * client_state) :=
  if str_empty payload then inr (true, s)
  else match decodeRawPgBatch null fi_name decodePgCell payload (rs_fields schema) with
       | inl e => inl e
       | inr rows => inr (true, mkClientState (cs_schema s) (cs_trailer s) (cs_rows s ++ rows))
       end.

(** One iteration of the loop: an exception, the end of the loop, or the next
    state. *)
Definition client_step (s : client_state) (chunk : ResultChunk) : string + (bool * client_state) :=
  let meta := rc_flatbuffer_meta chunk in
  let payload := rc_payload chunk in
  match rc_kind chunk with
  | CHUNK_KIND_ERROR =>
      if str_empty meta then inr (false, s)
      else match decodePgError meta with
           | Some error => inl (pe_message error)
           | None => inl "flexbuffers"
           end
  | CHUNK_KIND_SCHEMA =>
      match (if str_empty meta then Some (cs_schema s) else Some <$> decodeResultSchema meta) with
      | None => inl "flexbuffers"
      | Some schema =>
          let s := mkClientState schema (cs_trailer s) (cs_rows s) in
          match schema with
          | Some sch => push_rows payload sch s
          | None => inr (true, s)
          end
      end
  | CHUNK_KIND_BATCH =>
      match cs_schema s with
      | None => inl "BATCH chunk before SCHEMA"
      | Some sch => push_rows payload sch s
      end
  | CHUNK_KIND_TRAILER =>
      if str_empty meta then inr (true, s)
      else match decodeResultTrailer meta with
           | Some t => inr (true, mkClientState (cs_schema s) (Some t) (cs_rows s))
           | None => inl "flexbuffers"
           end
  | CHUNK_KIND_UNSPECIFIED => inr (true, s)
  end.

Fixpoint client_loop (s : client_state) (chunks : list ResultChunk) : string + client_state :=
  match chunks with
  | [] => inr s
  | chunk :: rest =>
      match client_step s chunk with
      | inl e => inl e
      | inr (true, s') => client_loop s' rest
      | inr (false, s') => inr s'
      end
  end.

(** The result object. A field keeps its values under other key names there
    ([pgFieldsFromSchema]). *)
Record PgResult := mkPgResult {
  pr_command : string;
  pr_rowCount : Z;
  pr_oid : option Z;
  pr_fields : list FieldInfo;
  pr_rows : list (gmap string V);
}.

Definition decodeQueryStreamToPgResult (chunks : list ResultChunk) : string + PgResult :=
  match client_loop client_start chunks with
  | inl e => inl e
  | inr s =>
      inr {| pr_command := commandFromTag (ct_command_tag <$> cs_trailer s)
                             (rs_command <$> cs_schema s);
             pr_rowCount := match cs_trailer s with
                            | Some t => ct_row_count t
                            | None => Z.of_nat (length (cs_rows s))
                            end;
             pr_oid := cs_trailer s ≫= ct_oid;
             pr_fields := default [] (rs_fields <$> cs_schema s);
             pr_rows := cs_rows s |}
  end.

(** Reading a chunk more. *)
Lemma client_loop_snoc s chunks chunk s1 :
  client_loop s chunks = inr s1 →
  (∀ c, c ∈ chunks → rc_kind c ≠ CHUNK_KIND_ERROR) →
  client_loop s (chunks ++ [chunk])
  = match client_step s1 chunk with inl e => inl e | inr (_, s2) => inr s2 end.
Proof.
  revert s. induction chunks as [|c chunks IH]; intros s; simpl.
  - intros [= ->] _. by destruct (client_step s1 chunk) as [|[[] ?]].
  - destruct (client_step s c) as [e|[[] s']] eqn:E; [done|..].
    + intros Hl Hk. apply IH; [done|]. intros c' Hc'. apply Hk. by right.
    + intros _ Hk. exfalso. unfold client_step in E. specialize (Hk c ltac:(left)).
      unfold push_rows in E.
      destruct (rc_kind c); try done; repeat (case_match; simplify_eq/=; try done).
Qed.

End Client.
Arguments client_state : clear implicits.
Arguments PgResult : clear implicits.
