(* ===== verification/ShardService.v ===== *)
(** * The shard service (src/src/service/mtdd_shard_service.{h,cpp})

    The handlers [Connect], [QueryStream] and [Disconnect]. The gRPC call is a
    parameter: [cancelled i] is the answer of the [i]-th [IsCancelled] and
    [write_ok i] that of the [i]-th [Write]. *)
From S2P Require Import Prelude CppStd Log Config Grpc Libpq Rpgb FlexMeta QueryMeta PgState PqConn.
From S2P Require Import Pool Sessions Streaming QueryExecutor Health.
Local Open Scope Z_scope.
Local Open Scope cpp_scope.

Definition ResolveDbName (request : ConnectRequest) : string :=
  if negb (str_empty (cr_dbname request)) then cr_dbname request else cr_database request.

(** [MtddShardServiceImpl::BuildConnectParams] with its [config_]. *)
Definition BuildConnectParams (config_ : ServerConfig) (request : ConnectRequest) : ConnectParams :=
  {| cp_pg_host := pg_host config_;
     cp_port := if 0 <? cr_port request then cr_port request else 5432;
     cp_dbname := ResolveDbName request;
     cp_user := cr_user request;
     cp_password := cr_password request;
     cp_connect_timeout_sec := pg_connect_timeout_sec config_;
     cp_statement_timeout_ms := statement_timeout_ms config_ |}.

(** The message of a refused request, or [None]. *)
Definition EnsureQueryRequest (request : QueryRequest) : option string :=
  if negb (str_empty (qr_name request)) then Some "prepared statements are not supported"
  else if negb (qr_result_format request =? 1) then Some "result_format must be 1 (libpq binary)"
  else None.

(** The refusal, and whether the check was skipped with a warning. *)
Definition ValidateHostIndex (config_ : ServerConfig) (host_index : Z) (cerr : list string)
  : option string * list string :=
  match Config.host_index config_ with
  | None =>
      if production_mode config_ then (Some "MTDD_HOST_INDEX is required in production", cerr)
      else (None, Warn "host_index_validation_skipped" "MTDD_HOST_INDEX unset (dev mode)" cerr)
  | Some expected =>
      if negb (host_index =? expected) then (Some "host_index mismatch", cerr) else (None, cerr)
  end.

Section Shard.
Context `{L : Libpq}.

(** The service object with the database state and the log. [executor_] is
    null or an executor with its session defaults. *)
Record Shard := mkShard {
  sh_sys : Sys;
  health_monitor_ : option PgHealthMonitor;
  connect_params_ : option ConnectParams;
  executor_ : option ConnectParams;
  sh_cerr : list string;
}.

#[global] Instance shard_has_sys : HasSys Shard.
Proof.
  refine {| the_sys := sh_sys;
            put_sys y s := mkShard y (health_monitor_ s) (connect_params_ s) (executor_ s)
                             (sh_cerr s) |}; [by intros []|done..].
Defined.

(** The constructor: an empty pool and no sessions, over a libpq state. *)
Definition new_Shard (config_ : ServerConfig) (monitor : option PgHealthMonitor) (w : pgworld)
    (cerr : list string) : Shard :=
  mkShard (mkSys w 0 default_pool (SessionStore_max (max_sessions config_)) ∅ [] ∅ 0)
    monitor None None cerr.

Definition set_cerr (l : list string) : M Shard unit :=
  modify (λ s, mkShard (sh_sys s) (health_monitor_ s) (connect_params_ s) (executor_ s) l).

(** [ValidateHostIndex] in a handler. *)
Definition check_host_index (config_ : ServerConfig) (host_index : Z) : M Shard (option string) :=
  let* l := gets sh_cerr in
  let '(r, l') := ValidateHostIndex config_ host_index l in
  set_cerr l' ;; m_ret r.

(** The destructor of a [ScopedTimer] that has measured [ms]. *)
Definition timer_end (event : string) (ms : Z) : M Shard unit :=
  let* l := gets sh_cerr in set_cerr (ScopedTimer_end event ms l).

(** A call on the health monitor, if there is one. *)
Definition on_health (m : M HState unit) : M Shard unit := λ s,
  match health_monitor_ s with
  | None => (Ret tt, s)
  | Some h =>
      let '(o, h') := m (mkHState (sh_sys s) h (sh_cerr s)) in
      (o, mkShard (hs_sys h') (Some (hs_mon h')) (connect_params_ s) (executor_ s) (hs_cerr h'))
  end.

Definition connect_body (config_ : ServerConfig) (request : ConnectRequest)
  : M Shard (Status * ConnectResponse) :=
  let* refused := check_host_index config_ (cr_host_index request) in
  match refused with
  | Some message => m_ret (Status_OK, mkConnectResponse false message)
  | None =>
      let params := BuildConnectParams config_ request in
      if str_empty (cp_dbname params) || str_empty (cp_user params) then
        m_ret (Status_OK, mkConnectResponse false "dbname and user are required")
      else
        sysM (Configure params (pool_size config_)) ;;
        let* error := sysM Pool.Connect in
        match error with
        | Some e =>
            on_health (on_monitor OnConnectFailure) ;;
            m_ret (Status_OK, mkConnectResponse false e)
        | None =>
            modify (λ s, mkShard (sh_sys s) (health_monitor_ s) (Some params) (Some params)
                           (sh_cerr s)) ;;
            on_health (OnConnectSuccess params (statement_timeout_ms config_)) ;;
            m_ret (Status_OK, mkConnectResponse true "connected")
        end
  end.

Definition Connect (config_ : ServerConfig) (request : ConnectRequest) (ms : Z)
  : M Shard (Status * ConnectResponse) :=
  let* r := connect_body config_ request in
  timer_end "connect" ms ;;
  m_ret r.

(** The response stays at its default when the request is refused. *)
Definition Disconnect (config_ : ServerConfig) (request : DisconnectRequest)
  : M Shard (Status * DisconnectResponse) :=
  let* refused := check_host_index config_ (dr_host_index request) in
  match refused with
  | Some message => m_ret (mkStatus INVALID_ARGUMENT message, mkDisconnectResponse false)
  | None =>
      let* l := gets sh_cerr in
      set_cerr (Info "disconnect" "acknowledged (shared pool unchanged)" l) ;;
      m_ret (Status_OK, mkDisconnectResponse true)
  end.

(** ** The gRPC stream *)

(** The chunks the stream has accepted, and the calls made so far. *)
Record RpcState := mkRpcState { rpc_sent : list ResultChunk; rpc_writes : nat; rpc_polls : nat }.

Definition new_rpc : RpcState := mkRpcState [] 0 0.

(** The locals of [QueryStream]. *)
Record Handler := mkHandler {
  hd_call : QCall;
  hd_rpc : RpcState;
  schema_meta : ResultSchema;
  schema_open : bool;
  batch_sent : bool;
  total_rows : Z;
  last_result : option pgresult;
}.

Context `{!FlexBuffers} (cancelled write_ok : nat → bool).

Definition IsCancelled : M RpcState bool := λ r,
  (Ret (cancelled (rpc_polls r)), mkRpcState (rpc_sent r) (rpc_writes r) (rpc_polls r + 1)).

Definition Write (chunk : ResultChunk) : M RpcState bool := λ r,
  let ok := write_ok (rpc_writes r) in
  (Ret ok, mkRpcState (if ok then rpc_sent r ++ [chunk] else rpc_sent r) (rpc_writes r + 1)
             (rpc_polls r)).

Definition WriteResultChunk (kind : ChunkKind) (flatbuffer_meta payload : string)
  : M RpcState bool :=
  if str_empty payload && str_empty flatbuffer_meta then m_ret true
  else Write (mkResultChunk kind flatbuffer_meta payload).

Definition WriteErrorChunk (error : PgErrorMeta) : M RpcState unit :=
  let flex_error := {|
    pe_sqlstate := em_sqlstate error;
    pe_severity := if str_empty (em_severity error) then "ERROR" else em_severity error;
    pe_message := em_message error;
    pe_detail := em_detail error;
    pe_position := em_position error |} in
  Write (mkResultChunk CHUNK_KIND_ERROR (EncodePgError flex_error) "") ;;
  m_ret tt.

Definition set_call c (h : Handler) : Handler :=
  mkHandler c (hd_rpc h) (schema_meta h) (schema_open h) (batch_sent h) (total_rows h)
    (last_result h).
Definition set_rpc r (h : Handler) : Handler :=
  mkHandler (hd_call h) r (schema_meta h) (schema_open h) (batch_sent h) (total_rows h)
    (last_result h).
Definition open_schema m (h : Handler) : Handler :=
  mkHandler (hd_call h) (hd_rpc h) m true (batch_sent h) (total_rows h) (last_result h).
Definition set_batch_sent (h : Handler) : Handler :=
  mkHandler (hd_call h) (hd_rpc h) (schema_meta h) (schema_open h) true (total_rows h)
    (last_result h).
Definition set_total n (h : Handler) : Handler :=
  mkHandler (hd_call h) (hd_rpc h) (schema_meta h) (schema_open h) (batch_sent h) n
    (last_result h).
Definition set_last r (h : Handler) : Handler :=
  mkHandler (hd_call h) (hd_rpc h) (schema_meta h) (schema_open h) (batch_sent h) (total_rows h) r.

Definition on_call {A} (m : M QCall A) : M Handler A := zoom hd_call set_call m.
Definition on_rpc {A} (m : M RpcState A) : M Handler A := zoom hd_rpc set_rpc m.
Definition exec_error : M Handler string := gets (λ h, qc_error (hd_call h)).
Definition clear_last : M Handler unit :=
  let* r := gets last_result in on_call (sysM (pg_clear r)).

(** [SendBatchChunk] on the handler's schema and flag. *)
Definition SendBatchChunk (payload : string) : M Handler bool :=
  if str_empty payload then m_ret true
  else
    let* stop := on_rpc IsCancelled in
    if stop : bool then m_ret false
    else
      let* sent := gets batch_sent in
      let* meta := gets schema_meta in
      let kind := if sent : bool then CHUNK_KIND_BATCH else CHUNK_KIND_SCHEMA in
      let meta := if sent : bool then "" else EncodeResultSchema meta in
      let* ok := on_rpc (WriteResultChunk kind meta payload) in
      if negb ok then m_ret false
      else modify set_batch_sent ;; m_ret true.

Definition cancelled_status : M Handler Status :=
  let* c := on_rpc IsCancelled in
  m_ret (mkStatus CANCELLED (if c : bool then "cancelled" else "client cancelled stream")).

(** [total_rows += row_end - row_begin], an [int64_t]. *)
Definition add_rows (n : Z) : M Handler unit :=
  let* total := gets total_rows in
  if LONG_MAX <? total + n then hang SignedOverflow else modify (set_total (total + n)).

(** The [for] loop over the batches of one result from [row_begin] on; the
    status if the handler returns from inside. *)
Fixpoint send_batches (fuel : nat) (fetch : pgresult) (num_rows wire_batch_rows row_begin : Z)
  : M Handler (option Status) :=
  match fuel with
  | O => hang OutOfFuel
  | S fuel' =>
      if row_begin <? num_rows then
        if INT_MAX <? row_begin + wire_batch_rows then hang SignedOverflow
        else
          let row_end := Z.min (row_begin + wire_batch_rows) num_rows in
          let* payload := EncodeRawPgBatch (Some fetch) row_begin row_end in
          add_rows (row_end - row_begin) ;;
          let* ok := SendBatchChunk payload in
          if negb ok then
            on_call Abort ;;
            let* st := cancelled_status in
            m_ret (Some st)
          else send_batches fuel' fetch num_rows wire_batch_rows (row_begin + wire_batch_rows)
      else m_ret None
  end.

(** How an iteration of the [while] loop ends. *)
Inductive flow := Continue | Break | Return (st : Status).

Definition error_message_meta (message : string) : PgErrorMeta := mkPgErrorMeta "" "" message "" "".

(** The rest of an iteration, for a result that has columns. *)
Definition tuples_step (wire_batch_rows : Z) (fetch : pgresult) : M Handler flow :=
  let num_rows := PQntuples fetch in
  let* was_open := gets schema_open in
  if (num_rows =? 0) && was_open then m_ret Break
  else
    when negb was_open do modify (open_schema (BuildSchemaMeta fetch)) ;;
    if num_rows =? 0 then m_ret Continue
    else
      let* r := send_batches (S (Z.to_nat num_rows)) fetch num_rows wire_batch_rows 0 in
      m_ret (match r with Some st => Return st | None => Continue end).

(** The rest of an iteration, for a result without columns. *)
Definition command_step (fetch : pgresult) : M Handler flow :=
  let trailer := BuildCommandTrailer fetch in
  let* ok := on_rpc (WriteResultChunk CHUNK_KIND_TRAILER (EncodeResultTrailer trailer) "") in
  if negb ok then
    on_call Abort ;;
    m_ret (Return (mkStatus CANCELLED "client cancelled stream"))
  else
    clear_last ;;
    modify (set_last None) ;;
    on_call Close ;;
    m_ret (Return Status_OK).

Definition fetch_step (wire_batch_rows : Z) : M Handler flow :=
  let* stop := on_rpc IsCancelled in
  if stop : bool then
    on_call Abort ;;
    m_ret (Return (mkStatus CANCELLED "cancelled"))
  else
    let* fetch := on_call Fetch in
    match fetch with
    | None =>
        let* e := exec_error in
        if negb (str_empty e) then
          on_rpc (WriteErrorChunk (error_message_meta e)) ;;
          on_call Abort ;;
          m_ret (Return Status_OK)
        else m_ret Break
    | Some fetch =>
        clear_last ;;
        modify (set_last (Some fetch)) ;;
        let status := PQresultStatus fetch in
        if negb (bool_decide (status = PGRES_TUPLES_OK))
           && negb (bool_decide (status = PGRES_COMMAND_OK)) then
          on_rpc (WriteErrorChunk (ExtractPgError (Some fetch))) ;;
          on_call Abort ;;
          m_ret (Return Status_OK)
        else if PQnfields fetch =? 0 then command_step fetch
        else tuples_step wire_batch_rows fetch
    end.

(** The statements after the loop. *)
Definition after_loop : M Handler Status :=
  let* h := get in
  let* sent_empty :=
    (if schema_open h && negb (batch_sent h) then
       let* empty_payload := EncodeRawPgBatch (last_result h) 0 0 in
       SendBatchChunk empty_payload
     else m_ret true) in
  if negb sent_empty then
    on_call Abort ;;
    cancelled_status
  else
    let trailer :=
      if schema_open h then
        mkResultTrailer (rs_command (schema_meta h) +:+ " " +:+ to_string (total_rows h))
          (total_rows h) 0
      else match last_result h with
           | Some r => let t := BuildCommandTrailer r in
                       mkResultTrailer (rt_command_tag t) (rt_row_count t) 0
           | None => mkResultTrailer "SELECT 0" 0 0
           end in
    let* ok := on_rpc (WriteResultChunk CHUNK_KIND_TRAILER (EncodeResultTrailer trailer) "") in
    if negb ok then
      on_call Abort ;;
      m_ret (mkStatus CANCELLED "client cancelled stream")
    else
      clear_last ;;
      modify (set_last None) ;;
      on_call Close ;;
      m_ret Status_OK.

Fixpoint stream_loop (fuel : nat) (wire_batch_rows : Z) : M Handler Status :=
  match fuel with
  | O => hang OutOfFuel
  | S fuel' =>
      let* f := fetch_step wire_batch_rows in
      match f with
      | Continue => stream_loop fuel' wire_batch_rows
      | Break => after_loop
      | Return st => m_ret st
      end
  end.

Definition catch_block (what : string) : M Handler Status :=
  clear_last ;;
  on_call Abort ;;
  on_rpc (WriteErrorChunk (error_message_meta what)) ;;
  m_ret Status_OK.

(** From the construction of the [StreamingQuery] to its destruction. *)
Definition stream_body (fuel : nat) (wire_batch_rows : Z) (request : QueryRequest)
  : M Handler Status :=
  let* opened := on_call (Open request) in
  let* st :=
    (if negb opened then
       let* e := exec_error in
       on_rpc (WriteErrorChunk (error_message_meta e)) ;;
       m_ret Status_OK
     else try_catch (stream_loop fuel wire_batch_rows) catch_block) in
  on_call destroy_StreamingQuery ;;
  m_ret st.

(** The service and the RPC. *)
Record QState := mkQState { qs_shard : Shard; qs_rpc : RpcState }.

Definition on_shard {A} (m : M Shard A) : M QState A :=
  zoom qs_shard (λ x s, mkQState x (qs_rpc s)) m.

Definition new_handler (y : Sys) (r : RpcState) (params : ConnectParams) (fetch_rows : Z)
  : Handler :=
  mkHandler (mkQCall y (new_StreamingQuery params fetch_rows) "") r (mkResultSchema "" []) false
    false 0 None.

Definition run_stream (fuel : nat) (config_ : ServerConfig) (params : ConnectParams)
    (request : QueryRequest) : M QState Status := λ s,
  let fetch_rows := if 0 <? pg_fetch_rows config_ then pg_fetch_rows config_ else 10000 in
  let wire_batch_rows := if 0 <? pg_wire_batch_rows config_ then pg_wire_batch_rows config_
                         else 1000 in
  let '(o, h) := stream_body fuel wire_batch_rows request
                   (new_handler (sh_sys (qs_shard s)) (qs_rpc s) params fetch_rows) in
  (o, mkQState (put_sys (qc_sys (hd_call h)) (qs_shard s)) (hd_rpc h)).

Definition query_body (fuel : nat) (config_ : ServerConfig) (request : QueryRequest)
  : M QState Status :=
  let* refused := on_shard (check_host_index config_ (qr_host_index request)) in
  match refused with
  | Some message => m_ret (mkStatus INVALID_ARGUMENT message)
  | None =>
      match EnsureQueryRequest request with
      | Some message => m_ret (mkStatus INVALID_ARGUMENT message)
      | None =>
          if max_query_text_bytes config_ <? to_int32 (str_size (qr_text request)) then
            m_ret (mkStatus INVALID_ARGUMENT "query text exceeds MTDD_MAX_QUERY_TEXT_BYTES")
          else
            let* s := get in
            match executor_ (qs_shard s), connect_params_ (qs_shard s) with
            | Some _, Some params => run_stream fuel config_ params request
            | _, _ => m_ret (mkStatus FAILED_PRECONDITION "Connect must be called first")
            end
      end
  end.

(** [fuel] bounds the iterations of the [while] loop. *)
Definition QueryStream (fuel : nat) (config_ : ServerConfig) (request : QueryRequest) (ms : Z)
  : M QState Status :=
  let* st := query_body fuel config_ request in
  on_shard (timer_end "query_stream" ms) ;;
  m_ret st.

End Shard.
