(* ===== verification/Lift.v ===== *)
(** * From the streaming query to its handler

    What [Fetch], [Close], [Abort] and the freeing of a result keep of the query
    and the database, every part of the loop of [QueryStream] keeps: its other
    steps touch only the stream and the locals. Where one of them does not come
    to an end a weaker property [E] may hold. And what [Close] and [Abort]
    establish holds whenever the handler has returned a status. *)
From S2P Require Import Prelude CppStd Grpc Libpq Rpgb FlexMeta QueryMeta PgState Streaming ShardService.
Local Open Scope Z_scope.
Local Open Scope cpp_scope.

Section Lift.
Context `{L : Libpq, FB : !FlexBuffers} (cancelled write_ok : nat → bool).

Definition on_handler (P : QCall → Prop) (h : Handler) : Prop := P (hd_call h).

Context (P E : QCall → Prop) (PE : ∀ s, P s → E s).
#[local] Abbreviation lifted m := (stays (on_handler P) (on_handler E) m).

Lemma lift_call {A} (m : M QCall A) : stays P E m → lifted (on_call m).
Proof.
  intros Hm h Hh. unfold on_call, zoom. specialize (Hm (hd_call h) Hh).
  by destruct (m (hd_call h)) as [[]].
Qed.
Lemma lift_rpc {A} (m : M RpcState A) : lifted (on_rpc m).
Proof. intros h Hh. unfold on_rpc, zoom. destruct (m (hd_rpc h)) as [[]]; [done..|]. by apply PE. Qed.
Lemma lift_modify f : (∀ h, hd_call (f h) = hd_call h) → lifted (modify f).
Proof. intros Hf. apply stays_modify. intros h. unfold on_handler. by rewrite Hf. Qed.
Lemma lift_encode r a b : lifted (EncodeRawPgBatch (S := Handler) r a b).
Proof.
  intros h Hh. pose proof (EncodeRawPgBatch_pure r a b h) as Hp.
  destruct (EncodeRawPgBatch r a b h) as [[]]; simpl in Hp; subst; [done..|]. by apply PE.
Qed.

Hypothesis keeps_fetch : stays P E Fetch.
Hypothesis keeps_close : stays P E Close.
Hypothesis keeps_abort : stays P E Abort.
Hypothesis keeps_clear : ∀ r, stays P E (sysM (pg_clear r)).

Lemma lift_Fetch : lifted (on_call Fetch).
Proof. by apply lift_call. Qed.
Lemma lift_Close : lifted (on_call Close).
Proof. by apply lift_call. Qed.
Lemma lift_Abort : lifted (on_call Abort).
Proof. by apply lift_call. Qed.
Lemma lift_clear : lifted clear_last.
Proof. apply stays_bind; [by intros h|intros r]. by apply lift_call. Qed.
#[local] Hint Resolve lift_rpc lift_encode lift_Fetch lift_Close lift_Abort lift_clear : mtdd.

Ltac lift_walk :=
  repeat first
    [ solve [eauto with mtdd]
    | by apply lift_modify
    | apply stays_hang; unfold on_handler; by auto
    | apply stays_bind; [|intros]
    | case_match ].

Lemma lift_send payload : lifted (SendBatchChunk cancelled write_ok payload).
Proof. unfold SendBatchChunk. lift_walk. Qed.
Lemma lift_add_rows n : lifted (add_rows n).
Proof. unfold add_rows. lift_walk. Qed.
#[local] Hint Resolve lift_send lift_add_rows : mtdd.
Lemma lift_send_batches fuel fetch n wire rb :
  lifted (send_batches cancelled write_ok fuel fetch n wire rb).
Proof.
  revert rb. induction fuel as [|fuel IH]; intros rb; cbn [send_batches]; unfold cancelled_status;
    lift_walk.
Qed.
#[local] Hint Resolve lift_send_batches : mtdd.
Lemma lift_fetch_step wire : lifted (fetch_step cancelled write_ok wire).
Proof. unfold fetch_step, command_step, tuples_step, exec_error. lift_walk. Qed.
Lemma lift_after_loop : lifted (after_loop cancelled write_ok).
Proof. unfold after_loop, cancelled_status. lift_walk. Qed.
#[local] Hint Resolve lift_fetch_step lift_after_loop : mtdd.
Lemma lift_stream_loop fuel wire : lifted (stream_loop cancelled write_ok fuel wire).
Proof. induction fuel as [|fuel IH]; cbn [stream_loop]; lift_walk. Qed.
Lemma lift_catch_block e : lifted (catch_block write_ok e).
Proof. unfold catch_block. lift_walk. Qed.
End Lift.

(** ** The handler closes its query *)

Lemma nothrow_clear_last `{L : Libpq, FB : !FlexBuffers} : nothrow clear_last.
Proof.
  apply nothrow_bind; [by intros|]. intros r. apply nothrow_zoom, nothrow_zoom, returns_nothrow.
  auto with mtdd.
Qed.

Section Closing.
Context `{L : Libpq, FB : !FlexBuffers} (cancelled write_ok : nat → bool).

(** Of a query that is open, and of one that was closed. *)
Context (P Q : QCall → Prop).
#[local] Abbreviation live := (on_handler P).
#[local] Abbreviation closed := (on_handler Q).
Definition anything (h : Handler) : Prop := True.

Hypothesis live_fetch : hoare P Fetch (λ _, P) P (λ _, True).
Hypothesis live_clear : ∀ r, hoare P (sysM (pg_clear r)) (λ _, P) P (λ _, True).
Hypothesis close_closes : hoare P Close (λ _, Q) (λ _, False) (λ _, True).
Hypothesis abort_closes : hoare P Abort (λ _, Q) (λ _, False) (λ _, True).

Lemma on_call_hoare {A} (m : M QCall A) (P' : QCall → Prop) (Q' : A → QCall → Prop) (T' E' : QCall → Prop)
    (T : Handler → Prop) :
  (∀ h, T' (hd_call h) → T h) → hoare P' m Q' T' E' →
  hoare (on_handler P') (on_call m) (λ a, on_handler (Q' a)) T anything.
Proof.
  intros HT Hm h Hh. specialize (Hm (hd_call h) Hh). unfold on_call, zoom.
  destruct (m (hd_call h)) as [[a|e|w] s]; [exact Hm|by apply HT|done].
Qed.

Lemma fetch_live : hoare live (on_call Fetch) (λ _, live) live anything.
Proof. by apply (on_call_hoare _ _ _ P (λ _, True)). Qed.
Lemma clear_live : hoare live clear_last (λ _, live) live anything.
Proof. eapply hoare_bind with (Q := λ _, live); [by intros h|intros r]. by apply (on_call_hoare _ _ _ P (λ _, True)). Qed.
Lemma closing T : hoare live (on_call Close) (λ _, closed) T anything.
Proof. by apply (on_call_hoare _ _ _ (λ _, False) (λ _, True)). Qed.
Lemma aborting T : hoare live (on_call Abort) (λ _, closed) T anything.
Proof. by apply (on_call_hoare _ _ _ (λ _, False) (λ _, True)). Qed.

(** Steps outside the database leave both alone. *)
Lemma rpc_hoare {A} (R : QCall → Prop) (m : M RpcState A) T :
  (∀ h, on_handler R h → T h) ∨ nothrow m → hoare (on_handler R) (on_rpc m) (λ _, on_handler R) T anything.
Proof.
  intros HT h Hh. unfold on_rpc, zoom. destruct (m (hd_rpc h)) as [[a|e|w] r] eqn:E; [done| |done].
  destruct HT as [HT|HT]; [by apply HT|by apply HT in E].
Qed.
Lemma rpc_live {A} (m : M RpcState A) : hoare live (on_rpc m) (λ _, live) live anything.
Proof. apply rpc_hoare. by left. Qed.
Lemma gets_live {A} (f : Handler → A) T E : hoare live (gets f) (λ _, live) T E.
Proof. by intros h. Qed.
Lemma modify_live f T E :
  (∀ h, hd_call (f h) = hd_call h) → hoare live (modify f) (λ _, live) T E.
Proof. intros Hf. apply hoare_modify. intros h. unfold on_handler. by rewrite Hf. Qed.
Lemma encode_live r a b :
  hoare live (EncodeRawPgBatch (S := Handler) r a b) (λ _, live) live anything.
Proof. apply (hoare_frame eq); [apply EncodeRawPgBatch_pure|by intros s s' ->|done|by right]. Qed.

Ltac keep H := eapply hoare_bind; [apply H|]; cbv beta; intros.

Lemma send_live payload :
  hoare live (SendBatchChunk cancelled write_ok payload) (λ _, live) live anything.
Proof.
  unfold SendBatchChunk. case_if; [by apply hoare_ret|]. keep @rpc_live.
  destruct a; [by apply hoare_ret|]. keep @gets_live. keep @gets_live. keep @rpc_live.
  destruct (negb _); [by apply hoare_ret|]. keep modify_live; [done|]. by apply hoare_ret.
Qed.

Lemma add_rows_live n : hoare live (add_rows n) (λ _, live) live anything.
Proof.
  unfold add_rows. keep @gets_live. case_if; [by apply hoare_hang|by apply modify_live].
Qed.

Lemma status_closed T : hoare closed (cancelled_status cancelled) (λ _, closed) T anything.
Proof.
  eapply hoare_bind; [apply rpc_hoare; right; by intros r e r'|]. cbv beta. intros. by apply hoare_ret.
Qed.

Lemma send_batches_live fuel fetch n wire rb :
  hoare live (send_batches cancelled write_ok fuel fetch n wire rb)
    (λ r h, match r with Some _ => closed h | None => live h end) live anything.
Proof.
  revert rb. induction fuel as [|fuel IH]; intros rb; cbn [send_batches]; [by apply hoare_hang|].
  destruct (_ <? _); [|by apply hoare_ret]. destruct (_ <? _); [by apply hoare_hang|].
  keep encode_live. keep add_rows_live. keep send_live. destruct a1; cbn [negb]; [apply IH|].
  keep aborting. keep status_closed. by apply hoare_ret.
Qed.

Definition flow_post (f : flow) (h : Handler) : Prop :=
  match f with Return _ => closed h | _ => live h end.

Lemma command_step_closes fetch :
  hoare live (command_step write_ok fetch) flow_post live anything.
Proof.
  unfold command_step. keep @rpc_live. destruct (negb _).
  - keep aborting. by apply hoare_ret.
  - keep clear_live. keep modify_live; [done|]. keep closing. by apply hoare_ret.
Qed.

Lemma tuples_step_live wire fetch :
  hoare live (tuples_step cancelled write_ok wire fetch) flow_post live anything.
Proof.
  unfold tuples_step. keep @gets_live. destruct (_ && _); [by apply hoare_ret|].
  eapply hoare_bind with (Q := λ _, live).
  { destruct (negb a); [by apply modify_live|by apply hoare_ret]. }
  intros _. destruct (_ =? _); [by apply hoare_ret|]. keep send_batches_live.
  apply hoare_ret. by destruct a0.
Qed.

(** An iteration that returns a status has closed the query. *)
Lemma fetch_step_closes wire :
  hoare live (fetch_step cancelled write_ok wire) flow_post live anything.
Proof.
  unfold fetch_step. keep @rpc_live. destruct a; [keep aborting; by apply hoare_ret|].
  keep fetch_live. destruct a as [fetch|].
  - keep clear_live. keep modify_live; [done|]. destruct (_ && _).
    + keep @rpc_live. keep aborting. by apply hoare_ret.
    + destruct (_ =? _); [apply command_step_closes|apply tuples_step_live].
  - keep @gets_live. destruct (negb _); [|by apply hoare_ret].
    keep @rpc_live. keep aborting. by apply hoare_ret.
Qed.

Lemma after_loop_closes :
  hoare live (after_loop cancelled write_ok) (λ _, closed) live anything.
Proof.
  unfold after_loop. eapply hoare_bind with (Q := λ _, live); [by intros h|intros h0].
  eapply hoare_bind with (Q := λ _, live).
  { destruct (_ && _); [|by apply hoare_ret]. keep encode_live. apply send_live. }
  intros []; cbn [negb].
  - keep @rpc_live. destruct (negb _); [keep aborting; by apply hoare_ret|].
    keep clear_live. keep modify_live; [done|]. keep closing. by apply hoare_ret.
  - keep aborting. apply status_closed.
Qed.

Lemma catch_block_closes e T :
  hoare live (catch_block write_ok e) (λ _, closed) T anything.
Proof.
  unfold catch_block. eapply hoare_bind with (Q := λ _, live).
  { intros h Hh. pose proof (clear_live h Hh) as Hc. pose proof (nothrow_clear_last h) as Hn.
    destruct (clear_last h) as [[a|e'|w] h']; [done|by destruct (Hn e' h')|done]. }
  intros _. keep aborting.
  eapply hoare_bind; [apply rpc_hoare; right; by intros r e0 r'|]. cbv beta. intros. by apply hoare_ret.
Qed.

Lemma stream_loop_closes fuel wire :
  hoare live (stream_loop cancelled write_ok fuel wire) (λ _, closed) live anything.
Proof.
  induction fuel as [|fuel IH]; cbn [stream_loop]; [by apply hoare_hang|].
  keep fetch_step_closes. destruct a; [exact IH|apply after_loop_closes|by apply hoare_ret].
Qed.

Lemma streamed_closes fuel wire T :
  hoare live (try_catch (stream_loop cancelled write_ok fuel wire) (catch_block write_ok))
    (λ _, closed) T anything.
Proof. eapply hoare_try; [apply stream_loop_closes|]. intros e. apply catch_block_closes. Qed.
End Closing.
