(* ===== verification/PoolUse.v ===== *)
(** * What a query does to the pool

    A query leaves the configuration of the pool alone, and lets its potential
    grow at no point: where it gives something back, it notifies. *)
From S2P Require Import Prelude CppStd Grpc Libpq Rpgb FlexMeta QueryMeta PgState PqConn Pool.
From S2P Require Import Sessions Streaming ShardService Lift.
Local Open Scope Z_scope.
Local Open Scope cpp_scope.

Section PoolUse.
Context `{L : Libpq}.

Definition uses (s s' : QCall) : Prop := used (sy_pool (qc_sys s)) (sy_pool (qc_sys s')).

#[global] Instance uses_refl : Reflexive uses.
Proof. intros s. unfold uses. reflexivity. Qed.
#[global] Instance uses_trans : Transitive uses.
Proof. intros s1 s2 s3. unfold uses. apply used_trans. Qed.

Lemma uses_same (s s' : QCall) : sy_pool (qc_sys s') = sy_pool (qc_sys s) → uses s s'.
Proof. unfold uses. intros ->. reflexivity. Qed.

Lemma uses_sysM {A} (m : M Sys A) : preserves frame m → preserves uses (sysM m).
Proof.
  intros Hm s. specialize (Hm (qc_sys s)). unfold sysM, zoom. simpl.
  destruct (m (qc_sys s)) as [o y]. destruct Hm as (_ & Hp & _). by apply uses_same.
Qed.
Lemma uses_on_stream f : preserves uses (on_stream f).
Proof. intros s. by apply uses_same. Qed.
Lemma uses_set_error e : preserves uses (set_error e).
Proof. intros s. by apply uses_same. Qed.
Lemma uses_gets {A} (f : QCall → A) : preserves uses (gets f).
Proof. intros s. by apply uses_same. Qed.
Lemma uses_stream_get {A} (f : StreamingQuery → A) : preserves uses (stream_get f).
Proof. intros s. by apply uses_same. Qed.
Lemma uses_ret {A} (a : A) : preserves uses (m_ret a).
Proof. intros s. by apply uses_same. Qed.
Lemma uses_hang {A} w : preserves uses (hang w : M QCall A).
Proof. intros s. by apply uses_same. Qed.
Lemma uses_cursor_name : preserves uses (sysM NextCursorName).
Proof. intros s. by apply uses_same. Qed.
Lemma uses_drop_ref c : preserves uses (sysM (drop_ref c)).
Proof.
  intros s. unfold sysM, zoom. simpl. destruct (drop_ref_runs c (qc_sys s)) as (y & -> & Hp & _).
  by apply uses_same.
Qed.
Lemma uses_with_lock {A} c (m : M QCall A) : preserves uses m → preserves uses (with_lock c m).
Proof.
  intros Hm s. unfold with_lock. destruct (bool_decide _); [by apply uses_same|].
  specialize (Hm (put_sys (set_locked ({[pq_addr c]} ∪ sy_locked (qc_sys s)) (qc_sys s)) s)).
  simpl in *. destruct (m _) as [[a|e|w] s']; exact Hm.
Qed.
Lemma uses_Release c b : preserves uses (sysM (Release (Some c) b)).
Proof.
  intros s. unfold sysM, zoom, Release, m_bind. simpl. rewrite IsHealthy_eq. apply used_release.
Qed.
Lemma uses_ignoring {A} (m : M QCall A) : preserves uses m → preserves uses (ignoring_errors m).
Proof.
  intros Hm s. unfold ignoring_errors. specialize (Hm (mkQCall (qc_sys s) (qc_stream s) "")).
  by destruct (m _).
Qed.
#[local] Hint Resolve uses_sysM uses_on_stream uses_set_error uses_gets uses_stream_get uses_ret uses_hang
  uses_cursor_name uses_drop_ref uses_with_lock uses_Release uses_ignoring frame_ErrorMessage
  frame_IsHealthy : mtdd.

Ltac use_walk :=
  repeat first
    [ solve [eauto with mtdd]
    | apply preserves_bind; [apply _| |intros]
    | apply uses_with_lock
    | apply uses_ignoring
    | case_match ].

Lemma uses_ReleaseConnection b : preserves uses (ReleaseConnection b).
Proof. unfold ReleaseConnection. use_walk. Qed.
Lemma uses_EndTransaction b : preserves uses (EndTransaction b).
Proof. unfold EndTransaction, set_error_if_empty. use_walk. Qed.
Lemma uses_CloseCursor : preserves uses CloseCursor.
Proof. unfold CloseCursor, set_error_if_empty. use_walk. Qed.
#[local] Hint Resolve uses_ReleaseConnection uses_EndTransaction uses_CloseCursor : mtdd.
Lemma uses_Fetch : preserves uses Fetch.
Proof. unfold Fetch, FetchCursor, exec_error_text. use_walk. Qed.
Lemma uses_Close : preserves uses Close.
Proof. unfold Close, drop_immediate. use_walk. Qed.
Lemma uses_Abort : preserves uses Abort.
Proof. unfold Abort, drop_immediate. use_walk. Qed.
Lemma uses_destroy : preserves uses destroy_StreamingQuery.
Proof. unfold destroy_StreamingQuery. use_walk. Qed.

(** [Open] after it has its connection. *)
Definition open_rest (request : QueryRequest) (acquired : bool) : M QCall bool :=
  if negb acquired then m_ret false
  else
    let* use_cursor := stream_get use_cursor_ in
    if use_cursor : bool then OpenCursor request
    else
      let* result := ExecuteImmediate request in
      let* done := stream_get immediate_done_ in
      on_stream (set_immediate result done) ;;
      match result with
      | None => ReleaseConnection true ;; m_ret false
      | Some _ => on_stream (set_immediate result false) ;; m_ret true
      end.

Lemma Open_eq request :
  Open request
  = (on_stream (set_request request (IsTupleStreamingSql (qr_text request))) ;;
     let* acquired := AcquireConnection request in open_rest request acquired).
Proof. done. Qed.

Lemma uses_open_rest request acquired : preserves uses (open_rest request acquired).
Proof.
  unfold open_rest, OpenCursor, BeginIfNeeded, ExecuteImmediate, the_connection, exec_error_text.
  use_walk.
Qed.

(** Taking the connection: a query without a session that does not wait takes one
    away from the potential. *)
Lemma uses_AcquireConnection request (s : QCall) :
  let '(o, s') := AcquireConnection request s in
  match o with
  | Stuck w => w = CvWait ∧ qr_session_id request = "" ∧ capacity (sy_pool (qc_sys s)) ≤ 0
               ∧ qc_sys s' = qc_sys s
  | _ => uses s s'
         ∧ (qr_session_id request = "" →
            potential (sy_pool (qc_sys s')) ≤ potential (sy_pool (qc_sys s)) - 1)
  end.
Proof.
  unfold AcquireConnection, m_bind at 1, on_stream, modify. simpl.
  destruct (str_empty (qr_session_id request)) eqn:Ei; simpl.
  - apply str_empty_spec in Ei. unfold m_bind at 1, sysM, zoom. simpl.
    pose proof (used_Acquire (qc_sys s)) as Ha.
    destruct (Acquire (qc_sys s)) as [[[c|]|e|w] y]; simpl; [by split; [|intros _]; apply Ha..|done|].
    destruct Ha as (-> & -> & Hc). done.
  - apply str_empty_false in Ei. unfold m_bind at 1 2, stream_get, gets, sysM, zoom. simpl.
    pose proof (GetOrCreate_pool_frame (qr_session_id request) (session_defaults_ (qc_stream s)) (qc_sys s))
      as [Hp _].
    destruct (returns_GetOrCreate (qr_session_id request) (session_defaults_ (qc_stream s)) (qc_sys s))
      as (r & y & E). rewrite E in *. destruct r as [[c|] [e|]]; (split; [by apply uses_same|done]).
Qed.
Lemma uses_Open request (s : QCall) : uses s (snd (Open request s)).
Proof.
  rewrite Open_eq. unfold m_bind at 1, on_stream, modify. set (s0 := mkQCall _ _ _).
  assert (Hs0 : uses s s0) by (by apply uses_same). pose proof (uses_AcquireConnection request s0) as Ha.
  unfold m_bind. destruct (AcquireConnection request s0) as [[b|e|w] s1]; simpl in *.
  - exact (uses_trans _ _ _ Hs0 (uses_trans _ _ _ (proj1 Ha) (uses_open_rest request b s1))).
  - exact (uses_trans _ _ _ Hs0 (proj1 Ha)).
  - apply uses_same. by destruct Ha as (_ & _ & _ & ->).
Qed.

(** Opening a query without a session takes one away from the potential, unless
    it waits. *)
Lemma Open_takes request (s : QCall) :
  let '(o, s') := Open request s in
  o ≠ Stuck CvWait →
  uses s s' ∧ (qr_session_id request = "" → potential (sy_pool (qc_sys s')) ≤ potential (sy_pool (qc_sys s)) - 1).
Proof.
  pose proof (uses_Open request s) as Hu. revert Hu. rewrite Open_eq. unfold m_bind at 1 3, on_stream, modify.
  set (s0 := mkQCall _ _ _). pose proof (uses_AcquireConnection request s0) as Ha. unfold m_bind.
  destruct (AcquireConnection request s0) as [[b|e|w] s1]; simpl in *.
  - pose proof (uses_open_rest request b s1) as Hr. destruct (open_rest request b s1) as [o s2]. simpl in *.
    intros Hu _. split; [done|]. intros Hs. destruct Hr as (_ & _ & Hr). apply Ha in Hs. lia.
  - intros Hu _. split; [done|apply Ha].
  - by destruct Ha as [-> _].
Qed.

(** ** The flags of the query *)

(** The mode stays, and no connection becomes a pooled one. *)
Definition flags (s s' : QCall) : Prop :=
  use_cursor_ (qc_stream s') = use_cursor_ (qc_stream s)
  ∧ (pooled_ (qc_stream s') = true → pooled_ (qc_stream s) = true).

#[global] Instance flags_refl : Reflexive flags.
Proof. by intros s. Qed.
#[global] Instance flags_trans : Transitive flags.
Proof. intros s1 s2 s3 [A B] [C D]. split; [congruence|auto]. Qed.

Lemma flags_sysM {A} (m : M Sys A) : preserves flags (sysM m).
Proof. intros s. unfold sysM, zoom. by destruct (m _). Qed.
Lemma flags_on_stream f :
  (∀ q, use_cursor_ (f q) = use_cursor_ q ∧ (pooled_ (f q) = true → pooled_ q = true)) →
  preserves flags (on_stream f).
Proof. intros Hf s. apply Hf. Qed.
Lemma flags_set_error e : preserves flags (set_error e).
Proof. by intros s. Qed.
Lemma flags_gets {A} (f : QCall → A) : preserves flags (gets f).
Proof. by intros s. Qed.
Lemma flags_stream_get {A} (f : StreamingQuery → A) : preserves flags (stream_get f).
Proof. by intros s. Qed.
Lemma flags_ret {A} (a : A) : preserves flags (m_ret a).
Proof. by intros s. Qed.
Lemma flags_hang {A} w : preserves flags (hang w : M QCall A).
Proof. by intros s. Qed.
Lemma flags_with_lock {A} c (m : M QCall A) : preserves flags m → preserves flags (with_lock c m).
Proof.
  intros Hm s. unfold with_lock. destruct (bool_decide _); [done|].
  specialize (Hm (put_sys (set_locked ({[pq_addr c]} ∪ sy_locked (qc_sys s)) (qc_sys s)) s)).
  simpl in *. destruct (m _) as [[a|e|w] s']; exact Hm.
Qed.
Lemma flags_ignoring {A} (m : M QCall A) : preserves flags m → preserves flags (ignoring_errors m).
Proof.
  intros Hm s. unfold ignoring_errors. specialize (Hm (mkQCall (qc_sys s) (qc_stream s) "")).
  by destruct (m _).
Qed.
#[local] Hint Resolve flags_sysM flags_set_error flags_gets flags_stream_get flags_ret flags_hang : mtdd.

Ltac flags_walk :=
  repeat first
    [ solve [eauto with mtdd]
    | by apply flags_on_stream
    | apply preserves_bind; [apply _| |intros]
    | apply flags_with_lock
    | apply flags_ignoring
    | case_match ].

Lemma flags_ReleaseConnection b : preserves flags (ReleaseConnection b).
Proof. unfold ReleaseConnection. flags_walk. Qed.
Lemma flags_EndTransaction b : preserves flags (EndTransaction b).
Proof. unfold EndTransaction, set_error_if_empty. flags_walk. Qed.
Lemma flags_CloseCursor : preserves flags CloseCursor.
Proof. unfold CloseCursor, set_error_if_empty. flags_walk. Qed.
#[local] Hint Resolve flags_ReleaseConnection flags_EndTransaction flags_CloseCursor : mtdd.
Lemma flags_Fetch : preserves flags Fetch.
Proof. unfold Fetch, FetchCursor, exec_error_text. flags_walk. Qed.
Lemma flags_Close : preserves flags Close.
Proof. unfold Close, drop_immediate. flags_walk. Qed.
Lemma flags_Abort : preserves flags Abort.
Proof. unfold Abort, drop_immediate. flags_walk. Qed.
Lemma flags_destroy : preserves flags destroy_StreamingQuery.
Proof. unfold destroy_StreamingQuery. flags_walk. Qed.
Lemma flags_open_rest request acquired : preserves flags (open_rest request acquired).
Proof.
  unfold open_rest, OpenCursor, BeginIfNeeded, ExecuteImmediate, the_connection, exec_error_text.
  flags_walk.
Qed.

Lemma AcquireConnection_flags request (s : QCall) :
  pooled_ (qc_stream s) = false →
  let '(_, s') := AcquireConnection request s in
  use_cursor_ (qc_stream s') = use_cursor_ (qc_stream s)
  ∧ (pooled_ (qc_stream s') = true → qr_session_id request = "").
Proof.
  intros Hp. unfold AcquireConnection, m_bind at 1, on_stream, modify. simpl.
  destruct (str_empty (qr_session_id request)) eqn:Ei; simpl.
  - apply str_empty_spec in Ei. unfold m_bind at 1, sysM, zoom. simpl.
    by destruct (Acquire (qc_sys s)) as [[[c|]|e|w] y].
  - unfold m_bind at 1 2, stream_get, gets, sysM, zoom. simpl.
    destruct (GetOrCreate _ _ _) as [[[[c|] [e|]]|e|w] y]; simpl; rewrite ?Hp; by split.
Qed.

(** After the opening of a new query, the flags say what was asked for. *)
Lemma Open_flags request (s : QCall) :
  pooled_ (qc_stream s) = false →
  let '(_, s') := Open request s in
  use_cursor_ (qc_stream s') = IsTupleStreamingSql (qr_text request)
  ∧ (pooled_ (qc_stream s') = true → qr_session_id request = "").
Proof.
  intros Hp. rewrite Open_eq. unfold m_bind at 1, on_stream, modify. set (s0 := mkQCall _ _ _).
  pose proof (AcquireConnection_flags request s0 Hp) as Ha. unfold m_bind.
  destruct (AcquireConnection request s0) as [[b|e|w] s1]; simpl in *; [|exact Ha..].
  pose proof (flags_open_rest request b s1) as [Hc Hq].
  destruct (open_rest request b s1) as [o s2]. simpl in *. split; [by rewrite Hc; apply Ha|].
  intros Ht. by apply Ha, Hq.
Qed.

(** ** The connection of the query *)

(** The connection and where it came from are the same. *)
Definition same_hold (s s' : QCall) : Prop :=
  connection_ (qc_stream s') = connection_ (qc_stream s) ∧ pooled_ (qc_stream s') = pooled_ (qc_stream s).

#[global] Instance same_hold_refl : Reflexive same_hold.
Proof. by intros s. Qed.
#[global] Instance same_hold_trans : Transitive same_hold.
Proof. intros s1 s2 s3 [A B] [C D]. split; congruence. Qed.

Lemma hold_sysM {A} (m : M Sys A) : preserves same_hold (sysM m).
Proof. intros s. unfold sysM, zoom. by destruct (m _). Qed.
Lemma hold_on_stream f :
  (∀ q, connection_ (f q) = connection_ q ∧ pooled_ (f q) = pooled_ q) → preserves same_hold (on_stream f).
Proof. intros Hf s. apply Hf. Qed.
Lemma hold_set_error e : preserves same_hold (set_error e).
Proof. by intros s. Qed.
Lemma hold_gets {A} (f : QCall → A) : preserves same_hold (gets f).
Proof. by intros s. Qed.
Lemma hold_stream_get {A} (f : StreamingQuery → A) : preserves same_hold (stream_get f).
Proof. by intros s. Qed.
Lemma hold_ret {A} (a : A) : preserves same_hold (m_ret a).
Proof. by intros s. Qed.
Lemma hold_hang {A} w : preserves same_hold (hang w : M QCall A).
Proof. by intros s. Qed.
Lemma hold_with_lock {A} c (m : M QCall A) : preserves same_hold m → preserves same_hold (with_lock c m).
Proof.
  intros Hm s. unfold with_lock. destruct (bool_decide _); [done|].
  specialize (Hm (put_sys (set_locked ({[pq_addr c]} ∪ sy_locked (qc_sys s)) (qc_sys s)) s)).
  simpl in *. destruct (m _) as [[a|e|w] s']; exact Hm.
Qed.
#[local] Hint Resolve hold_sysM hold_set_error hold_gets hold_stream_get hold_ret hold_hang : mtdd.

Ltac hold_walk :=
  repeat first
    [ solve [eauto with mtdd]
    | by apply hold_on_stream
    | apply preserves_bind; [apply _| |intros]
    | apply hold_with_lock
    | case_match ].

Lemma hold_EndTransaction b : preserves same_hold (EndTransaction b).
Proof. unfold EndTransaction, set_error_if_empty. hold_walk. Qed.
Lemma hold_CloseCursor : preserves same_hold CloseCursor.
Proof. unfold CloseCursor, set_error_if_empty. hold_walk. Qed.
#[local] Hint Resolve hold_EndTransaction hold_CloseCursor : mtdd.
Lemma hold_Fetch : preserves same_hold Fetch.
Proof. unfold Fetch, FetchCursor, exec_error_text. hold_walk. Qed.
Lemma hold_drop_immediate : preserves same_hold drop_immediate.
Proof. unfold drop_immediate. hold_walk. Qed.
Lemma hold_OpenCursor r : preserves same_hold (OpenCursor r).
Proof. unfold OpenCursor, BeginIfNeeded, the_connection. hold_walk. Qed.
Lemma hold_ExecuteImmediate r : preserves same_hold (ExecuteImmediate r).
Proof. unfold ExecuteImmediate, the_connection, exec_error_text. hold_walk. Qed.

(** A query without a connection is not marked as holding a pooled one. *)
Definition tidy (s : QCall) : Prop :=
  connection_ (qc_stream s) = None → pooled_ (qc_stream s) = false.

(** The query has given its connection back. *)
Definition released (s : QCall) : Prop :=
  connection_ (qc_stream s) = None ∧ pooled_ (qc_stream s) = false.

Lemma tidy_hold s s' : same_hold s s' → tidy s → tidy s'.
Proof. intros [H1 H2]. unfold tidy. by rewrite H1, H2. Qed.
Lemma tidy_hoare {A} (m : M QCall A) : preserves same_hold m → hoare tidy m (λ _, tidy) tidy (λ _, True).
Proof.
  intros Hm s Hs. specialize (Hm s). destruct (m s) as [[]]; [by eapply tidy_hold..|done].
Qed.

Lemma ReleaseConnection_released b (s s' : QCall) :
  tidy s → ReleaseConnection b s = (Ret tt, s') → released s'.
Proof.
  intros Hs E. unfold ReleaseConnection, m_bind at 1, stream_get, gets in E.
  destruct (connection_ (qc_stream s)) as [c|] eqn:Ec.
  2: { injection E as <-. split; [done|by apply Hs]. }
  apply m_bind_Ret in E as (pooled & s1 & [= <- <-] & E). apply m_bind_Ret in E as ([] & s2 & _ & E).
  apply m_bind_Ret in E as ([] & s3 & [= <-] & E). apply m_bind_Ret in E as ([] & s4 & E4 & [= <-]).
  unfold sysM, zoom in E4. destruct (drop_ref c _) as [o y]. by injection E4 as -> <-.
Qed.

Lemma tidy_release b : hoare tidy (ReleaseConnection b) (λ _, released) tidy (λ _, True).
Proof.
  intros s Hs. destruct (ReleaseConnection_runs b s) as (s' & E & _). rewrite E.
  by eapply ReleaseConnection_released.
Qed.

Lemma hoare_nothrow {A} (m : M QCall A) P Q T T' E : nothrow m → hoare P m Q T E → hoare P m Q T' E.
Proof.
  intros Hn Hm s Hs. specialize (Hm s Hs). destruct (m s) as [[a|e|w] s'] eqn:Em; [done|by apply Hn in Em|done].
Qed.

Lemma tidy_Close : hoare tidy Close (λ _, released) (λ _, False) (λ _, True).
Proof.
  apply (hoare_nothrow _ _ _ tidy); [apply nothrow_Close|]. unfold Close.
  eapply hoare_bind; [apply tidy_hoare, hold_drop_immediate|intros ?].
  eapply hoare_bind; [apply tidy_hoare; hold_walk|intros b].
  eapply hoare_bind; [apply tidy_hoare; hold_walk|intros ?]. apply tidy_release.
Qed.

Lemma tidy_Abort : hoare tidy Abort (λ _, released) (λ _, False) (λ _, True).
Proof.
  apply (hoare_nothrow _ _ _ tidy); [apply nothrow_Abort|]. intros s Hs. unfold Abort, ignoring_errors.
  match goal with |- context [?m (mkQCall _ _ _)] =>
    assert (Hm : hoare tidy m (λ _, released) tidy (λ _, True)) end.
  { eapply hoare_bind; [apply tidy_hoare, hold_drop_immediate|intros ?].
    eapply hoare_bind; [apply tidy_hoare; hold_walk|intros q].
    eapply hoare_bind; [apply tidy_hoare; hold_walk|intros ?].
    eapply hoare_bind; [apply tidy_hoare; hold_walk|intros b].
    eapply hoare_bind; [apply tidy_hoare; hold_walk|intros ?]. apply tidy_release. }
  specialize (Hm (mkQCall (qc_sys s) (qc_stream s) "") Hs).
  match goal with |- context [?m (mkQCall _ _ _)] => by destruct (m (mkQCall _ _ _)) as [[]] end.
Qed.

Lemma tidy_AcquireConnection request (s : QCall) :
  released s → let '(_, s') := AcquireConnection request s in tidy s'.
Proof.
  intros [Hc Hp]. unfold AcquireConnection, m_bind at 1, on_stream, modify. simpl.
  destruct (str_empty (qr_session_id request)) eqn:Ei; simpl.
  - unfold m_bind at 1, sysM, zoom. simpl. destruct (Acquire (qc_sys s)) as [[[c|]|e|w] y]; by intros ?.
  - unfold m_bind at 1 2, stream_get, gets, sysM, zoom. simpl.
    destruct (GetOrCreate _ _ _) as [[[[c|] [e|]]|e|w] y]; by intros ?.
Qed.

(** A query that got its connection has one, and none is refused by an exception. *)
Lemma AcquireConnection_has request (s : QCall) :
  match AcquireConnection request s with
  | (Ret b, s') => b = true → ∃ c, connection_ (qc_stream s') = Some c
  | (Throw _, _) => False
  | (Stuck _, _) => True
  end.
Proof.
  unfold AcquireConnection, m_bind at 1, on_stream, modify. simpl.
  destruct (str_empty (qr_session_id request)) eqn:Ei; simpl.
  - unfold m_bind at 1, sysM, zoom. simpl. pose proof (used_Acquire (qc_sys s)) as Ha.
    destruct (Acquire (qc_sys s)) as [[[c|]|e|w] y]; try done. intros _. by exists c.
  - unfold m_bind at 1 2, stream_get, gets, sysM, zoom. simpl.
    destruct (returns_GetOrCreate (qr_session_id request) (session_defaults_ (qc_stream s)) (qc_sys s))
      as ([[c|] [e|]] & y & ->); try done; intros _; by exists c.
Qed.

(** After the opening of a new query that has returned. *)
Lemma Open_tidy request (s s' : QCall) b :
  released s → Open request s = (Ret b, s') → tidy s'.
Proof.
  intros Hs. rewrite Open_eq. unfold m_bind at 1, on_stream, modify. set (s0 := mkQCall _ _ _).
  pose proof (tidy_AcquireConnection request s0 Hs) as Ha. unfold m_bind.
  destruct (AcquireConnection request s0) as [[a|e|w] s1]; [|done..].
  assert (Hm : hoare tidy (open_rest request a) (λ _, tidy) tidy (λ _, True)).
  { unfold open_rest. destruct a; [|by apply hoare_ret].
    eapply hoare_bind; [apply tidy_hoare; hold_walk|intros u]. destruct u; [apply tidy_hoare, hold_OpenCursor|].
    eapply hoare_bind; [apply tidy_hoare, hold_ExecuteImmediate|intros r].
    eapply hoare_bind; [apply tidy_hoare; hold_walk|intros d].
    eapply hoare_bind; [apply tidy_hoare; hold_walk|intros ?].
    destruct r; [apply tidy_hoare; hold_walk|]. eapply hoare_bind; [apply tidy_release|]. cbv beta. intros ?.
    apply hoare_ret. intros x Hx _. apply Hx. }
  specialize (Hm s1 Ha). intros E. by rewrite E in Hm.
Qed.

(** ** The handler *)

Section Handler.
Context `{FB : !FlexBuffers} (cancelled write_ok : nat → bool) (p0 : ConnectionManager).

(** The pool has come from [p0] by such steps. *)
Definition used_since (s : QCall) : Prop := used p0 (sy_pool (qc_sys s)).

Lemma used_since_keeps {A} (m : M QCall A) : preserves uses m → keeps used_since m.
Proof. intros Hm s Hs. exact (transitivity Hs (Hm s)). Qed.
Lemma used_since_clear r : keeps used_since (sysM (pg_clear r)).
Proof. apply used_since_keeps, uses_sysM. auto with mtdd. Qed.

Lemma used_since_streamed fuel wire :
  keeps (on_handler used_since)
    (try_catch (stream_loop cancelled write_ok fuel wire) (catch_block write_ok)).
Proof.
  apply keeps_stays, stays_try; [apply lift_stream_loop|intros e; apply lift_catch_block];
    intros; rewrite ?keeps_stays; auto using used_since_keeps, uses_Fetch, uses_Close, uses_Abort,
      used_since_clear.
Qed.
End Handler.

Lemma stream_body_uses `{FB : !FlexBuffers} cancelled write_ok fuel wire request h :
  used (sy_pool (qc_sys (hd_call h)))
    (sy_pool (qc_sys (hd_call (snd (stream_body cancelled write_ok fuel wire request h))))).
Proof.
  set (p0 := sy_pool (qc_sys (hd_call h))).
  assert (Hk : ∀ A (m : M QCall A), preserves uses m → keeps (on_handler (used_since p0)) (on_call m)).
  { intros A m Hm. apply keeps_stays, lift_call, keeps_stays, used_since_keeps, Hm. }
  assert (Hs : keeps (on_handler (used_since p0)) (stream_body cancelled write_ok fuel wire request)).
  { unfold stream_body. apply keeps_bind; [apply Hk; intros s; apply uses_Open|intros opened].
    apply keeps_bind.
    - destruct opened; [apply used_since_streamed|]. apply keeps_bind; [by intros x|intros e].
      apply keeps_bind; [|by intros u x]. by apply keeps_stays, lift_rpc.
    - intros st. apply keeps_bind; [apply Hk, uses_destroy|by intros u x]. }
  apply (Hs h). unfold on_handler, used_since. reflexivity.
Qed.
End PoolUse.
