(* ===== verification/ShardSafety.v ===== *)
(** * What a client sees of [QueryStream], for any server

    The order of the chunks, whatever libpq, the server and the client do; what
    a refused request leaves untouched; and the accounts of the pool. *)
From S2P Require Import Prelude CppStd Log Config Grpc Libpq Rpgb FlexMeta QueryMeta PgState PqConn.
From S2P Require Import Pool Sessions Streaming QueryExecutor Health ShardService.
Local Open Scope Z_scope.
Local Open Scope cpp_scope.

(** ** The grammar of a stream *)

(** No chunk, or the schema and then batches. *)
Definition data_part (l : list ChunkKind) : Prop :=
  l = [] ∨ ∃ n, l = CHUNK_KIND_SCHEMA :: replicate n CHUNK_KIND_BATCH.

(** The last chunk of a stream that is complete. *)
Definition terminal (k : ChunkKind) : Prop := k = CHUNK_KIND_TRAILER ∨ k = CHUNK_KIND_ERROR.

Definition complete (l : list ChunkKind) : Prop :=
  ∃ d k, l = d ++ [k] ∧ data_part d ∧ terminal k.

Definition well_formed (l : list ChunkKind) : Prop := data_part l ∨ complete l.

Section Grammar.
Context `{L : Libpq, FB : !FlexBuffers} (cancelled write_ok : nat → bool).

Definition kinds (r : RpcState) : list ChunkKind := rc_kind <$> rpc_sent r.

(** Before the last chunk: the flag says whether the schema was sent. *)
Definition streaming (h : Handler) : Prop :=
  if batch_sent h then ∃ n, kinds (hd_rpc h) = CHUNK_KIND_SCHEMA :: replicate n CHUNK_KIND_BATCH
  else kinds (hd_rpc h) = [].

Definition grammatical (h : Handler) : Prop := well_formed (kinds (hd_rpc h)).

(** With a client that accepts every write: an OK status comes with a complete
    stream, any other with an incomplete one. *)
Definition finished (st : Status) (h : Handler) : Prop :=
  grammatical h
  ∧ if status_ok st then (∀ i, write_ok i = true) → complete (kinds (hd_rpc h))
    else data_part (kinds (hd_rpc h)).

Lemma streaming_data h : streaming h → data_part (kinds (hd_rpc h)).
Proof. unfold streaming. destruct (batch_sent h); [by right|by left]. Qed.

Lemma streaming_grammatical h : streaming h → grammatical h.
Proof. intros H. left. by apply streaming_data. Qed.

(** The chunks and the flag are the same. *)
Definition same_stream (h h' : Handler) : Prop :=
  rpc_sent (hd_rpc h') = rpc_sent (hd_rpc h) ∧ batch_sent h' = batch_sent h.

Lemma same_streaming h h' : same_stream h h' → streaming h → streaming h'.
Proof. intros [H1 H2]. unfold streaming, kinds. by rewrite H1, H2. Qed.
Lemma same_grammatical h h' : same_stream h h' → grammatical h → grammatical h'.
Proof. intros [H1 H2]. unfold grammatical, kinds. by rewrite H1. Qed.
Lemma same_finished st h h' : same_stream h h' → finished st h → finished st h'.
Proof. intros [H1 H2]. unfold finished, grammatical, kinds. by rewrite H1. Qed.

Lemma same_stream_on_call {A} (m : M QCall A) : preserves same_stream (on_call m).
Proof. intros h. unfold on_call, zoom. by destruct (m (hd_call h)). Qed.
Lemma same_stream_IsCancelled : preserves same_stream (on_rpc (IsCancelled cancelled)).
Proof. by intros h. Qed.
Lemma same_stream_clear_last : preserves same_stream clear_last.
Proof.
  intros h. unfold clear_last, m_bind, gets. apply (same_stream_on_call _ h).
Qed.
Lemma same_stream_add_rows n : preserves same_stream (add_rows n).
Proof. intros h. unfold add_rows, m_bind, gets. by case_if. Qed.

(** Steps that leave the chunks alone. *)
Lemma call_streaming {A} (m : M QCall A) :
  hoare streaming (on_call m) (λ _, streaming) streaming grammatical.
Proof.
  apply (hoare_frame same_stream); [apply same_stream_on_call|apply same_streaming|
    apply streaming_grammatical|by right].
Qed.

Lemma poll_streaming :
  hoare streaming (on_rpc (IsCancelled cancelled)) (λ _, streaming) streaming grammatical.
Proof.
  apply (hoare_frame same_stream); [apply same_stream_IsCancelled|apply same_streaming|
    apply streaming_grammatical|by right].
Qed.

Lemma clear_streaming : hoare streaming clear_last (λ _, streaming) streaming grammatical.
Proof.
  apply (hoare_frame same_stream); [apply same_stream_clear_last|apply same_streaming|
    apply streaming_grammatical|by right].
Qed.

Lemma gets_streaming {A} (f : Handler → A) T E :
  hoare streaming (gets f) (λ _, streaming) T E.
Proof. by intros h. Qed.

(** The calls at the end of the stream, which do not throw. *)
Lemma call_finished {A} (m : M QCall A) st T :
  nothrow m → hoare (finished st) (on_call m) (λ _, finished st) T grammatical.
Proof.
  intros Hm. apply (hoare_frame same_stream);
    [apply same_stream_on_call|apply same_finished|by intros h []|left; by apply nothrow_zoom].
Qed.

Lemma clear_finished st T : hoare (finished st) clear_last (λ _, finished st) T grammatical.
Proof.
  apply (hoare_frame same_stream);
    [apply same_stream_clear_last|apply same_finished|by intros h []|left].
  apply nothrow_bind; [by intros|]. intros r. apply nothrow_zoom, nothrow_zoom, returns_nothrow.
  auto with mtdd.
Qed.

(** The terminal chunks. *)
Lemma finish_with k h meta :
  terminal k → streaming h →
  finished Status_OK (set_rpc (mkRpcState
    (if write_ok (rpc_writes (hd_rpc h)) then rpc_sent (hd_rpc h) ++ [mkResultChunk k meta ""]
     else rpc_sent (hd_rpc h)) (rpc_writes (hd_rpc h) + 1) (rpc_polls (hd_rpc h))) h).
Proof.
  intros Hk Hs%streaming_data. unfold finished, grammatical, well_formed, kinds in *. simpl.
  destruct (write_ok (rpc_writes (hd_rpc h))) eqn:Ew.
  - assert (Hc : complete (rc_kind <$> rpc_sent (hd_rpc h) ++ [mkResultChunk k meta ""])).
    { rewrite fmap_app. by eexists _, _. }
    split; [by right|done].
  - split; [by left|]. intros Hw. by rewrite Hw in Ew.
Qed.

Lemma error_chunk_finishes m T E :
  hoare streaming (on_rpc (WriteErrorChunk write_ok m)) (λ _, finished Status_OK) T E.
Proof. intros h Hs. apply finish_with; [by right|done]. Qed.

Lemma trailer_finishes t T E :
  hoare streaming (on_rpc (WriteResultChunk write_ok CHUNK_KIND_TRAILER (EncodeResultTrailer t) ""))
    (λ ok h, if ok then finished Status_OK h else streaming h) T E.
Proof.
  intros h Hs. unfold WriteResultChunk.
  rewrite (proj2 (str_empty_false (EncodeResultTrailer t))) by apply flex_buffer_nonempty.
  pose proof (finish_with CHUNK_KIND_TRAILER h (EncodeResultTrailer t)) as Hf.
  unfold on_rpc, zoom, Write. simpl.
  destruct (write_ok (rpc_writes (hd_rpc h))); [apply Hf; [by left|done]|done].
Qed.

Lemma streaming_cancelled msg h : streaming h → finished (mkStatus CANCELLED msg) h.
Proof. intros Hs. split; [by apply streaming_grammatical|by apply streaming_data]. Qed.

(** [hoare_bind] for a first step that keeps [streaming]. *)
Ltac step_keep H := eapply hoare_bind; [apply H|]; cbv beta; intros.

Lemma cancelled_status_finishes :
  hoare streaming (cancelled_status cancelled) finished streaming grammatical.
Proof.
  step_keep poll_streaming. apply hoare_ret. intros h. apply streaming_cancelled.
Qed.

Lemma batch_chunk_streaming payload :
  hoare streaming (SendBatchChunk cancelled write_ok payload) (λ _, streaming) streaming grammatical.
Proof.
  unfold SendBatchChunk. destruct (str_empty payload) eqn:Ep; [by apply hoare_ret|].
  step_keep poll_streaming. destruct a; [by apply hoare_ret|].
  intros h Hs. unfold m_bind, gets, on_rpc, zoom, WriteResultChunk. rewrite Ep. simpl.
  unfold streaming in Hs. unfold Write.
  destruct (write_ok (rpc_writes (hd_rpc h))) eqn:Ew; simpl; unfold streaming, kinds in *; simpl;
    [|by destruct (batch_sent h)].
  rewrite fmap_app. destruct (batch_sent h).
  - destruct Hs as [n ->]. exists (S n). by rewrite replicate_S_end.
  - rewrite Hs. by exists 0%nat.
Qed.

Lemma encode_streaming r a b :
  hoare streaming (EncodeRawPgBatch (S := Handler) r a b) (λ _, streaming) streaming grammatical.
Proof.
  apply (hoare_frame eq); [apply EncodeRawPgBatch_pure|by intros s s' ->|
    apply streaming_grammatical|by right].
Qed.

Lemma add_rows_streaming n : hoare streaming (add_rows n) (λ _, streaming) streaming grammatical.
Proof.
  apply (hoare_frame same_stream); [apply same_stream_add_rows|apply same_streaming|
    apply streaming_grammatical|by right].
Qed.

Lemma send_batches_streaming fuel fetch n wire rb :
  hoare streaming (send_batches cancelled write_ok fuel fetch n wire rb)
    (λ r h, match r with Some st => finished st h | None => streaming h end)
    streaming grammatical.
Proof.
  revert rb. induction fuel as [|fuel IH]; intros rb; cbn [send_batches].
  { apply hoare_hang, streaming_grammatical. }
  destruct (_ <? _); [|by apply hoare_ret].
  destruct (_ <? _); [apply hoare_hang, streaming_grammatical|].
  step_keep encode_streaming. step_keep add_rows_streaming. step_keep batch_chunk_streaming.
  destruct a1; cbn [negb]; [apply IH|].
  step_keep @call_streaming. step_keep cancelled_status_finishes. by apply hoare_ret.
Qed.

Lemma command_step_finishes fetch :
  hoare streaming (command_step write_ok fetch)
    (λ f h, match f with Return st => finished st h | _ => streaming h end) streaming grammatical.
Proof.
  unfold command_step. step_keep trailer_finishes. destruct a; simpl.
  - step_keep clear_finished.
    eapply hoare_bind; [apply hoare_modify with (Q := λ _, finished Status_OK);
      intros h; by apply same_finished|]; cbv beta; intros.
    step_keep (call_finished Close Status_OK streaming nothrow_Close). by apply hoare_ret.
  - step_keep @call_streaming. apply hoare_ret. intros h. apply streaming_cancelled.
Qed.

Lemma tuples_step_streaming wire fetch :
  hoare streaming (tuples_step cancelled write_ok wire fetch)
    (λ f h, match f with Return st => finished st h | _ => streaming h end) streaming grammatical.
Proof.
  unfold tuples_step. step_keep @gets_streaming. destruct (_ && _); [by apply hoare_ret|].
  eapply hoare_bind with (Q := λ _, streaming).
  { destruct (negb a); [|by apply hoare_ret]. apply hoare_modify. intros h. by apply same_streaming. }
  intros _. destruct (_ =? _); [by apply hoare_ret|].
  step_keep send_batches_streaming. apply hoare_ret. by destruct a0.
Qed.

Lemma fetch_step_streaming wire :
  hoare streaming (fetch_step cancelled write_ok wire)
    (λ f h, match f with Return st => finished st h | _ => streaming h end) streaming grammatical.
Proof.
  unfold fetch_step. step_keep poll_streaming. destruct a.
  { step_keep @call_streaming. apply hoare_ret. intros h. apply streaming_cancelled. }
  step_keep @call_streaming. destruct a as [fetch|].
  - step_keep clear_streaming.
    eapply hoare_bind with (Q := λ _, streaming);
      [apply hoare_modify; intros h; by apply same_streaming|intros _].
    destruct (_ && _).
    + step_keep error_chunk_finishes.
      step_keep (call_finished Abort Status_OK streaming nothrow_Abort). by apply hoare_ret.
    + destruct (_ =? _); [apply command_step_finishes|apply tuples_step_streaming].
  - step_keep @gets_streaming. destruct (negb _); [|by apply hoare_ret].
    step_keep error_chunk_finishes.
    step_keep (call_finished Abort Status_OK streaming nothrow_Abort). by apply hoare_ret.
Qed.

Lemma after_loop_finishes :
  hoare streaming (after_loop cancelled write_ok) finished streaming grammatical.
Proof.
  unfold after_loop. eapply hoare_bind with (Q := λ _, streaming); [by intros h|intros h0].
  eapply hoare_bind with (Q := λ _, streaming).
  { destruct (_ && _); [|by apply hoare_ret]. step_keep encode_streaming.
    apply batch_chunk_streaming. }
  intros []; cbn [negb].
  - step_keep trailer_finishes. destruct a; cbn [negb].
    + step_keep clear_finished.
      eapply hoare_bind; [apply hoare_modify with (Q := λ _, finished Status_OK);
        intros h; by apply same_finished|]; cbv beta; intros.
      step_keep (call_finished Close Status_OK streaming nothrow_Close). by apply hoare_ret.
    + step_keep @call_streaming. apply hoare_ret. intros h. apply streaming_cancelled.
  - step_keep @call_streaming. apply cancelled_status_finishes.
Qed.

Lemma stream_loop_finishes fuel wire :
  hoare streaming (stream_loop cancelled write_ok fuel wire) finished streaming grammatical.
Proof.
  induction fuel as [|fuel IH]; cbn [stream_loop]; [apply hoare_hang, streaming_grammatical|].
  step_keep fetch_step_streaming. destruct a as [| |st];
    [exact IH|exact after_loop_finishes|by apply hoare_ret].
Qed.

Lemma catch_block_finishes e :
  hoare streaming (catch_block write_ok e) finished grammatical grammatical.
Proof.
  eapply hoare_conseq with (T' := streaming) (Q' := finished) (E' := grammatical);
    [|done|done|apply streaming_grammatical|done].
  unfold catch_block. step_keep clear_streaming. step_keep @call_streaming.
  step_keep error_chunk_finishes. by apply hoare_ret.
Qed.

Lemma stream_body_finishes fuel wire request :
  hoare streaming (stream_body cancelled write_ok fuel wire request) finished
    grammatical grammatical.
Proof.
  unfold stream_body. eapply hoare_bind with (Q := λ _, streaming).
  { eapply hoare_conseq; [apply call_streaming|done|done|apply streaming_grammatical|done]. }
  intros opened. eapply hoare_bind with (Q := finished).
  - destruct (negb opened).
    + step_keep @gets_streaming. step_keep error_chunk_finishes. by apply hoare_ret.
    + eapply hoare_try; [apply stream_loop_finishes|apply catch_block_finishes].
  - intros st. eapply hoare_bind with (Q := λ _, finished st); [|intros _; by apply hoare_ret].
    apply (hoare_frame same_stream);
      [apply same_stream_on_call|apply same_finished|by intros h []|by right; intros h []].
Qed.

Lemma run_stream_finishes fuel config_ params request (s : QState) :
  qs_rpc s = new_rpc →
  match run_stream cancelled write_ok fuel config_ params request s with
  | (Ret st, s') =>
      well_formed (kinds (qs_rpc s'))
      ∧ (if status_ok st then (∀ i, write_ok i = true) → complete (kinds (qs_rpc s'))
         else data_part (kinds (qs_rpc s')))
  | (_, s') => well_formed (kinds (qs_rpc s'))
  end.
Proof.
  intros Hr. unfold run_stream.
  set (wire := if 0 <? pg_wire_batch_rows _ then _ else _).
  set (h := new_handler _ _ _ _).
  pose proof (stream_body_finishes fuel wire request h) as H.
  destruct (stream_body _ _ _ _ _ h) as [[st|e|w] h']; simpl; apply H; unfold streaming, h; simpl;
    by rewrite Hr.
Qed.

(** A computation on the service leaves the stream alone. *)
Lemma on_shard_rpc {A} (m : M Shard A) s : qs_rpc (snd (on_shard m s)) = qs_rpc s.
Proof. unfold on_shard, zoom. by destruct (m (qs_shard s)). Qed.

Lemma query_body_finishes fuel config_ request (s : QState) :
  qs_rpc s = new_rpc →
  match query_body cancelled write_ok fuel config_ request s with
  | (Ret st, s') =>
      well_formed (kinds (qs_rpc s'))
      ∧ (if status_ok st then (∀ i, write_ok i = true) → complete (kinds (qs_rpc s'))
         else data_part (kinds (qs_rpc s')))
  | (_, s') => well_formed (kinds (qs_rpc s'))
  end.
Proof.
  intros Hr. unfold query_body, m_bind at 1.
  set (m := check_host_index config_ (qr_host_index request)).
  pose proof (on_shard_rpc m s) as Hm.
  assert (Hempty : ∀ r, r = new_rpc → data_part (kinds r)) by (intros ? ->; by left).
  destruct (on_shard m s) as [[refused|e|w] s1]; simpl in Hm; rewrite Hr in Hm.
  2,3: left; auto.
  destruct refused as [msg|]; [simpl; split; [left|]; auto|].
  destruct (EnsureQueryRequest request); [simpl; split; [left|]; auto|].
  case_if; [simpl; split; [left|]; auto|]. unfold m_bind, get.
  destruct (executor_ (qs_shard s1)); [|simpl; split; [left|]; auto].
  destruct (connect_params_ (qs_shard s1)); [|simpl; split; [left|]; auto].
  by apply run_stream_finishes.
Qed.

(** For every libpq, every server behaviour and every client, the chunks of
    a [QueryStream] call are a schema followed by batches, or nothing, and then
    at most one trailer or error chunk, also when the call never returns.
    When it returns and the client accepted every write, an OK status means
    that the stream ends in its trailer or error, and any other status that
    there is neither. *)
Theorem QueryStream_grammar fuel config_ request ms (s : QState) :
  qs_rpc s = new_rpc →
  match QueryStream cancelled write_ok fuel config_ request ms s with
  | (Ret st, s') =>
      well_formed (kinds (qs_rpc s'))
      ∧ (if status_ok st then (∀ i, write_ok i = true) → complete (kinds (qs_rpc s'))
         else data_part (kinds (qs_rpc s')))
  | (_, s') => well_formed (kinds (qs_rpc s'))
  end.
Proof.
  intros Hr. pose proof (query_body_finishes fuel config_ request s Hr) as Hb.
  unfold QueryStream, m_bind at 1.
  destruct (query_body _ _ _ _ _ s) as [[st|e|w] s1]; [|exact Hb..]. exact Hb.
Qed.

End Grammar.

(** ** Requests that are refused *)

(** The request passes the check of the shard's index. *)
Definition host_accepted (config_ : ServerConfig) (i : Z) : Prop :=
  match Config.host_index config_ with
  | None => production_mode config_ = false
  | Some expected => i = expected
  end.

#[global] Instance host_accepted_dec config_ i : Decision (host_accepted config_ i).
Proof. unfold host_accepted. destruct (Config.host_index config_); apply _. Defined.

Lemma ValidateHostIndex_accepted config_ i cerr :
  fst (ValidateHostIndex config_ i cerr) = None ↔ host_accepted config_ i.
Proof.
  unfold ValidateHostIndex, host_accepted. destruct (Config.host_index config_) as [e|].
  - destruct (i =? e) eqn:E; simpl; split; try done; lia.
  - destruct (production_mode config_); simpl; split; done.
Qed.

(** A request that [Connect] does not refuse before it connects. *)
Record connectable (config_ : ServerConfig) (request : ConnectRequest) : Prop := {
  cn_host : host_accepted config_ (cr_host_index request);
  cn_dbname : ResolveDbName request ≠ "";
  cn_user : cr_user request ≠ "";
}.

#[global] Instance connectable_dec config_ request : Decision (connectable config_ request).
Proof.
  destruct (decide (host_accepted config_ (cr_host_index request) ∧ ResolveDbName request ≠ ""
    ∧ cr_user request ≠ "")) as [(H1 & H2 & H3)|Hn]; [by left|right]. by intros [H1 H2 H3]; apply Hn.
Defined.

Section Handlers.
Context `{L : Libpq, FB : !FlexBuffers} (cancelled write_ok : nat → bool).

(** The states are equal up to the log. *)
Definition same_but_log (s s' : Shard) : Prop :=
  sh_sys s' = sh_sys s ∧ health_monitor_ s' = health_monitor_ s
  ∧ connect_params_ s' = connect_params_ s ∧ executor_ s' = executor_ s.

Lemma check_host_index_runs config_ i (s : Shard) :
  ∃ s', check_host_index config_ i s = (Ret (fst (ValidateHostIndex config_ i (sh_cerr s))), s')
    ∧ same_but_log s s'.
Proof.
  unfold check_host_index, m_bind, gets. destruct (ValidateHostIndex _ _ _) as [r l].
  by eexists.
Qed.

(** C24: a [QueryStream] request for another shard, with a statement name, with
    the text format, with a text over the limit, or before a successful
    [Connect], is refused with an error status; nothing is sent, the stream
    is not polled, and neither the pool, the sessions nor libpq is touched. *)
Theorem QueryStream_refuses fuel config_ request ms (s : QState) :
  (¬ host_accepted config_ (qr_host_index request) ∨ qr_name request ≠ ""
   ∨ qr_result_format request ≠ 1
   ∨ max_query_text_bytes config_ < to_int32 (str_size (qr_text request))
   ∨ executor_ (qs_shard s) = None ∨ connect_params_ (qs_shard s) = None) →
  ∃ st s', QueryStream cancelled write_ok fuel config_ request ms s = (Ret st, s')
    ∧ status_ok st = false ∧ qs_rpc s' = qs_rpc s ∧ same_but_log (qs_shard s) (qs_shard s').
Proof.
  intros Hbad.
  enough (∃ st s', query_body cancelled write_ok fuel config_ request s = (Ret st, s')
    ∧ status_ok st = false ∧ qs_rpc s' = qs_rpc s ∧ same_but_log (qs_shard s) (qs_shard s'))
    as (st & s' & E & H1 & H2 & H3).
  { unfold QueryStream. rewrite (m_bind_run _ _ _ _ _ E). by eexists _, _. }
  destruct (check_host_index_runs config_ (qr_host_index request) (qs_shard s)) as (x & Ex & Hx).
  assert (Es : on_shard (check_host_index config_ (qr_host_index request)) s
    = (Ret (fst (ValidateHostIndex config_ (qr_host_index request) (sh_cerr (qs_shard s)))),
       mkQState x (qs_rpc s))) by (unfold on_shard, zoom; by rewrite Ex).
  unfold query_body. rewrite (m_bind_run _ _ _ _ _ Es).
  destruct (fst (ValidateHostIndex _ _ _)) as [m|] eqn:Ev; [by eexists _, _|].
  apply ValidateHostIndex_accepted in Ev.
  destruct (EnsureQueryRequest request) as [m|] eqn:Eq; [by eexists _, _|].
  unfold EnsureQueryRequest in Eq. destruct (str_empty (qr_name request)) eqn:En; [|done].
  apply str_empty_spec in En. destruct (qr_result_format request =? 1) eqn:Ef; [|done].
  destruct (_ <? _) eqn:El; [by eexists _, _|]. unfold m_bind, get. simpl.
  pose proof Hx as (Hx1 & Hx2 & Hx3 & Hx4). rewrite Hx3, Hx4.
  destruct (executor_ (qs_shard s)); [|by eexists _, _].
  destruct (connect_params_ (qs_shard s)); [|by eexists _, _].
  exfalso. destruct Hbad as [?|[?|[?|[?|[?|?]]]]]; [done|done|lia|lia|done|done].
Qed.

(** The checks of [QueryStream] pass, and [params] are the credentials it finds. *)
Record accepted (config_ : ServerConfig) (request : QueryRequest) (params : ConnectParams)
    (s : Shard) : Prop := {
  acc_host : fst (ValidateHostIndex config_ (qr_host_index request) (sh_cerr s)) = None;
  acc_request : EnsureQueryRequest request = None;
  acc_text : (max_query_text_bytes config_ <? to_int32 (str_size (qr_text request))) = false;
  acc_executor : is_Some (executor_ s);
  acc_params : connect_params_ s = Some params;
}.

(** It goes through to [run_stream]. *)
Lemma QueryStream_accepted fuel config_ request params ms (s : QState) :
  accepted config_ request params (qs_shard s) →
  ∃ x, same_but_log (qs_shard s) x
    ∧ ∀ st s1, run_stream cancelled write_ok fuel config_ params request (mkQState x (qs_rpc s))
               = (Ret st, s1) →
      ∃ s', QueryStream cancelled write_ok fuel config_ request ms s = (Ret st, s')
        ∧ qs_rpc s' = qs_rpc s1 ∧ sh_sys (qs_shard s') = sh_sys (qs_shard s1).
Proof.
  intros [Hh Hr Ht [ex Hex] Hp].
  destruct (check_host_index_runs config_ (qr_host_index request) (qs_shard s)) as (x & Ex & Hx).
  exists x. split; [done|]. intros st s1 Hrun.
  assert (Es : on_shard (check_host_index config_ (qr_host_index request)) s
    = (Ret None, mkQState x (qs_rpc s))).
  { unfold on_shard, zoom. rewrite Ex. by rewrite Hh. }
  unfold QueryStream. rewrite (m_bind_run (query_body _ _ _ _ _) _ _ st s1).
  - unfold m_bind, on_shard, zoom, timer_end, gets, set_cerr, modify. simpl. by eexists.
  - unfold query_body. rewrite (m_bind_run _ _ _ _ _ Es).
    rewrite Hr, Ht. unfold m_bind, get. simpl. destruct Hx as (_ & _ & -> & ->). by rewrite Hex, Hp.
Qed.

(** [Disconnect] never touches the pool, the sessions, the health monitor or
    libpq; it succeeds exactly for the server's own shard index. *)
Theorem Disconnect_non_destructive config_ request (s : Shard) :
  ∃ st r s', Disconnect config_ request s = (Ret (st, r), s') ∧ same_but_log s s'
    ∧ (status_ok st = true ↔ host_accepted config_ (dr_host_index request))
    ∧ dresp_ok r = status_ok st.
Proof.
  unfold Disconnect.
  destruct (check_host_index_runs config_ (dr_host_index request) s) as (x & Ex & Hx).
  rewrite (m_bind_run _ _ _ _ _ Ex).
  pose proof (ValidateHostIndex_accepted config_ (dr_host_index request) (sh_cerr s)) as Hv.
  destruct (fst (ValidateHostIndex _ _ _)) as [m|].
  - eexists _, _, _. split; [reflexivity|]. split_and!; [done| |done]. split; [done|].
    intros H. by apply Hv in H.
  - unfold m_bind, gets, set_cerr, modify. simpl. eexists _, _, _. split; [reflexivity|].
    split; [exact Hx|]. split; [|done]. simpl. tauto.
Qed.

(** ** Connect *)

Lemma same_but_log_timer e ms (s : Shard) :
  ∃ s', timer_end e ms s = (Ret tt, s') ∧ same_but_log s s'.
Proof. unfold timer_end, m_bind, gets, set_cerr, modify. by eexists. Qed.

Lemma on_health_runs (m : M HState unit) (s : Shard) :
  (∀ h, ∃ h', m h = (Ret tt, h') ∧ frame (hs_sys h) (hs_sys h')) →
  ∃ s', on_health m s = (Ret tt, s') ∧ frame (sh_sys s) (sh_sys s')
    ∧ connect_params_ s' = connect_params_ s ∧ executor_ s' = executor_ s.
Proof.
  intros Hm. unfold on_health. destruct (health_monitor_ s) as [h|]; [|by exists s].
  destruct (Hm (mkHState (sh_sys s) h (sh_cerr s))) as (h' & -> & Hf). by eexists.
Qed.

(** The one connection attempt that [Connect] makes for a request, in the state it
    makes it in: the pool already has the request's parameters. *)
Definition connect_run (config_ : ServerConfig) (request : ConnectRequest) (s : Shard)
  : outcome (string + PqConnection) * Sys :=
  let params := BuildConnectParams config_ request in
  PqConnection_Connect params 0
    (set_pool (Configure_section params (pool_size config_) (sy_pool (sh_sys s))) (sh_sys s)).

Definition connect_attempt (config_ : ServerConfig) (request : ConnectRequest) (s : Shard)
  : outcome (string + PqConnection) := fst (connect_run config_ request s).

Definition pool_of (s : Shard) : ConnectionManager := sy_pool (sh_sys s).

(** The database side after the health monitor, if there is one, has made its
    probe with new parameters; [l] is the log so far. *)
Definition after_probe (config_ : ServerConfig) (params : ConnectParams) (s : Shard) (y : Sys)
    (l : list string) : Sys :=
  match health_monitor_ s with
  | None => y
  | Some h => hs_sys (snd (OnConnectSuccess params (statement_timeout_ms config_) (mkHState y h l)))
  end.

Lemma after_probe_frame config_ params s y l : frame y (after_probe config_ params s y l).
Proof.
  unfold after_probe. destruct (health_monitor_ s) as [h|]; [|done].
  destruct (OnConnectSuccess_runs params (statement_timeout_ms config_) (mkHState y h l))
    as (h' & -> & Hf). exact Hf.
Qed.

(** An accepted request: the answer and the state after it. *)
Definition connect_done (config_ : ServerConfig) (request : ConnectRequest) (s : Shard)
    (r : ConnectResponse) (s' : Shard) : Prop :=
  let params := BuildConnectParams config_ request in
  match connect_run config_ request s with
  | (Ret (inr c), y) =>
      r = mkConnectResponse true "connected"
      ∧ connect_params_ s' = Some params ∧ executor_ s' = Some params
      ∧ ∃ l, sh_sys s' = after_probe config_ params s (set_pool (push_idle c (sy_pool y)) y) l
  | (Ret (inl e), y) =>
      r = mkConnectResponse false e
      ∧ connect_params_ s' = connect_params_ s ∧ executor_ s' = executor_ s ∧ sh_sys s' = y
  | _ => False
  end.

Lemma Connect_runs_accepted config_ request ms (s : Shard) :
  host_accepted config_ (cr_host_index request) →
  ResolveDbName request ≠ "" → cr_user request ≠ "" →
  ∃ r s', Connect config_ request ms s = (Ret (Status_OK, r), s') ∧ connect_done config_ request s r s'.
Proof.
  intros Hh Hd Hu. unfold connect_done. set (params := BuildConnectParams config_ request).
  unfold Connect, connect_body. rewrite !m_bind_assoc.
  destruct (check_host_index_runs config_ (cr_host_index request) s) as (x & Ex & Hx1 & Hx2 & Hx3 & Hx4).
  rewrite (proj2 (ValidateHostIndex_accepted _ _ _) Hh) in Ex. rewrite (m_bind_run _ _ _ _ _ Ex).
  fold params. cbv zeta. change (cp_dbname params) with (ResolveDbName request).
  change (cp_user params) with (cr_user request).
  rewrite (proj2 (str_empty_false _) Hd), (proj2 (str_empty_false _) Hu). cbn [orb].
  rewrite m_bind_assoc. unfold m_bind at 1, sysM at 1, zoom, Configure, on_pool, modify. simpl.
  unfold connect_run. fold params. rewrite <-Hx1. set (y0 := set_pool _ (sh_sys x)).
  destruct (Connect_runs params 0 y0) as (o & y & E & _). rewrite E.
  assert (Ep : sysM Pool.Connect (put_sys y0 x) = match o with
    | inl e => (Ret (Some e), put_sys y x)
    | inr c => (Ret None, put_sys (set_pool (push_idle c (sy_pool y)) y) x) end).
  { unfold sysM, zoom, Pool.Connect, m_bind at 1, gets. simpl. rewrite (m_bind_run _ _ _ _ _ E).
    by destruct o. }
  change (mkShard y0 (health_monitor_ x) (connect_params_ x) (executor_ x) (sh_cerr x)) with (put_sys y0 x).
  rewrite m_bind_assoc. unfold m_bind at 1. rewrite Ep. destruct o as [e|c].
  - assert (Eh : ∃ x1, on_health (on_monitor OnConnectFailure) (put_sys y x) = (Ret tt, x1)
      ∧ sh_sys x1 = y ∧ connect_params_ x1 = connect_params_ s ∧ executor_ x1 = executor_ s).
    { unfold on_health. simpl. destruct (health_monitor_ x); eexists; (split; [reflexivity|]); simpl; auto. }
    destruct Eh as (x1 & E2 & H1 & H2 & H3). rewrite m_bind_assoc, (m_bind_run _ _ _ _ _ E2), m_bind_ret_l.
    destruct (same_but_log_timer "connect" ms x1) as (x2 & E3 & H4 & H5 & H6 & H7).
    rewrite (m_bind_run _ _ _ _ _ E3). eexists _, _. split; [reflexivity|]. split_and!; congruence.
  - rewrite m_bind_assoc. unfold m_bind at 1, modify. set (y2 := set_pool _ y). simpl.
    set (x1 := mkShard _ _ _ _ _).
    assert (Eh : ∃ x2, on_health (OnConnectSuccess params (statement_timeout_ms config_)) x1 = (Ret tt, x2)
      ∧ sh_sys x2 = after_probe config_ params s y2 (sh_cerr x)
      ∧ connect_params_ x2 = Some params ∧ executor_ x2 = Some params).
    { unfold on_health, after_probe, x1. simpl. rewrite Hx2. destruct (health_monitor_ s) as [h|]; [|by eexists].
      destruct (OnConnectSuccess_runs params (statement_timeout_ms config_) (mkHState y2 h (sh_cerr x)))
        as (h' & -> & _). by eexists. }
    destruct Eh as (x2 & E2 & H1 & H2 & H3). rewrite m_bind_assoc, (m_bind_run _ _ _ _ _ E2), m_bind_ret_l.
    destruct (same_but_log_timer "connect" ms x2) as (x3 & E3 & H4 & H5 & H6 & H7).
    rewrite (m_bind_run _ _ _ _ _ E3). eexists _, _. split; [reflexivity|].
    split_and!; [done|congruence|congruence|]. exists (sh_cerr x). congruence.
Qed.

(** The pool has the request's parameters, whatever became of the attempt. *)
Lemma connect_done_pool config_ request s r s' :
  connect_done config_ request s r s' →
  params_ (pool_of s') = BuildConnectParams config_ request
  ∧ in_use_ (pool_of s') = in_use_ (pool_of s) ∧ sy_sessions (sh_sys s') = sy_sessions (sh_sys s).
Proof.
  unfold connect_done, pool_of. set (params := BuildConnectParams config_ request).
  pose proof (frame_Connect params 0 (set_pool (Configure_section params (pool_size config_)
    (sy_pool (sh_sys s))) (sh_sys s))) as Hf. unfold connect_run. fold params.
  destruct (PqConnection_Connect _ _ _) as [[[e|c]|?|?] y]; try done; simpl in Hf;
    destruct Hf as (Hs & Hp & _).
  - intros (_ & _ & _ & ->). by rewrite Hs, Hp.
  - intros (_ & _ & _ & l & ->).
    destruct (after_probe_frame config_ params s (set_pool (push_idle c (sy_pool y)) y) l) as (H1 & H2 & _).
    rewrite H1, H2. simpl. by rewrite Hs, Hp.
Qed.

(** A request that is refused before any connection is attempted. *)
Lemma Connect_refused config_ request ms (s : Shard) :
  ¬ connectable config_ request →
  ∃ msg s', Connect config_ request ms s = (Ret (Status_OK, mkConnectResponse false msg), s')
    ∧ same_but_log s s'.
Proof.
  intros Hbad. unfold Connect, connect_body. rewrite m_bind_assoc.
  destruct (check_host_index_runs config_ (cr_host_index request) s) as (x & Ex & Hx).
  rewrite (m_bind_run _ _ _ _ _ Ex).
  pose proof (ValidateHostIndex_accepted config_ (cr_host_index request) (sh_cerr s)) as Hv.
  assert (Hend : ∀ msg, ∃ msg0 s', m_bind (m_ret (Status_OK, mkConnectResponse false msg))
    (λ r, timer_end "connect" ms ;; m_ret r) x
    = (Ret (Status_OK, mkConnectResponse false msg0), s') ∧ same_but_log s s').
  { intros msg. rewrite m_bind_ret_l. destruct (same_but_log_timer "connect" ms x) as (x2 & E3 & H3).
    rewrite (m_bind_run _ _ _ _ _ E3). eexists _, _. split; [reflexivity|].
    unfold same_but_log in *. intuition congruence. }
  destruct (fst (ValidateHostIndex _ _ _)) as [m|]; [apply Hend|]. simpl.
  destruct (str_empty (ResolveDbName request)) eqn:Ed; [apply Hend|].
  destruct (str_empty (cr_user request)) eqn:Eu; [apply Hend|].
  apply str_empty_false in Ed, Eu. destruct Hbad. split; [by apply Hv|done..].
Qed.

(** C23: a [Connect] request is refused without any effect when its index, its
    database or its user is not acceptable. Otherwise the request's parameters,
    with the server's own PostgreSQL host, become those of the pool, and one
    connection is attempted with them. If it succeeds, the connection joins the
    idle queue, the parameters become those of the service and the health
    monitor makes one probe with them. If it fails, its error is the answer, and
    the service keeps the parameters it had, while the pool does not: nothing
    else has changed but what libpq did. *)
Theorem Connect_behaviour config_ request ms (s : Shard) :
  let params := BuildConnectParams config_ request in
  (¬ host_accepted config_ (cr_host_index request) ∨ ResolveDbName request = ""
   ∨ cr_user request = "" →
   ∃ msg s', Connect config_ request ms s = (Ret (Status_OK, mkConnectResponse false msg), s')
     ∧ same_but_log s s')
  ∧ (host_accepted config_ (cr_host_index request) → ResolveDbName request ≠ "" →
     cr_user request ≠ "" →
     cp_pg_host params = pg_host config_
     ∧ ∃ r s', Connect config_ request ms s = (Ret (Status_OK, r), s') ∧ params_ (pool_of s') = params
     ∧ match PqConnection_Connect params 0
               (set_pool (Configure_section params (pool_size config_) (pool_of s)) (sh_sys s)) with
       | (Ret (inr c), y) =>
           r = mkConnectResponse true "connected"
           ∧ connect_params_ s' = Some params ∧ executor_ s' = Some params
           ∧ ∃ l, sh_sys s' = after_probe config_ params s (set_pool (push_idle c (sy_pool y)) y) l
       | (Ret (inl e), y) =>
           r = mkConnectResponse false e
           ∧ connect_params_ s' = connect_params_ s ∧ executor_ s' = executor_ s ∧ sh_sys s' = y
       | _ => False
       end).
Proof.
  intros params. split.
  { intros Hbad. apply Connect_refused. intros []. by destruct Hbad as [|[|]]. }
  intros Hh Hd Hu. split; [done|].
  destruct (Connect_runs_accepted config_ request ms s Hh Hd Hu) as (r & s' & E & H).
  exists r, s'. split; [done|]. split; [apply (connect_done_pool _ _ _ _ _ H)|exact H].
Qed.

(** A [Connect] request that fails still replaces the parameters of the
    pool: the service reports the failure and keeps serving, but every new
    pooled connection is then attempted with the refused credentials. *)
Theorem failed_Connect_replaces_pool_params config_ request ms (s : Shard) e :
  host_accepted config_ (cr_host_index request) → ResolveDbName request ≠ "" →
  cr_user request ≠ "" → connect_attempt config_ request s = Ret (inl e) →
  ∃ s', Connect config_ request ms s = (Ret (Status_OK, mkConnectResponse false e), s')
    ∧ connect_params_ s' = connect_params_ s
    ∧ params_ (pool_of s') = BuildConnectParams config_ request.
Proof.
  intros Hh Hd Hu Ha.
  destruct (Connect_runs_accepted config_ request ms s Hh Hd Hu) as (r & s' & E & H).
  destruct (connect_done_pool _ _ _ _ _ H) as [Hp _]. unfold connect_attempt, connect_done in *.
  destruct (connect_run config_ request s) as [o y]. simpl in Ha. subst o.
  destruct H as (-> & H & _). by exists s'.
Qed.

End Handlers.
