(* ===== verification/ShardSlots.v ===== *)
(** * The pool's slots across [QueryStream]

    A call that opens its query gives the pool slot back on every path; a
    cursor query that cannot be opened keeps it for ever. *)
From S2P Require Import Prelude CppStd Log Config Grpc Libpq Rpgb FlexMeta QueryMeta PgState PqConn.
From S2P Require Import Pool Sessions Streaming QueryExecutor Health ShardService Lift ShardSafety.
Local Open Scope Z_scope.
Local Open Scope cpp_scope.

Section Slots.
Context `{L : Libpq, FB : !FlexBuffers} (cancelled write_ok : nat → bool).

(** The query may hold a slot, [k] are held by others; no mutex is held. *)
Definition live (k : Z) (s : QCall) : Prop := other_slots s = k ∧ sy_locked (qc_sys s) = ∅.

(** The query holds no connection and [k] slots are in use. *)
Definition closed (k : Z) (s : QCall) : Prop :=
  connection_ (qc_stream s) = None ∧ in_use_ (sy_pool (qc_sys s)) = k ∧ sy_locked (qc_sys s) = ∅.

Lemma call_live {A} k (m : M QCall A) T E :
  runs m → preserves same_slots m → hoare (live k) m (λ _, live k) T E.
Proof.
  intros Hr Hs s [Hk Hl]. specialize (Hs s). destruct (Hr s Hl) as (a & s' & E' & Hl').
  rewrite E' in *. unfold same_slots in Hs. split; [simpl in *; congruence|done].
Qed.

Lemma slot_Close k T E : hoare (live k) Close (λ _, closed k) T E.
Proof.
  intros s [Hk Hl]. destruct (Close_slot _ (closable_unlocked _ Hl)) as (s' & -> & H1 & H2 & H3).
  split_and!; congruence.
Qed.
Lemma slot_Abort k T E : hoare (live k) Abort (λ _, closed k) T E.
Proof.
  intros s [Hk Hl]. destruct (Abort_slot _ (nothing_locked _ _ Hl)) as (s' & -> & H1 & H2 & H3).
  split_and!; congruence.
Qed.

(** Whatever ends the loop, the slot is given back. *)
Lemma streamed_slot k fuel wire T :
  hoare (on_handler (live k))
    (try_catch (stream_loop cancelled write_ok fuel wire) (catch_block write_ok))
    (λ _, on_handler (closed k)) T anything.
Proof.
  apply streamed_closes.
  - apply call_live; [apply runs_Fetch|apply same_slots_Fetch].
  - intros r. apply call_live.
    + apply runs_intro; [apply returns_zoom|apply locks_kept_sysM, frame_locks]; auto with mtdd.
    + apply same_slots_sysM. auto with mtdd.
  - apply slot_Close.
  - apply slot_Abort.
Qed.

(** A statement without a cursor that cannot be opened has given its connection
    back. *)
Lemma AcquireConnection_fails r (s s1 : QCall) :
  AcquireConnection r s = (Ret false, s1) → connection_ (qc_stream s1) = None.
Proof.
  unfold AcquireConnection, m_bind at 1, on_stream, modify. case_if.
  - intros E. apply m_bind_Ret in E as (d & s2 & _ & E). apply m_bind_Ret in E as ([c e] & s3 & _ & E).
    unfold m_bind, m_ret in E. simpl in E. destruct e, c; simpl in E; by simplify_eq/=.
  - intros E. apply m_bind_Ret in E as (c & s3 & _ & E).
    unfold m_bind, m_ret in E. simpl in E. destruct c; by simplify_eq/=.
Qed.

Lemma Open_immediate_fails r (s s1 : QCall) :
  IsTupleStreamingSql (qr_text r) = false → Open r s = (Ret false, s1) →
  connection_ (qc_stream s1) = None.
Proof.
  intros Hr. unfold Open, m_bind at 1, on_stream, modify. rewrite Hr. intros E.
  set (s0 := mkQCall _ _ _) in E.
  assert (Hc0 : use_cursor_ (qc_stream s0) = false) by done. clearbody s0.
  apply m_bind_Ret in E as (b & s2 & Ea & E). destruct b; simpl in E.
  2: { injection E as <-. by eapply AcquireConnection_fails. }
  assert (Hc2 : use_cursor_ (qc_stream s2) = false).
  { revert Ea. unfold AcquireConnection, m_bind at 1, on_stream, modify. case_if; intros E2.
    - apply m_bind_Ret in E2 as (d & s3 & [= <- <-] & E2).
      apply m_bind_Ret in E2 as ([c e] & s4 & E3 & E2). unfold sysM, zoom in E3.
      destruct (GetOrCreate _ _ _) as [o y]. injection E3 as -> <-.
      unfold m_bind, m_ret in E2. simpl in E2. destruct e, c; simpl in E2; by simplify_eq/=.
    - apply m_bind_Ret in E2 as (c & s4 & E3 & E2). unfold sysM, zoom in E3.
      destruct (Acquire _) as [o y]. injection E3 as -> <-.
      unfold m_bind, m_ret in E2. simpl in E2. destruct c; by simplify_eq/=. }
  unfold m_bind at 1, stream_get, gets in E. rewrite Hc2 in E.
  apply m_bind_Ret in E as (res & s3 & _ & E). unfold m_bind at 1 2 in E. simpl in E.
  destruct res as [r0|]; [done|].
  apply m_bind_Ret in E as ([] & s4 & E & [= <-]).
  match type of E with ReleaseConnection _ ?st = _ =>
    destruct (ReleaseConnection_runs true st) as (s5 & E5 & H5 & _) end.
  rewrite E in E5. by injection E5 as <-.
Qed.

(** The destructor of a query that holds nothing. *)
Lemma destroy_closed k h h' :
  on_handler (closed k) h → on_call destroy_StreamingQuery h = (Ret tt, h') → on_handler (closed k) h'.
Proof.
  intros (H1 & H2 & H3). unfold on_call, zoom, destroy_StreamingQuery, m_bind, stream_get, gets.
  rewrite H1. intros [= <-]. by split_and!.
Qed.

Lemma stream_body_slot fuel wire request h k st h' :
  on_handler (closed k) h →
  IsTupleStreamingSql (qr_text request) = false ∨ fst (Open request (hd_call h)) = Ret true →
  stream_body cancelled write_ok fuel wire request h = (Ret st, h') → on_handler (closed k) h'.
Proof.
  intros (Hc & Hk & Hl) Hopen. unfold stream_body, m_bind at 1, on_call at 1, zoom.
  pose proof (same_slots_Open request (hd_call h) Hc) as Hs.
  pose proof (Open_immediate_fails request (hd_call h)) as Hi.
  pose proof (locks_kept_Open request (hd_call h)) as Hk1.
  destruct (Open request (hd_call h)) as [[b|e|w] c1]; [|done..].
  simpl in Hs, Hopen. specialize (Hk1 b c1 eq_refl). simpl in Hk1.
  assert (Hlive : on_handler (live k) (set_call c1 h)).
  { unfold on_handler, live, same_slots in *. simpl. rewrite Hs, Hk1. unfold other_slots. rewrite Hc.
    split; [lia|done]. }
  destruct b; simpl.
  - intros E. apply m_bind_Ret in E as (st1 & h1 & E1 & E2).
    pose proof (streamed_slot k fuel wire anything _ Hlive) as H1. rewrite E1 in H1.
    apply m_bind_Ret in E2 as ([] & h2 & E2 & [= <- <-]). by eapply destroy_closed.
  - assert (Hn : connection_ (qc_stream c1) = None).
    { apply Hi; [|done]. by destruct Hopen. }
    assert (Hcl : closed k c1).
    { unfold on_handler, live, other_slots, closed in *. simpl in *. rewrite Hn in *.
      destruct Hlive. split_and!; [done|lia|done]. }
    intros E. apply m_bind_Ret in E as (st1 & h1 & E1 & E2).
    apply m_bind_Ret in E1 as (e & h0 & [= <- <-] & E1).
    apply m_bind_Ret in E1 as ([] & h3 & E1 & [= <- <-]).
    apply m_bind_Ret in E2 as ([] & h2 & E2 & [= <- <-]). eapply destroy_closed; [|exact E2].
    unfold on_rpc, zoom in E1. destruct (WriteErrorChunk _ _ _) as [o r]. by injection E1 as -> <-.
Qed.

(** The state in which [QueryStream] opens its query. *)
Definition query_start (config_ : ServerConfig) (params : ConnectParams) (y : Sys) : QCall :=
  mkQCall y (new_StreamingQuery params
    (if 0 <? pg_fetch_rows config_ then pg_fetch_rows config_ else 10000)) "".

(** A call that returns was refused, or has run its query. *)
Lemma QueryStream_inv fuel config_ request ms (s s' : QState) st :
  QueryStream cancelled write_ok fuel config_ request ms s = (Ret st, s') →
  same_but_log (qs_shard s) (qs_shard s')
  ∨ ∃ params h', connect_params_ (qs_shard s) = Some params
    ∧ stream_body cancelled write_ok fuel
        (if 0 <? pg_wire_batch_rows config_ then pg_wire_batch_rows config_ else 1000) request
        (new_handler (sh_sys (qs_shard s)) (qs_rpc s) params
           (if 0 <? pg_fetch_rows config_ then pg_fetch_rows config_ else 10000)) = (Ret st, h')
    ∧ sh_sys (qs_shard s') = qc_sys (hd_call h')
    ∧ health_monitor_ (qs_shard s') = health_monitor_ (qs_shard s)
    ∧ connect_params_ (qs_shard s') = connect_params_ (qs_shard s)
    ∧ executor_ (qs_shard s') = executor_ (qs_shard s)
    ∧ qs_rpc s' = hd_rpc h'.
Proof.
  intros E. unfold QueryStream in E. apply m_bind_Ret in E as (st0 & s1 & E & E1).
  unfold m_bind, on_shard, zoom, timer_end, m_bind, gets, set_cerr, modify in E1. simpl in E1.
  injection E1 as <- <-. unfold query_body in E. apply m_bind_Ret in E as (refused & s2 & Eh & E).
  destruct (check_host_index_runs config_ (qr_host_index request) (qs_shard s)) as (x & Ex & Hx).
  unfold on_shard, zoom in Eh. rewrite Ex in Eh. injection Eh as <- <-.
  destruct (fst _); [left; by injection E as <- <-|].
  destruct (EnsureQueryRequest request); [left; by injection E as <- <-|].
  destruct (max_query_text_bytes config_ <? _); [left; by injection E as <- <-|].
  unfold m_bind, get in E. simpl in E. pose proof Hx as (Hx1 & Hx2 & Hx3 & Hx4). rewrite Hx3, Hx4 in E.
  destruct (executor_ (qs_shard s)); [|left; by injection E as <- <-].
  destruct (connect_params_ (qs_shard s)) as [params|]; [|left; by injection E as <- <-].
  right. exists params. unfold run_stream in E. simpl in E. rewrite Hx1 in E.
  destruct (stream_body _ _ _ _ _ _) as [o h']. injection E as -> <-. exists h'.
  split; [done|]. split; [done|]. by rewrite <-Hx2, <-Hx3, <-Hx4.
Qed.

(** C6: a [QueryStream] call that returns has given its pool slot back, on every
    path (rows sent, errors, cancellation, exceptions), provided its query was
    opened or needs no cursor: [in_use_] is what it was. *)
Theorem QueryStream_returns_slot fuel config_ request ms (s s' : QState) st :
  sy_locked (sh_sys (qs_shard s)) = ∅ →
  IsTupleStreamingSql (qr_text request) = false
  ∨ (∀ params, connect_params_ (qs_shard s) = Some params →
       fst (Open request (query_start config_ params (sh_sys (qs_shard s)))) = Ret true) →
  QueryStream cancelled write_ok fuel config_ request ms s = (Ret st, s') →
  in_use_ (pool_of (qs_shard s')) = in_use_ (pool_of (qs_shard s)).
Proof.
  intros Hl Hopen E. unfold pool_of.
  apply QueryStream_inv in E as [(-> & _)|(params & h' & Hp & E & -> & _)]; [done|].
  apply (stream_body_slot _ _ _ _ (in_use_ (pool_of (qs_shard s)))) in E; [|by split_and!|].
  - by destruct E as (_ & H & _).
  - destruct Hopen as [|Hopen]; [by left|right; by apply Hopen].
Qed.

(** ** A cursor query that cannot begin *)

Lemma Acquire_idle_run (y : Sys) c rest :
  idle_ (sy_pool y) = c :: rest →
  Acquire y = (Ret (Some c),
    set_refs (c :: sy_refs y)
      (set_pool (set_in_use (in_use_ (sy_pool y) + 1) (set_idle rest (sy_pool y))) y)).
Proof.
  intros Hi. unfold Acquire, m_bind at 1, gets, Acquire_section. by rewrite Hi.
Qed.

(** The state after [AcquireConnection] in [Open], for a pooled query and an idle
    connection. *)
Definition acquired (cursor : bool) (request : QueryRequest) (c : PqConnection)
    (rest : list PqConnection) (s : QCall) : QCall :=
  mkQCall (set_refs (c :: sy_refs (qc_sys s))
             (set_pool (set_in_use (in_use_ (sy_pool (qc_sys s)) + 1)
                          (set_idle rest (sy_pool (qc_sys s)))) (qc_sys s)))
    (set_pooled true (set_connection (Some c)
       (set_use_session false (set_request request cursor (qc_stream s))))) (qc_error s).

Lemma AcquireConnection_acquired cursor request c rest (s : QCall) :
  qr_session_id request = "" → idle_ (sy_pool (qc_sys s)) = c :: rest →
  AcquireConnection request
    (mkQCall (qc_sys s) (set_request request cursor (qc_stream s)) (qc_error s))
  = (Ret true, acquired cursor request c rest s).
Proof.
  intros Hs Hi. unfold AcquireConnection. rewrite Hs. simpl. unfold m_bind at 1, on_stream, modify.
  simpl. unfold m_bind at 1, sysM, zoom. simpl. by rewrite (Acquire_idle_run _ _ _ Hi).
Qed.

Lemma Open_acquired request c rest (s : QCall) :
  IsTupleStreamingSql (qr_text request) = true → qr_session_id request = "" →
  idle_ (sy_pool (qc_sys s)) = c :: rest →
  Open request s = OpenCursor request (acquired true request c rest s).
Proof.
  intros Hc Hs Hi. unfold Open, m_bind at 1, on_stream, modify. rewrite Hc.
  by rewrite (m_bind_run _ _ _ _ _ (AcquireConnection_acquired true request c rest s Hs Hi)).
Qed.

Lemma Open_begin_fails request c rest raw res w1 (s : QCall) :
  IsTupleStreamingSql (qr_text request) = true → qr_session_id request = "" →
  idle_ (sy_pool (qc_sys s)) = c :: rest → pq_conn_ c = Some raw → sy_locked (qc_sys s) = ∅ →
  PQtransactionStatus raw (sy_pg (qc_sys s)) = PQTRANS_IDLE →
  PQexec raw "BEGIN" (sy_pg (qc_sys s)) = (res, w1) → result_status res ≠ PGRES_COMMAND_OK →
  ∃ w2, Open request s
    = (Ret false, mkQCall (set_pg w2 (qc_sys (acquired true request c rest s)))
                    (qc_stream (acquired true request c rest s)) (result_error res)).
Proof.
  intros Hcur Hsid Hi Hraw Hl Htx Hb Hbad. set (s1 := acquired true request c rest s).
  destruct (BeginIfNeeded_fails_run (qc_sys s1) (qc_stream s1) (qc_error s1) c raw)
    with (res := res) (w1 := w1) as (w2 & Eb); [done|done|simpl; rewrite Hl; set_solver|done..|].
  exists w2. rewrite (Open_acquired request c rest) by done. unfold OpenCursor.
  by rewrite (m_bind_run _ _ _ _ _ Eb).
Qed.

(** The destructor of a query that still has its connection drops the
    reference, and nothing else. *)
Lemma destroy_drops h c refs :
  connection_ (qc_stream (hd_call h)) = Some c → sy_refs (qc_sys (hd_call h)) = c :: refs →
  ∃ h', on_call destroy_StreamingQuery h = (Ret tt, h')
    ∧ sy_pool (qc_sys (hd_call h')) = sy_pool (qc_sys (hd_call h))
    ∧ sy_refs (qc_sys (hd_call h')) = refs.
Proof.
  intros Hc Hr. unfold on_call, zoom, destroy_StreamingQuery, m_bind, stream_get, gets. rewrite Hc.
  unfold on_stream, sysM, zoom, drop_ref, m_bind, modify. simpl. rewrite Hr. simpl.
  unfold same_conn. rewrite Nat.eqb_refl. set (y2 := set_refs _ _).
  destruct (returns_destroy c y2) as ([] & y3 & E3).
  pose proof (frame_destroy c y2) as (_ & Hp & _ & Hrf & _). rewrite E3 in *. by eexists.
Qed.

(** The handler when [Open] fails with a connection in hand. *)
Lemma stream_body_not_opened fuel wire request h c refs q :
  Open request (hd_call h) = (Ret false, q) →
  connection_ (qc_stream q) = Some c → sy_refs (qc_sys q) = c :: refs →
  ∃ h', stream_body cancelled write_ok fuel wire request h = (Ret Status_OK, h')
    ∧ sy_pool (qc_sys (hd_call h')) = sy_pool (qc_sys q)
    ∧ sy_refs (qc_sys (hd_call h')) = refs.
Proof.
  intros Ho Hc Hr.
  assert (Eh : on_call (Open request) h = (Ret false, set_call q h)).
  { unfold on_call, zoom. by rewrite Ho. }
  unfold stream_body. rewrite (m_bind_run _ _ _ _ _ Eh). cbn [negb].
  unfold m_bind at 1. unfold m_bind at 1, exec_error, gets. unfold m_bind at 1, on_rpc, zoom. simpl.
  match goal with |- context [set_rpc ?r (set_call q h)] =>
    destruct (destroy_drops (set_rpc r (set_call q h)) c refs Hc Hr) as (h' & Ed & H) end.
  rewrite (m_bind_run _ _ _ _ _ Ed). by eexists.
Qed.

(** When BEGIN fails on a pooled connection (the server has restarted, say),
    the client gets an error chunk and an OK status, but the slot of the pool
    is never given back: [in_use_] has grown and the connection is neither
    idle nor held by anyone. *)
Theorem QueryStream_leaks_slot fuel config_ request params ms (s : QState) c rest raw res w1 :
  accepted config_ request params (qs_shard s) → sy_locked (sh_sys (qs_shard s)) = ∅ →
  IsTupleStreamingSql (qr_text request) = true → qr_session_id request = "" →
  idle_ (pool_of (qs_shard s)) = c :: rest → pq_conn_ c = Some raw →
  PQtransactionStatus raw (sy_pg (sh_sys (qs_shard s))) = PQTRANS_IDLE →
  PQexec raw "BEGIN" (sy_pg (sh_sys (qs_shard s))) = (res, w1) →
  result_status res ≠ PGRES_COMMAND_OK →
  ∃ s', QueryStream cancelled write_ok fuel config_ request ms s = (Ret Status_OK, s')
    ∧ in_use_ (pool_of (qs_shard s')) = in_use_ (pool_of (qs_shard s)) + 1
    ∧ idle_ (pool_of (qs_shard s')) = rest
    ∧ sy_refs (sh_sys (qs_shard s')) = sy_refs (sh_sys (qs_shard s)).
Proof.
  intros Hacc Hl Hcur Hsid Hidle Hraw Htx Hbegin Hbad.
  destruct (QueryStream_accepted cancelled write_ok fuel config_ request params ms s Hacc)
    as (x & (Hx & _) & Hrun). unfold pool_of in *. rewrite <-Hx in *.
  set (h0 := new_handler (sh_sys x) (qs_rpc s) params
    (if 0 <? pg_fetch_rows config_ then pg_fetch_rows config_ else 10000)).
  set (wire := if 0 <? pg_wire_batch_rows config_ then pg_wire_batch_rows config_ else 1000) in *.
  destruct (Open_begin_fails request c rest raw res w1 (hd_call h0)) as (w2 & Ho); try done.
  destruct (stream_body_not_opened fuel wire request h0 c (sy_refs (sh_sys x)) _ Ho)
    as (h' & E2 & Hp & Hr); [done..|].
  destruct (Hrun Status_OK (mkQState (put_sys (qc_sys (hd_call h')) x) (hd_rpc h')))
    as (s' & Es & _ & Hs').
  { unfold run_stream. simpl. fold h0 wire. by rewrite E2. }
  exists s'. split; [exact Es|]. rewrite Hs'. simpl. by rewrite Hp, Hr.
Qed.

End Slots.
