(* ===== verification/Service.v ===== *)
(** * The shard service over its whole life

    Sequences of [Connect], [QueryStream] and [Disconnect] calls on one service
    object: what holds between any two calls, and how the service's state
    follows from the history of calls and answers. *)
From S2P Require Import Prelude CppStd Log Config Grpc Libpq Rpgb FlexMeta QueryMeta PgState PqConn.
From S2P Require Import Pool Sessions Streaming Handles QueryExecutor Health Queries ShardService.
From S2P Require Import Lift PoolUse ShardSafety ShardSlots.
Local Open Scope Z_scope.
Local Open Scope cpp_scope.

(** ** The handler keeps the handles in order *)

Section Handler.
Context `{L : Libpq, FB : !FlexBuffers, HL : !HandleLog L} (cancelled write_ok : nat → bool).
(** The references of the other calls, and those of them that are pooled. *)
Context (others pooled : list PqConnection) (Hsub : pooled ⊆ others).

Definition safe_handler : Handler → Prop := on_handler (safe_call others pooled).

Lemma sh_streamed fuel wire :
  keeps safe_handler (try_catch (stream_loop cancelled write_ok fuel wire) (catch_block write_ok)).
Proof.
  apply keeps_stays, stays_try; [apply lift_stream_loop|intros e; apply lift_catch_block];
    intros; rewrite ?keeps_stays; auto using keeps_Fetch, keeps_Close, keeps_Abort, keeps_sys_clear.
Qed.

Lemma stream_body_safe fuel wire request h st h' :
  safe_with others pooled None (hd_call h) →
  stream_body cancelled write_ok fuel wire request h = (Ret st, h') →
  safe others pooled (qc_sys (hd_call h')).
Proof.
  intros Hs E. unfold stream_body in E. apply m_bind_Ret in E as (b & h1 & E1 & E).
  apply m_bind_Ret in E as (st1 & h2 & E2 & E). apply m_bind_Ret in E as ([] & h3 & E3 & [= <- <-]).
  assert (H1 : safe_handler h1).
  { unfold on_call, zoom in E1. pose proof (Open_safe others pooled ltac:(done) request _ Hs) as Ho.
    destruct (Open request (hd_call h)) as [o s1]. by injection E1 as -> <-. }
  assert (H2 : safe_handler h2).
  { pose proof (sh_streamed fuel wire h1 H1) as Hl.
    destruct b; simpl in E2; [by rewrite E2 in Hl|].
    apply m_bind_Ret in E2 as (e & h0 & [= <- <-] & E2). apply m_bind_Ret in E2 as ([] & h4 & E2 & [= <- <-]).
    pose proof (lift_rpc (safe_call others pooled) _ (λ s H, H) (WriteErrorChunk write_ok
      (error_message_meta (qc_error (hd_call h1)))) h1 H1) as Hr. by rewrite E2 in Hr. }
  unfold on_call, zoom in E3. pose proof (destroy_safe others pooled ltac:(done) _ H2) as Hd.
  destruct (destroy_StreamingQuery (hd_call h2)) as [o s3]. injection E3 as -> <-.
  pose proof Hd as [_ Hn]. by apply safe_with_None in Hd.
Qed.
End Handler.

(** ** At most one slot is lost *)

Section Slots.
Context `{L : Libpq, FB : !FlexBuffers} (cancelled write_ok : nat → bool).

Lemma destroy_pool (s : QCall) :
  ∃ s', destroy_StreamingQuery s = (Ret tt, s') ∧ sy_pool (qc_sys s') = sy_pool (qc_sys s)
    ∧ sy_locked (qc_sys s') = sy_locked (qc_sys s).
Proof.
  unfold destroy_StreamingQuery, m_bind at 1, stream_get, gets.
  destruct (connection_ (qc_stream s)) as [c|]; [|by exists s].
  unfold m_bind, on_stream, modify, sysM, zoom. simpl.
  destruct (drop_ref_runs c (qc_sys s)) as (y' & -> & Hp & Hl). by eexists.
Qed.

(** The slot is given back, except by a cursor query that could not be opened: its
    client has got an error chunk at most. *)
Definition loses (request : QueryRequest) (sent : list ResultChunk) : Prop :=
  IsTupleStreamingSql (qr_text request) = true ∧ qr_session_id request = "" ∧ (length sent ≤ 1)%nat.

Lemma stream_body_loses fuel wire request h k st h' :
  on_handler (closed k) h → pooled_ (qc_stream (hd_call h)) = false → rpc_sent (hd_rpc h) = [] →
  stream_body cancelled write_ok fuel wire request h = (Ret st, h') →
  sy_locked (qc_sys (hd_call h')) = ∅
  ∧ (in_use_ (sy_pool (qc_sys (hd_call h'))) = k
     ∨ in_use_ (sy_pool (qc_sys (hd_call h'))) = k + 1 ∧ loses request (rpc_sent (hd_rpc h'))).
Proof.
  intros (Hc & Hk & Hl) Hpo Hse E. unfold stream_body in E. apply m_bind_Ret in E as (b & h1 & E1 & E).
  apply m_bind_Ret in E as (st1 & h2 & E2 & E). apply m_bind_Ret in E as ([] & h3 & E3 & [= <- <-]).
  unfold on_call, zoom in E3. destruct (destroy_pool (hd_call h2)) as (s3 & Ed & Hp3 & Hl3).
  rewrite Ed in E3. injection E3 as <-. simpl. rewrite Hp3, Hl3. clear Ed Hp3 Hl3 s3.
  unfold on_call, zoom in E1. pose proof (same_slots_Open request (hd_call h) Hc) as Hs.
  pose proof (locks_kept_Open request (hd_call h)) as Hk1.
  pose proof (Open_flags request (hd_call h) Hpo) as Hf.
  pose proof (Open_immediate_fails request (hd_call h)) as Hi.
  destruct (Open request (hd_call h)) as [o c1]. injection E1 as -> <-.
  specialize (Hk1 b c1 eq_refl). simpl in Hs, Hk1. destruct Hf as [_ Hf].
  assert (Ho : other_slots c1 = k) by (rewrite Hs; unfold other_slots; rewrite Hc; lia).
  destruct b; simpl in E2.
  - pose proof (streamed_slot cancelled write_ok k fuel wire anything (set_call c1 h)) as Hx.
    rewrite E2 in Hx. destruct Hx as (_ & Hx & Hx'); [|split; [done|by left]].
    split; simpl; [done|by rewrite Hk1].
  - apply m_bind_Ret in E2 as (e & h0 & [= <- <-] & E2).
    apply m_bind_Ret in E2 as ([] & h4 & E2 & [= <- <-]). unfold on_rpc, zoom, WriteErrorChunk, Write in E2.
    simpl in E2. rewrite Hse in E2. injection E2 as <-. simpl. split; [by rewrite Hk1|].
    unfold other_slots in Ho. destruct (connection_ (qc_stream c1)) as [c|] eqn:Ec; [|left; lia].
    destruct (pooled_ (qc_stream c1)); [right; split; [lia|]|left; lia]. split_and!; [|by apply Hf|].
    + destruct (IsTupleStreamingSql (qr_text request)) eqn:Et; [done|]. specialize (Hi c1 eq_refl eq_refl). congruence.
    + destruct (write_ok _); simpl; lia.
Qed.
End Slots.

(** ** Histories *)

Inductive rpc_call :=
| CallConnect (request : ConnectRequest) (ms : Z)
| CallQuery (cancelled write_ok : nat → bool) (fuel : nat) (request : QueryRequest) (ms : Z)
| CallDisconnect (request : DisconnectRequest).

Inductive rpc_answer :=
| AnsConnect (st : Status) (response : ConnectResponse)
| AnsQuery (st : Status) (sent : list ResultChunk)
| AnsDisconnect (st : Status) (response : DisconnectResponse).

(** A query that may have lost its slot: one for a cursor on the pool, to which the
    client got an error chunk at most. *)
Definition may_lose (p : rpc_call * rpc_answer) : bool :=
  match p with
  | (CallQuery _ _ _ request _, AnsQuery _ sent) =>
      IsTupleStreamingSql (qr_text request) && str_empty (qr_session_id request)
      && (length sent <=? 1)%nat
  | _ => false
  end.

Lemma may_lose_query cancelled write_ok fuel request ms st sent :
  loses request sent → may_lose (CallQuery cancelled write_ok fuel request ms, AnsQuery st sent) = true.
Proof.
  intros (H1 & H2 & Hl). simpl. rewrite H1, H2. by apply Nat.leb_le.
Qed.

Section Service.
Context `{L : Libpq, FB : !FlexBuffers} (config_ : ServerConfig).

(** One call on the service, with a new stream for its answer. *)
Definition serve (call : rpc_call) : M Shard rpc_answer :=
  match call with
  | CallConnect request ms =>
      let* r := Connect config_ request ms in m_ret (AnsConnect r.1 r.2)
  | CallDisconnect request =>
      let* r := Disconnect config_ request in m_ret (AnsDisconnect r.1 r.2)
  | CallQuery cancelled write_ok fuel request ms => λ s,
      let '(o, q) := QueryStream cancelled write_ok fuel config_ request ms (mkQState s new_rpc) in
      (match o with
       | Ret st => Ret (AnsQuery st (rpc_sent (qs_rpc q)))
       | Throw e => Throw e
       | Stuck w => Stuck w
       end, qs_shard q)
  end.

(** The calls that were answered, in order. *)
Inductive serves : Shard → list (rpc_call * rpc_answer) → Shard → Prop :=
| serves_nil s : serves s [] s
| serves_snoc s l s1 call answer s2 :
    serves s l s1 → serve call s1 = (Ret answer, s2) → serves s (l ++ [(call, answer)]) s2.




(** ** The state follows from the history *)













(** ** Between two calls *)

Context `{HL : !HandleLog L}.

(** No call runs: nobody holds a connection or a mutex, [k] slots are in use. *)
Definition quiet (k : Z) (y : Sys) : Prop :=
  safe [] [] y ∧ sy_locked y = ∅ ∧ in_use_ (sy_pool y) = k.

Lemma quiet_frame k s s' : frame s s' → safe [] [] s' → quiet k s → quiet k s'.
Proof. intros (_ & Hp & _ & _ & Hl & _) Hs (_ & H2 & H3). unfold quiet. by rewrite Hp, Hl. Qed.

Lemma quiet_Configure k params size : keeps (quiet k) (Configure params size).
Proof. intros s (H1 & H2 & H3). split; [by apply Configure_safe|done]. Qed.

Lemma quiet_Connect k : keeps (quiet k) Pool.Connect.
Proof.
  intros s (H1 & H2 & H3). split; [by apply pool_Connect_safe|].
  unfold Pool.Connect, m_bind at 1 3, gets. unfold m_bind.
  destruct (Connect_runs (params_ (sy_pool s)) 0 s) as (r & s1 & -> & (_ & Hp & _ & _ & Hl & _)).
  destruct r; simpl; rewrite Hp, Hl; done.
Qed.

Lemma quiet_probe k params ms : keeps (quiet k) (probe_connection params ms).
Proof.
  intros s Hs. destruct (probe_connection_runs params ms s) as (s' & E & Hf). pose proof Hs as [H1 _].
  pose proof (probe_safe [] [] params ms s H1) as Hp. rewrite E in *.
  by apply (quiet_frame _ s).
Qed.

Definition quiet_shard (k : Z) (s : Shard) : Prop := quiet k (sh_sys s).

Lemma quiet_sysM {A} k (m : M Sys A) : keeps (quiet k) m → keeps (quiet_shard k) (sysM m).
Proof.
  intros Hm s Hs. unfold sysM, zoom. specialize (Hm (sh_sys s) Hs). simpl.
  by destruct (m (sh_sys s)).
Qed.

Lemma quiet_on_health k (m : M HState unit) :
  keeps (λ h, quiet k (hs_sys h)) m → keeps (quiet_shard k) (on_health m).
Proof.
  intros Hm s Hs. unfold on_health. destruct (health_monitor_ s) as [h|]; [|done].
  specialize (Hm (mkHState (sh_sys s) h (sh_cerr s)) Hs). by destruct (m _).
Qed.

Lemma quiet_OnConnectSuccess k params ms :
  keeps (λ h, quiet k (hs_sys h)) (OnConnectSuccess params ms).
Proof.
  unfold OnConnectSuccess, ProbeOnce. repeat first
    [ by intros ? | apply keeps_bind; [|intros] | case_match ].
  intros h Hh. unfold sysM, zoom. pose proof (quiet_probe k a1 a2 (hs_sys h) Hh) as Hq. simpl.
  by destruct (probe_connection _ _ _).
Qed.

Lemma quiet_shard_Connect k request ms : keeps (quiet_shard k) (Connect config_ request ms).
Proof.
  unfold Connect, connect_body, check_host_index, timer_end, set_cerr. repeat first
    [ by intros ?
    | apply quiet_sysM, quiet_Configure
    | apply quiet_sysM, quiet_Connect
    | apply quiet_on_health; first [apply quiet_OnConnectSuccess|by intros h]
    | apply keeps_bind; [|intros]
    | case_match ].
Qed.

(** A call that is answered leaves the service quiet; a query may have lost its
    slot. *)
Lemma serve_quiet call s answer s' k :
  serve call s = (Ret answer, s') → quiet_shard k s →
  ∃ k', quiet_shard k' s' ∧ k ≤ k' ≤ k + (if may_lose (call, answer) then 1 else 0).
Proof.
  intros E Hq. destruct call as [request ms|cancelled write_ok fuel request ms|request]; simpl in *.
  - apply m_bind_Ret in E as ([st r] & s1 & E & [= <- <-]). exists k. split; [|lia].
    pose proof (quiet_shard_Connect k request ms s Hq) as H. by rewrite E in H.
  - destruct (QueryStream _ _ _ _ _ _ _) as [[st| |] q] eqn:Eq; [|done..]. injection E as <- <-.
    unfold quiet_shard.
    apply QueryStream_inv in Eq as [(-> & _)|(params & h & _ & Eb & -> & _ & _ & _ & ->)];
      [exists k; split; [done|destruct (_ && _); lia]|].
    destruct Hq as (H1 & H2 & H3).
    pose proof Eb as Es. apply (stream_body_safe _ _ [] []) in Es; [|done|by apply safe_with_None].
    apply (stream_body_loses _ _ _ _ _ _ k) in Eb as [Hl Hk]; [|by split_and!|done|done].
    exists (in_use_ (sy_pool (qc_sys (hd_call h)))). split; [by split_and!|].
    destruct Hk as [->|[-> Hk]]; [destruct (_ && _); lia|].
    pose proof (may_lose_query cancelled write_ok fuel request ms st _ Hk) as Hm. simpl in Hm. rewrite Hm. lia.
  - apply m_bind_Ret in E as ([st r] & s1 & E & [= <- <-]). exists k. split; [|lia].
    destruct (Disconnect_non_destructive config_ request s) as (st1 & r1 & s2 & E2 & (H1 & _) & _).
    rewrite E in E2. injection E2 as <- <- <-. unfold quiet_shard. by rewrite H1.
Qed.

Definition losses (l : list (rpc_call * rpc_answer)) : nat :=
  length (filter (λ p, may_lose p = true) l).

Lemma serves_quiet mon w cerr l s :
  max_sessions config_ ≤ INT_MAX → open_handles w = [] → ¬ misused w →
  serves (new_Shard config_ mon w cerr) l s →
  ∃ k, quiet_shard k s ∧ 0 ≤ k ≤ Z.of_nat (losses l).
Proof.
  intros Hm Ho Hw Hs. remember (new_Shard config_ mon w cerr) as s0 eqn:E0.
  induction Hs as [s0|s0 l s1 call answer s2 Hs IH E]; subst.
  - exists 0. split; [|done]. split; [|done].
    by apply (server_safe_reachable w (max_sessions config_) (server_start w (max_sessions config_)));
      [..|apply rtc_refl].
  - destruct IH as (k & Hq & Hk); [done|]. destruct (serve_quiet _ _ _ _ k E Hq) as (k' & Hq' & Hk').
    exists k'. split; [done|]. unfold losses in *. rewrite filter_app, length_app. simpl.
    destruct (may_lose (call, answer)) eqn:Eq;
      [rewrite filter_cons_True by done|rewrite filter_cons_False by (by rewrite Eq)]; simpl; lia.
Qed.

(** C7: the invariant of the service. Between any two calls, whatever was asked
    and whatever the server answered: no reference and no mutex is left behind
    by a finished call, the session table is within its limit, [in_use_] is not
    negative and counts at most one lost slot per cursor query on the pool that
    was answered with an error chunk at most, and the open handles are exactly
    those of the idle and the session connections, which are all different. *)
Theorem service_invariant mon w cerr l s :
  max_sessions config_ ≤ INT_MAX → open_handles w = [] → ¬ misused w →
  serves (new_Shard config_ mon w cerr) l s →
  let y := sh_sys s in
  let conns := idle_ (sy_pool y) ++ (map_to_list (sy_sessions y)).*2 in
  sy_refs y = [] ∧ sy_locked y = ∅ ∧ sessions_bounded y
  ∧ 0 ≤ in_use_ (sy_pool y) ≤ Z.of_nat (losses l)
  ∧ NoDup (pq_addr <$> conns) ∧ open_handles (sy_pg y) ≡ₚ omap pq_conn_ conns
  ∧ ¬ misused (sy_pg y).
Proof.
  intros Hm Ho Hw Hs y conns.
  destruct (serves_quiet mon w cerr l s Hm Ho Hw Hs)
    as (k & ([H1 _ (lc & L1 & L2 & _ & L4 & L5) H4 H5] & Hl & Hu) & Hk).
  apply Permutation_nil_r in H1. simpl in H4. fold y conns in H1, H4, H5, L2, L4, L5, Hl, Hu.
  assert (Hp : lc ≡ₚ conns).
  { apply NoDup_Permutation; [by eapply NoDup_fmap_1..|]. intros c. rewrite L2. unfold owners.
    by rewrite H1. }
  split_and!; [done|done|tauto|lia|lia|done| |done]. by rewrite L4, Hp.
Qed.
End Service.
