(* ===== verification/Delivery.v ===== *)
(** * Rows and trailers, from a result to the client

    The parts of [QueryStream] that every streamed result goes through, with a
    client that keeps reading: batches, the statements after the loop, the
    trailer. *)
From S2P Require Import Prelude CppStd Log Config Grpc Libpq Rpgb FlexMeta QueryMeta PgState PqConn.
From S2P Require Import Pool Sessions Streaming QueryExecutor Health Client ShardService.
From S2P Require Import ShardSafety ShardSlots.
Local Open Scope Z_scope.
Local Open Scope cpp_scope.

(** The rows of a result, cell by cell. *)
Definition result_rows {R} `{!PGResult R} (r : R) : list (list (option string)) :=
  (λ i, cell r i <$> seqZ 0 (PQnfields r)) <$> seqZ 0 (PQntuples r).

(** The object a client builds from a row. *)
Definition answer_object {V} (null : V) (decodePgCell : FieldInfo → string → string + V)
    (fields : list FieldInfo) (row : list (option string)) : gmap string V :=
  foldl (λ obj fc, <[fi_name fc.1 := cell_value null decodePgCell fc.1 fc.2]> obj) ∅
    (zip fields row).

(** Every cell is a value that the client can decode. *)
Definition rows_decode {V} (null : V) (decodePgCell : FieldInfo → string → string + V)
    (fields : list FieldInfo) (rows : list (list (option string))) : Prop :=
  Forall (λ row, Forall (λ fc, cell_error null decodePgCell fc.1 fc.2 = None) (zip fields row)) rows.

#[global] Instance rows_decode_dec {V} (null : V) decodePgCell fields rows :
  Decision (rows_decode null decodePgCell fields rows).
Proof. unfold rows_decode. apply _. Defined.

(** Column descriptions survive the C strings of the encoder and its integers. *)
Definition fields_ok (fields : list FieldInfo) : Prop :=
  Forall (λ f, c_str (fi_name f) = fi_name f ∧ field_ok f) fields.

(** The handler's bounds on fetches and batches. *)
Definition fetch_rows (config_ : ServerConfig) : Z :=
  if 0 <? pg_fetch_rows config_ then pg_fetch_rows config_ else 10000.
Definition wire_rows (config_ : ServerConfig) : Z :=
  if 0 <? pg_wire_batch_rows config_ then pg_wire_batch_rows config_ else 1000.

Lemma wire_rows_pos config_ : 0 < wire_rows config_.
Proof. unfold wire_rows. case_if; lia. Qed.
Lemma fetch_rows_pos config_ : 0 < fetch_rows config_.
Proof. unfold fetch_rows. case_if; lia. Qed.

Section Delivery.
Context `{L : Libpq, FB : !FlexBuffers, PL : !PGResultLaws pgresult}.
Context (cancelled write_ok : nat → bool).
Context {V : Type} (null : V) (decodePgCell : FieldInfo → string → string + V).
Hypothesis Hcancel : ∀ i, cancelled i = false.
Hypothesis Hwrite : ∀ i, write_ok i = true.

(** The locals on the database as it is now. *)
Definition attach (y : Sys) (h : Handler) : Handler := set_call (put_sys y (hd_call h)) h.

(** ** What the client has read *)

Definition client_reads (h : Handler) (objs : list (gmap string V)) : Prop :=
  client_loop null decodePgCell client_start (rpc_sent (hd_rpc h))
  = inr (mkClientState (if batch_sent h then Some (schema_c (schema_meta h)) else None) None objs)
  ∧ ∀ c, c ∈ rpc_sent (hd_rpc h) → rc_kind c ≠ CHUNK_KIND_ERROR.

Lemma schema_c_fields (s : ResultSchema) : fields_ok (rs_fields s) → rs_fields (schema_c s) = rs_fields s.
Proof.
  intros Hf. simpl. induction Hf as [|f fs [Hf _] _ IH]; [done|]. rewrite fmap_cons, IH.
  f_equal. destruct f. unfold field_c. simpl in *. by rewrite Hf.
Qed.

Lemma fields_ok_schema (s : ResultSchema) : fields_ok (rs_fields s) → schema_ok s.
Proof. intros Hf. eapply Forall_impl; [exact Hf|]. by intros f [_ ?]. Qed.

(** A batch reaches the client. *)
Lemma send_run payload h objs new :
  client_reads h objs → payload ≠ "" → fields_ok (rs_fields (schema_meta h)) →
  decodeRawPgBatch null fi_name decodePgCell payload (rs_fields (schema_meta h)) = inr new →
  ∃ r', SendBatchChunk cancelled write_ok payload h = (Ret true, set_batch_sent (set_rpc r' h))
    ∧ client_reads (set_batch_sent (set_rpc r' h)) (objs ++ new).
Proof.
  intros [Hc Hk] Hp Hf Hd. unfold SendBatchChunk.
  pose proof (proj2 (str_empty_false payload) Hp) as Hpe. rewrite Hpe.
  unfold m_bind, on_rpc, zoom, gets, WriteResultChunk. simpl. rewrite Hcancel. simpl. rewrite Hpe. simpl.
  unfold Write. rewrite Hwrite. simpl. eexists. split; [reflexivity|].
  split; [|simpl; intros c [Hc'|Hc']%elem_of_app; [by apply Hk|]; apply list_elem_of_singleton in Hc';
    subst; simpl; by destruct (batch_sent h)].
  simpl. erewrite client_loop_snoc by done. destruct (batch_sent h).
  - unfold client_step, push_rows. simpl rc_kind. cbv iota. simpl. rewrite Hpe.
    change (field_c <$> rs_fields (schema_meta h)) with (rs_fields (schema_c (schema_meta h))).
    rewrite schema_c_fields by done. by rewrite Hd.
  - unfold client_step, push_rows. simpl.
    rewrite (proj2 (str_empty_false (EncodeResultSchema _))) by apply flex_buffer_nonempty.
    rewrite decode_schema_encode by (by apply fields_ok_schema). simpl. rewrite Hpe.
    change (field_c <$> rs_fields (schema_meta h)) with (rs_fields (schema_c (schema_meta h))).
    rewrite schema_c_fields by done. by rewrite Hd.
Qed.

(** ** The batches of one result *)

(** The objects of the rows [a] to [b] of a result. *)
Definition row_objects (r : pgresult) (fs : list FieldInfo) (a b : Z) : list (gmap string V) :=
  row_object null fi_name decodePgCell r fs <$> seqZ a (b - a).

Lemma row_objects_app r fs a b c :
  a ≤ b ≤ c → row_objects r fs a b ++ row_objects r fs b c = row_objects r fs a c.
Proof.
  intros Hab. unfold row_objects. rewrite <-fmap_app. f_equal.
  replace (c - a) with ((b - a) + (c - b)) by lia. rewrite seqZ_app by lia.
  by replace (a + (b - a)) with b by lia.
Qed.

(** The locals of the handler that the batches do not change. *)
Definition same_locals (h h' : Handler) : Prop :=
  hd_call h' = hd_call h ∧ schema_meta h' = schema_meta h ∧ schema_open h' = schema_open h
  ∧ last_result h' = last_result h.

(** Every cell of the rows [a] to [b] can be decoded. *)
Definition range_decodes (r : pgresult) (fs : list FieldInfo) (a b : Z) : Prop :=
  ∀ row k f, a ≤ row < b → fs !! k = Some f →
    cell_error null decodePgCell f (cell r row (Z.of_nat k)) = None.

Lemma encode_batch r a b fs h :
  batch_ok r a b → rs_fields (BuildSchemaMeta r) = fs → range_decodes r fs a b →
  ∃ payload, EncodeRawPgBatch (S := Handler) (Some r) a b h = (Ret payload, h) ∧ payload ≠ ""
    ∧ decodeRawPgBatch null fi_name decodePgCell payload fs = inr (row_objects r fs a b).
Proof.
  intros Hok Hfs Hde. eexists. split; [by apply EncodeRawPgBatch_bytes|]. split.
  - unfold header_bytes. done.
  - unfold row_objects. rewrite (decode_batch_bytes null fi_name decodePgCell r a b fs); [|done|].
    { by rewrite (proj2 (batch_errors_nil null decodePgCell r a b fs) Hde). }
    rewrite <-Hfs. simpl. rewrite length_fmap, length_seqZ.
    pose proof (PQnfields_range r). lia.
Qed.

Lemma send_batches_run fuel r fs n wire rb h objs :
  rs_fields (BuildSchemaMeta r) = fs → rs_fields (schema_meta h) = fs → fields_ok fs →
  client_reads h objs → 0 ≤ rb → 0 < wire → n + wire ≤ INT_MAX →
  16 + wire * PQnfields r * 8 ≤ INT_MAX → 0 ≤ total_rows h →
  total_rows h + Z.max 0 (n - rb) ≤ LONG_MAX →
  (Z.to_nat (n - rb) < fuel)%nat → range_decodes r fs rb n →
  ∃ h', send_batches cancelled write_ok fuel r n wire rb h = (Ret None, h')
    ∧ same_locals h h' ∧ total_rows h' = total_rows h + Z.max 0 (n - rb)
    ∧ batch_sent h' = batch_sent h || (rb <? n)
    ∧ client_reads h' (objs ++ row_objects r fs rb n).
Proof.
  intros Hr Hh Hf. revert rb h objs Hh. induction fuel as [|fuel IH];
    intros rb h objs Hh Hc Hrb Hw Hn Hov Ht0 Ht Hfuel Hde; [lia|]. cbn [send_batches].
  destruct (rb <? n) eqn:E.
  2: { exists h. split; [done|]. split; [done|]. split; [lia|]. split; [by rewrite orb_false_r|].
       unfold row_objects. rewrite seqZ_nil by lia. by rewrite app_nil_r. }
  replace (INT_MAX <? rb + wire) with false by lia. cbv zeta.
  set (re := (rb + wire) `min` n). pose proof (PQnfields_range r) as Hnf.
  assert (Hok : batch_ok r rb re).
  { unfold batch_ok, re. split; [lia|]. split; [|lia].
    assert (Z.min (rb + wire) n - rb ≤ wire) by lia. nia. }
  destruct (encode_batch r rb re fs h Hok Hr) as (payload & Ep & Hne & Hdec).
  { intros row k f Hrow. apply Hde. unfold re in Hrow. lia. }
  rewrite (m_bind_run _ _ _ _ _ Ep).
  assert (Ea : add_rows (re - rb) h = (Ret tt, set_total (total_rows h + (re - rb)) h)).
  { unfold add_rows, m_bind, gets. by replace (_ <? _) with false by (unfold re; lia). }
  rewrite (m_bind_run _ _ _ _ _ Ea). set (h1 := set_total _ h).
  destruct (send_run payload h1 objs (row_objects r fs rb re)) as (r' & Es & Hs);
    [exact Hc|done|by simpl; rewrite Hh|by simpl; rewrite Hh|].
  rewrite (m_bind_run _ _ _ _ _ Es). cbn [negb]. set (h2 := set_batch_sent _) in *.
  destruct (decide (rb + wire < n)) as [Hlt|Hge].
  - assert (Hre : re = rb + wire) by (unfold re; lia).
    destruct (IH (rb + wire) h2 (objs ++ row_objects r fs rb re)) as (h' & E' & Hl & Htot & Hb & Hc');
      [done|done|lia|done|done|done|simpl; lia|simpl; lia|lia|intros row k f Hrow; apply Hde; lia|].
    exists h'. split; [exact E'|]. split; [exact Hl|]. split; [rewrite Htot; simpl; lia|].
    split; [rewrite Hb; simpl; by rewrite orb_true_r|].
    rewrite <-app_assoc, Hre, row_objects_app in Hc' by lia. exact Hc'.
  - assert (Hre : re = n) by (unfold re; lia).
    assert (E' : send_batches cancelled write_ok fuel r n wire (rb + wire) h2 = (Ret None, h2)).
    { destruct fuel; [lia|]. cbn [send_batches]. by replace (_ <? _) with false by lia. }
    exists h2. split; [exact E'|]. split; [done|]. split; [simpl; lia|].
    split; [simpl; by rewrite orb_true_r|]. by rewrite Hre in Hs.
Qed.

(** ** Fetching *)

(** ** Rows of a result as objects *)

Lemma nfields_of r fs : rs_fields (BuildSchemaMeta r) = fs → PQnfields r = Z.of_nat (length fs).
Proof.
  intros <-. simpl. rewrite length_fmap, length_seqZ. pose proof (PQnfields_range r). lia.
Qed.

Lemma foldl_zip_fmap {A B C D} (g : D → A * C → D) (k : B → C) d (l1 : list A) (l2 : list B) :
  foldl g d (zip l1 (k <$> l2)) = foldl (λ d p, g d (p.1, k p.2)) d (zip l1 l2).
Proof. revert d l2. induction l1 as [|a l1 IH]; intros d [|b l2]; simpl; auto. Qed.

Lemma result_objects r fs :
  rs_fields (BuildSchemaMeta r) = fs →
  row_objects r fs 0 (PQntuples r) = answer_object null decodePgCell fs <$> result_rows r.
Proof.
  intros Hf. unfold row_objects, result_rows.
  rewrite <-list_fmap_compose, Z.sub_0_r. apply list_fmap_ext. intros i row _. simpl.
  unfold answer_object, row_object. rewrite foldl_zip_fmap. by rewrite (nfields_of r fs Hf).
Qed.

Lemma result_decodes r fs :
  rs_fields (BuildSchemaMeta r) = fs → rows_decode null decodePgCell fs (result_rows r) →
  range_decodes r fs 0 (PQntuples r).
Proof.
  intros Hf Hr row k f Hrow Hk. unfold rows_decode, result_rows in Hr. rewrite Forall_fmap, Forall_forall in Hr.
  specialize (Hr row ltac:(apply elem_of_seqZ; lia)). simpl in Hr.
  refine (Forall_lookup_1 _ _ k (f, cell r row (Z.of_nat k)) Hr _).
  apply lookup_zip_with_Some. eexists _, _. split_and!; [done|done|]. rewrite list_lookup_fmap.
  apply fmap_Some. exists (Z.of_nat k). split; [|done]. apply lookup_seqZ.
  apply lookup_lt_Some in Hk. rewrite (nfields_of r fs Hf). lia.
Qed.

(** ** The end of a stream *)

(** What the client makes of a stream of [objs] with the command [cmd]. *)
Definition stream_result (cmd : string) (fs : list FieldInfo) (objs : list (gmap string V))
  : PgResult V :=
  mkPgResult (commandFromTag (Some (c_str (cmd +:+ " " +:+ to_string (Z.of_nat (length objs)))))
                (Some (c_str cmd)))
    (Z.of_nat (length objs)) None fs objs.

(** The handler is through: the client has [answer], and the query holds nothing. *)
Definition ended (answer : string + PgResult V) (h : Handler) : Prop :=
  decodeQueryStreamToPgResult null decodePgCell (rpc_sent (hd_rpc h)) = answer
  ∧ connection_ (qc_stream (hd_call h)) = None.

(** A trailer, after what the client has read. *)
Lemma trailer_chunk_run h t schema objs :
  client_loop null decodePgCell client_start (rpc_sent (hd_rpc h))
  = inr (mkClientState schema None objs) →
  (∀ c, c ∈ rpc_sent (hd_rpc h) → rc_kind c ≠ CHUNK_KIND_ERROR) → trailer_ok t →
  ∃ r', on_rpc (WriteResultChunk write_ok CHUNK_KIND_TRAILER (EncodeResultTrailer t) "") h
        = (Ret true, set_rpc r' h)
    ∧ decodeQueryStreamToPgResult null decodePgCell (rpc_sent r')
      = inr (mkPgResult (commandFromTag (Some (c_str (rt_command_tag t))) (rs_command <$> schema))
               (rt_row_count t) (if rt_oid t =? 0 then None else Some (rt_oid t))
               (default [] (rs_fields <$> schema)) objs).
Proof.
  intros Hc Hk Ht. unfold WriteResultChunk.
  rewrite (proj2 (str_empty_false (EncodeResultTrailer t))) by apply flex_buffer_nonempty.
  unfold on_rpc, zoom, Write. simpl. rewrite Hwrite. eexists. split; [reflexivity|]. simpl.
  unfold decodeQueryStreamToPgResult. erewrite client_loop_snoc by done.
  unfold client_step. simpl.
  rewrite (proj2 (str_empty_false (EncodeResultTrailer t))) by apply flex_buffer_nonempty.
  by rewrite decode_trailer_encode by done.
Qed.

Lemma close_run h answer :
  decodeQueryStreamToPgResult null decodePgCell (rpc_sent (hd_rpc h)) = answer →
  closable (hd_call h) →
  ∃ h', (clear_last ;; modify (set_last None) ;; on_call Close ;; m_ret Status_OK) h
        = (Ret Status_OK, h') ∧ ended answer h'.
Proof.
  intros Hd Hl.
  assert (E : ∃ h1, clear_last h = (Ret tt, h1) ∧ hd_rpc h1 = hd_rpc h
    ∧ qc_stream (hd_call h1) = qc_stream (hd_call h)
    ∧ sy_locked (qc_sys (hd_call h1)) = sy_locked (qc_sys (hd_call h))).
  { unfold clear_last, m_bind, gets. destruct (last_result h); by eexists. }
  destruct E as (h1 & E1 & Hr1 & Hs1 & Hl1). rewrite (m_bind_run _ _ _ _ _ E1).
  unfold closable in Hl. rewrite <-Hs1, <-Hl1 in Hl.
  unfold m_bind at 1, modify. destruct (Close_slot (hd_call h1) Hl) as (s' & Ec & Hc & _ & _).
  assert (E2 : on_call Close (set_last None h1) = (Ret tt, set_call s' (set_last None h1))).
  { unfold on_call, zoom. simpl. by rewrite Ec. }
  rewrite (m_bind_run _ _ _ _ _ E2). eexists. split; [reflexivity|].
  unfold ended. simpl. by rewrite Hr1.
Qed.

(** The statements after the loop, once the schema is open. *)
Lemma after_loop_run fs objs h r :
  client_reads h objs → total_rows h = Z.of_nat (length objs) → schema_open h = true →
  rs_fields (schema_meta h) = fs → fields_ok fs → last_result h = Some r →
  rs_fields (BuildSchemaMeta r) = fs → Z.of_nat (length objs) ≤ MAX_EXACT →
  closable (hd_call h) →
  ∃ h', after_loop cancelled write_ok h = (Ret Status_OK, h')
    ∧ ended (inr (stream_result (rs_command (schema_meta h)) fs objs)) h'.
Proof.
  intros Hr Ht Ho Hfs1 Hfs Hlast Hf Hl Hlk.
  unfold after_loop, m_bind at 1, get. rewrite Ho.
  assert (E : ∃ h1, (if negb (batch_sent h) then
      let* empty_payload := EncodeRawPgBatch (last_result h) 0 0 in
      SendBatchChunk cancelled write_ok empty_payload else m_ret true) h = (Ret true, h1)
    ∧ client_reads h1 objs ∧ hd_call h1 = hd_call h ∧ batch_sent h1 = true
    ∧ schema_meta h1 = schema_meta h).
  { destruct (batch_sent h) eqn:Eb; [by exists h|]. simpl. rewrite Hlast.
    assert (Hok : batch_ok r 0 0) by (unfold batch_ok, INT_MAX; lia).
    destruct (encode_batch r 0 0 fs h Hok Hf) as (payload & Ep & Hne' & Hd); [intros row k f; lia|].
    rewrite (m_bind_run _ _ _ _ _ Ep).
    destruct (send_run payload h objs (row_objects r fs 0 0)) as (r' & Es & Hs);
      [done|done|by rewrite Hfs1|by rewrite Hfs1|].
    exists (set_batch_sent (set_rpc r' h)). split; [exact Es|].
    unfold row_objects in Hs. rewrite seqZ_nil in Hs by lia. by rewrite app_nil_r in Hs. }
  destruct E as (h1 & E1 & [Hr1 Hk1] & Hc1 & Hb1 & Hm1). cbn [andb].
  rewrite (m_bind_run _ _ _ _ _ E1). cbn [negb]. rewrite Ht. cbv zeta. rewrite Hb1, Hm1 in Hr1.
  destruct (trailer_chunk_run h1 (mkResultTrailer (rs_command (schema_meta h) +:+ " "
    +:+ to_string (Z.of_nat (length objs))) (Z.of_nat (length objs)) 0) _ objs Hr1 Hk1)
    as (r2 & E2 & Hd2); [unfold trailer_ok; simpl; lia|]. rewrite (m_bind_run _ _ _ _ _ E2).
  cbn [negb]. apply close_run; [|simpl; by rewrite Hc1]. simpl. rewrite Hd2. simpl.
  unfold stream_result. do 2 f_equal. change (field_c <$> rs_fields (schema_meta h))
    with (rs_fields (schema_c (schema_meta h))). rewrite schema_c_fields; by rewrite Hfs1.
Qed.

(** The destructor after the stream. *)
Lemma destroy_ended answer h :
  ended answer h → on_call destroy_StreamingQuery h = (Ret tt, set_call (hd_call h) h).
Proof.
  intros (_ & Hc). unfold on_call, zoom, destroy_StreamingQuery, m_bind, stream_get, gets.
  by rewrite Hc.
Qed.

(** An opened query, from its loop to the destructor. *)
Lemma stream_body_opened fuel wire request h s1 h1 st answer :
  Open request (hd_call h) = (Ret true, s1) →
  stream_loop cancelled write_ok fuel wire (set_call s1 h) = (Ret st, h1) → ended answer h1 →
  stream_body cancelled write_ok fuel wire request h = (Ret st, set_call (hd_call h1) h1).
Proof.
  intros Eo E1 Hd. unfold stream_body.
  assert (Eh : on_call (Open request) h = (Ret true, set_call s1 h)).
  { unfold on_call, zoom. by rewrite Eo. }
  rewrite (m_bind_run _ _ _ _ _ Eh). cbn [negb].
  assert (Et : try_catch (stream_loop cancelled write_ok fuel wire) (catch_block write_ok)
    (set_call s1 h) = (Ret st, h1)) by (unfold try_catch; by rewrite E1).
  by rewrite (m_bind_run _ _ _ _ _ Et), (m_bind_run _ _ _ _ _ (destroy_ended _ _ Hd)).
Qed.

(** An accepted request, from the run of its stream to the answer of the call. *)
Lemma QueryStream_of_body fuel config_ request params ms (s : QState) st h' :
  accepted config_ request params (qs_shard s) →
  stream_body cancelled write_ok fuel (wire_rows config_) request
    (new_handler (sh_sys (qs_shard s)) (qs_rpc s) params (fetch_rows config_)) = (Ret st, h') →
  sy_locked (sh_sys (qs_shard s)) = ∅ →
  IsTupleStreamingSql (qr_text request) = false
  ∨ fst (Open request (query_start config_ params (sh_sys (qs_shard s)))) = Ret true →
  ∃ s', QueryStream cancelled write_ok fuel config_ request ms s = (Ret st, s')
    ∧ qs_rpc s' = hd_rpc h' ∧ sh_sys (qs_shard s') = qc_sys (hd_call h')
    ∧ in_use_ (pool_of (qs_shard s')) = in_use_ (pool_of (qs_shard s)).
Proof.
  intros Hacc Eb Hl Hopen.
  destruct (QueryStream_accepted cancelled write_ok fuel config_ request params ms s Hacc)
    as (x & (Hx & _) & Hrun). unfold pool_of. rewrite <-Hx in *.
  assert (Er : run_stream cancelled write_ok fuel config_ params request (mkQState x (qs_rpc s))
    = (Ret st, mkQState (put_sys (qc_sys (hd_call h')) x) (hd_rpc h'))).
  { unfold run_stream. fold (fetch_rows config_) (wire_rows config_). simpl. by rewrite Eb. }
  destruct (Hrun _ _ Er) as (s' & Es & Hr & Hs). exists s'. rewrite Hs. split_and!; [done..|].
  apply (stream_body_slot _ _ _ _ _ _ (in_use_ (sy_pool (sh_sys x)))) in Eb; [|by split_and!|done].
  by destruct Eb as (_ & H & _).
Qed.

End Delivery.
