(* ===== verification/Immediate.v ===== *)
(** * Statements without a cursor, from the request to the client

    A statement that is not streamed through a cursor runs in one round trip:
    a command gives its trailer, a command with RETURNING its rows, a failed
    one its error. No law about the server is needed, the answer of
    [PQexecParams] decides. *)
From S2P Require Import Prelude CppStd Log Config Grpc Libpq Rpgb FlexMeta QueryMeta PgState PqConn.
From S2P Require Import Pool Sessions Streaming QueryExecutor Health Client ShardService.
From S2P Require Import ShardSafety ShardSlots Delivery.
Local Open Scope Z_scope.
Local Open Scope cpp_scope.

Section Open.
Context `{L : Libpq}.
Context (request : QueryRequest) (c : PqConnection) (rest : list PqConnection) (raw : pgconn).
Hypothesis Hcur : IsTupleStreamingSql (qr_text request) = false.
Hypothesis Hsid : qr_session_id request = "".
Hypothesis Hraw : pq_conn_ c = Some raw.

(** What [PQexecParams] answers to the statement. *)
Definition answered (w : pgworld) : option pgresult * pgworld :=
  PQexecParams raw (c_str (qr_text request)) (BuildParams request) (result_format_of request) w.

Lemma Open_executes (s : QCall) :
  idle_ (sy_pool (qc_sys s)) = c :: rest →
  Open request s
  = (let* result := ExecuteImmediate request in
     let* done := stream_get immediate_done_ in
     on_stream (set_immediate result done) ;;
     match result with
     | None => ReleaseConnection true ;; m_ret false
     | Some _ => on_stream (set_immediate result false) ;; m_ret true
     end) (acquired false request c rest s).
Proof.
  intros Hi. unfold Open, m_bind at 1, on_stream at 1, modify. rewrite Hcur.
  by rewrite (m_bind_run _ _ _ _ _ (AcquireConnection_acquired false request c rest s Hsid Hi)).
Qed.

Lemma Open_immediate_run (s : QCall) r w1 :
  idle_ (sy_pool (qc_sys s)) = c :: rest → sy_locked (qc_sys s) = ∅ →
  answered (sy_pg (qc_sys s)) = (Some r, w1) → IsOkStatus (PQresultStatus r) = true →
  Open request s
  = (Ret true, mkQCall (set_pg w1 (qc_sys (acquired false request c rest s)))
                 (set_immediate (Some r) false (qc_stream (acquired false request c rest s)))
                 (qc_error s)).
Proof.
  intros Hi Hl Hx Hok. rewrite (Open_executes s Hi). set (a := acquired _ _ _ _ _).
  pose proof (ExecuteImmediate_run (qc_sys a) (qc_stream a) (qc_error a) c raw eq_refl Hraw
    ltac:(simpl; rewrite Hl; set_solver) request (Some r) w1 Hx) as E.
  simpl in E. rewrite Hok in E. by rewrite (m_bind_run _ _ a _ _ E).
Qed.

Lemma Open_immediate_error (s : QCall) res w1 :
  idle_ (sy_pool (qc_sys s)) = c :: rest → sy_locked (qc_sys s) = ∅ →
  answered (sy_pg (qc_sys s)) = (res, w1) → IsOkStatus (result_status res) = false →
  ∃ s1, Open request s = (Ret false, s1) ∧ qc_error s1 = failure_text raw res w1
    ∧ connection_ (qc_stream s1) = None ∧ sy_locked (qc_sys s1) = ∅
    ∧ sy_pool (qc_sys s1) = cv_notify_one (set_idle rest (sy_pool (qc_sys s))).
Proof.
  intros Hi Hl Hx Hok. rewrite (Open_executes s Hi). set (a := acquired _ _ _ _ _).
  pose proof (ExecuteImmediate_run (qc_sys a) (qc_stream a) (qc_error a) c raw eq_refl Hraw
    ltac:(simpl; rewrite Hl; set_solver) request res w1 Hx) as E.
  rewrite Hok in E. rewrite (m_bind_run _ _ a _ _ E).
  unfold m_bind at 1, stream_get at 1, gets at 1. unfold m_bind at 1, on_stream at 1, modify at 1. simpl.
  match goal with |- context [m_bind _ _ ?s0] =>
    destruct (ReleaseConnection_pool true s0 c eq_refl eq_refl) as (s1 & E1 & Hp);
    destruct (ReleaseConnection_runs true s0) as (s2 & E2 & Hn & Hs & Hk);
    pose proof (ReleaseConnection_error true _ s0 eq_refl) as He end.
  rewrite E2 in E1, He. injection E1 as <-. unfold m_bind. rewrite E2. exists s2. split; [done|].
  simpl in He.
  split_and!; [exact He|done|by rewrite Hk|]. rewrite Hp. simpl.
  unfold cv_notify_one, set_in_use, set_idle. cbn. f_equal. lia.
Qed.
End Open.

(** ** The handler *)

Section Immediate.
Context `{L : Libpq, FB : !FlexBuffers, PL : !PGResultLaws pgresult}.
Context (cancelled write_ok : nat → bool).
Context {V : Type} (null : V) (decodePgCell : FieldInfo → string → string + V).
Hypothesis Hcancel : ∀ i, cancelled i = false.
Hypothesis Hwrite : ∀ i, write_ok i = true.

(** The handler after a poll. *)
Definition polled (h : Handler) : Handler :=
  set_rpc (mkRpcState (rpc_sent (hd_rpc h)) (rpc_writes (hd_rpc h)) (rpc_polls (hd_rpc h) + 1)) h.

Lemma poll_run h : on_rpc (IsCancelled cancelled) h = (Ret false, polled h).
Proof. unfold on_rpc, zoom, IsCancelled. by rewrite Hcancel. Qed.

(** The query holds [c], and [im] is its result, or nothing more to fetch. *)
Record immediate_state (c : PqConnection) (im : option pgresult) (h : Handler) : Prop := {
  im_conn : connection_ (qc_stream (hd_call h)) = Some c;
  im_use : use_cursor_ (qc_stream (hd_call h)) = false;
  im_done : immediate_done_ (qc_stream (hd_call h)) = bool_decide (im = None);
  im_result : immediate_result_ (qc_stream (hd_call h)) = im;
  im_error : qc_error (hd_call h) = "";
}.

(** The first iteration, up to the treatment of the result. *)
Lemma first_fetch c r wire h :
  immediate_state c (Some r) h → last_result h = None →
  ∃ h1, fetch_step cancelled write_ok wire h
    = (if negb (bool_decide (PQresultStatus r = PGRES_TUPLES_OK))
          && negb (bool_decide (PQresultStatus r = PGRES_COMMAND_OK)) then
         on_rpc (WriteErrorChunk write_ok (ExtractPgError (Some r))) ;;
         on_call Abort ;;
         m_ret (Return Status_OK)
       else if PQnfields r =? 0 then command_step write_ok r
       else tuples_step cancelled write_ok wire r) h1
    ∧ immediate_state c None h1 ∧ last_result h1 = Some r
    ∧ rpc_sent (hd_rpc h1) = rpc_sent (hd_rpc h) ∧ schema_open h1 = schema_open h
    ∧ schema_meta h1 = schema_meta h ∧ batch_sent h1 = batch_sent h
    ∧ total_rows h1 = total_rows h ∧ pooled_ (qc_stream (hd_call h1)) = pooled_ (qc_stream (hd_call h))
    ∧ qc_sys (hd_call h1) = qc_sys (hd_call h).
Proof.
  intros [H1 H2 H3 H4 H5] Hlast. unfold fetch_step. rewrite (m_bind_run _ _ _ _ _ (poll_run h)).
  assert (Ef : on_call Fetch (polled h) = (Ret (Some r),
    set_call (mkQCall (qc_sys (hd_call h)) (set_immediate None true (qc_stream (hd_call h)))
                (qc_error (hd_call h))) (polled h))).
  { unfold on_call, zoom, Fetch, m_bind, gets. simpl. rewrite H1, H2, H3, H4.
    by rewrite bool_decide_eq_false_2. }
  rewrite (m_bind_run _ _ _ _ _ Ef). set (h2 := set_call _ _).
  assert (Ec : clear_last h2 = (Ret tt, set_call (hd_call h2) h2)).
  { unfold clear_last, m_bind, gets. simpl. rewrite Hlast. done. }
  rewrite (m_bind_run _ _ _ _ _ Ec). unfold m_bind at 1, modify.
  eexists. split; [reflexivity|]. split; [by split|]. done.
Qed.

(** An iteration with nothing more to fetch. *)
Lemma last_fetch c wire h :
  immediate_state c None h →
  fetch_step cancelled write_ok wire h = (Ret Break, set_call (hd_call h) (polled h)).
Proof.
  intros [H1 H2 H3 H4 H5]. unfold fetch_step. rewrite (m_bind_run _ _ _ _ _ (poll_run h)).
  assert (Ef : on_call Fetch (polled h) = (Ret None, set_call (hd_call h) (polled h))).
  { unfold on_call, zoom, Fetch, m_bind, gets. simpl. by rewrite H1, H2, H3. }
  rewrite (m_bind_run _ _ _ _ _ Ef). unfold m_bind, exec_error, gets. simpl. by rewrite H5.
Qed.

(** [Close] without a cursor. *)
Lemma Close_pool (s : QCall) c :
  immediate_result_ (qc_stream s) = None → use_cursor_ (qc_stream s) = false →
  connection_ (qc_stream s) = Some c → pooled_ (qc_stream s) = true →
  sy_pool (qc_sys (snd (Close s)))
  = Release_section c (negb (healthyb c (qc_sys s))) (sy_pool (qc_sys s)).
Proof.
  intros Hi Hu Hc Hp. unfold Close, drop_immediate, m_bind, gets, stream_get. simpl.
  rewrite Hi. simpl. rewrite Hu. simpl.
  destruct (ReleaseConnection_pool false s c Hc Hp) as (s' & -> & H). exact H.
Qed.

(** A command: its trailer, and the connection back to the pool. *)
Lemma command_run c r wire h tag n :
  immediate_state c (Some r) h → last_result h = None →
  rpc_sent (hd_rpc h) = [] → PQresultStatus r = PGRES_COMMAND_OK → PQnfields r = 0 →
  PQcmdStatus r = Some tag → PQcmdTuples r = Some (to_string n) → 0 ≤ n ≤ MAX_EXACT →
  ∃ h', fetch_step cancelled write_ok wire h = (Ret (Return Status_OK), h')
    ∧ ended null decodePgCell
        (inr (mkPgResult (commandFromTag (Some (c_str tag)) None) n None [] [])) h'
    ∧ (pooled_ (qc_stream (hd_call h)) = true → sy_pool (qc_sys (hd_call h'))
      = Release_section c (negb (healthyb c (set_pg (PQclear r (sy_pg (qc_sys (hd_call h))))
                                               (qc_sys (hd_call h)))))
          (sy_pool (qc_sys (hd_call h)))).
Proof.
  intros Him Hlast Hs Hst Hnf Htag Htup Hn.
  destruct (first_fetch c r wire h Him Hlast)
    as (h1 & E & [H1 H2 H3 H4 H5] & Hl1 & Hs1 & _ & _ & _ & _ & Hp1 & Hy1).
  rewrite E, Hst, Hnf. clear E.
  rewrite (bool_decide_eq_true_2 (PGRES_COMMAND_OK = PGRES_COMMAND_OK)), andb_false_r by done. cbn [Z.eqb].
  assert (Ht : BuildCommandTrailer r = mkResultTrailer tag n 0).
  { unfold BuildCommandTrailer. rewrite Hst, Htag, Htup. cbn. f_equal. unfold strtoll.
    rewrite strtol_to_string; [done|]. pose proof MAX_EXACT_LONG. lia. }
  unfold command_step. rewrite Ht.
  destruct (trailer_chunk_run write_ok null decodePgCell Hwrite h1 (mkResultTrailer tag n 0) None [])
    as (r2 & E2 & Hd2); [by rewrite Hs1, Hs|rewrite Hs1, Hs; by intros ? ?%elem_of_nil|
      unfold trailer_ok; simpl; lia|].
  rewrite (m_bind_run _ _ _ _ _ E2). cbn [negb].
  set (h2 := set_rpc r2 h1) in *.
  set (s2 := put_sys (set_pg (PQclear r (sy_pg (qc_sys (hd_call h1)))) (qc_sys (hd_call h1))) (hd_call h1)).
  assert (Ec : clear_last h2 = (Ret tt, set_call s2 h2)).
  { unfold clear_last, m_bind, gets. simpl. by rewrite Hl1. }
  rewrite (m_bind_run _ _ _ _ _ Ec). unfold m_bind at 1, modify.
  destruct (Close_slot s2 ltac:(unfold closable; simpl; by rewrite H2)) as (s3 & Es & Hc3 & _ & _).
  assert (Eo : on_call Close (set_last None (set_call s2 h2))
    = (Ret tt, set_call s3 (set_last None (set_call s2 h2)))).
  { unfold on_call, zoom. simpl. by rewrite Es. }
  rewrite (m_bind_run _ _ _ _ _ Eo). eexists. split; [reflexivity|]. split; [by split_and!|]. simpl. intros Hp.
  pose proof (Close_pool s2 c H4 H2 H1 ltac:(simpl; congruence)) as Hq. rewrite Es in Hq. simpl in Hq.
  by rewrite Hq, Hy1.
Qed.

(** What the rows of a buffered result become. *)
Definition objects_of (fs : list FieldInfo) (r : pgresult) : list (gmap string V) :=
  answer_object null decodePgCell fs <$> result_rows r.

Lemma objects_length fs r : Z.of_nat (length (objects_of fs r)) = PQntuples r.
Proof.
  unfold objects_of, result_rows. rewrite !length_fmap, length_seqZ.
  pose proof (PQntuples_range r). lia.
Qed.

(** The batches of a buffered result, on a handler that has just fetched it. *)
Lemma returning_batches c r wire fs h :
  immediate_state c None h → last_result h = Some r → rpc_sent (hd_rpc h) = [] →
  schema_open h = false → batch_sent h = false → total_rows h = 0 →
  rs_fields (BuildSchemaMeta r) = fs → fields_ok fs → 0 < wire → PQntuples r + wire ≤ INT_MAX →
  16 + wire * Z.of_nat (length fs) * 8 ≤ INT_MAX → rows_decode null decodePgCell fs (result_rows r) →
  ∃ h', tuples_step cancelled write_ok wire r h = (Ret Continue, h')
    ∧ immediate_state c None h' ∧ last_result h' = Some r ∧ schema_open h' = true
    ∧ schema_meta h' = BuildSchemaMeta r ∧ total_rows h' = PQntuples r
    ∧ client_reads null decodePgCell h' (objects_of fs r).
Proof.
  intros Him Hl Hs Ho Hb Ht Hfs Hok Hw Hsum Hcols Hde. set (h2 := open_schema (BuildSchemaMeta r) h).
  assert (Hr2 : client_reads null decodePgCell h2 []).
  { unfold client_reads. simpl. rewrite Hs, Hb. split; [done|]. by intros ? ?%elem_of_nil. }
  pose proof (objects_length fs r) as Hlen. assert (INT_MAX ≤ MAX_EXACT) by done.
  pose proof MAX_EXACT_LONG.
  unfold tuples_step, m_bind at 1, gets. rewrite Ho, andb_false_r. cbn [negb].
  rewrite (m_bind_run _ _ _ tt h2) by done. destruct (PQntuples r =? 0) eqn:E0.
  - exists h2. split; [done|]. destruct Him. split; [by split|]. simpl.
    assert (PQntuples r = 0) by lia.
    replace (objects_of fs r) with (@nil (gmap string V))
      by (destruct (objects_of fs r); simpl in *; [done|lia]).
    split_and!; [done..|congruence|exact Hr2].
  - destruct (send_batches_run cancelled write_ok null decodePgCell Hcancel Hwrite
      (S (Z.to_nat (PQntuples r))) r fs (PQntuples r) wire 0 h2 [])
      as (h3 & E3 & (Hc3 & Hm3 & Ho3 & Hl3) & Ht3 & _ & Hr3);
      try done; try (simpl; lia); [by rewrite (nfields_of r fs Hfs)|by apply result_decodes|].
    rewrite (m_bind_run _ _ _ _ _ E3). exists h3. split; [done|].
    rewrite (result_objects null decodePgCell r fs Hfs) in Hr3. destruct Him.
    split; [split; by rewrite Hc3|]. simpl in *.
    split_and!; [by rewrite Hl3|done|done|rewrite Ht3; lia|exact Hr3].
Qed.

(** A result with rows that the handler can send and the client can decode. *)
Record rows_result (r : pgresult) (wire : Z) (fs : list FieldInfo) : Prop := {
  rr_status : PQresultStatus r = PGRES_TUPLES_OK;
  rr_fields : rs_fields (BuildSchemaMeta r) = fs;
  rr_fields_ok : fields_ok fs;
  rr_some : fs ≠ [];
  rr_sum : PQntuples r + wire ≤ INT_MAX;
  rr_batch : 16 + wire * Z.of_nat (length fs) * 8 ≤ INT_MAX;
  rr_decodes : rows_decode null decodePgCell fs (result_rows r);
}.

(** A handler that has sent nothing. *)
Record untouched (h : Handler) : Prop := {
  ut_last : last_result h = None;
  ut_sent : rpc_sent (hd_rpc h) = [];
  ut_schema : schema_open h = false;
  ut_batch : batch_sent h = false;
  ut_total : total_rows h = 0;
}.

(** The rows of the result are sent, the trailer is not. *)
Record rows_sent (c : PqConnection) (r : pgresult) (fs : list FieldInfo) (h : Handler) : Prop := {
  rw_state : immediate_state c None h;
  rw_last : last_result h = Some r;
  rw_open : schema_open h = true;
  rw_meta : schema_meta h = BuildSchemaMeta r;
  rw_total : total_rows h = PQntuples r;
  rw_read : client_reads null decodePgCell h (objects_of fs r);
}.

(** The three phases of a result with rows. *)
Lemma rows_first c r wire fs h :
  immediate_state c (Some r) h → untouched h → rows_result r wire fs → 0 < wire →
  ∃ h', fetch_step cancelled write_ok wire h = (Ret Continue, h') ∧ rows_sent c r fs h'.
Proof.
  intros Him [Hlast Hs Ho Hb Ht] [Hst Hfs Hok Hne Hsum Hcols Hde] Hw.
  destruct (first_fetch c r wire h Him Hlast)
    as (h1 & E & Him1 & Hl1 & Hs1 & Ho1 & _ & Hb1 & Ht1 & _ & _).
  pose proof (nfields_of r fs Hfs) as Hnf.
  assert (Hpos : (0 < length fs)%nat) by (destruct fs; [done|simpl; lia]).
  rewrite (bool_decide_eq_true_2 (PQresultStatus r = PGRES_TUPLES_OK)) in E by done.
  replace (PQnfields r =? 0) with false in E by lia. cbn [negb andb] in E.
  destruct (returning_batches c r wire fs h1) as (h3 & Et & Him3 & Hl3 & Ho3 & Hm3 & Ht3 & Hr3);
    try done; [congruence..|].
  exists h3. split; [by rewrite E|done].
Qed.

Lemma rows_second c r wire fs h :
  rows_sent c r fs h →
  ∃ h', fetch_step cancelled write_ok wire h = (Ret Break, h') ∧ rows_sent c r fs h'.
Proof.
  intros Hr. eexists. split; [by eapply last_fetch, Hr|]. destruct Hr as [[]]. by split.
Qed.

Lemma rows_end c r wire fs h :
  rows_sent c r fs h → rows_result r wire fs →
  ∃ h', after_loop cancelled write_ok h = (Ret Status_OK, h')
    ∧ ended null decodePgCell (inr (stream_result (rs_command (BuildSchemaMeta r)) fs (objects_of fs r))) h'.
Proof.
  intros [Him Hl Ho Hm Ht Hr] [_ Hfs Hok _ _ _ _]. pose proof (objects_length fs r) as Hlen.
  pose proof (PQntuples_range r). assert (INT_MAX ≤ MAX_EXACT) by done. rewrite <-Hm.
  apply (after_loop_run cancelled write_ok null decodePgCell Hcancel Hwrite fs (objects_of fs r) h r);
    try done; [congruence|by rewrite Hm|lia|]. unfold closable. by rewrite (im_use _ _ _ Him).
Qed.

(** A result with rows: the schema, its batches and the trailer. *)
Lemma returning_run c r wire fs h fuel :
  immediate_state c (Some r) h → untouched h → rows_result r wire fs → 0 < wire →
  ∃ h', stream_loop cancelled write_ok (S (S fuel)) wire h = (Ret Status_OK, h')
    ∧ ended null decodePgCell (inr (stream_result (rs_command (BuildSchemaMeta r)) fs (objects_of fs r))) h'.
Proof.
  intros Him Hu Hr Hw. destruct (rows_first c r wire fs h Him Hu Hr Hw) as (h1 & E1 & H1).
  destruct (rows_second c r wire fs h1 H1) as (h2 & E2 & H2).
  cbn [stream_loop]. rewrite (m_bind_run _ _ _ _ _ E1), (m_bind_run _ _ _ _ _ E2). by eapply rows_end.
Qed.

(** The handler that has opened an immediate query. *)
Lemma opened_state request c rest y r0 params n r w1 :
  immediate_state c (Some r)
    (set_call (mkQCall (set_pg w1 (qc_sys (acquired false request c rest
                                             (hd_call (new_handler y r0 params n)))))
                 (set_immediate (Some r) false
                    (qc_stream (acquired false request c rest (hd_call (new_handler y r0 params n)))))
                 "") (new_handler y r0 params n)).
Proof. by split. Qed.

(** C18: a fetch that fails in the middle of a stream, whatever was sent before,
    reaches the client as an error: the loop writes one error chunk, aborts the
    query and returns OK; the client throws the message instead of returning a
    part of the rows, and the query's slot is free again. *)
Theorem failed_fetch_reaches_client fuel wire (h : Handler) objs c1 e :
  client_reads null decodePgCell h objs → sy_locked (qc_sys (hd_call h)) = ∅ →
  Fetch (hd_call h) = (Ret None, c1) → qc_error c1 = e → e ≠ "" →
  ∃ h', stream_loop cancelled write_ok (S fuel) wire h = (Ret Status_OK, h')
    ∧ decodeQueryStreamToPgResult null decodePgCell (rpc_sent (hd_rpc h')) = inl (c_str e)
    ∧ connection_ (qc_stream (hd_call h')) = None
    ∧ in_use_ (sy_pool (qc_sys (hd_call h'))) = other_slots (hd_call h).
Proof.
  intros [Hc Hk] Hl Ef He Hne. destruct (runs_Fetch (hd_call h) Hl) as (r & s1 & E1 & Hl1).
  pose proof (same_slots_Fetch (hd_call h)) as Hs. rewrite Ef in E1, Hs. injection E1 as <- <-.
  destruct (Abort_slot c1 (nothing_locked _ _ Hl1)) as (s2 & Ea & Hn & Hu & _). unfold same_slots in Hs. simpl in Hs.
  cbn [stream_loop]. unfold fetch_step. rewrite m_bind_assoc, (m_bind_run _ _ _ _ _ (poll_run h)).
  assert (E2 : on_call Fetch (polled h) = (Ret None, set_call c1 (polled h))).
  { unfold on_call, zoom. simpl. by rewrite Ef. }
  rewrite m_bind_assoc, (m_bind_run _ _ _ _ _ E2). unfold exec_error.
  unfold m_bind, gets, on_rpc, on_call, zoom, WriteErrorChunk, Write. simpl.
  rewrite He, (proj2 (str_empty_false e) Hne). simpl. rewrite Hwrite, Ea. simpl.
  eexists. split; [reflexivity|]. simpl. split_and!; [|done|by rewrite Hu].
  unfold decodeQueryStreamToPgResult. erewrite client_loop_snoc by done.
  unfold client_step. simpl. rewrite (proj2 (str_empty_false (EncodePgError _)))
    by apply flex_buffer_nonempty. by rewrite decode_error_encode.
Qed.

(** ** The calls *)

Section Calls.
Context (fuel : nat) (config_ : ServerConfig) (request : QueryRequest) (params : ConnectParams)
  (ms : Z) (s : QState) (c : PqConnection) (rest : list PqConnection) (raw : pgconn).
Hypothesis Hacc : accepted config_ request params (qs_shard s).
Hypothesis Hr0 : qs_rpc s = new_rpc.
Hypothesis Hcur : IsTupleStreamingSql (qr_text request) = false.
Hypothesis Hsid : qr_session_id request = "".
Hypothesis Hl : sy_locked (sh_sys (qs_shard s)) = ∅.
Hypothesis Hidle : idle_ (pool_of (qs_shard s)) = c :: rest.
Hypothesis Hraw : pq_conn_ c = Some raw.

(** C15: a command without rows is answered with exactly its own tag and row
    count: one iteration, an OK status, and the client has the command and the
    number of affected rows. The pool slot is free again, and the connection
    is back at the end of the idle queue if it is still healthy and gone
    otherwise. *)
Theorem QueryStream_command r w1 tag n :
  answered request raw (sy_pg (sh_sys (qs_shard s))) = (Some r, w1) →
  PQresultStatus r = PGRES_COMMAND_OK → PQnfields r = 0 →
  PQcmdStatus r = Some tag → PQcmdTuples r = Some (to_string n) → 0 ≤ n ≤ MAX_EXACT →
  ∃ s', QueryStream cancelled write_ok (S fuel) config_ request ms s = (Ret Status_OK, s')
    ∧ decodeQueryStreamToPgResult null decodePgCell (rpc_sent (qs_rpc s'))
      = inr (mkPgResult (commandFromTag (Some (c_str tag)) None) n None [] [])
    ∧ in_use_ (pool_of (qs_shard s')) = in_use_ (pool_of (qs_shard s))
    ∧ idle_ (pool_of (qs_shard s'))
      = rest ++ (if bool_decide (PQstatus raw (PQclear r w1) = CONNECTION_OK) then [c] else []).
Proof.
  intros Hx Hst Hnf Htag Htup Hn. set (h0 := new_handler (sh_sys (qs_shard s)) (qs_rpc s) params
    (fetch_rows config_)).
  pose proof (Open_immediate_run request c rest raw Hcur Hsid Hraw (hd_call h0) r w1 Hidle Hl Hx) as Eo.
  rewrite Hst in Eo. specialize (Eo eq_refl).
  destruct (command_run c r (wire_rows config_) _ tag n (opened_state request c rest
    (sh_sys (qs_shard s)) (qs_rpc s) params (fetch_rows config_) r w1)) as (h1 & E1 & Hd & Hp); try done; [simpl; by rewrite Hr0|].
  edestruct (QueryStream_of_body cancelled write_ok (S fuel) config_ request params ms s)
    as (s' & Es & Hr & Hy & Hs); [done| |done|by left|].
  { eapply (stream_body_opened _ _ null decodePgCell); [exact Eo| |exact Hd].
    cbn [stream_loop]. by rewrite (m_bind_run _ _ _ _ _ E1). }
  exists s'. split; [exact Es|]. split; [by rewrite Hr; destruct Hd|]. split; [exact Hs|].
  unfold pool_of. rewrite Hy. simpl. rewrite Hp by done. unfold healthyb. rewrite Hraw. simpl.
  destruct (bool_decide _); simpl; [done|]. by rewrite app_nil_r.
Qed.

(** C16: a statement that returns rows without a cursor (INSERT ... RETURNING,
    say) delivers exactly the fields and rows of its result, if the client can
    decode their cells, under its own command name; two iterations are enough, the status is OK and the pool
    slot is free again. *)
Theorem QueryStream_returning r w1 fs cmd :
  answered request raw (sy_pg (sh_sys (qs_shard s))) = (Some r, w1) →
  PQresultStatus r = PGRES_TUPLES_OK → rs_fields (BuildSchemaMeta r) = fs → fields_ok fs →
  fs ≠ [] → CommandFromStatus (PQcmdStatus r) = cmd → plain_name cmd → cmd ≠ "" →
  str_map toupper cmd = cmd →
  PQntuples r + wire_rows config_ ≤ INT_MAX →
  16 + wire_rows config_ * Z.of_nat (length fs) * 8 ≤ INT_MAX →
  rows_decode null decodePgCell fs (result_rows r) →
  ∃ s', QueryStream cancelled write_ok (S (S fuel)) config_ request ms s = (Ret Status_OK, s')
    ∧ decodeQueryStreamToPgResult null decodePgCell (rpc_sent (qs_rpc s'))
      = inr (mkPgResult cmd (PQntuples r) None fs
               (answer_object null decodePgCell fs <$> result_rows r))
    ∧ in_use_ (pool_of (qs_shard s')) = in_use_ (pool_of (qs_shard s)).
Proof.
  intros Hx Hst Hfs Hok Hne Hcmd Hpl Hce Hup Hsum Hcols Hde.
  set (h0 := new_handler (sh_sys (qs_shard s)) (qs_rpc s) params (fetch_rows config_)).
  pose proof (Open_immediate_run request c rest raw Hcur Hsid Hraw (hd_call h0) r w1 Hidle Hl Hx) as Eo.
  rewrite Hst in Eo. specialize (Eo eq_refl).
  assert (Hw0 : 0 < wire_rows config_) by (unfold wire_rows; case_if; lia).
  destruct (returning_run c r (wire_rows config_) fs _ fuel (opened_state request c rest
    (sh_sys (qs_shard s)) (qs_rpc s) params (fetch_rows config_) r w1)) as (h1 & E1 & Hd);
    [by split; rewrite ?Hr0|done|done|].
  edestruct (QueryStream_of_body cancelled write_ok (S (S fuel)) config_ request params ms s)
    as (s' & Es & Hr & Hy & Hs); [done| |done|by left|].
  { eapply (stream_body_opened _ _ null decodePgCell); [exact Eo|exact E1|exact Hd]. }
  exists s'. split; [exact Es|]. split; [|exact Hs]. rewrite Hr. destruct Hd as [Hd _]. simpl.
  rewrite Hd. unfold stream_result. simpl rs_command. rewrite Hcmd, commandFromTag_app by done.
  by rewrite objects_length.
Qed.

(** C17: a statement that the server rejects reaches the client as an error with
    the server's message: the call sends one error chunk and returns OK, the
    client throws the message, and the connection is discarded while its slot
    is given back. *)
Theorem QueryStream_statement_error res w1 :
  answered request raw (sy_pg (sh_sys (qs_shard s))) = (res, w1) →
  IsOkStatus (result_status res) = false →
  ∃ s', QueryStream cancelled write_ok fuel config_ request ms s = (Ret Status_OK, s')
    ∧ decodeQueryStreamToPgResult null decodePgCell (rpc_sent (qs_rpc s'))
      = inl (c_str (failure_text raw res w1))
    ∧ in_use_ (pool_of (qs_shard s')) = in_use_ (pool_of (qs_shard s))
    ∧ idle_ (pool_of (qs_shard s')) = rest.
Proof.
  intros Hx Hok. set (h0 := new_handler (sh_sys (qs_shard s)) (qs_rpc s) params (fetch_rows config_)).
  destruct (Open_immediate_error request c rest raw Hcur Hsid Hraw (hd_call h0) res w1 Hidle Hl Hx Hok)
    as (s1 & Eo & He & Hc & Hl1 & Hp).
  assert (Eh : on_call (Open request) h0 = (Ret false, set_call s1 h0)).
  { unfold on_call, zoom. by rewrite Eo. }
  edestruct (QueryStream_of_body cancelled write_ok fuel config_ request params ms s)
    as (s' & Es & Hr & Hy & Hs); [done| |done|by left|].
  { unfold stream_body. fold h0. rewrite (m_bind_run _ _ _ _ _ Eh). cbn [negb].
    unfold m_bind, exec_error, gets, on_rpc, on_call, zoom, WriteErrorChunk, Write,
      destroy_StreamingQuery, stream_get. simpl. rewrite Hwrite. simpl. unfold m_bind, gets. simpl.
    rewrite Hc, He. reflexivity. }
  exists s'. split; [exact Es|]. split; [|split; [exact Hs|]].
  - rewrite Hr. simpl. rewrite Hr0. simpl. unfold decodeQueryStreamToPgResult. cbn [client_loop].
    unfold client_step. simpl. rewrite (proj2 (str_empty_false (EncodePgError _)))
      by apply flex_buffer_nonempty. by rewrite decode_error_encode.
  - unfold pool_of. rewrite Hy. simpl. by rewrite Hp.
Qed.
End Calls.
End Immediate.
