(* ===== verification/EndToEnd.v ===== *)
(** * A cursor query, from the pool to the client

    With a server that follows the documented behaviour of cursors, a
    [QueryStream] call terminates and the client decodes exactly the rows of the
    statement from its chunks. *)
From S2P Require Import Prelude CppStd Log Config Grpc Libpq Rpgb FlexMeta QueryMeta PgState PqConn.
From S2P Require Import Pool Sessions Streaming QueryExecutor Health Client ShardService.
From S2P Require Import ShardSafety ShardSlots Delivery.
Local Open Scope Z_scope.
Local Open Scope cpp_scope.

(** ** The server *)

(** What the result of a FETCH shows. *)
Record shows {R} `{!PGResult R} (r : R) (fields : list FieldInfo)
    (rows : list (list (option string))) : Prop := {
  shows_status : PQresultStatus r = PGRES_TUPLES_OK;
  shows_fields : rs_fields (BuildSchemaMeta r) = fields;
  shows_rows : result_rows r = rows;
  shows_tag : PQcmdStatus r = Some ("FETCH " +:+ to_string (Z.of_nat (length rows)));
}.

(** The names [NextCursorName] makes are identifiers. *)
Lemma cursor_name_plain id : 0 ≤ id → plain_name (cursor_name id).
Proof.
  intros Hid. unfold plain_name, cursor_name.
  assert (Hd : find_first (λ c, isspace c || ascii_eqb NUL c) (to_string id) = None).
  { eapply find_first_digits; [by apply to_string_digits|]. intros c Hc.
    rewrite digit_not_space by done. simpl. apply ascii_eqb_neq. intros <-. by destruct Hc. }
  change (("mtdd_c_" +:+ to_string id)) with (String "m" (String "t" (String "d" (String "d" (String "_"
    (String "c" (String "_" (to_string id)))))))). cbn [find_first]. by rewrite Hd.
Qed.

(** Cursors as PostgreSQL documents them: BEGIN on an idle connection starts a
    transaction, DECLARE opens a cursor on the answer of its statement, FETCH
    FORWARD gives the next rows. Freeing a result changes none of this. *)
Class CursorServer `{L : Libpq} := {
  idle_session : pgconn → pgworld → Prop;
  in_transaction : pgconn → pgworld → Prop;
  answers : pgconn → pgworld → string → list exec_param → list FieldInfo →
            list (list (option string)) → Prop;
  cursor_at : pgconn → string → list FieldInfo → list (list (option string)) → pgworld → Prop;
  idle_status raw w : idle_session raw w → PQtransactionStatus raw w = PQTRANS_IDLE;
  begin_works raw w : idle_session raw w →
    ∃ r w', PQexec raw "BEGIN" w = (Some r, w') ∧ PQresultStatus r = PGRES_COMMAND_OK
      ∧ in_transaction raw w'
      ∧ ∀ text ps fs rows, answers raw w text ps fs rows → answers raw w' text ps fs rows;
  declare_works raw w name text ps fmt fs rows :
    in_transaction raw w → answers raw w text ps fs rows → c_str text = text →
    plain_name name →
    ∃ r w', PQexecParams raw (c_str (declare_sql name text)) ps fmt w = (Some r, w')
      ∧ PQresultStatus r = PGRES_COMMAND_OK ∧ cursor_at raw name fs rows w';
  fetch_works raw w name n fs rows : cursor_at raw name fs rows w → 0 < n ≤ INT_MAX →
    ∃ r w', PQexec raw (c_str (fetch_sql n name)) w = (Some r, w')
      ∧ shows r fs (take (Z.to_nat n) rows) ∧ cursor_at raw name fs (drop (Z.to_nat n) rows) w';
  clear_transaction raw r w : in_transaction raw w → in_transaction raw (PQclear r w);
  clear_answers raw r w text ps fs rows :
    answers raw w text ps fs rows → answers raw (PQclear r w) text ps fs rows;
  clear_cursor raw r w name fs rows :
    cursor_at raw name fs rows w → cursor_at raw name fs rows (PQclear r w);
}.
Arguments CursorServer L : clear implicits.

Section EndToEnd.
Context `{L : Libpq, FB : !FlexBuffers, PL : !PGResultLaws pgresult, CS : !CursorServer L}.
Context (cancelled write_ok : nat → bool).
Context {V : Type} (null : V) (decodePgCell : FieldInfo → string → string + V).
Hypothesis Hcancel : ∀ i, cancelled i = false.
Hypothesis Hwrite : ∀ i, write_ok i = true.

Section Cursor.
Context (c : PqConnection) (raw : pgconn) (Hraw : pq_conn_ c = Some raw).
Context (name : string) (fs : list FieldInfo) (n wire : Z).
Hypothesis Hfs : fields_ok fs.
Hypothesis Hne : fs ≠ [].
Hypothesis Hn : 0 < n ≤ INT_MAX.
Hypothesis Hwire : 0 < wire.
Hypothesis Hsum : n + wire ≤ INT_MAX.
Hypothesis Hcols : 16 + wire * Z.of_nat (length fs) * 8 ≤ INT_MAX.
(** The database side where the loop starts: only libpq's state changes. *)
Context (y0 : Sys).

(** The query holds [c] with its cursor open on the rows [rest]. *)
Record cursor_state (rest : list (list (option string))) (h : Handler) : Prop := {
  ct_conn : connection_ (qc_stream (hd_call h)) = Some c;
  ct_use : use_cursor_ (qc_stream (hd_call h)) = true;
  ct_open : cursor_open_ (qc_stream (hd_call h)) = true;
  ct_name : cursor_name_ (qc_stream (hd_call h)) = name;
  ct_size : fetch_size_ (qc_stream (hd_call h)) = n;
  ct_error : qc_error (hd_call h) = "";
  ct_unlocked : pq_addr c ∉ sy_locked (qc_sys (hd_call h));
  ct_rows : cursor_at raw name fs rest (sy_pg (qc_sys (hd_call h)));
  ct_sys : ∃ w, qc_sys (hd_call h) = set_pg w y0;
}.

Lemma cursor_mutex rest h :
  cursor_state rest h →
  mutex_free (connection_ (qc_stream (hd_call h))) (sy_locked (qc_sys (hd_call h))).
Proof. intros Hs d. rewrite (ct_conn _ _ Hs). intros [= <-]. apply Hs. Qed.

Lemma Fetch_run rest h :
  cursor_state rest h →
  ∃ r w1, on_call Fetch h = (Ret (Some r),
      set_call (mkQCall (set_pg w1 (qc_sys (hd_call h))) (qc_stream (hd_call h)) "") h)
    ∧ shows r fs (take (Z.to_nat n) rest) ∧ cursor_at raw name fs (drop (Z.to_nat n) rest) w1.
Proof.
  intros [H1 H2 H3 H4 H5 H6 H7 H8 _].
  destruct (fetch_works raw _ name n fs rest H8) as (r & w1 & Ef & Hs & Hc); [lia|].
  exists r, w1. split; [|done]. unfold on_call, zoom. destruct (hd_call h) as [y q e]. simpl in *.
  unfold Fetch, m_bind at 1, gets. simpl. rewrite H1, H2.
  erewrite FetchCursor_run; [by subst e|exact H1|exact Hraw|exact H7|done|
    by rewrite H4, H5|apply Hs].
Qed.

(** Freeing the previous result. *)
Lemma clear_last_run rest h :
  cursor_state rest h →
  ∃ h', clear_last h = (Ret tt, h') ∧ cursor_state rest h'
    ∧ hd_rpc h' = hd_rpc h ∧ schema_meta h' = schema_meta h ∧ schema_open h' = schema_open h
    ∧ batch_sent h' = batch_sent h ∧ total_rows h' = total_rows h.
Proof.
  intros Hs. unfold clear_last, m_bind, gets. destruct (last_result h) as [r|] eqn:E.
  - eexists. split; [reflexivity|]. split; [|done]. destruct Hs. split; simpl; try done.
    + by apply clear_cursor.
    + destruct ct_sys0 as [w Hw]. eexists. by rewrite Hw.
  - eexists. split; [reflexivity|]. split; [|done]. destruct Hs. by split.
Qed.

(** An iteration up to the treatment of its rows. *)
Lemma fetch_head rest h :
  cursor_state rest h →
  ∃ r h1, fetch_step cancelled write_ok wire h = tuples_step cancelled write_ok wire r h1
    ∧ shows r fs (take (Z.to_nat n) rest) ∧ cursor_state (drop (Z.to_nat n) rest) h1
    ∧ last_result h1 = Some r ∧ rpc_sent (hd_rpc h1) = rpc_sent (hd_rpc h)
    ∧ schema_meta h1 = schema_meta h ∧ schema_open h1 = schema_open h
    ∧ batch_sent h1 = batch_sent h ∧ total_rows h1 = total_rows h.
Proof.
  intros Hs. unfold fetch_step.
  set (h0 := set_rpc (mkRpcState (rpc_sent (hd_rpc h)) (rpc_writes (hd_rpc h)) (rpc_polls (hd_rpc h) + 1)) h).
  assert (E0 : on_rpc (IsCancelled cancelled) h = (Ret false, h0)).
  { unfold on_rpc, zoom, IsCancelled. by rewrite Hcancel. }
  rewrite (m_bind_run _ _ _ _ _ E0).
  assert (Hs0 : cursor_state rest h0) by (destruct Hs; by split).
  destruct (Fetch_run rest h0 Hs0) as (r & w1 & Ef & Hsh & Hcur).
  rewrite (m_bind_run _ _ _ _ _ Ef). set (h1 := set_call _ h0).
  assert (Hs1 : cursor_state (drop (Z.to_nat n) rest) h1).
  { destruct Hs as [? ? ? ? ? ? ? ? [w Hw]]. split; try done. exists w1. simpl. by rewrite Hw. }
  destruct (clear_last_run _ _ Hs1) as (h2 & E2 & Hs2 & Hr & Hm & Ho & Hb & Ht).
  rewrite (m_bind_run _ _ _ _ _ E2). unfold m_bind at 1, modify.
  rewrite (shows_status _ _ _ Hsh). cbn [bool_decide andb negb decide].
  replace (PQnfields r =? 0) with false.
  2: { symmetry. apply Z.eqb_neq. intros H0. pose proof (shows_fields _ _ _ Hsh) as Hf.
       simpl in Hf. rewrite H0 in Hf. done. }
  exists r, (set_last (Some r) h2). split; [done|]. split; [done|].
  split; [by destruct Hs2; split|]. simpl. rewrite Hr, Hm, Ho, Hb, Ht. done.
Qed.

(** ** Rows of a result as objects *)

Lemma shows_ntuples r rows : shows r fs rows → PQntuples r = Z.of_nat (length rows).
Proof.
  intros Hs. rewrite <-(shows_rows _ _ _ Hs). unfold result_rows.
  rewrite length_fmap, length_seqZ. pose proof (PQntuples_range r). lia.
Qed.

Lemma shows_nfields r rows : shows r fs rows → PQnfields r = Z.of_nat (length fs).
Proof. intros Hs. apply nfields_of, Hs. Qed.

Lemma shows_objects r rows :
  shows r fs rows →
  row_objects null decodePgCell r fs 0 (PQntuples r) = answer_object null decodePgCell fs <$> rows.
Proof. intros Hs. rewrite <-(shows_rows _ _ _ Hs). apply result_objects, Hs. Qed.

(** ** The loop *)

(** The client has read [objs]; the schema, once open, describes the cursor. *)
Record loop_state (rest : list (list (option string))) (objs : list (gmap string V))
    (h : Handler) : Prop := {
  ls_cursor : cursor_state rest h;
  ls_reads : client_reads null decodePgCell h objs;
  ls_total : total_rows h = Z.of_nat (length objs);
  ls_schema : schema_open h = true →
    rs_fields (schema_meta h) = fs ∧ rs_command (schema_meta h) = "FETCH";
  ls_closed : schema_open h = false → batch_sent h = false ∧ objs = [];
}.

Definition the_result (objs : list (gmap string V)) : PgResult V :=
  mkPgResult "FETCH" (Z.of_nat (length objs)) None fs objs.

Definition delivered (objs : list (gmap string V)) : Handler → Prop :=
  ended null decodePgCell (inr (the_result objs)).

(** One iteration with rows left. *)
Lemma tuples_run rest objs h h1 r :
  loop_state rest objs h → shows r fs (take (Z.to_nat n) rest) →
  cursor_state (drop (Z.to_nat n) rest) h1 →
  rpc_sent (hd_rpc h1) = rpc_sent (hd_rpc h) → schema_meta h1 = schema_meta h →
  schema_open h1 = schema_open h → batch_sent h1 = batch_sent h → total_rows h1 = total_rows h →
  rest ≠ [] → Z.of_nat (length objs + length rest) ≤ MAX_EXACT →
  rows_decode null decodePgCell fs (take (Z.to_nat n) rest) →
  ∃ h', tuples_step cancelled write_ok wire r h1 = (Ret Continue, h')
    ∧ loop_state (drop (Z.to_nat n) rest)
        (objs ++ (answer_object null decodePgCell fs <$> take (Z.to_nat n) rest)) h'
    ∧ schema_open h' = true ∧ batch_sent h' = true.
Proof.
  intros [Hcur [Hr Hk] Ht Hsch Hcl] Hsh Hcur1 Hrpc Hm Ho Hb Htot Hne' Hl Hde.
  pose proof (shows_ntuples _ _ Hsh) as Hnt. pose proof (shows_nfields _ _ Hsh) as Hnf.
  pose proof MAX_EXACT_LONG.
  assert (Hlen : (0 < length (take (Z.to_nat n) rest) ≤ length rest)%nat
                 ∧ (length (take (Z.to_nat n) rest) ≤ Z.to_nat n)%nat).
  { rewrite length_take. destruct rest; [done|]. simpl. lia. }
  unfold tuples_step, m_bind at 1, gets. replace (PQntuples r =? 0) with false by lia. cbn [andb].
  set (h2 := if negb (schema_open h1) then open_schema (BuildSchemaMeta r) h1 else h1).
  assert (E2 : (when negb (schema_open h1) do modify (open_schema (BuildSchemaMeta r))) h1
    = (Ret tt, h2)) by (unfold h2; by destruct (negb (schema_open h1))).
  rewrite (m_bind_run _ _ _ _ _ E2).
  assert (H2 : hd_call h2 = hd_call h1 ∧ hd_rpc h2 = hd_rpc h1 ∧ batch_sent h2 = batch_sent h1
    ∧ total_rows h2 = total_rows h1 ∧ schema_open h2 = true
    ∧ rs_fields (schema_meta h2) = fs ∧ rs_command (schema_meta h2) = "FETCH"
    ∧ (batch_sent h1 = true → schema_meta h2 = schema_meta h)).
  { unfold h2. rewrite Ho. destruct (schema_open h) eqn:E; simpl.
    - rewrite Hm. destruct (Hsch eq_refl). by split_and!.
    - destruct (Hcl eq_refl) as [Hb0 _]. rewrite Hb, Hb0. split_and!; try done.
      + apply Hsh.
      + rewrite (shows_tag _ _ _ Hsh). reflexivity. }
  destruct H2 as (Hcall2 & Hrpc2 & Hb2 & Htot2 & Ho2 & Hfs2 & Hcmd2 & Hm2).
  destruct (send_batches_run cancelled write_ok null decodePgCell Hcancel Hwrite
    (S (Z.to_nat (PQntuples r))) r fs (PQntuples r) wire 0 h2 objs)
    as (h3 & E3 & (Hl1 & Hl2 & Hl3 & Hl4) & Ht3 & Hb3 & Hr3);
    [apply Hsh|done|done| |lia|done|lia|by rewrite Hnf|lia|lia|lia| |].
  { unfold client_reads. rewrite Hrpc2, Hrpc, Hb2, Hb. split; [|done].
    destruct (batch_sent h) eqn:Eb; [|by rewrite Hr]. rewrite Hm2 by (by rewrite Hb). by rewrite Hr. }
  { apply result_decodes; [apply Hsh|]. by rewrite (shows_rows _ _ _ Hsh). }
  rewrite (m_bind_run _ _ _ _ _ E3). exists h3. split; [done|].
  split; [|split; [congruence|rewrite Hb3; replace (0 <? PQntuples r) with true by lia; by apply orb_true_r]].
  rewrite (shows_objects _ _ Hsh) in Hr3. split; [|done| | |].
  - destruct Hcur1. split; rewrite Hl1, Hcall2; done.
  - rewrite Ht3, length_app, length_fmap. lia.
  - intros _. by rewrite Hl2.
  - intros ?. congruence.
Qed.

(** One iteration with no rows left: the end of the loop, or, for the very first
    fetch, another round with the schema open. *)
Lemma empty_run objs h h1 r :
  loop_state [] objs h → shows r fs [] → cursor_state [] h1 → last_result h1 = Some r →
  rpc_sent (hd_rpc h1) = rpc_sent (hd_rpc h) → schema_meta h1 = schema_meta h →
  schema_open h1 = schema_open h → batch_sent h1 = batch_sent h → total_rows h1 = total_rows h →
  (schema_open h = true ∧ tuples_step cancelled write_ok wire r h1 = (Ret Break, h1)
     ∧ loop_state [] objs h1)
  ∨ (schema_open h = false ∧ ∃ h2, tuples_step cancelled write_ok wire r h1 = (Ret Continue, h2)
       ∧ loop_state [] objs h2 ∧ schema_open h2 = true ∧ batch_sent h2 = batch_sent h1).
Proof.
  intros [Hcur [Hr Hk] Ht Hsch Hcl] Hsh Hcur1 Hlast Hrpc Hm Ho Hb Htot.
  pose proof (shows_ntuples _ _ Hsh) as Hnt. simpl in Hnt.
  destruct (schema_open h) eqn:E; [left|right]; (split; [done|]);
    unfold tuples_step, m_bind at 1, gets; rewrite Hnt; simpl; rewrite Ho.
  - split; [done|]. split; [done| | | |]; rewrite ?Hm, ?Htot, ?Ho; try done.
    unfold client_reads. by rewrite Hrpc, Hb, Hm.
  - destruct (Hcl eq_refl) as [Hb0 ->]. eexists. split; [reflexivity|]. split; [|done].
    split; [by destruct Hcur1; split| |by simpl; rewrite Htot|simpl; intros _|done].
    + unfold client_reads. simpl. rewrite Hrpc, Hb, Hb0. rewrite Hb0 in Hr. done.
    + split; [apply Hsh|]. rewrite (shows_tag _ _ _ Hsh). reflexivity.
Qed.

(** ** One iteration, and all of them *)

#[local] Abbreviation objects := (fmap (answer_object null decodePgCell fs)).

(** The cursor is before the rows [rest], which the client can decode; it is to get
    [all]. *)
Definition loop_at (rest : list (list (option string))) (all : list (gmap string V)) (h : Handler)
  : Prop :=
  ∃ objs, loop_state rest objs h ∧ all = objs ++ objects rest
    ∧ (batch_sent h = false → objs = []) ∧ rows_decode null decodePgCell fs rest.

(** The iterations left, at most. *)
Definition loop_size (rest : list (list (option string))) (h : Handler) : nat :=
  length rest + if schema_open h then 1 else 2.

(** The loop is over. *)
Definition loop_done (all : list (gmap string V)) (h : Handler) : Prop :=
  loop_state [] all h ∧ schema_open h = true ∧ ∃ r, last_result h = Some r ∧ shows r fs [].

Lemma fetch_step_run rest all h :
  loop_at rest all h → Z.of_nat (length all) ≤ MAX_EXACT →
  (∃ h' rest', fetch_step cancelled write_ok wire h = (Ret Continue, h') ∧ loop_at rest' all h'
     ∧ (loop_size rest' h' < loop_size rest h)%nat)
  ∨ ∃ h', fetch_step cancelled write_ok wire h = (Ret Break, h') ∧ loop_done all h'.
Proof.
  unfold loop_size. intros (objs & Hst & -> & Hb & Hde). rewrite length_app, length_fmap. intros Hl.
  destruct (fetch_head rest h (ls_cursor _ _ _ Hst))
    as (r & h1 & -> & Hsh & Hcur1 & Hlast & Hrpc & Hm & Ho & Hbs & Ht).
  destruct rest as [|row rest].
  - rewrite take_nil in Hsh. rewrite drop_nil in Hcur1. rewrite fmap_nil, app_nil_r.
    destruct (empty_run objs h h1 r Hst Hsh Hcur1 Hlast Hrpc Hm Ho Hbs Ht) as [(Ho1 & -> & Hst1)|
      (Ho1 & h2 & -> & Hst2 & Ho2 & Hb2)].
    + right. exists h1. split; [done|]. split; [done|]. split; [congruence|]. by exists r.
    + left. exists h2, []. split; [done|]. rewrite Ho1, Ho2. split; [|simpl; lia].
      exists objs. simpl. rewrite app_nil_r. split_and!; [done..| |done]. rewrite Hb2, Hbs. exact Hb.
  - destruct (tuples_run (row :: rest) objs h h1 r) as (h2 & -> & Hst2 & Ho2 & Hb2); try done;
      [by apply Forall_take|]. left. eexists h2, _. split; [done|]. split.
    + eexists. split; [exact Hst2|]. rewrite <-app_assoc, <-fmap_app, take_drop, Hb2.
      split_and!; [done..|]. by apply Forall_drop.
    + rewrite Ho2, length_drop. simpl. destruct (schema_open h); lia.
Qed.

(** The statements after the loop. *)
Lemma loop_done_run all h :
  loop_done all h → Z.of_nat (length all) ≤ MAX_EXACT →
  ∃ h', after_loop cancelled write_ok h = (Ret Status_OK, h') ∧ delivered all h'.
Proof.
  intros ([Hcur Hr Ht Hsch _] & Ho & r & Hlast & Hsh) Hl. destruct (Hsch Ho) as [Hf Hc].
  destruct (after_loop_run cancelled write_ok null decodePgCell Hcancel Hwrite fs all h r)
    as (h' & E' & Hd); try done; [apply Hsh|intros _; by eapply cursor_mutex|].
  exists h'. split; [exact E'|]. rewrite Hc in Hd. exact Hd.
Qed.

Lemma stream_loop_run fuel rest all h :
  loop_at rest all h → Z.of_nat (length all) ≤ MAX_EXACT → (loop_size rest h ≤ fuel)%nat →
  ∃ h', stream_loop cancelled write_ok fuel wire h = (Ret Status_OK, h') ∧ delivered all h'.
Proof.
  revert rest h. induction fuel as [|fuel IH]; intros rest h Hat Hl Hk.
  { unfold loop_size in Hk. destruct (schema_open h); lia. }
  cbn [stream_loop]. unfold m_bind at 1.
  destruct (fetch_step_run rest all h Hat Hl) as [(h' & rest' & -> & Hat' & Hlt)|(h' & -> & Hd)].
  - apply (IH rest'); [done..|lia].
  - by apply loop_done_run.
Qed.

(** The handler of a query that has just been opened. *)
Lemma opened_loop_at rows h :
  cursor_state rows h → rpc_sent (hd_rpc h) = [] → total_rows h = 0 → schema_open h = false →
  batch_sent h = false → rows_decode null decodePgCell fs rows →
  loop_at rows (objects rows) h ∧ loop_size rows h = (length rows + 2)%nat.
Proof.
  intros Hc Hr Ht Ho Hb Hde. unfold loop_size. rewrite Ho. split; [|done]. exists []. split_and!; try done.
  split; try done; [|by rewrite Ho].
  split; rewrite Hr, ?Hb; [done|]. by intros ch ?%elem_of_nil.
Qed.

End Cursor.

(** ** From the request to the client *)

(** A statement with rows, on the pool. *)
Record cursor_request (request : QueryRequest) : Prop := {
  cq_select : IsTupleStreamingSql (qr_text request) = true;
  cq_pool : qr_session_id request = "";
  cq_text : c_str (qr_text request) = qr_text request;
}.

(** The first idle connection is ready for it, and its answer is [rows]. *)
Record cursor_ready (request : QueryRequest) (c : PqConnection) (rest : list PqConnection)
    (raw : pgconn) (fs : list FieldInfo) (rows : list (list (option string))) (y : Sys) : Prop := {
  cy_idle : idle_ (sy_pool y) = c :: rest;
  cy_raw : pq_conn_ c = Some raw;
  cy_session : idle_session raw (sy_pg y);
  cy_answers : answers raw (sy_pg y) (qr_text request) (BuildParams request) fs rows;
}.

(** Nothing of the server's own stands in its way. *)
Record unhindered (c : PqConnection) (y : Sys) : Prop := {
  uh_unlocked : pq_addr c ∉ sy_locked y;
  uh_cursor : 0 ≤ sy_cursor y;
}.

(** The sizes of the answer, under the bounds of the configuration. *)
Record sizes_ok (config_ : ServerConfig) (fs : list FieldInfo) (rows : list (list (option string)))
  : Prop := {
  sz_fields : fields_ok fs;
  sz_some : fs ≠ [];
  sz_rows : Z.of_nat (length rows) ≤ MAX_EXACT;
  sz_sum : fetch_rows config_ + wire_rows config_ ≤ INT_MAX;
  sz_batch : 16 + wire_rows config_ * Z.of_nat (length fs) * 8 ≤ INT_MAX;
}.

Lemma sizes_fetch config_ fs rows : sizes_ok config_ fs rows → 0 < fetch_rows config_ ≤ INT_MAX.
Proof.
  intros Hz. pose proof (sz_sum _ _ _ Hz). pose proof (wire_rows_pos config_).
  pose proof (fetch_rows_pos config_). lia.
Qed.

(** Opening a pooled cursor query on an idle session. *)
Lemma Open_run request c rest raw fs rows (s : QCall) :
  cursor_request request → cursor_ready request c rest raw fs rows (qc_sys s) → unhindered c (qc_sys s) →
  ∃ s1, Open request s = (Ret true, s1)
    ∧ connection_ (qc_stream s1) = Some c ∧ use_cursor_ (qc_stream s1) = true
    ∧ cursor_open_ (qc_stream s1) = true ∧ fetch_size_ (qc_stream s1) = fetch_size_ (qc_stream s)
    ∧ qc_error s1 = qc_error s ∧ sy_locked (qc_sys s1) = sy_locked (qc_sys s)
    ∧ cursor_at raw (cursor_name_ (qc_stream s1)) fs rows (sy_pg (qc_sys s1))
    ∧ idle_ (sy_pool (qc_sys s1)) = rest ∧ sy_sessions (qc_sys s1) = sy_sessions (qc_sys s)
    ∧ sy_next (qc_sys s1) = sy_next (qc_sys s).
Proof.
  intros [Hcur Hsid Htext] [Hidle Hraw Hses Hans] [Hl Hcnt]. rewrite (Open_acquired request c rest) by done.
  set (a := acquired _ _ _ _ _).
  destruct (begin_works raw _ Hses) as (rb & w1 & Eb & Hbs & Hin & Hkeep).
  destruct (declare_works raw (PQclear rb w1) (cursor_name (sy_cursor (qc_sys a))) (qr_text request)
    (BuildParams request) (result_format_of request) fs rows) as (rd & w2 & Ed & Hds & Hat);
    [by apply clear_transaction|by apply clear_answers, Hkeep|done|by apply cursor_name_plain|].
  eexists. split.
  - apply (OpenCursor_run (qc_sys a) (qc_stream a) (qc_error a) c raw) with (rb := rb) (w1 := w1)
      (rd := rd) (w2 := w2); try done. by apply idle_status.
  - simpl. split_and!; try done. by apply clear_cursor.
Qed.

(** The handler is at the head of its loop then. *)
Lemma Open_loop config_ request params c rest raw fs rows y y0 r0 :
  rpc_sent r0 = [] → cursor_request request → cursor_ready request c rest raw fs rows y →
  unhindered c y → rows_decode null decodePgCell fs rows →
  let h := attach y (new_handler y0 r0 params (fetch_rows config_)) in
  ∃ s1 name, Open request (hd_call h) = (Ret true, s1)
    ∧ loop_at c raw name fs (fetch_rows config_) (qc_sys s1) rows
        (answer_object null decodePgCell fs <$> rows) (set_call s1 h)
    ∧ loop_size rows (set_call s1 h) = (length rows + 2)%nat
    ∧ idle_ (sy_pool (qc_sys s1)) = rest ∧ sy_sessions (qc_sys s1) = sy_sessions y
    ∧ sy_next (qc_sys s1) = sy_next y.
Proof.
  intros Hr0 Hq Hy Hu Hde h.
  destruct (Open_run request c rest raw fs rows (hd_call h))
    as (s1 & Eo & H1 & H2 & H3 & H4 & H5 & H6 & H7 & H8); [done..|].
  assert (Hcs : cursor_state c raw (cursor_name_ (qc_stream s1)) fs (fetch_rows config_) (qc_sys s1)
    rows (set_call s1 h)).
  { split; simpl; try done; [|rewrite H6; apply Hu|by eexists; symmetry; apply set_pg_same].
    rewrite H4. simpl. pose proof (fetch_rows_pos config_).
    by replace (0 <? fetch_rows config_) with true by lia. }
  apply opened_loop_at in Hcs as [Hat Hk]; [|done..]. exists s1. eexists. by split_and!; try apply H8.
Qed.

Lemma stream_body_run fuel config_ request params c rest raw fs rows y r0 :
  rpc_sent r0 = [] → cursor_request request → cursor_ready request c rest raw fs rows y →
  unhindered c y → sizes_ok config_ fs rows → rows_decode null decodePgCell fs rows →
  (length rows + 2 ≤ fuel)%nat →
  ∃ h', stream_body cancelled write_ok fuel (wire_rows config_) request
          (new_handler y r0 params (fetch_rows config_)) = (Ret Status_OK, h')
    ∧ delivered fs (answer_object null decodePgCell fs <$> rows) h'.
Proof.
  intros Hr0 Hq Hy Hu Hz Hde Hfuel. pose proof (sizes_fetch _ _ _ Hz) as Hf0. destruct Hz as [Hfs Hne Hlen Hsum Hcols].
  destruct (Open_loop config_ request params c rest raw fs rows y y r0 Hr0 Hq Hy Hu Hde)
    as (s1 & name & Eo & Hat & Hk & _). set (h0 := attach y _) in *.
  destruct (stream_loop_run c raw (cy_raw _ _ _ _ _ _ _ Hy) name fs (fetch_rows config_)
    (wire_rows config_) Hfs Hne Hf0 (wire_rows_pos config_) Hsum Hcols (qc_sys s1) fuel rows
    (answer_object null decodePgCell fs <$> rows) (set_call s1 h0)) as (h1 & E1 & Hd);
    [done|by rewrite length_fmap|by rewrite Hk|].
  exists (set_call (hd_call h1) h1). split; [|exact Hd].
  exact (stream_body_opened _ _ null decodePgCell _ _ _ h0 _ _ _ _ Eo E1 Hd).
Qed.

(** C2: end to end. On a server that follows the documented behaviour of cursors
    and with a client that keeps reading, an accepted SELECT on a pooled idle
    connection terminates with an OK status, for every fetch and batch size;
    decoding the chunks gives exactly the fields and the rows of the statement,
    in order, if the client can decode their cells, and their number; and the
    pool slot is free again. One iteration per row and two more are enough. *)
Theorem QueryStream_delivers fuel config_ request params ms (s : QState) c rest raw fs rows :
  accepted config_ request params (qs_shard s) → qs_rpc s = new_rpc →
  IsTupleStreamingSql (qr_text request) = true → qr_session_id request = "" →
  c_str (qr_text request) = qr_text request →
  sy_locked (sh_sys (qs_shard s)) = ∅ →
  idle_ (pool_of (qs_shard s)) = c :: rest → pq_conn_ c = Some raw →
  0 ≤ sy_cursor (sh_sys (qs_shard s)) → idle_session raw (sy_pg (sh_sys (qs_shard s))) →
  answers raw (sy_pg (sh_sys (qs_shard s))) (qr_text request) (BuildParams request) fs rows →
  fields_ok fs → fs ≠ [] → Z.of_nat (length rows) ≤ MAX_EXACT →
  fetch_rows config_ + wire_rows config_ ≤ INT_MAX →
  16 + wire_rows config_ * Z.of_nat (length fs) * 8 ≤ INT_MAX →
  rows_decode null decodePgCell fs rows → (length rows + 2 ≤ fuel)%nat →
  ∃ s', QueryStream cancelled write_ok fuel config_ request ms s = (Ret Status_OK, s')
    ∧ decodeQueryStreamToPgResult null decodePgCell (rpc_sent (qs_rpc s'))
      = inr (mkPgResult "FETCH" (Z.of_nat (length rows)) None fs
               (answer_object null decodePgCell fs <$> rows))
    ∧ in_use_ (pool_of (qs_shard s')) = in_use_ (pool_of (qs_shard s)).
Proof.
  intros Hacc Hr0 Hcur Hsid Htext Hl Hidle Hraw Hcnt Hses Hans Hfs Hne Hlen Hsum Hcols Hde Hfuel.
  assert (Hq : cursor_request request) by done.
  assert (Hy : cursor_ready request c rest raw fs rows (sh_sys (qs_shard s))) by done.
  assert (Hu : unhindered c (sh_sys (qs_shard s))) by (split; [rewrite Hl; set_solver|done]).
  destruct (stream_body_run fuel config_ request params c rest raw fs rows (sh_sys (qs_shard s))
    (qs_rpc s)) as (h' & Eb & Hd & _); [by rewrite Hr0|done..|].
  destruct (Open_run request c rest raw fs rows (query_start config_ params (sh_sys (qs_shard s))))
    as (s1 & Eo & _); [done..|].
  destruct (QueryStream_of_body _ _ _ _ _ _ ms s _ _ Hacc Eb Hl) as (s' & Es & Hr & _ & Hs);
    [right; by rewrite Eo|].
  exists s'. split; [exact Es|]. split; [|exact Hs].
  rewrite Hr, Hd. unfold the_result. by rewrite length_fmap.
Qed.

End EndToEnd.
