(* ===== verification/Isolation.v ===== *)
(** * One connection among the calls of others

    A fact about one libpq handle that calls on other handles leave alone stays
    true through everything other calls of the service do, as long as the
    connection with that handle is neither idle, nor a session's, nor theirs:
    they neither use its handle nor lock its mutex. *)
From S2P Require Import Prelude CppStd Grpc Libpq QueryMeta PgState PqConn Pool Sessions Streaming Health.
Local Open Scope Z_scope.
Local Open Scope cpp_scope.

(** [I] is about [raw]: calls on other handles keep it, and while it holds a new
    connection gets another handle. *)
Record about {L : Libpq} (raw : pgconn) (I : pgworld → Prop) : Prop := {
  ab_connect conninfo w : I w →
    I (PQconnectdb conninfo w).2 ∧ (PQconnectdb conninfo w).1 ≠ Some raw;
  ab_exec raw' sql w : raw' ≠ raw → I w → I (PQexec raw' sql w).2;
  ab_execParams raw' sql ps fmt w : raw' ≠ raw → I w → I (PQexecParams raw' sql ps fmt w).2;
  ab_finish raw' w : raw' ≠ raw → I w → I (PQfinish raw' w);
  ab_clear r w : I w → I (PQclear r w);
}.

Section Isolation.
Context `{L : Libpq} (c : PqConnection) (raw : pgconn) (I : pgworld → Prop) (HI : about raw I).

(** Another connection. *)
Definition apart (d : PqConnection) : Prop := pq_addr d ≠ pq_addr c ∧ pq_conn_ d ≠ Some raw.

Record aside (s : Sys) : Prop := {
  as_world : I (sy_pg s);
  as_next : (pq_addr c < sy_next s)%nat;
  as_lock : pq_addr c ∉ sy_locked s;
  as_idle d : d ∈ idle_ (sy_pool s) → apart d;
  as_sessions sid d : sy_sessions s !! sid = Some d → apart d;
}.

(** ** libpq *)

Lemma aside_pg s w : I w → aside s → aside (set_pg w s).
Proof. intros Hw []. by split. Qed.

Lemma aside_call {A} (f : pgworld → A * pgworld) :
  (∀ w, I w → I (f w).2) → keeps aside (pg_call f).
Proof.
  intros Hf s Hs. unfold pg_call. specialize (Hf _ (as_world _ Hs)). destruct (f (sy_pg s)).
  by apply aside_pg.
Qed.
Lemma aside_exec d sql : apart d → keeps aside (conn_exec d sql).
Proof.
  intros [_ Hd]. unfold conn_exec. destruct (pq_conn_ d) as [r|]; [|by intros s].
  apply aside_call. intros w. apply (ab_exec _ _ HI). congruence.
Qed.
Lemma aside_execParams d sql ps fmt : apart d → keeps aside (conn_execParams d sql ps fmt).
Proof.
  intros [_ Hd]. unfold conn_execParams. destruct (pq_conn_ d) as [r|]; [|by intros s].
  apply aside_call. intros w. apply (ab_execParams _ _ HI). congruence.
Qed.
Lemma aside_do f : (∀ w, I w → I (f w)) → keeps aside (pg_do f).
Proof. intros Hf s Hs. apply aside_pg; [|done]. apply Hf, Hs. Qed.
Lemma aside_finish r : r ≠ raw → keeps aside (pg_do (PQfinish r)).
Proof. intros Hr. apply aside_do. intros w. by apply (ab_finish _ _ HI). Qed.
Lemma aside_clear r : keeps aside (pg_clear r).
Proof.
  destruct r as [r|]; [|by intros s]. apply aside_do. intros w. by apply (ab_clear _ _ HI).
Qed.
Lemma aside_read {A} (f : pgworld → A) : keeps aside (pg_read f).
Proof. by intros s. Qed.
#[local] Hint Resolve aside_clear aside_read : mtdd.

Lemma aside_timeout r ms : r ≠ raw → keeps aside (ApplyStatementTimeout r ms).
Proof.
  intros Hr. unfold ApplyStatementTimeout. case_if; [by intros s|].
  apply keeps_bind; [apply aside_call; intros w; by apply (ab_exec _ _ HI)|].
  intros [res|]; [|by intros s]. apply keeps_bind; [auto with mtdd|by intros ? s].
Qed.

(** ** New connections *)

(** A connection attempt leaves [c] aside, and so is the new connection. *)
Definition new_apart (r : string + PqConnection) (s : Sys) : Prop :=
  aside s ∧ ∀ d, r = inr d → apart d.

Lemma failed_apart (m : M Sys unit) e :
  keeps aside m → hoare aside (m ;; m_ret (inl e)) new_apart aside aside.
Proof.
  intros Hm. eapply hoare_bind; [by apply hoare_keeps|]. intros u. by apply hoare_ret.
Qed.

Lemma new_apart_at r s : r ≠ raw → aside s → new_apart (inr (mkPqConnection (sy_next s) (Some r)))
  (set_next (sy_next s + 1) s).
Proof.
  intros Hr [H1 H2 H3 H4 H5]. split; [split; simpl; try done; lia|]. intros d [= <-].
  split; simpl; [lia|congruence].
Qed.

(** [hoare_bind] for a step that keeps [aside]. *)
Ltac aside_step H := eapply hoare_bind; [by apply hoare_keeps, H|]; cbv beta; intros.

Lemma aside_connected r params ms :
  r ≠ raw →
  hoare aside
    (let* status := pg_read (PQstatus r) in
     if bool_decide (status ≠ CONNECTION_OK) then
       let* error := pg_read (PQerrorMessage r) in pg_do (PQfinish r) ;; m_ret (inl error)
     else
       let* probe := pg_call (PQexec r "SELECT 1") in
       if bool_decide (result_status probe ≠ PGRES_TUPLES_OK) then
         let* error := match probe with
                       | Some p => m_ret (PQresultErrorMessage p)
                       | None => pg_read (PQerrorMessage r)
                       end in
         pg_clear probe ;; pg_do (PQfinish r) ;; m_ret (inl error)
       else
         pg_clear probe ;;
         let* failed := ApplyStatementTimeout r
           (if 0 <? ms then ms else cp_statement_timeout_ms params) in
         match failed with
         | Some error => pg_do (PQfinish r) ;; m_ret (inl error)
         | None => let* addr := gets sy_next in
                   modify (set_next (addr + 1)) ;; m_ret (inr (mkPqConnection addr (Some r)))
         end) new_apart aside aside.
Proof.
  intros Hr. aside_step @aside_read. case_match.
  { aside_step @aside_read. by apply failed_apart, aside_finish. }
  eapply hoare_bind; [apply hoare_keeps, aside_call; intros w; by apply (ab_exec _ _ HI)|].
  cbv beta. intros probe. case_match.
  { eapply hoare_bind with (Q := λ _, aside); [by destruct probe; apply hoare_keeps; intros s|].
    intros e. aside_step aside_clear. by apply failed_apart, aside_finish. }
  aside_step aside_clear. aside_step aside_timeout. case_match; [by apply failed_apart, aside_finish|].
  intros s Hs. by apply new_apart_at.
Qed.

Lemma aside_Connect params ms s :
  aside s → ∃ r s', PqConnection_Connect params ms s = (Ret r, s') ∧ aside s' ∧ frame s s'
    ∧ ∀ d, r = inr d → apart d.
Proof.
  intros Hs. destruct (Connect_runs params ms s) as (r & s' & E & Hf). exists r, s'.
  split; [done|]. revert E. unfold PqConnection_Connect, m_bind at 1, pg_call.
  destruct (ab_connect _ _ HI (c_str (BuildConninfo params)) (sy_pg s) (as_world _ Hs)) as [Hw Hne].
  destruct (PQconnectdb _ _) as [[r1|] w]; simpl in Hw, Hne; intros E.
  - pose proof (aside_connected r1 params ms ltac:(congruence) (set_pg w s) (aside_pg _ _ Hw Hs)) as Hh.
    assert (Hn : ∀ x, x = (Ret r, s') → match x with
      | (Ret a, s1) => new_apart a s1 | (Throw _, s1) => aside s1 | (Stuck _, s1) => aside s1
      end → new_apart r s') by (by intros x ->).
    destruct (Hn _ E Hh). by split_and!.
  - injection E as <- <-. split_and!; [by apply aside_pg|done|done].
Qed.

(** ** References and the pool *)

Lemma aside_refs l : keeps aside (modify (set_refs l)).
Proof. intros s []. by split. Qed.

Lemma aside_destroy d : apart d → keeps aside (destroy_if_unowned d).
Proof.
  intros [_ Hd] s Hs. unfold destroy_if_unowned. destruct (owned d s); [done|].
  destruct (pq_conn_ d) as [r|]; [|done]. apply aside_finish; [congruence|done].
Qed.
Lemma aside_take_ref d : keeps aside (take_ref d).
Proof. intros s []. by split. Qed.
Lemma aside_drop_ref d : apart d → keeps aside (drop_ref d).
Proof.
  intros Hd. apply keeps_bind; [|intros _; by apply aside_destroy]. intros s []. by split.
Qed.

(** A pool whose idle queue has other connections only. *)
Lemma aside_pool s p : (∀ d, d ∈ idle_ p → apart d) → aside s → aside (set_pool p s).
Proof. intros Hp []. by split. Qed.

Lemma aside_Configure params size : keeps aside (Configure params size).
Proof. intros s Hs. apply aside_pool; [|done]. apply Hs. Qed.

Lemma aside_pool_Connect : keeps aside Pool.Connect.
Proof.
  intros s Hs. unfold Pool.Connect, m_bind at 1, gets. unfold m_bind at 1.
  destruct (aside_Connect (params_ (sy_pool s)) 0 s Hs) as (r & s1 & -> & Hs1 & _ & Hr).
  destruct r as [e|d]; [done|]. apply aside_pool; [|done]. simpl. intros x.
  rewrite elem_of_app, list_elem_of_singleton. intros [Hx| ->]; [by apply Hs1|by apply Hr].
Qed.

Lemma aside_probe params ms : keeps aside (probe_connection params ms).
Proof.
  intros s Hs. unfold probe_connection, m_bind at 1.
  destruct (aside_Connect params ms s Hs) as (r & s1 & -> & Hs1 & _ & Hr).
  destruct r as [e|d]; [done|]. destruct (Hr d eq_refl) as [_ Hd].
  destruct (pq_conn_ d) as [r1|]; [|done]. apply (aside_finish r1); [congruence|done].
Qed.

Lemma aside_Acquire s :
  aside s →
  match Acquire s with (Ret (Some d), s') => aside s' ∧ apart d | (_, s') => aside s' end.
Proof.
  intros Hs. unfold Acquire, m_bind at 1, gets.
  destruct (Acquire_section (sy_pool s)) as [|d p'|p'] eqn:Ea; [done|..].
  - apply Acquire_section_idle in Ea as (rest & Ei & ->).
    assert (Hi : ∀ x, x ∈ d :: rest → apart x) by (intros x; rewrite <-Ei; apply Hs).
    split; [|apply Hi; by left]. apply (aside_take_ref d). simpl.
    apply aside_pool; [|done]. simpl. intros x Hx. apply Hi. by right.
  - apply Acquire_section_reserve in Ea as (Ei & _ & ->). unfold m_bind at 1, modify.
    set (s0 := set_pool _ s).
    assert (Hs0 : aside s0) by (apply (aside_pool s); [apply Hs|done]).
    unfold m_bind at 1, CreateConnection, m_bind at 1, gets. unfold m_bind at 1.
    destruct (aside_Connect (params_ (sy_pool s0)) 0 s0 Hs0) as (r & s1 & E & Hs1 & _ & Hr).
    rewrite E. destruct r as [e|d]; simpl.
    + apply aside_pool; [apply Hs1|done].
    + split; [by apply (aside_take_ref d)|]. by apply Hr.
Qed.

Lemma aside_Release d b : apart d → keeps aside (Release (Some d) b).
Proof.
  intros Hd s Hs. unfold Release, m_bind. rewrite IsHealthy_eq. apply aside_pool; [|done].
  unfold Release_section. destruct (_ || _); simpl; [apply Hs|]. intros x.
  rewrite elem_of_app, list_elem_of_singleton. intros [Hx| ->]; [by apply Hs|done].
Qed.

(** ** Sessions *)

Lemma aside_create_session sid params s :
  aside s → ∃ r s', create_session sid params s = (Ret r, s') ∧ aside s' ∧ ∀ d, r.1 = Some d → apart d.
Proof.
  intros Hs. unfold create_session, m_bind at 1, get. case_match; [by eexists _, _|].
  unfold m_bind at 1. destruct (aside_Connect params 0 s Hs) as (r & s1 & -> & Hs1 & _ & Hr).
  destruct r as [e|d]; [by eexists _, _|]. specialize (Hr d eq_refl).
  eexists _, _. split; [reflexivity|]. split; [|by intros x [= <-]].
  apply (aside_take_ref d). destruct Hs1 as [H1 H2 H3 H4 H5]. split; simpl; try done.
  intros sid' x. destruct (decide (sid = sid')) as [<-|Hne].
  - rewrite lookup_insert_eq. by intros [= <-].
  - rewrite lookup_insert_ne by done. apply H5.
Qed.

Lemma aside_GetOrCreate sid params s :
  aside s → ∃ r s', GetOrCreate sid params s = (Ret r, s') ∧ aside s' ∧ ∀ d, r.1 = Some d → apart d.
Proof.
  intros Hs. unfold GetOrCreate. case_match; [by eexists _, _|]. unfold m_bind at 1, gets.
  destruct (sy_sessions s !! sid) as [d|] eqn:El; [|by apply aside_create_session].
  pose proof (as_sessions _ Hs _ _ El) as Hd. unfold m_bind at 1. rewrite IsHealthy_eq.
  destruct (healthyb d s).
  - eexists _, _. split; [reflexivity|]. split; [by apply (aside_take_ref d)|by intros x [= <-]].
  - destruct (erase_session_runs sid d s) as (s1 & E & _). unfold m_bind. rewrite E.
    apply aside_create_session. replace s1 with (snd (erase_session sid d s)) by (by rewrite E).
    unfold erase_session. apply keeps_bind; [|intros _; by apply aside_destroy|done].
    intros s2 [H1 H2 H3 H4 H5]. split; simpl; try done. intros sid' x.
    rewrite lookup_delete_Some. intros [_ Hx]. by eapply H5.
Qed.

(** ** The queries of other calls *)

(** The query holds [o], another connection if it holds any. *)
Definition other_call (o : option PqConnection) (s : QCall) : Prop :=
  aside (qc_sys s) ∧ connection_ (qc_stream s) = o ∧ ∀ d, o = Some d → apart d.

Lemma other_sysM {A} o (m : M Sys A) : keeps aside m → keeps (other_call o) (sysM m).
Proof.
  intros Hm s [Hs Ho]. unfold sysM, zoom. specialize (Hm (qc_sys s) Hs). simpl.
  by destruct (m (qc_sys s)).
Qed.
Lemma other_exec d sql : keeps (other_call (Some d)) (sysM (conn_exec d sql)).
Proof. intros s Hs. apply other_sysM; [|done]. apply aside_exec. by apply Hs. Qed.
Lemma other_execParams d sql ps fmt : keeps (other_call (Some d)) (sysM (conn_execParams d sql ps fmt)).
Proof. intros s Hs. apply other_sysM; [|done]. apply aside_execParams. by apply Hs. Qed.
Lemma other_clear o r : keeps (other_call o) (sysM (pg_clear r)).
Proof. apply other_sysM, aside_clear. Qed.
Lemma other_status o d : keeps (other_call o) (sysM (conn_transactionStatus d)).
Proof. apply other_sysM. intros s Hs. unfold conn_transactionStatus. by destruct (pq_conn_ d). Qed.
Lemma other_error_text o d r : keeps (other_call o) (exec_error_text d r).
Proof.
  unfold exec_error_text. destruct r; [by intros s|]. apply other_sysM. intros s Hs.
  unfold ErrorMessage. by destruct (pq_conn_ d).
Qed.
Lemma other_cursor_name o : keeps (other_call o) (sysM NextCursorName).
Proof. apply other_sysM. intros s []. by split. Qed.
Lemma other_set_error o e : keeps (other_call o) (set_error e).
Proof. by intros s. Qed.
Lemma other_stream_get {A} o (f : StreamingQuery → A) : keeps (other_call o) (stream_get f).
Proof. by intros s. Qed.
Lemma other_on_stream o f :
  (∀ q, connection_ (f q) = connection_ q) → keeps (other_call o) (on_stream f).
Proof. intros Hf s (Hs & Hc & Ho). split_and!; [done| |done]. simpl. by rewrite Hf. Qed.

Lemma aside_locked s l : pq_addr c ∉ l → aside s → aside (set_locked l s).
Proof. intros Hl []. by split. Qed.

Lemma other_with_lock {A} d (m : M QCall A) :
  keeps (other_call (Some d)) m → keeps (other_call (Some d)) (with_lock d m).
Proof.
  intros Hm s (Hs & Ho). unfold with_lock. case_bool_decide; [by split|].
  assert (Hd : pq_addr d ≠ pq_addr c) by (apply Ho; done). pose proof (as_lock _ Hs).
  specialize (Hm (put_sys (set_locked ({[pq_addr d]} ∪ sy_locked (qc_sys s)) (qc_sys s)) s)).
  simpl in *. destruct (m _) as [r s'].
  assert (Hs' : other_call (Some d) s') by (apply Hm; split; [apply aside_locked; [set_solver|done]|done]).
  pose proof (as_lock _ (proj1 Hs')).
  destruct r; [|..|done]; (split; [|apply Hs']); (apply aside_locked; [set_solver|apply Hs']).
Qed.

(** The branches on [connection_]. *)
Lemma other_connection {A} o (k : option PqConnection → M QCall A) :
  keeps (other_call o) (k o) → keeps (other_call o) (m_bind (stream_get connection_) k).
Proof.
  intros Hk s Hs. unfold m_bind, stream_get, gets. pose proof Hs as (_ & -> & _). by apply Hk.
Qed.
Lemma other_the_connection {A} o (k : PqConnection → M QCall A) :
  (∀ d, o = Some d → keeps (other_call o) (k d)) → keeps (other_call o) (m_bind the_connection k).
Proof.
  intros Hk s Hs. unfold m_bind, the_connection, m_bind, stream_get, gets. pose proof Hs as (_ & -> & _).
  destruct o as [d|]; [by apply (Hk d)|done].
Qed.

Ltac other_walk :=
  repeat first
    [ solve [eauto with mtdd]
    | apply other_exec | apply other_execParams | apply other_clear | apply other_status
    | apply other_error_text | apply other_cursor_name | apply other_set_error
    | by apply other_on_stream
    | apply other_connection
    | apply other_the_connection; intros ? ->
    | apply other_stream_get
    | apply other_with_lock
    | apply keeps_bind; [|intros]
    | case_match ].

Lemma other_EndTransaction o b : keeps (other_call o) (EndTransaction b).
Proof. unfold EndTransaction, set_error_if_empty. destruct o; other_walk. Qed.
Lemma other_CloseCursor o : keeps (other_call o) CloseCursor.
Proof. unfold CloseCursor, set_error_if_empty. destruct o; other_walk. Qed.
#[local] Hint Resolve other_EndTransaction other_CloseCursor : mtdd.
Lemma other_OpenCursor o r : keeps (other_call o) (OpenCursor r).
Proof. unfold OpenCursor, BeginIfNeeded. other_walk. Qed.
Lemma other_ExecuteImmediate o r : keeps (other_call o) (ExecuteImmediate r).
Proof. unfold ExecuteImmediate. other_walk. Qed.
Lemma other_FetchCursor o : keeps (other_call o) FetchCursor.
Proof. unfold FetchCursor. destruct o; other_walk. Qed.
#[local] Hint Resolve other_OpenCursor other_ExecuteImmediate other_FetchCursor : mtdd.
Lemma other_Fetch o : keeps (other_call o) Fetch.
Proof. unfold Fetch. other_walk. Qed.
Lemma other_drop_immediate o : keeps (other_call o) drop_immediate.
Proof. unfold drop_immediate. other_walk. Qed.

(** ** Taking and giving back *)

Definition other_query (s : QCall) : Prop := other_call (connection_ (qc_stream s)) s.

Lemma keeps_other {A} (m : M QCall A) : (∀ o, keeps (other_call o) m) → keeps other_query m.
Proof.
  intros Hm s Hs. specialize (Hm _ s Hs). unfold other_query. by rewrite (proj1 (proj2 Hm)) at 1.
Qed.

(** The slot of a pooled connection. *)
Lemma other_release_slot b d :
  keeps (other_call (Some d))
    (let* pooled := stream_get pooled_ in
     if pooled : bool then
       let* ok := sysM (IsHealthy d) in sysM (Release (Some d) (b || negb ok))
     else m_ret tt).
Proof.
  apply keeps_bind; [apply other_stream_get|intros []; [|by intros s]]. apply keeps_bind.
  - apply other_sysM. intros s. by rewrite IsHealthy_eq.
  - intros ok s Hs. apply other_sysM; [|done]. apply aside_Release. by apply Hs.
Qed.

Lemma other_keeps_connection o s : other_call o s → other_query s.
Proof. intros Hs. unfold other_query. by rewrite (proj1 (proj2 Hs)). Qed.

Lemma other_ReleaseConnection b s : other_query s → other_query (snd (ReleaseConnection b s)).
Proof.
  intros Hs. unfold ReleaseConnection, m_bind at 1, stream_get at 1, gets.
  unfold other_query in Hs. destruct (connection_ (qc_stream s)) as [d|] eqn:Ec;
    [|by apply (other_keeps_connection None)].
  assert (Hd : apart d) by (by apply Hs).
  rewrite <-m_bind_assoc. pose proof (other_release_slot b d s Hs) as Hk. unfold m_bind at 1.
  match goal with |- context [match ?m s with _ => _ end] =>
    destruct (m s) as [[[]|e|w] s1] end; simpl in Hk; [|by eapply other_keeps_connection..].
  unfold m_bind, on_stream, modify, sysM, zoom. simpl.
  pose proof (aside_drop_ref d Hd (qc_sys s1) (proj1 Hk)) as Hx.
  destruct (drop_ref d (qc_sys s1)) as [[] y]; by split.
Qed.

Lemma other_destroy s : other_query s → other_query (snd (destroy_StreamingQuery s)).
Proof.
  intros Hs. unfold destroy_StreamingQuery, m_bind at 1, stream_get, gets. unfold other_query in Hs.
  destruct (connection_ (qc_stream s)) as [d|] eqn:Ec; [|by apply (other_keeps_connection None)].
  assert (Hd : apart d) by (by apply Hs). unfold m_bind, on_stream, modify, sysM, zoom. simpl.
  pose proof (aside_drop_ref d Hd (qc_sys s) (proj1 Hs)) as Hx.
  destruct (drop_ref d (qc_sys s)) as [[] y]; by split.
Qed.

Lemma other_AcquireConnection r s :
  aside (qc_sys s) → connection_ (qc_stream s) = None → other_query (snd (AcquireConnection r s)).
Proof.
  intros Hs Hc. unfold AcquireConnection, m_bind at 1, on_stream at 1, modify. destruct (negb _).
  - unfold m_bind at 1, stream_get, gets. unfold m_bind at 1, sysM, zoom. simpl.
    destruct (aside_GetOrCreate (qr_session_id r) (session_defaults_ (qc_stream s)) (qc_sys s) Hs)
      as ([[d|] [e|]] & y & -> & Hy & Hd); simpl; (split; [done|]); (split; [done|]); simpl; intros x [= <-];
      by apply Hd.
  - unfold m_bind at 1, sysM, zoom. simpl. pose proof (aside_Acquire (qc_sys s) Hs) as Ha.
    destruct (Acquire (qc_sys s)) as [[[d|]|e|w] y]; simpl in *;
      try (split; [done|]; split; [done|]; simpl; by rewrite ?Hc).
    destruct Ha as [Hy Hd]. split; [done|]. split; [done|]. by intros x [= <-].
Qed.

Lemma keeps_other_Release b : keeps other_query (ReleaseConnection b).
Proof. intros s. apply other_ReleaseConnection. Qed.
Lemma keeps_other_clear r : keeps other_query (sysM (pg_clear r)).
Proof. apply keeps_other. intros o. apply other_clear. Qed.
Lemma keeps_other_Fetch : keeps other_query Fetch.
Proof. apply keeps_other, other_Fetch. Qed.
#[local] Hint Resolve keeps_other_Release keeps_other_clear other_Fetch other_drop_immediate : mtdd.

Ltac query_walk :=
  repeat first
    [ solve [eauto with mtdd]
    | apply keeps_other; intros; solve [eauto with mtdd]
    | apply keeps_other; intros; by apply other_on_stream
    | apply keeps_other; intros; apply other_stream_get
    | apply keeps_bind; [|intros]
    | case_match ].

Lemma keeps_other_Close : keeps other_query Close.
Proof. unfold Close. query_walk. Qed.
Lemma keeps_other_Abort : keeps other_query Abort.
Proof.
  intros s Hs. unfold Abort, ignoring_errors.
  match goal with |- context [?m (mkQCall _ _ _)] => assert (Hm : keeps other_query m) by query_walk end.
  specialize (Hm (mkQCall (qc_sys s) (qc_stream s) "") Hs).
  match goal with |- context [?m (mkQCall _ _ _)] => by destruct (m (mkQCall _ _ _)) end.
Qed.

Lemma other_Open r s :
  aside (qc_sys s) → connection_ (qc_stream s) = None → other_query (snd (Open r s)).
Proof.
  intros Hs Hc. unfold Open, m_bind at 1, on_stream at 1, modify. set (s0 := mkQCall _ _ _).
  pose proof (other_AcquireConnection r s0 Hs Hc) as Ha. unfold m_bind at 1.
  destruct (AcquireConnection r s0) as [[b|e|w] s1]; simpl in Ha; [|done..].
  revert s1 Ha. match goal with |- ∀ s1, _ → other_query (snd (?m s1)) => change (keeps other_query m) end.
  query_walk.
Qed.
End Isolation.
