(* ===== verification/Calls.v ===== *)
(** * Concurrent calls of the shard service (src/src/service/mtdd_shard_service.cpp)

    gRPC runs every call on a thread of its own. Here any number of [Connect],
    [QueryStream] and [Disconnect] calls and the probe thread share one service
    object: the handlers are cut into phases, and the phases of different calls
    interleave in any order. A phase of [QueryStream] is the opening of the
    query, one iteration of its loop, the statements after the loop, the
    destruction of the query, or the end of its timer; a phase of [Connect] is
    what lies between two accesses to the state it shares with other calls. A
    call that finds the pool exhausted goes to sleep on the pool's condition
    variable: it tests the predicate again once a notification, or nothing at
    all, has woken it. One that does not come to an end stays, with its
    connection and the mutexes it holds. *)
From S2P Require Import Prelude CppStd Log Config Grpc Libpq FlexMeta PgState PqConn Pool Sessions.
From S2P Require Import Streaming QueryExecutor Health ShardService Lift ShardSafety ShardSlots Delivery.
Local Open Scope Z_scope.
Local Open Scope cpp_scope.

(** ** The phases of [QueryStream] *)

Inductive phase :=
| Opening                 (* the query is constructed *)
| Asleep                  (* in [cv_.wait], from [Acquire] *)
| Looping                 (* at the head of the [while] loop *)
| Finishing               (* after the loop *)
| Leaving (st : Status)   (* before the destruction of the query *)
| Timing (st : Status)    (* before the destruction of the timer *)
| Returned (st : Status)
| Hung (why : stuck).     (* the thread does not come back *)

#[global] Instance phase_eq_opening p : Decision (p = Opening).
Proof. destruct p; first [by left|by right]. Defined.

Section Calls.
Context `{L : Libpq, FB : !FlexBuffers}.

Section Phases.
Context (cancelled write_ok : nat → bool).

(** The [catch] block around the loop and what follows it. *)
Definition catching (m : M Handler phase) : M Handler phase :=
  try_catch m (λ e, let* st := catch_block write_ok e in m_ret (Leaving st)).

Definition phase_step (wire_batch_rows : Z) (request : QueryRequest) (p : phase)
  : M Handler phase :=
  match p with
  | Opening =>
      let* opened := on_call (Open request) in
      if negb opened then
        let* e := exec_error in
        on_rpc (WriteErrorChunk write_ok (error_message_meta e)) ;;
        m_ret (Leaving Status_OK)
      else m_ret Looping
  | Looping =>
      catching (let* f := fetch_step cancelled write_ok wire_batch_rows in
                m_ret (match f with
                       | Continue => Looping
                       | Break => Finishing
                       | Return st => Leaving st
                       end))
  | Finishing =>
      catching (let* st := after_loop cancelled write_ok in m_ret (Leaving st))
  | Leaving st =>
      on_call destroy_StreamingQuery ;; m_ret (Timing st)
  | Asleep | Timing _ | Returned _ | Hung _ => m_ret p
  end.

(** The phases of a call that no other call interrupts. *)
Fixpoint run_phases (n : nat) (wire_batch_rows : Z) (request : QueryRequest) (p : phase)
  : M Handler Status :=
  match n with
  | O => hang OutOfFuel
  | S n' =>
      let* p' := phase_step wire_batch_rows request p in
      match p' with
      | Timing st => m_ret st
      | _ => run_phases n' wire_batch_rows request p'
      end
  end.
End Phases.

(** The checks at the start of [QueryStream]: the refusal, or the credentials. *)
Definition admit_query (config_ : ServerConfig) (request : QueryRequest)
  : M Shard (Status + ConnectParams) :=
  let* refused := check_host_index config_ (qr_host_index request) in
  match refused with
  | Some message => m_ret (inl (mkStatus INVALID_ARGUMENT message))
  | None =>
      match EnsureQueryRequest request with
      | Some message => m_ret (inl (mkStatus INVALID_ARGUMENT message))
      | None =>
          if max_query_text_bytes config_ <? to_int32 (str_size (qr_text request)) then
            m_ret (inl (mkStatus INVALID_ARGUMENT "query text exceeds MTDD_MAX_QUERY_TEXT_BYTES"))
          else
            let* s := get in
            match executor_ s, connect_params_ s with
            | Some _, Some params => m_ret (inr params)
            | _, _ => m_ret (inl (mkStatus FAILED_PRECONDITION "Connect must be called first"))
            end
      end
  end.

(** ** The phases of [Connect] *)

Inductive cphase :=
| Validating                                    (* up to [pool_.Configure] *)
| Connecting (params : ConnectParams)           (* [pool_.Connect] *)
| Storing (params : ConnectParams)              (* the section locked by [state_mutex_] *)
| Reporting (params : ConnectParams)            (* [OnConnectSuccess] *)
| Failing (error : string)                      (* [OnConnectFailure] *)
| CTiming (r : Status * ConnectResponse)
| Answered (r : Status * ConnectResponse).

Definition connect_step (config_ : ServerConfig) (request : ConnectRequest) (ms : Z) (p : cphase)
  : M Shard cphase :=
  match p with
  | Validating =>
      let* refused := check_host_index config_ (cr_host_index request) in
      match refused with
      | Some message => m_ret (CTiming (Status_OK, mkConnectResponse false message))
      | None =>
          let params := BuildConnectParams config_ request in
          if str_empty (cp_dbname params) || str_empty (cp_user params) then
            m_ret (CTiming (Status_OK, mkConnectResponse false "dbname and user are required"))
          else
            sysM (Configure params (pool_size config_)) ;;
            m_ret (Connecting params)
      end
  | Connecting params =>
      let* error := sysM Pool.Connect in
      m_ret (match error with Some e => Failing e | None => Storing params end)
  | Storing params =>
      modify (λ s, mkShard (sh_sys s) (health_monitor_ s) (Some params) (Some params) (sh_cerr s)) ;;
      m_ret (Reporting params)
  | Reporting params =>
      on_health (OnConnectSuccess params (statement_timeout_ms config_)) ;;
      m_ret (CTiming (Status_OK, mkConnectResponse true "connected"))
  | Failing e =>
      on_health (on_monitor OnConnectFailure) ;;
      m_ret (CTiming (Status_OK, mkConnectResponse false e))
  | CTiming r => timer_end "connect" ms ;; m_ret (Answered r)
  | Answered _ => m_ret p
  end.

Fixpoint run_connect (n : nat) (config_ : ServerConfig) (request : ConnectRequest) (ms : Z)
    (p : cphase) : M Shard (Status * ConnectResponse) :=
  match n with
  | O => hang OutOfFuel
  | S n' =>
      let* p' := connect_step config_ request ms p in
      match p' with
      | Answered r => m_ret r
      | _ => run_connect n' config_ request ms p'
      end
  end.

(** ** The running service *)

(** A [QueryStream] call: the answers its stream gives, its locals, its phase, and
    whether it got to the head of its loop. The database part of the locals is
    that of its last phase. *)
Record QueryCall := mkQueryCall {
  qk_cancelled : nat → bool;
  qk_write_ok : nat → bool;
  qk_request : QueryRequest;
  qk_local : Handler;
  qk_phase : phase;
  qk_opened : bool;
}.

Record ConnectCall := mkConnectCall { ck_request : ConnectRequest; ck_phase : cphase }.

Record Running := mkRunning {
  rn_shard : Shard;
  rn_queries : list QueryCall;
  rn_connects : list ConnectCall;
}.

Definition advance (h : Handler) (p : phase) (q : QueryCall) : QueryCall :=
  mkQueryCall (qk_cancelled q) (qk_write_ok q) (qk_request q) h p
    (qk_opened q || match p with Looping => true | _ => false end).

(** A call that was admitted, or refused. *)
Definition begin_query (config_ : ServerConfig) (cancelled write_ok : nat → bool)
    (request : QueryRequest) (y : Sys) (r : Status + ConnectParams) : QueryCall :=
  match r with
  | inl st => mkQueryCall cancelled write_ok request
                (new_handler y new_rpc default_params (fetch_rows config_)) (Timing st) false
  | inr params => mkQueryCall cancelled write_ok request
                    (new_handler y new_rpc params (fetch_rows config_)) Opening false
  end.

(** The next phase of a call, in the service as it is now. *)
Definition query_run (config_ : ServerConfig) (q : QueryCall) (sh : Shard) : outcome phase * Handler :=
  phase_step (qk_cancelled q) (qk_write_ok q) (wire_rows config_) (qk_request q) (qk_phase q)
    (attach (sh_sys sh) (qk_local q)).

(** The call is in [Handler] code. *)
Definition active (p : phase) : bool :=
  match p with Asleep | Timing _ | Returned _ | Hung _ => false | _ => true end.

(** The query has not been opened. *)
Definition before_open (p : phase) : bool :=
  match p with Opening | Asleep => true | _ => false end.

(** What one thread does next, notifications apart. A call that waits leaves
    everything as it was. *)
Inductive move (config_ : ServerConfig) : relation Running :=
| move_begin sh sh' qs cs cancelled write_ok request r :
    admit_query config_ request sh = (Ret r, sh') →
    move config_ (mkRunning sh qs cs)
      (mkRunning sh' (qs ++ [begin_query config_ cancelled write_ok request (sh_sys sh') r]) cs)
| move_query sh qs cs i q p h :
    qs !! i = Some q → active (qk_phase q) = true → query_run config_ q sh = (Ret p, h) →
    move config_ (mkRunning sh qs cs)
      (mkRunning (put_sys (qc_sys (hd_call h)) sh) (<[i := advance h p q]> qs) cs)
| move_hang sh qs cs i q w h :
    qs !! i = Some q → active (qk_phase q) = true → query_run config_ q sh = (Stuck w, h) →
    w ≠ CvWait →
    move config_ (mkRunning sh qs cs)
      (mkRunning (put_sys (qc_sys (hd_call h)) sh) (<[i := advance h (Hung w) q]> qs) cs)
| move_sleep sh qs cs i q h :
    qs !! i = Some q → qk_phase q = Opening → query_run config_ q sh = (Stuck CvWait, h) →
    move config_ (mkRunning sh qs cs)
      (mkRunning sh (<[i := advance (qk_local q) Asleep q]> qs) cs)
| move_return sh sh' qs cs i q st ms :
    qs !! i = Some q → qk_phase q = Timing st → timer_end "query_stream" ms sh = (Ret tt, sh') →
    move config_ (mkRunning sh qs cs)
      (mkRunning sh' (<[i := advance (qk_local q) (Returned st) q]> qs) cs)
| move_connect_begin sh qs cs request :
    move config_ (mkRunning sh qs cs)
      (mkRunning sh qs (cs ++ [mkConnectCall request Validating]))
| move_connect sh sh' qs cs i request p p' ms :
    cs !! i = Some (mkConnectCall request p) →
    connect_step config_ request ms p sh = (Ret p', sh') →
    move config_ (mkRunning sh qs cs)
      (mkRunning sh' qs (<[i := mkConnectCall request p']> cs))
| move_disconnect sh sh' qs cs request r :
    Disconnect config_ request sh = (Ret r, sh') →
    move config_ (mkRunning sh qs cs) (mkRunning sh' qs cs)
| move_probe sh sh' qs cs :
    on_health probe_tick sh = (Ret tt, sh') →
    move config_ (mkRunning sh qs cs) (mkRunning sh' qs cs).

(** A sleeping call is woken: it tests the predicate again. *)
Definition wake (i : nat) (q : QueryCall) (qs : list QueryCall) : list QueryCall :=
  <[i := advance (qk_local q) Opening q]> qs.

(** [notify_one]: one of the sleeping calls, whichever, if there is one. *)
Inductive wakes : relation (list QueryCall) :=
| wakes_one qs i q : qs !! i = Some q → qk_phase q = Asleep → wakes qs (wake i q qs)
| wakes_nobody qs : Forall (λ q, qk_phase q ≠ Asleep) qs → wakes qs qs.

(** A thread's step with the notifications it has sent, or a wakeup without one. *)
Inductive step (config_ : ServerConfig) : relation Running :=
| step_move v sh qs cs qs' :
    move config_ v (mkRunning sh qs cs) →
    nsteps wakes (notified (pool_of (rn_shard v)) (pool_of sh)) qs qs' →
    step config_ v (mkRunning sh qs' cs)
| step_spurious sh qs cs i q :
    qs !! i = Some q → qk_phase q = Asleep →
    step config_ (mkRunning sh qs cs) (mkRunning sh (wake i q qs) cs).

(** The same as a function of what happens next; the first of the sleeping calls is
    woken. *)
Inductive event :=
| EvBegin (cancelled write_ok : nat → bool) (request : QueryRequest)
| EvQuery (i : nat)
| EvReturn (i : nat) (ms : Z)
| EvConnectBegin (request : ConnectRequest)
| EvConnect (i : nat) (ms : Z)
| EvDisconnect (request : DisconnectRequest)
| EvProbe.

(** [None] when it cannot happen now. *)
Definition fire_move (config_ : ServerConfig) (e : event) (v : Running) : option Running :=
  let '(mkRunning sh qs cs) := v in
  match e with
  | EvBegin cancelled write_ok request =>
      match admit_query config_ request sh with
      | (Ret r, sh') =>
          Some (mkRunning sh' (qs ++ [begin_query config_ cancelled write_ok request (sh_sys sh') r]) cs)
      | _ => None
      end
  | EvQuery i =>
      q ← qs !! i;
      if active (qk_phase q) then
        match query_run config_ q sh with
        | (Ret p, h) =>
            Some (mkRunning (put_sys (qc_sys (hd_call h)) sh) (<[i := advance h p q]> qs) cs)
        | (Stuck CvWait, _) =>
            match qk_phase q with
            | Opening => Some (mkRunning sh (<[i := advance (qk_local q) Asleep q]> qs) cs)
            | _ => None
            end
        | (Throw _, _) => None
        | (Stuck w, h) =>
            Some (mkRunning (put_sys (qc_sys (hd_call h)) sh) (<[i := advance h (Hung w) q]> qs) cs)
        end
      else None
  | EvReturn i ms =>
      q ← qs !! i;
      match qk_phase q, timer_end "query_stream" ms sh with
      | Timing st, (Ret _, sh') =>
          Some (mkRunning sh' (<[i := advance (qk_local q) (Returned st) q]> qs) cs)
      | _, _ => None
      end
  | EvConnectBegin request => Some (mkRunning sh qs (cs ++ [mkConnectCall request Validating]))
  | EvConnect i ms =>
      k ← cs !! i;
      match connect_step config_ (ck_request k) ms (ck_phase k) sh with
      | (Ret p', sh') => Some (mkRunning sh' qs (<[i := mkConnectCall (ck_request k) p']> cs))
      | _ => None
      end
  | EvDisconnect request =>
      match Disconnect config_ request sh with
      | (Ret _, sh') => Some (mkRunning sh' qs cs)
      | _ => None
      end
  | EvProbe =>
      match on_health probe_tick sh with
      | (Ret _, sh') => Some (mkRunning sh' qs cs)
      | _ => None
      end
  end.

(** The first sleeping call. *)
Fixpoint sleeper (qs : list QueryCall) : option (nat * QueryCall) :=
  match qs with
  | [] => None
  | q :: qs' =>
      match qk_phase q with
      | Asleep => Some (0%nat, q)
      | _ => '(i, q') ← sleeper qs'; Some (S i, q')
      end
  end.

Definition notify (qs : list QueryCall) : list QueryCall :=
  match sleeper qs with Some (i, q) => wake i q qs | None => qs end.

Definition fire (config_ : ServerConfig) (e : event) (v : Running) : option Running :=
  v' ← fire_move config_ e v;
  Some (mkRunning (rn_shard v')
    (Nat.iter (notified (pool_of (rn_shard v)) (pool_of (rn_shard v'))) notify (rn_queries v'))
    (rn_connects v')).

Fixpoint schedule (config_ : ServerConfig) (es : list event) (v : Running) : option Running :=
  match es with
  | [] => Some v
  | e :: es' => v' ← fire config_ e v; schedule config_ es' v'
  end.

(** The service before its first call. *)
Definition started (config_ : ServerConfig) (mon : option PgHealthMonitor) (w : pgworld)
    (cerr : list string) : Running :=
  mkRunning (new_Shard config_ mon w cerr) [] [].

Lemma fire_move_move config_ e v v' : fire_move config_ e v = Some v' → move config_ v v'.
Proof.
  intros E. destruct v as [sh qs cs], e as [cancelled write_ok request|i|i ms|request|i ms|request|];
    cbn [fire_move] in E.
  - destruct (admit_query config_ request sh) as [[]] eqn:Ea; simplify_eq. by apply move_begin.
  - destruct (qs !! i) as [q|] eqn:Hi; [|done]. cbn [mbind option_bind] in E.
    destruct (active (qk_phase q)) eqn:Ha; [|done].
    destruct (query_run config_ q sh) as [[|?|[]]] eqn:Eq; simplify_eq;
      try first [by eapply move_query|by eapply move_hang].
    destruct (qk_phase q) eqn:Ep; simplify_eq. by eapply move_sleep.
  - destruct (qs !! i) as [q|] eqn:Hi; [|done]. cbn [mbind option_bind] in E. destruct (qk_phase q) eqn:Hp; try done.
    destruct (timer_end _ _ sh) as [[[]| |]] eqn:Et; simplify_eq. by eapply move_return.
  - simplify_eq. apply move_connect_begin.
  - destruct (cs !! i) as [[request p]|] eqn:Hi; [|done].
    cbn [mbind option_bind ck_request ck_phase] in E.
    destruct (connect_step _ _ _ _ _) as [[]] eqn:Ec; simplify_eq. by eapply move_connect.
  - destruct (Disconnect _ _ _) as [[]] eqn:Ed; simplify_eq. by eapply move_disconnect.
  - destruct (on_health _ _) as [[[]| |]] eqn:Ep; simplify_eq. by apply move_probe.
Qed.

Lemma sleeper_spec qs :
  match sleeper qs with
  | Some (i, q) => qs !! i = Some q ∧ qk_phase q = Asleep
  | None => Forall (λ q, qk_phase q ≠ Asleep) qs
  end.
Proof.
  induction qs as [|q qs IH]; simpl; [by apply Forall_nil|].
  destruct (qk_phase q) eqn:Ep; [|done|..];
    (destruct (sleeper qs) as [[i q']|]; simpl; [done|apply Forall_cons; split; [congruence|done]]).
Qed.

Lemma notify_wakes qs : wakes qs (notify qs).
Proof.
  unfold notify. pose proof (sleeper_spec qs) as Hs. destruct (sleeper qs) as [[i q]|].
  - destruct Hs. by apply wakes_one.
  - by apply wakes_nobody.
Qed.

Lemma notify_many n qs : nsteps wakes n qs (Nat.iter n notify qs).
Proof.
  induction n as [|n IH]; [by constructor|]. eapply nsteps_r; [exact IH|]. apply notify_wakes.
Qed.

Lemma fire_step config_ e v v' : fire config_ e v = Some v' → step config_ v v'.
Proof.
  unfold fire. destruct (fire_move config_ e v) as [[sh qs cs]|] eqn:E; [|done]. intros [= <-]. simpl.
  eapply step_move; [by apply fire_move_move in E|apply notify_many].
Qed.

Lemma schedule_run config_ es v v' : schedule config_ es v = Some v' → rtc (step config_) v v'.
Proof.
  revert v. induction es as [|e es IH]; intros v; simpl; [by intros [= <-]; apply rtc_refl|].
  destruct (fire config_ e v) as [v1|] eqn:E; [|done]. simpl. intros Hr. eapply rtc_l; [|by apply IH].
  by apply fire_step in E.
Qed.

(** ** Invariants *)

(** The sleeping calls among others: waking one changes its phase only. *)
Lemma wakes_inv qs qs' :
  wakes qs qs' → qs' = qs ∨ ∃ i q, qs !! i = Some q ∧ qk_phase q = Asleep ∧ qs' = wake i q qs.
Proof. destruct 1 as [qs i q Hi Hq|qs H]; [right; by exists i, q|by left]. Qed.

(** What the threads' steps and a wakeup keep, the service keeps. *)
Lemma step_kept config_ (P : Running → Prop) :
  (∀ v v', move config_ v v' → P v → P v') →
  (∀ sh qs cs i q, qs !! i = Some q → qk_phase q = Asleep → P (mkRunning sh qs cs) →
     P (mkRunning sh (wake i q qs) cs)) →
  ∀ v v', step config_ v v' → P v → P v'.
Proof.
  intros Hm Hw v v' Hst Hv. destruct Hst as [v sh qs cs qs' Hs Hn|sh qs cs i q Hi Hq]; [|by apply Hw].
  apply Hm in Hs; [|done]. revert Hn Hs. generalize (notified (pool_of (rn_shard v)) (pool_of sh)).
  intros n Hn. induction Hn as [qs|n qs qs1 qs2 [->|(i & q & Hi & Hq & ->)]%wakes_inv _ IH]; [done|done|].
  intros Hp. by apply IH, Hw.
Qed.

Lemma run_kept config_ (P : Running → Prop) v v' :
  (∀ v v', move config_ v v' → P v → P v') →
  (∀ sh qs cs i q, qs !! i = Some q → qk_phase q = Asleep → P (mkRunning sh qs cs) →
     P (mkRunning sh (wake i q qs) cs)) →
  P v → rtc (step config_) v v' → P v'.
Proof. intros Hm Hw Hv. apply rtc_invariant; [done|]. by apply step_kept. Qed.

(** The calls after some wakeups: all but sleeping ones are as they were. *)
Definition woken (qs qs' : list QueryCall) : Prop :=
  length qs' = length qs
  ∧ ∀ i q, qs !! i = Some q →
      qs' !! i = Some q ∨ qk_phase q = Asleep ∧ qs' !! i = Some (advance (qk_local q) Opening q).

#[global] Instance woken_refl : Reflexive woken.
Proof. intros qs. by split; [|left]. Qed.

Lemma woken_awake qs qs' i q :
  woken qs qs' → qs !! i = Some q → qk_phase q ≠ Asleep → qs' !! i = Some q.
Proof. intros [_ Hw] Hi Hq. by destruct (Hw i q Hi) as [|[]]. Qed.

Lemma wake_woken qs i q : qs !! i = Some q → qk_phase q = Asleep → woken qs (wake i q qs).
Proof.
  intros Hi Hq. split; [by apply length_insert|]. intros j q' Hj. destruct (decide (j = i)) as [->|Hne].
  - right. rewrite Hi in Hj. injection Hj as <-. split; [done|].
    by eapply list_lookup_insert_eq, lookup_lt_Some.
  - left. unfold wake. by rewrite list_lookup_insert_ne.
Qed.

Lemma woken_trans qs1 qs2 qs3 : woken qs1 qs2 → woken qs2 qs3 → woken qs1 qs3.
Proof.
  intros [L1 H1] [L2 H2]. split; [congruence|]. intros i q Hi.
  destruct (H1 i q Hi) as [H|[Hq H]].
  - by apply H2.
  - right. split; [done|]. by destruct (H2 _ _ H) as [|[]].
Qed.

Lemma wakes_woken n qs qs' : nsteps wakes n qs qs' → woken qs qs'.
Proof.
  induction 1 as [qs|n qs qs1 qs2 [->|(i & q & Hi & Hq & ->)]%wakes_inv _ IH]; [reflexivity|done|].
  eapply woken_trans; [by apply wake_woken|exact IH].
Qed.

(** A thread's step can be made, with some choice of the calls that it wakes. *)
Lemma move_step config_ v sh qs cs :
  move config_ v (mkRunning sh qs cs) →
  ∃ qs', step config_ v (mkRunning sh qs' cs) ∧ woken qs qs'.
Proof.
  intros Hm. eexists. split; [eapply step_move; [exact Hm|apply notify_many]|].
  eapply wakes_woken, notify_many.
Qed.

(** A step that sends no notification. *)
Lemma step_quiet config_ v sh qs cs :
  move config_ v (mkRunning sh qs cs) → cv_ (pool_of sh) = cv_ (pool_of (rn_shard v)) →
  step config_ v (mkRunning sh qs cs).
Proof.
  intros Hm Hc. eapply step_move; [exact Hm|]. unfold notified. rewrite Hc, Nat.sub_diag. constructor.
Qed.

(** A property of each call that a wakeup keeps. *)
Lemma Forall_wake (P : QueryCall → Prop) qs i q :
  (∀ q, qk_phase q = Asleep → P q → P (advance (qk_local q) Opening q)) →
  qs !! i = Some q → qk_phase q = Asleep → Forall P qs → Forall P (wake i q qs).
Proof.
  intros HP Hi Hq Hf. apply Forall_insert; [done|]. apply HP; [done|]. by eapply Forall_lookup_1 in Hf.
Qed.

(** ** What the phases keep *)

Section Keeps.
Context (cancelled write_ok : nat → bool) (wire : Z) (request : QueryRequest) (P : QCall → Prop).

(** The first phase is [Open], and a chunk for its error. *)
Lemma opening_keeps h :
  P (snd (Open request (hd_call h))) →
  on_handler P (snd (phase_step cancelled write_ok wire request Opening h)).
Proof.
  intros Ho. cbn [phase_step]. unfold m_bind at 1, on_call, zoom.
  by destruct (Open request (hd_call h)) as [[[]|e|w] s1].
Qed.

End Keeps.

(** The phases after the first, where [E] holds of a call that does not end. *)
Section Stays.
Context (cancelled write_ok : nat → bool) (wire : Z) (request : QueryRequest).
Context (P E : QCall → Prop) (PE : ∀ s, P s → E s).
#[local] Abbreviation lifted m := (stays (on_handler P) (on_handler E) m).

Hypothesis keeps_fetch : stays P E Fetch.
Hypothesis keeps_close : stays P E Close.
Hypothesis keeps_abort : stays P E Abort.
Hypothesis keeps_clear : ∀ r, stays P E (sysM (pg_clear r)).

Lemma catching_stays (m : M Handler phase) : lifted m → lifted (catching write_ok m).
Proof.
  intros Hm. apply stays_try; [done|]. intros e. apply stays_bind; [by apply lift_catch_block|].
  by intros st h.
Qed.

Lemma phase_step_stays p :
  p ≠ Opening → (∀ st, p ≠ Leaving st) → lifted (phase_step cancelled write_ok wire request p).
Proof.
  intros Ho Hl. destruct p; cbn [phase_step]; try (by intros h); [..|by destruct (Hl st)];
    apply catching_stays, stays_bind; try (by intros ? h);
    [by apply lift_fetch_step|by apply lift_after_loop].
Qed.

Lemma leaving_stays st :
  stays P E destroy_StreamingQuery → lifted (phase_step cancelled write_ok wire request (Leaving st)).
Proof. intros Hd. apply stays_bind; [by apply lift_call|by intros u h]. Qed.
End Stays.

Section Kept.
Context (cancelled write_ok : nat → bool) (wire : Z) (request : QueryRequest) (P : QCall → Prop).

Lemma phase_step_keeps p :
  keeps P Fetch → keeps P Close → keeps P Abort → (∀ r, keeps P (sysM (pg_clear r))) →
  p ≠ Opening → (∀ st, p ≠ Leaving st) →
  keeps (on_handler P) (phase_step cancelled write_ok wire request p).
Proof. intros. apply keeps_stays, phase_step_stays; auto; intros; by apply keeps_stays. Qed.

Lemma leaving_keeps st :
  keeps P destroy_StreamingQuery →
  keeps (on_handler P) (phase_step cancelled write_ok wire request (Leaving st)).
Proof. intros. by apply keeps_stays, leaving_stays, keeps_stays. Qed.
End Kept.

(** ** A call alone is the handler *)

Section Alone.
Context (cancelled write_ok : nat → bool) (wire : Z) (request : QueryRequest).

(** What follows the opening in [stream_body]. *)
Definition leave (m : M Handler Status) : M Handler Status :=
  let* st := try_catch m (catch_block write_ok) in
  on_call destroy_StreamingQuery ;;
  m_ret st.

#[local] Abbreviation phases n p := (run_phases cancelled write_ok n wire request p).

Lemma run_phases_step n p h :
  phases (S n) p h
  = match phase_step cancelled write_ok wire request p h with
    | (Ret (Timing st), h1) => (Ret st, h1)
    | (Ret p', h1) => phases n p' h1
    | (Throw e, h1) => (Throw e, h1)
    | (Stuck w, h1) => (Stuck w, h1)
    end.
Proof.
  cbn [run_phases]. unfold m_bind. by destruct (phase_step _ _ _ _ _ _) as [[[]|e|w] h1].
Qed.

Lemma leaving_phases n st h :
  phases (S n) (Leaving st) h = (on_call destroy_StreamingQuery ;; m_ret st) h.
Proof. rewrite run_phases_step. cbn [phase_step]. unfold m_bind. by destruct (on_call _ h) as [[]]. Qed.

Lemma finishing_phases n h : phases (S (S n)) Finishing h = leave (after_loop cancelled write_ok) h.
Proof.
  unfold leave, try_catch. rewrite run_phases_step. cbn [phase_step]. unfold catching, try_catch, m_bind.
  destruct (after_loop cancelled write_ok h) as [[st|e|w] h1]; [apply leaving_phases| |done].
  destruct (catch_block write_ok e h1) as [[st|e2|w] h2]; [apply leaving_phases|done..].
Qed.

(** One iteration, on both sides. *)
Lemma leave_loop n h :
  leave (stream_loop cancelled write_ok (S n) wire) h
  = match fetch_step cancelled write_ok wire h with
    | (Ret Continue, h1) => leave (stream_loop cancelled write_ok n wire) h1
    | (Ret Break, h1) => leave (after_loop cancelled write_ok) h1
    | (Ret (Return st), h1) => leave (m_ret st) h1
    | (Throw e, h1) => leave (throw e) h1
    | (Stuck w, h1) => (Stuck w, h1)
    end.
Proof.
  unfold leave, try_catch. cbn [stream_loop]. unfold m_bind.
  by destruct (fetch_step cancelled write_ok wire h) as [[[]|e|w] h1].
Qed.

Lemma looping_phases n h :
  phases (S (S n)) Looping h
  = match fetch_step cancelled write_ok wire h with
    | (Ret Continue, h1) => phases (S n) Looping h1
    | (Ret Break, h1) => phases (S n) Finishing h1
    | (Ret (Return st), h1) => leave (m_ret st) h1
    | (Throw e, h1) => leave (throw e) h1
    | (Stuck w, h1) => (Stuck w, h1)
    end.
Proof.
  rewrite run_phases_step. cbn [phase_step]. unfold catching, try_catch, m_bind.
  destruct (fetch_step cancelled write_ok wire h) as [[[]|e|w] h1]; try done.
  - apply leaving_phases.
  - unfold leave, try_catch, m_bind, throw.
    destruct (catch_block write_ok e h1) as [[st|e2|w] h2]; [apply leaving_phases|done..].
Qed.

Lemma loop_phases n h st h' :
  leave (stream_loop cancelled write_ok n wire) h = (Ret st, h') →
  phases (n + 2) Looping h = (Ret st, h').
Proof.
  revert h. induction n as [|n IH]; intros h; [done|]. rewrite leave_loop.
  replace (S n + 2)%nat with (S (S (n + 1))) by lia. rewrite looping_phases.
  replace (S (n + 1)) with (n + 2)%nat by lia.
  destruct (fetch_step cancelled write_ok wire h) as [[[]|e|w] h1]; [apply IH| |done..].
  replace (n + 2)%nat with (S (S n)) by lia. by rewrite finishing_phases.
Qed.

Lemma phases_loop n h st h' :
  phases n Looping h = (Ret st, h') →
  leave (stream_loop cancelled write_ok n wire) h = (Ret st, h').
Proof.
  revert h. induction n as [|[|n] IH]; intros h; [done| |].
  { rewrite run_phases_step. cbn [phase_step]. unfold catching, try_catch, m_bind.
    destruct (fetch_step cancelled write_ok wire h) as [[[]|e|w] h1]; try done.
    by destruct (catch_block write_ok e h1) as [[]]. }
  rewrite looping_phases, leave_loop.
  destruct (fetch_step cancelled write_ok wire h) as [[[]|e|w] h1]; [apply IH| |done..].
  destruct n as [|n]; [|by rewrite finishing_phases].
  rewrite run_phases_step. cbn [phase_step]. unfold catching, try_catch, m_bind.
  destruct (after_loop cancelled write_ok h1) as [[st1|e|w] h2]; try done.
  by destruct (catch_block write_ok e h2) as [[]].
Qed.

(** A call that nothing interrupts is the handler: it returns from its phases
    exactly when [stream_body] returns, with the same status and state. *)
Lemma stream_body_phases h st h' :
  (∃ fuel, stream_body cancelled write_ok fuel wire request h = (Ret st, h'))
  ↔ ∃ n, phases n Opening h = (Ret st, h').
Proof.
  assert (Ho : ∀ n, phases (S (S n)) Opening h
    = match on_call (Open request) h with
      | (Ret true, h1) => phases (S n) Looping h1
      | (Ret false, h1) =>
          (let* e := exec_error in
           on_rpc (WriteErrorChunk write_ok (error_message_meta e)) ;;
           on_call destroy_StreamingQuery ;; m_ret Status_OK) h1
      | (Throw e, h1) => (Throw e, h1)
      | (Stuck w, h1) => (Stuck w, h1)
      end).
  { intros n. rewrite run_phases_step. cbn [phase_step]. unfold m_bind.
    destruct (on_call (Open request) h) as [[[]|e|w] h1]; [done| |done..]. cbn [negb].
    unfold exec_error, gets. destruct (on_rpc _ h1) as [[]]; [apply leaving_phases|done..]. }
  assert (Hb : ∀ fuel, stream_body cancelled write_ok fuel wire request h
    = match on_call (Open request) h with
      | (Ret true, h1) => leave (stream_loop cancelled write_ok fuel wire) h1
      | (Ret false, h1) =>
          (let* e := exec_error in
           on_rpc (WriteErrorChunk write_ok (error_message_meta e)) ;;
           on_call destroy_StreamingQuery ;; m_ret Status_OK) h1
      | (Throw e, h1) => (Throw e, h1)
      | (Stuck w, h1) => (Stuck w, h1)
      end).
  { intros fuel. unfold stream_body, m_bind at 1.
    destruct (on_call (Open request) h) as [[[]|e|w] h1]; [done| |done..]. cbn [negb].
    unfold m_bind, exec_error, gets. by destruct (on_rpc _ h1) as [[]]. }
  split.
  - intros [fuel E]. exists (S (S (S fuel))). rewrite Ho. rewrite Hb in E.
    destruct (on_call (Open request) h) as [[[]|e|w] h1]; [|done..]. apply loop_phases in E.
    by replace (S (S fuel)) with (fuel + 2)%nat by lia.
  - intros [[|[|n]] E]; [done| |].
    + rewrite run_phases_step in E. cbn [phase_step] in E. unfold m_bind in E.
      destruct (on_call (Open request) h) as [[[]|e|w] h1]; done.
    + exists (S n). rewrite Hb. rewrite Ho in E.
      destruct (on_call (Open request) h) as [[[]|e|w] h1]; [|done..]. by apply phases_loop.
Qed.
End Alone.

(** ** The handlers are runs of the interleaved service *)

Section Adequate.
Context (config_ : ServerConfig) (cancelled write_ok : nat → bool).

Lemma attach_own h : attach (qc_sys (hd_call h)) h = h.
Proof. by destruct h as [[]]. Qed.

Lemma insert_last {A} (l : list A) x y : <[length l := y]> (l ++ [x]) = l ++ [y].
Proof. by rewrite insert_app_r_alt, Nat.sub_diag. Qed.

Lemma lookup_last {A} (l : list A) x : (l ++ [x]) !! length l = Some x.
Proof. by rewrite lookup_app_r, Nat.sub_diag. Qed.

Lemma phase_step_next wire request p h p' h1 :
  active p = true → phase_step cancelled write_ok wire request p h = (Ret p', h1) →
  p' ≠ Opening ∧ (active p' = true ∨ ∃ st, p' = Timing st).
Proof.
  intros Hp E. destruct p; try done; cbn [phase_step] in E; unfold catching, try_catch, m_bind in E.
  - destruct (on_call _ h) as [[[]|?|?] ?]; [by injection E as <- <-; auto| |done..]. cbn [negb] in E.
    unfold exec_error, gets in E. destruct (on_rpc _ _) as [[]]; [|done..]. injection E as <- <-. by auto.
  - destruct (fetch_step _ _ _ h) as [[[]|e|?] ?]; [by injection E as <- <-; auto..| |done].
    destruct (catch_block _ _ _) as [[]]; [|done..]. injection E as <- <-. by auto.
  - destruct (after_loop _ _ h) as [[|e|?] ?]; [by injection E as <- <-; auto| |done].
    destruct (catch_block _ _ _) as [[]]; [|done..]. injection E as <- <-. by auto.
  - destruct (on_call _ h) as [[[]|?|?] ?]; [|done..]. injection E as <- <-. eauto.
Qed.

Lemma phase_step_opened wire request p h p' h1 :
  active p = true → phase_step cancelled write_ok wire request p h = (Ret p', h1) →
  before_open p' = false.
Proof.
  intros Ha E. destruct (phase_step_next _ _ _ _ _ _ Ha E) as [Ho [Hp|[st ->]]]; [|done].
  by destruct p'.
Qed.

(** A step while no call sleeps. *)
Lemma step_awake v sh qs cs :
  move config_ v (mkRunning sh qs cs) → Forall (λ q, qk_phase q ≠ Asleep) qs →
  step config_ v (mkRunning sh qs cs).
Proof.
  intros Hm Hf. eapply step_move; [exact Hm|]. induction (notified _ _) as [|n IH]; [by constructor|].
  econstructor; [by apply wakes_nobody|exact IH].
Qed.

Lemma phases_steps request n p h b sh qs cs st h' :
  Forall (λ q, qk_phase q ≠ Asleep) qs → active p = true →
  run_phases cancelled write_ok n (wire_rows config_) request p (attach (sh_sys sh) h) = (Ret st, h') →
  ∃ b', rtc (step config_) (mkRunning sh (qs ++ [mkQueryCall cancelled write_ok request h p b]) cs)
    (mkRunning (put_sys (qc_sys (hd_call h')) sh)
       (qs ++ [mkQueryCall cancelled write_ok request h' (Timing st) b']) cs).
Proof.
  intros Hq. revert p h b sh. induction n as [|n IH]; intros p h b sh Hp; [done|].
  rewrite run_phases_step. intros E.
  destruct (phase_step _ _ _ _ p (attach (sh_sys sh) h)) as [[p1|e|w] h1] eqn:Es; [|done..].
  destruct (phase_step_next _ _ _ _ _ _ Hp Es) as [Hno Hnext]. set (q := mkQueryCall _ _ _ _ _ b).
  assert (Hs : step config_ (mkRunning sh (qs ++ [q]) cs)
    (mkRunning (put_sys (qc_sys (hd_call h1)) sh) (qs ++ [advance h1 p1 q]) cs)).
  { rewrite <-(insert_last qs q (advance h1 p1 q)).
    apply step_awake; [apply (move_query config_ sh _ cs (length qs) q p1 h1); [apply lookup_last|done..]|].
    rewrite insert_last. apply Forall_app. split; [done|]. apply Forall_singleton. simpl.
    by destruct Hnext as [Ha|[st1 ->]]; [intros ->|]. }
  destruct Hnext as [Hp1|[st1 ->]].
  - destruct (IH p1 h1 (qk_opened (advance h1 p1 q)) (put_sys (qc_sys (hd_call h1)) sh) Hp1)
      as [b' Hr]; [|exists b'; by eapply rtc_l].
    rewrite <-E. simpl. rewrite attach_own. by destruct p1.
  - injection E as <- <-. eexists. by apply rtc_once.
Qed.

(** [QueryStream] is its checks, its body and its timer. *)
Lemma QueryStream_admit fuel request ms sh st s' :
  QueryStream cancelled write_ok fuel config_ request ms (mkQState sh new_rpc) = (Ret st, s') →
  ∃ sh1, timer_end "query_stream" ms sh1 = (Ret tt, qs_shard s') ∧
    ((admit_query config_ request sh = (Ret (inl st), sh1) ∧ qs_rpc s' = new_rpc)
     ∨ ∃ params sh0 h', admit_query config_ request sh = (Ret (inr params), sh0)
         ∧ stream_body cancelled write_ok fuel (wire_rows config_) request
             (new_handler (sh_sys sh0) new_rpc params (fetch_rows config_)) = (Ret st, h')
         ∧ sh1 = put_sys (qc_sys (hd_call h')) sh0 ∧ qs_rpc s' = hd_rpc h').
Proof.
  unfold QueryStream. intros E. apply m_bind_Ret in E as (st0 & s1 & E & E1).
  unfold m_bind at 1, on_shard, zoom in E1.
  destruct (timer_end "query_stream" ms (qs_shard s1)) as [[[]| |] sh2] eqn:Et; [|done..].
  injection E1 as <- <-. exists (qs_shard s1). split; [done|]. simpl.
  unfold query_body, m_bind at 1, on_shard, zoom in E. unfold admit_query, m_bind at 1 3. simpl in E.
  destruct (check_host_index config_ (qr_host_index request) sh) as [[[]| |] sh0]; try done;
    [injection E as <- <-; by left|].
  destruct (EnsureQueryRequest request); [injection E as <- <-; by left|].
  destruct (_ <? _); [injection E as <- <-; by left|]. unfold m_bind, get in *. simpl in *.
  destruct (executor_ sh0); [|injection E as <- <-; by left].
  destruct (connect_params_ sh0) as [params|]; [|injection E as <- <-; by left].
  right. exists params, sh0. unfold run_stream in E. fold (fetch_rows config_) (wire_rows config_) in E.
  simpl in E. destruct (stream_body _ _ _ _ _ _) as [[]] eqn:Eb; [|done..]. injection E as <- <-. eauto 10.
Qed.

(** The interleaved service does what the handler does: whatever else is
    running, as long as no call sleeps, a [QueryStream] call that returns is a
    run of the interleaved service in which the call makes its phases one after
    the other and the others stand still; it ends with the same status, the same
    chunks and the same state of the service. *)
Theorem QueryStream_is_run fuel request ms sh qs cs st s' :
  Forall (λ q, qk_phase q ≠ Asleep) qs →
  QueryStream cancelled write_ok fuel config_ request ms (mkQState sh new_rpc) = (Ret st, s') →
  ∃ q, rtc (step config_) (mkRunning sh qs cs) (mkRunning (qs_shard s') (qs ++ [q]) cs)
    ∧ qk_phase q = Returned st ∧ hd_rpc (qk_local q) = qs_rpc s'.
Proof.
  intros Hq (sh1 & Et & H)%QueryStream_admit.
  assert (Hawake : ∀ q, qk_phase q ≠ Asleep → Forall (λ q, qk_phase q ≠ Asleep) (qs ++ [q])).
  { intros q Hp. apply Forall_app. split; [done|by apply Forall_singleton]. }
  assert (Hend : ∀ h b, ∃ b', rtc (step config_)
    (mkRunning sh1 (qs ++ [mkQueryCall cancelled write_ok request h (Timing st) b]) cs)
    (mkRunning (qs_shard s') (qs ++ [mkQueryCall cancelled write_ok request h (Returned st) b']) cs)).
  { intros h b. set (q := mkQueryCall _ _ _ _ _ _). exists (qk_opened (advance h (Returned st) q)).
    apply rtc_once, step_awake; [|by apply Hawake].
    change (mkQueryCall _ _ _ _ (Returned st) _) with (advance (qk_local q) (Returned st) q).
    rewrite <-(insert_last qs q (advance (qk_local q) (Returned st) q)).
    apply (move_return config_ sh1 (qs_shard s') _ cs (length qs) q st ms);
      [apply lookup_last|done|exact Et]. }
  destruct H as [[Ea Hr]|(params & sh0 & h' & Ea & Eb & -> & Hr)].
  - destruct (Hend (new_handler (sh_sys sh1) new_rpc default_params (fetch_rows config_)) false) as [b' Hr'].
    eexists. split; [eapply rtc_l; [|exact Hr']|by rewrite Hr].
    apply step_awake; [exact (move_begin config_ _ _ qs cs cancelled write_ok _ _ Ea)|by apply Hawake].
  - destruct (proj1 (stream_body_phases _ _ _ _ _ _ _) (ex_intro _ fuel Eb)) as [n En].
    destruct (phases_steps request n Opening (new_handler (sh_sys sh0) new_rpc params (fetch_rows config_))
      false sh0 qs cs st h' Hq eq_refl En) as [b1 H1].
    destruct (Hend h' b1) as [b2 H2]. eexists. split; [eapply rtc_l; [|etrans; [exact H1|exact H2]]|by rewrite Hr].
    apply step_awake; [exact (move_begin config_ _ _ qs cs cancelled write_ok _ _ Ea)|by apply Hawake].
Qed.

(** The phases of a [Connect] call that nothing interrupts. *)
Lemma Connect_phases request ms sh :
  run_connect 5 config_ request ms Validating sh = Connect config_ request ms sh.
Proof.
  unfold Connect, connect_body, timer_end, gets, set_cerr, modify. cbn [run_connect connect_step].
  unfold m_bind.
  destruct (check_host_index config_ (cr_host_index request) sh) as [[[]| |] s1]; try done.
  destruct (_ || _); [done|].
  destruct (sysM (Configure _ _) s1) as [[[]| |] s2]; try done. simpl. unfold m_bind.
  destruct (sysM Pool.Connect s2) as [[[e|]| |] s3]; try done; simpl; unfold m_bind.
  - by destruct (on_health _ s3) as [[[]| |] s4].
  - by destruct (on_health _ _) as [[[]| |] s4].
Qed.
End Adequate.
End Calls.
