(* ===== verification/CallsInv.v ===== *)
(** * What holds however the calls interleave

    Invariants of the interleaved service of [Calls]: the order of the chunks of
    every stream, the connections and their handles, and the slots of the pool.
    Each is kept by one phase of one call on any state of
    the rest, and so by every run. *)
From S2P Require Import Prelude CppStd Log Config Grpc Libpq Rpgb FlexMeta QueryMeta PgState PqConn.
From S2P Require Import Pool Sessions Streaming Handles QueryExecutor Health Queries ShardService.
From S2P Require Import Lift PoolUse ShardSafety ShardSlots Service Delivery Calls.
Local Open Scope Z_scope.
Local Open Scope cpp_scope.

(** ** The streams *)

Section Grammar.
Context `{L : Libpq, FB : !FlexBuffers} (config_ : ServerConfig).

Definition phase_stream (write_ok : nat → bool) (p : phase) (h : Handler) : Prop :=
  match p with
  | Opening | Asleep | Looping | Finishing => streaming h
  | Leaving st | Timing st | Returned st => finished write_ok st h
  | Hung _ => grammatical h
  end.

Lemma phase_stream_grammatical write_ok p h : phase_stream write_ok p h → grammatical h.
Proof. destruct p; simpl; first [apply streaming_grammatical|by intros []|done]. Qed.

(** The chunks of a call do not depend on the database. *)
Lemma phase_stream_attach write_ok p y h :
  phase_stream write_ok p h → phase_stream write_ok p (attach y h).
Proof.
  assert (Hs : same_stream h (attach y h)) by done.
  destruct p; simpl; first [by apply same_streaming|by apply same_finished|by apply same_grammatical].
Qed.

Lemma catching_stream write_ok (m : M Handler phase) :
  hoare streaming m (λ p, phase_stream write_ok p) streaming grammatical →
  hoare streaming (catching write_ok m) (λ p, phase_stream write_ok p) grammatical grammatical.
Proof.
  intros Hm. eapply hoare_try; [exact Hm|]. intros e.
  eapply hoare_bind; [apply catch_block_finishes|]. intros st. by apply hoare_ret.
Qed.

Lemma phase_step_stream cancelled write_ok wire request p :
  hoare (phase_stream write_ok p) (phase_step cancelled write_ok wire request p)
    (λ p', phase_stream write_ok p') grammatical grammatical.
Proof.
  destruct p; cbn [phase_step]; try by apply hoare_ret.
  - eapply hoare_bind with (Q := λ _, streaming).
    { eapply hoare_conseq; [apply call_streaming|done|done|apply streaming_grammatical|done]. }
    intros []; cbn [negb]; [by apply hoare_ret|]. eapply hoare_bind; [apply gets_streaming|].
    intros e. eapply hoare_bind; [apply error_chunk_finishes|]. intros u. by apply hoare_ret.
  - apply catching_stream. eapply hoare_bind; [apply fetch_step_streaming|].
    intros f. destruct f; by apply hoare_ret.
  - apply catching_stream. eapply hoare_bind; [apply after_loop_finishes|].
    intros st'. by apply hoare_ret.
  - eapply hoare_bind with (Q := λ _, finished write_ok st); [|intros _; by apply hoare_ret].
    apply (hoare_frame same_stream);
      [apply same_stream_on_call|apply same_finished|by intros h []|by right; intros h []].
Qed.

Lemma query_run_stream q sh :
  phase_stream (qk_write_ok q) (qk_phase q) (qk_local q) →
  match query_run config_ q sh with
  | (Ret p, h) => phase_stream (qk_write_ok q) p h
  | (_, h) => grammatical h
  end.
Proof.
  intros Hq. pose proof (phase_step_stream (qk_cancelled q) (qk_write_ok q) (wire_rows config_)
    (qk_request q) (qk_phase q) (attach (sh_sys sh) (qk_local q))) as Hs.
  specialize (Hs (phase_stream_attach _ _ _ _ Hq)). unfold query_run.
  by destruct (phase_step _ _ _ _ _ _) as [[]].
Qed.

(** A refused call has a status that is not OK. *)
Lemma admit_refused request sh st sh' :
  admit_query config_ request sh = (Ret (inl st), sh') → status_ok st = false.
Proof.
  unfold admit_query. intros E. apply m_bind_Ret in E as ([m|] & s1 & _ & E);
    [by injection E as <- <-|].
  destruct (EnsureQueryRequest request); [by injection E as <- <-|].
  destruct (_ <? _); [by injection E as <- <-|]. apply m_bind_Ret in E as (s2 & s3 & _ & E).
  destruct (executor_ s2), (connect_params_ s2); first [done|by injection E as <- <-].
Qed.

Definition streams_ok (v : Running) : Prop :=
  Forall (λ q, phase_stream (qk_write_ok q) (qk_phase q) (qk_local q)) (rn_queries v).

Lemma streams_ok_move v v' : move config_ v v' → streams_ok v → streams_ok v'.
Proof.
  unfold streams_ok.
  destruct 1 as [sh sh' qs cs cancelled write_ok request r E|sh qs cs i q p h Hi Ha E
    |sh qs cs i q w h Hi Ha E Hw|sh qs cs i q h Hi Hp E|sh sh' qs cs i q st ms Hi Hp E|sh qs cs request
    |sh sh' qs cs i request p p' ms Hi E|sh sh' qs cs request r E|sh sh' qs cs E]; simpl; try done.
  - intros H. apply Forall_app. split; [done|]. apply Forall_singleton. destruct r; simpl; [|done].
    split; [by left; left|]. rewrite (admit_refused _ _ _ _ E). by left.
  - intros H. apply Forall_insert; [done|]. simpl.
    pose proof (query_run_stream q sh) as Hs. rewrite E in Hs. apply Hs. exact (Forall_lookup_1 _ qs i q H Hi).
  - intros H. apply Forall_insert; [done|]. simpl.
    pose proof (query_run_stream q sh) as Hs. rewrite E in Hs. apply Hs. exact (Forall_lookup_1 _ qs i q H Hi).
  - intros H. apply Forall_insert; [done|]. simpl.
    pose proof (Forall_lookup_1 _ qs _ _ H Hi) as Hq. simpl in Hq. by rewrite Hp in Hq.
  - intros H. apply Forall_insert; [done|]. simpl.
    pose proof (Forall_lookup_1 _ qs _ _ H Hi) as Hq. simpl in Hq. by rewrite Hp in Hq.
Qed.

Lemma streams_ok_reachable mon w cerr v :
  rtc (step config_) (started config_ mon w cerr) v → streams_ok v.
Proof.
  apply run_kept; [apply streams_ok_move|intros sh qs cs i q|by apply Forall_nil].
  apply Forall_wake. intros q' Hq. simpl. by rewrite Hq.
Qed.

(** C4: the streams of concurrent calls. However the calls of the service
    interleave, whatever the server answers and the clients do, the chunks of
    every call follow the grammar of the protocol at every moment; once the
    call has returned OK to a client that took every chunk its stream is
    complete, and after any other status it is not. *)
Theorem calls_grammar mon w cerr v i q :
  rtc (step config_) (started config_ mon w cerr) v → rn_queries v !! i = Some q →
  let l := rc_kind <$> rpc_sent (hd_rpc (qk_local q)) in
  well_formed l
  ∧ ∀ st, qk_phase q = Returned st →
      if status_ok st then (∀ j, qk_write_ok q j = true) → complete l else data_part l.
Proof.
  intros Hr Hi. pose proof (Forall_lookup_1 _ _ _ _ (streams_ok_reachable _ _ _ _ Hr) Hi) as Hq. split; [exact (phase_stream_grammatical _ _ _ Hq)|].
  intros st Hp. simpl in Hq. rewrite Hp in Hq. apply Hq.
Qed.
End Grammar.

(** ** The steps outside [QueryStream] *)

Section Outside.
Context `{L : Libpq, FB : !FlexBuffers} (config_ : ServerConfig).

(** A property of the database state that the pool's and the monitor's
    connections leave alone. *)
Context (I : Sys → Prop).
Hypothesis keeps_configure : ∀ params size, keeps I (Configure params size).
Hypothesis keeps_connect : keeps I Pool.Connect.
Hypothesis keeps_probe : ∀ params ms, keeps I (probe_connection params ms).

Definition on_shard_sys (s : Shard) : Prop := I (sh_sys s).

Lemma outside_sysM {A} (m : M Sys A) : keeps I m → keeps on_shard_sys (sysM m).
Proof.
  intros Hm s Hs. unfold sysM, zoom. specialize (Hm (sh_sys s) Hs). simpl.
  by destruct (m (sh_sys s)).
Qed.

Lemma outside_health (m : M HState unit) :
  keeps (λ h, I (hs_sys h)) m → keeps on_shard_sys (on_health m).
Proof.
  intros Hm s Hs. unfold on_health. destruct (health_monitor_ s) as [h|]; [|done].
  specialize (Hm (mkHState (sh_sys s) h (sh_cerr s)) Hs). by destruct (m _).
Qed.

Lemma outside_ProbeOnce : keeps (λ h, I (hs_sys h)) ProbeOnce.
Proof.
  unfold ProbeOnce. repeat first [ by intros ? | apply keeps_bind; [|intros] | case_match ].
  intros h Hh. unfold sysM, zoom. pose proof (keeps_probe a0 a1 (hs_sys h) Hh) as Hp. simpl.
  by destruct (probe_connection _ _ _).
Qed.

Ltac outside_walk :=
  repeat first
    [ by intros ?
    | apply outside_sysM; auto
    | apply outside_health
    | apply outside_ProbeOnce
    | apply keeps_bind; [|intros]
    | case_match ].

Lemma connect_step_outside request ms p :
  keeps on_shard_sys (connect_step config_ request ms p).
Proof.
  unfold connect_step, OnConnectSuccess, timer_end, check_host_index, set_cerr. outside_walk.
Qed.

Lemma probe_outside : keeps on_shard_sys (on_health probe_tick).
Proof. unfold probe_tick. outside_walk. Qed.
Lemma Disconnect_outside request : keeps on_shard_sys (Disconnect config_ request).
Proof. unfold Disconnect, check_host_index, set_cerr. outside_walk. Qed.
Lemma timer_outside event ms : keeps on_shard_sys (timer_end event ms).
Proof. unfold timer_end, set_cerr. outside_walk. Qed.
Lemma admit_outside request : keeps on_shard_sys (admit_query config_ request).
Proof. unfold admit_query, check_host_index, set_cerr. outside_walk. Qed.
End Outside.

(** ** Connections and their handles *)

Section Connections.
Context `{L : Libpq, FB : !FlexBuffers, HL : !HandleLog L} (config_ : ServerConfig).

Definition stream_of (q : QueryCall) : StreamingQuery := qc_stream (hd_call (qk_local q)).
Definition streams (v : Running) : list StreamingQuery := stream_of <$> rn_queries v.

(** A call has no connection before its query is opened. *)
Definition unopened (q : QueryCall) : Prop :=
  before_open (qk_phase q) = true → connection_ (stream_of q) = None.

Record running_safe (v : Running) : Prop := {
  rs_safe : safe (refs_of (streams v)) (pooled_in (streams v)) (sh_sys (rn_shard v));
  rs_unopened : Forall unopened (rn_queries v);
}.

Lemma leaving_or p : (∃ st, p = Leaving st) ∨ ∀ st, p ≠ Leaving st.
Proof. destruct p; eauto. Qed.

Lemma phase_step_safe cancelled write_ok wire request p others pooled h :
  pooled ⊆ others → (p = Opening → connection_ (qc_stream (hd_call h)) = None) →
  safe_handler others pooled h →
  safe_handler others pooled (snd (phase_step cancelled write_ok wire request p h)).
Proof.
  intros Hsub Ho Hh. destruct (leaving_or p) as [[st ->]|Hl].
  { apply leaving_keeps; [|done]. intros s Hs. by apply destroy_safe. }
  destruct (decide (p = Opening)) as [->|Hp].
  - apply opening_keeps, Open_safe; [done|]. by split; [|apply Ho].
  - apply phase_step_keeps; auto using keeps_Fetch, keeps_Close, keeps_Abort, keeps_sys_clear.
Qed.

(** One call among the others. *)
Lemma list_split (qs : list QueryCall) i q q' :
  qs !! i = Some q →
  qs = take i qs ++ q :: drop (S i) qs ∧ <[i := q']> qs = take i qs ++ q' :: drop (S i) qs.
Proof.
  intros Hi. split; [by rewrite take_drop_middle|]. apply insert_take_drop. by eapply lookup_lt_Some.
Qed.

Lemma running_safe_among (q1 q2 : list QueryCall) q y h p :
  hd_call h = mkQCall y (qc_stream (hd_call h)) (qc_error (hd_call h)) →
  let others := stream_of <$> (q1 ++ q2) in
  let all := stream_of <$> (q1 ++ advance h p q :: q2) in
  safe (refs_of all) (pooled_in all) y
  ↔ safe_handler (refs_of others) (pooled_in others) h.
Proof.
  intros Hy others all. unfold safe_handler, on_handler, safe_call, others, all. rewrite Hy, !fmap_app, fmap_cons. simpl.
  by rewrite refs_middle, pooled_middle.
Qed.

(** A call that changes its phase only. *)
Lemma streams_rephase (qs : list QueryCall) i q p :
  qs !! i = Some q → stream_of <$> <[i := advance (qk_local q) p q]> qs = stream_of <$> qs.
Proof.
  intros Hi. rewrite list_fmap_insert. apply list_insert_id. by rewrite list_lookup_fmap, Hi.
Qed.

Lemma running_safe_rephase sh qs cs i q p :
  qs !! i = Some q → (before_open p = true → before_open (qk_phase q) = true) →
  running_safe (mkRunning sh qs cs) →
  running_safe (mkRunning sh (<[i := advance (qk_local q) p q]> qs) cs).
Proof.
  intros Hi Hp [Hs Hu]. split; unfold streams in *; simpl in *; [by rewrite streams_rephase|].
  apply Forall_insert; [done|]. intros Hb. by apply (Forall_lookup_1 _ _ _ _ Hu Hi), Hp.
Qed.

Lemma running_safe_query sh qs cs i q o h p :
  running_safe (mkRunning sh qs cs) → qs !! i = Some q → query_run config_ q sh = (o, h) →
  before_open p = false →
  running_safe (mkRunning (put_sys (qc_sys (hd_call h)) sh) (<[i := advance h p q]> qs) cs).
Proof.
  intros [Hs Hu] Hi E Hp. destruct (list_split qs i q (advance h p q) Hi) as [E1 E2].
  split; simpl; [|apply Forall_insert; [done|]; intros Hb; simpl in Hb; congruence]. unfold streams in *.
  simpl in *. rewrite E2. apply (running_safe_among _ _ q); [by destruct (hd_call h)|].
  unfold query_run in E.
  replace h with (snd (phase_step (qk_cancelled q) (qk_write_ok q) (wire_rows config_) (qk_request q)
    (qk_phase q) (attach (sh_sys sh) (qk_local q)))) by (by rewrite E).
  apply phase_step_safe; [apply pooled_sub|intros Ep; apply (Forall_lookup_1 _ _ _ _ Hu Hi); by rewrite Ep|].
  apply (running_safe_among _ _ q (sh_sys sh) (attach (sh_sys sh) (qk_local q)) (qk_phase q)); [done|].
  rewrite E1 in Hs. rewrite fmap_app, fmap_cons in *. exact Hs.
Qed.

Lemma running_safe_move v v' : move config_ v v' → running_safe v → running_safe v'.
Proof.
  destruct 1 as [sh sh' qs cs cancelled write_ok request r E|sh qs cs i q p h Hi Ha E
    |sh qs cs i q w h Hi Ha E Hw|sh qs cs i q h Hi Hp E|sh sh' qs cs i q st ms Hi Hp E|sh qs cs request
    |sh sh' qs cs i request p p' ms Hi E|sh sh' qs cs request r E|sh sh' qs cs E].
  - intros [Hs Hu]. pose proof (admit_outside config_ _ request sh Hs) as Ho. rewrite E in Ho.
    unfold streams in *. simpl in *.
    split; simpl; [|apply Forall_app; split; [done|apply Forall_singleton; by destruct r]].
    unfold streams. simpl. rewrite fmap_app. unfold refs_of, pooled_in. rewrite omap_app, bind_app.
    destruct r; simpl; by rewrite !app_nil_r.
  - intros Hs. eapply running_safe_query; [done..|]. by eapply phase_step_opened.
  - intros Hs. by eapply running_safe_query.
  - intros Hs. apply running_safe_rephase; [done|by rewrite Hp|done].
  - intros [Hs Hu]. apply running_safe_rephase; [done..|]. split; [|done].
    pose proof (timer_outside _ "query_stream" ms sh Hs) as Ho. by rewrite E in Ho.
  - intros [Hs Hu]. by split.
  - intros [Hs Hu]. split; [|done].
    pose proof (connect_step_outside config_ _ (Configure_safe _ _) (pool_Connect_safe _ _)
      (probe_safe _ _) request ms p sh Hs) as Ho. by rewrite E in Ho.
  - intros [Hs Hu]. split; [|done].
    pose proof (Disconnect_outside config_ _ request sh Hs) as Ho. by rewrite E in Ho.
  - intros [Hs Hu]. split; [|done].
    pose proof (probe_outside _ (probe_safe _ _) sh Hs) as Ho. by rewrite E in Ho.
Qed.

(** The service before its first call. *)
Lemma running_safe_started mon w cerr :
  max_sessions config_ ≤ INT_MAX → open_handles w = [] → ¬ misused w →
  running_safe (started config_ mon w cerr).
Proof.
  intros Hm Ho Hw. split; [|by apply Forall_nil].
  exact (server_safe_reachable w (max_sessions config_) _ Hm Ho Hw (rtc_refl _ _)).
Qed.

Lemma running_safe_reachable mon w cerr v :
  max_sessions config_ ≤ INT_MAX → open_handles w = [] → ¬ misused w →
  rtc (step config_) (started config_ mon w cerr) v → running_safe v.
Proof.
  intros Hm Ho Hw. apply run_kept; [apply running_safe_move| |by apply running_safe_started].
  intros sh qs cs i q Hi Hq. apply running_safe_rephase; [done|by rewrite Hq].
Qed.

(** A pooled connection is one call's. *)
Lemma pooled_once R P i c R' : split_refs R P i → NoDup P → c ∈ P → ¬ R ≡ₚ c :: c :: R'.
Proof.
  intros (Q & HQ & Hd) Hn Hc HR. destruct (proj1 (elem_of_Permutation P c) Hc) as [P' E].
  rewrite E in Hn, HQ. apply NoDup_cons in Hn as [Hn _]. rewrite HR in HQ.
  apply (Permutation_cons_inv (a := c)) in HQ.
  assert (Hin : c ∈ P' ++ Q) by (rewrite <-HQ; by left). apply elem_of_app in Hin as [?|Hq]; [done|].
  apply (Hd c Hq). set_solver.
Qed.

Lemma two_elements {A} (l : list A) i j x y :
  i ≠ j → l !! i = Some x → l !! j = Some y → ∃ l', l ≡ₚ x :: y :: l'.
Proof.
  intros Hne Hi Hj. assert (Hy : y ∈ delete i l).
  { destruct (decide (j < i)%nat).
    - apply list_elem_of_lookup. exists j. by rewrite list_lookup_delete_lt.
    - apply list_elem_of_lookup. exists (j - 1)%nat. rewrite list_lookup_delete_ge by lia.
      by replace (S (j - 1)) with j by lia. }
  destruct (proj1 (elem_of_Permutation _ _) Hy) as [l' El]. exists l'. rewrite <-El.
  by apply delete_Permutation.
Qed.

Lemma pooled_exclusive v i j q q' c :
  safe (refs_of (streams v)) (pooled_in (streams v)) (sh_sys (rn_shard v)) →
  i ≠ j → rn_queries v !! i = Some q → rn_queries v !! j = Some q' →
  connection_ (stream_of q) = Some c → pooled_ (stream_of q) = true →
  connection_ (stream_of q') ≠ Some c.
Proof.
  intros Hs Hne Hi Hj Hc Hp Hc'.
  destruct (two_elements _ _ _ _ _ Hne Hi Hj) as [l' El].
  assert (Er : streams v ≡ₚ stream_of q :: stream_of q' :: (stream_of <$> l')) by (unfold streams; by rewrite El).
  destruct Hs as [_ Hsp _ Hd _]. rewrite fmap_app in Hd. apply NoDup_app in Hd as [Hd _].
  eapply pooled_once; [exact Hsp|by eapply NoDup_fmap_1| |].
  - unfold pooled_in. apply list_elem_of_bind. exists (stream_of q).
    split; [unfold pooled_of; rewrite Hp, Hc; by left|]. rewrite Er. by left.
  - unfold refs_of. rewrite Er. simpl. rewrite Hc, Hc'. reflexivity.
Qed.

(** C5: connections and handles of concurrent calls. However the calls interleave
    and whatever the server answers, no libpq call gets a finished handle; the
    open handles are exactly those of the connections that a call holds, that
    are idle in the pool or bound to a session, each counted once; and a pooled
    connection belongs to one call at a time, is not idle meanwhile and is
    never a session's. *)
Theorem calls_handles mon w cerr v :
  max_sessions config_ ≤ INT_MAX → open_handles w = [] → ¬ misused w →
  rtc (step config_) (started config_ mon w cerr) v →
  let y := sh_sys (rn_shard v) in
  ¬ misused (sy_pg y)
  ∧ (∃ l, NoDup (pq_addr <$> l)
       ∧ (∀ c, c ∈ l ↔ c ∈ omap connection_ (streams v) ∨ c ∈ idle_ (sy_pool y)
                        ∨ ∃ sid, sy_sessions y !! sid = Some c)
       ∧ open_handles (sy_pg y) ≡ₚ omap pq_conn_ l)
  ∧ NoDup (pq_addr <$> pooled_in (streams v) ++ idle_ (sy_pool y) ++ (map_to_list (sy_sessions y)).*2)
  ∧ ∀ i j q q' c, i ≠ j → rn_queries v !! i = Some q → rn_queries v !! j = Some q' →
      connection_ (stream_of q) = Some c → pooled_ (stream_of q) = true →
      connection_ (stream_of q') ≠ Some c.
Proof.
  intros Hm Ho Hw Hr y. destruct (running_safe_reachable mon w cerr v Hm Ho Hw Hr) as [Hs _].
  destruct (safe_exact _ _ Hs) as [H1 H2]. split_and!; [done|done|apply Hs|].
  intros i j q q' c. by apply pooled_exclusive.
Qed.
End Connections.

(** ** The slots of the pool *)

Section Slots.
Context `{L : Libpq, FB : !FlexBuffers} (config_ : ServerConfig).

(** The slot of a query, in the pool's count. *)
Definition slot_of (q : StreamingQuery) : Z := Z.of_nat (length (pooled_of q)).

Lemma other_slots_of (s : QCall) :
  other_slots s = in_use_ (sy_pool (qc_sys s)) - slot_of (qc_stream s).
Proof.
  unfold other_slots, slot_of, pooled_of. destruct (connection_ (qc_stream s)); simpl;
    by destruct (pooled_ (qc_stream s)).
Qed.

Lemma slot_of_tidy (s : QCall) : tidy s → slot_of (qc_stream s) = Z.b2z (pooled_ (qc_stream s)).
Proof.
  unfold tidy, slot_of, pooled_of. destruct (pooled_ _), (connection_ _); intros H; try done.
  by specialize (H eq_refl).
Qed.

Section Phase.
Context (cancelled write_ok : nat → bool).

(** A phase changes the pool's count by its own slot, except that a call that
    leaves with a connection forgets its slot. *)
Lemma phase_step_held wire request p h :
  (p = Opening → connection_ (qc_stream (hd_call h)) = None) → (∀ st, p ≠ Leaving st) →
  same_slots (hd_call h) (hd_call (snd (phase_step cancelled write_ok wire request p h))).
Proof.
  intros Ho Hl. set (P := λ s, same_slots (hd_call h) s).
  assert (HP : ∀ A (m : M QCall A), preserves same_slots m → keeps P m).
  { intros A m Hm s Hs. exact (same_slots_trans _ _ _ Hs (Hm s)). }
  change (on_handler P (snd (phase_step cancelled write_ok wire request p h))).
  destruct (decide (p = Opening)) as [->|Hp].
  - apply opening_keeps, same_slots_Open. by apply Ho.
  - apply phase_step_keeps; auto using same_slots_Fetch, same_slots_Close, same_slots_Abort; [|done].
    intros r. apply HP, same_slots_sysM. auto with mtdd.
Qed.

(** The destructor drops the connection and leaves the count alone. *)
Lemma leaving_held wire request st h :
  ∃ h', phase_step cancelled write_ok wire request (Leaving st) h = (Ret (Timing st), h')
    ∧ connection_ (qc_stream (hd_call h')) = None
    ∧ pooled_ (qc_stream (hd_call h')) = pooled_ (qc_stream (hd_call h))
    ∧ sy_pool (qc_sys (hd_call h')) = sy_pool (qc_sys (hd_call h)).
Proof.
  cbn [phase_step]. unfold m_bind, on_call, zoom.
  destruct (destroy_pool (hd_call h)) as (s' & E & Hp & _). rewrite E. eexists. split; [done|]. simpl.
  revert Hp. revert E. unfold destroy_StreamingQuery, m_bind at 1, stream_get, gets.
  destruct (connection_ (qc_stream (hd_call h))) as [c|] eqn:Ec.
  - unfold m_bind, on_stream, modify, sysM, zoom. simpl. destruct (drop_ref c _) as [o y].
    by intros [= _ <-].
  - by intros [= <-].
Qed.

(** What a phase leaves for the next one: a query that is open, or one that has
    given its connection back. *)
Definition open_or_released (p : phase) (h : Handler) : Prop :=
  match p with
  | Looping | Finishing => on_handler tidy h
  | Leaving _ => on_handler released h
  | _ => False
  end.

Lemma open_phase_slot wire request p :
  p = Looping ∨ p = Finishing →
  hoare (on_handler tidy) (phase_step cancelled write_ok wire request p) open_or_released
    anything anything.
Proof.
  assert (Hf : hoare tidy Fetch (λ _, tidy) tidy (λ _, True)) by apply tidy_hoare, hold_Fetch.
  assert (Hc : ∀ r, hoare tidy (sysM (pg_clear r)) (λ _, tidy) tidy (λ _, True))
    by (intros r; apply tidy_hoare, hold_sysM).
  assert (Hcatch : ∀ m, hoare (on_handler tidy) m open_or_released (on_handler tidy) anything →
    hoare (on_handler tidy) (catching write_ok m) open_or_released anything anything).
  { intros m Hm. eapply hoare_try; [exact Hm|]. intros e.
    eapply hoare_bind; [apply (catch_block_closes write_ok tidy released Hc tidy_Abort)|].
    intros st. by apply hoare_ret. }
  intros [->| ->]; cbn [phase_step]; apply Hcatch.
  - eapply hoare_bind; [apply (fetch_step_closes cancelled write_ok tidy released Hf Hc tidy_Close tidy_Abort)|].
    intros f. apply hoare_ret. by destruct f.
  - eapply hoare_bind; [apply (after_loop_closes cancelled write_ok tidy released Hc tidy_Close tidy_Abort)|].
    intros st. by apply hoare_ret.
Qed.

(** The first phase: a query that was not opened and still counts a slot is one
    with a cursor, on the pool. *)
Lemma opening_slot wire request h p h' :
  released (hd_call h) → phase_step cancelled write_ok wire request Opening h = (Ret p, h') →
  on_handler tidy h'
  ∧ (p = Looping ∨ ∃ st, p = Leaving st
       ∧ (pooled_ (qc_stream (hd_call h')) = true →
          IsTupleStreamingSql (qr_text request) = true ∧ qr_session_id request = "")).
Proof.
  intros Hr. cbn [phase_step]. unfold m_bind at 1, on_call, zoom.
  pose proof (Open_flags request (hd_call h) (proj2 Hr)) as Hf.
  pose proof (Open_immediate_fails request (hd_call h)) as Hi.
  pose proof (λ b s', Open_tidy request (hd_call h) s' b Hr) as Ht.
  destruct (Open request (hd_call h)) as [[b|e|w] s1]; [|done..]. specialize (Ht b s1 eq_refl).
  destruct b; cbn [negb]; [intros [= <- <-]; by split; [|left]|].
  unfold m_bind, exec_error, gets, on_rpc, zoom. simpl. intros [= <- <-]. simpl.
  split; [exact Ht|]. right. eexists. split; [done|]. intros Hp. split; [|by apply Hf].
  destruct (IsTupleStreamingSql (qr_text request)) eqn:Ec; [done|].
  specialize (Hi s1 eq_refl eq_refl). apply Ht in Hi. congruence.
Qed.
End Phase.

(** The call has given up its query. *)
Definition ended_call (q : QueryCall) : bool :=
  match qk_phase q with Timing _ | Returned _ => true | _ => false end.

(** The query is gone, and the slot it was counted in was not given back. *)
Definition lost (q : QueryCall) : bool := ended_call q && pooled_ (stream_of q).
Definition lost_calls (qs : list QueryCall) : list QueryCall := filter (λ q, lost q = true) qs.

(** A query that was not opened, with a cursor, on a connection of the pool. *)
Definition unopened_cursor (q : QueryCall) : Prop :=
  qk_opened q = false ∧ IsTupleStreamingSql (qr_text (qk_request q)) = true
  ∧ qr_session_id (qk_request q) = "".

(** What holds of the query of a call in each phase. *)
Definition call_slot (q : QueryCall) : Prop :=
  let s := hd_call (qk_local q) in
  match qk_phase q with
  | Opening | Asleep => qk_opened q = false ∧ released s
  | Looping | Finishing => tidy s
  | Leaving _ => tidy s ∧ (pooled_ (stream_of q) = true → unopened_cursor q)
  | Timing _ | Returned _ =>
      connection_ (stream_of q) = None ∧ (pooled_ (stream_of q) = true → unopened_cursor q)
  | Hung _ => True
  end.

(** The slots on account of one call, and of all. *)
Definition account_of (q : QueryCall) : Z := slot_of (stream_of q) + Z.b2z (lost q).
Definition account (qs : list QueryCall) : Z :=
  Z.of_nat (length (pooled_in (stream_of <$> qs))) + Z.of_nat (length (lost_calls qs)).

Record slots_ok (v : Running) : Prop := {
  so_count : in_use_ (pool_of (rn_shard v)) = account (rn_queries v);
  so_calls : Forall call_slot (rn_queries v);
}.

Lemma account_middle (q1 q2 : list QueryCall) q :
  account (q1 ++ q :: q2) = account_of q + account (q1 ++ q2).
Proof.
  unfold account, account_of, slot_of, lost_calls. rewrite fmap_app, fmap_cons, pooled_middle, <-fmap_app, length_app.
  rewrite !filter_app, filter_cons. case_decide as E.
  - rewrite E, !length_app. simpl. lia.
  - destruct (lost q); [done|]. simpl. lia.
Qed.

(** A call moves: the count follows its account. *)
Lemma slots_ok_query sh sh' qs cs cs' i q q' :
  slots_ok (mkRunning sh qs cs) → qs !! i = Some q → call_slot q' →
  in_use_ (pool_of sh') - account_of q' = in_use_ (pool_of sh) - account_of q →
  slots_ok (mkRunning sh' (<[i := q']> qs) cs').
Proof.
  intros [Hc Hq] Hi Hq' Hs. destruct (list_split qs i q q' Hi) as [E1 E2].
  split; simpl in *; [|by apply Forall_insert]. rewrite E2. rewrite E1 in Hc.
  rewrite account_middle in *. lia.
Qed.

(** ... and when it changes its phase only. *)
Lemma slots_ok_rephase sh sh' qs cs i q p :
  slots_ok (mkRunning sh qs cs) → qs !! i = Some q → call_slot (advance (qk_local q) p q) →
  ended_call (advance (qk_local q) p q) = ended_call q → in_use_ (pool_of sh') = in_use_ (pool_of sh) →
  slots_ok (mkRunning sh' (<[i := advance (qk_local q) p q]> qs) cs).
Proof.
  intros Hs Hi Hq He Hu. eapply slots_ok_query; [done..|]. unfold account_of, lost. rewrite He.
  unfold stream_of. simpl. lia.
Qed.

Lemma active_not_lost q : active (qk_phase q) = true → lost q = false.
Proof. unfold lost, ended_call. by destruct (qk_phase q). Qed.

(** The pool's count, outside the queries. *)
Definition counts (k : Z) (y : Sys) : Prop := in_use_ (sy_pool y) = k.

Lemma counts_connect k : keeps (counts k) Pool.Connect.
Proof.
  intros s Hs. unfold Pool.Connect, m_bind at 1 3, gets. unfold m_bind.
  destruct (Connect_runs (params_ (sy_pool s)) 0 s) as (r & s1 & -> & (_ & Hp & _)).
  unfold counts in *. destruct r; simpl; by rewrite Hp.
Qed.
Lemma counts_probe k params ms : keeps (counts k) (probe_connection params ms).
Proof.
  intros s Hs. destruct (probe_connection_runs params ms s) as (s' & E & (_ & Hp & _)).
  rewrite E. unfold counts in *. simpl. by rewrite Hp.
Qed.
Lemma counts_configure k params size : keeps (counts k) (Configure params size).
Proof. by intros s. Qed.

(** A step outside the queries. *)
Lemma slots_ok_outside sh sh' qs cs cs' :
  on_shard_sys (counts (in_use_ (pool_of sh))) sh' → slots_ok (mkRunning sh qs cs) →
  slots_ok (mkRunning sh' qs cs').
Proof. intros Hk [Hc Hq]. split; [|done]. simpl in *. rewrite <-Hc. exact Hk. Qed.

(** A phase before the last, whatever its outcome. *)
Lemma phase_account q sh o h p :
  call_slot q → active (qk_phase q) = true → (∀ st, qk_phase q ≠ Leaving st) →
  query_run config_ q sh = (o, h) → ended_call (advance h p q) = false →
  in_use_ (sy_pool (qc_sys (hd_call h))) - account_of (advance h p q) = in_use_ (pool_of sh) - account_of q.
Proof.
  intros Hq Ha Hl E He.
  pose proof (phase_step_held (qk_cancelled q) (qk_write_ok q) (wire_rows config_) (qk_request q)
    (qk_phase q) (attach (sh_sys sh) (qk_local q))) as Hh.
  unfold query_run in E. rewrite E in Hh. unfold same_slots in Hh. rewrite !other_slots_of in Hh.
  unfold account_of. rewrite (active_not_lost q Ha). unfold lost. rewrite He.
  unfold pool_of, stream_of in *. simpl in *. cut (qk_phase q = Opening →
    connection_ (qc_stream (hd_call (qk_local q))) = None); [intros Ho; specialize (Hh Ho Hl); lia|].
  intros Ep. unfold call_slot in Hq. rewrite Ep in Hq. apply Hq.
Qed.

(** The call after a phase before the last. *)
Lemma phase_call_slot q sh p h :
  call_slot q → active (qk_phase q) = true → (∀ st, qk_phase q ≠ Leaving st) →
  query_run config_ q sh = (Ret p, h) →
  call_slot (advance h p q) ∧ ended_call (advance h p q) = false.
Proof.
  intros Hq Ha Hl E. unfold query_run in E. unfold call_slot in Hq.
  assert (Hopen : ∀ p0, p0 = Looping ∨ p0 = Finishing → qk_phase q = p0 →
    tidy (hd_call (qk_local q)) → open_or_released p h).
  { intros p0 Hp0 Ep Ht. pose proof (open_phase_slot (qk_cancelled q) (qk_write_ok q) (wire_rows config_)
      (qk_request q) p0 Hp0 (attach (sh_sys sh) (qk_local q)) Ht) as Ho. rewrite <-Ep, E in Ho. exact Ho. }
  assert (Hend : open_or_released p h → call_slot (advance h p q) ∧ ended_call (advance h p q) = false).
  { unfold call_slot, ended_call, open_or_released, on_handler, stream_of. simpl.
    destruct p; try done; intros [H1 H2]. split; [|done]. split; [by intros _|congruence]. }
  destruct (qk_phase q) eqn:Ep; try done; [|by apply Hend, (Hopen Looping); auto|
    by apply Hend, (Hopen Finishing); auto|by destruct (Hl st)].
  destruct Hq as [Hn Hr]. destruct (opening_slot _ _ _ _ (attach (sh_sys sh) (qk_local q)) _ _ Hr E)
    as (Ht & [->|(st & -> & Hp)]); [done|]. split; [|done]. split; [exact Ht|]. intros Hpo.
  unfold unopened_cursor. simpl. rewrite Hn. split; [done|]. by apply Hp.
Qed.

(** The last phase: what the query held is lost. *)
Lemma leaving_slot q sh st o h :
  call_slot q → qk_phase q = Leaving st → query_run config_ q sh = (o, h) →
  o = Ret (Timing st) ∧ call_slot (advance h (Timing st) q)
  ∧ in_use_ (sy_pool (qc_sys (hd_call h))) - account_of (advance h (Timing st) q)
    = in_use_ (pool_of sh) - account_of q.
Proof.
  intros Hq El E. unfold query_run in E. unfold call_slot in Hq. rewrite El in *.
  destruct (leaving_held (qk_cancelled q) (qk_write_ok q) (wire_rows config_) (qk_request q) st
    (attach (sh_sys sh) (qk_local q))) as (h' & E' & H1 & H2 & H3).
  rewrite E in E'. injection E' as -> <-. destruct Hq as [Ht Hb]. simpl in H2, H3. split; [done|]. split.
  - split; [exact H1|]. unfold stream_of, unopened_cursor in *. simpl. rewrite H2, orb_false_r. exact Hb.
  - unfold account_of. rewrite (active_not_lost q) by (by rewrite El). unfold lost, ended_call, stream_of. simpl.
    rewrite (slot_of_tidy _ Ht), H2, H3. unfold slot_of, pooled_of. rewrite H1, H2. unfold pool_of.
    destruct (pooled_ _); simpl; lia.
Qed.

Lemma slots_ok_move v v' : move config_ v v' → slots_ok v → slots_ok v'.
Proof.
  destruct 1 as [sh sh' qs cs cancelled write_ok request r E|sh qs cs i q p h Hi Ha E
    |sh qs cs i q w h Hi Ha E Hw|sh qs cs i q h Hi Hp E|sh sh' qs cs i q st ms Hi Hp E|sh qs cs request
    |sh sh' qs cs i request p p' ms Hi E|sh sh' qs cs request r E|sh sh' qs cs E]; intros Hs;
    try pose proof (Forall_lookup_1 _ _ _ _ (so_calls _ Hs) Hi) as Hq.
  - pose proof (admit_outside config_ (counts (in_use_ (pool_of sh))) request sh eq_refl) as Ho.
    rewrite E in Ho. apply (slots_ok_outside _ sh' _ _ cs Ho) in Hs as [Hc Hq]. split; simpl in *.
    + rewrite Hc, account_middle, app_nil_r. by destruct r.
    + apply Forall_app. split; [done|]. apply Forall_singleton. by destruct r.
  - destruct (leaving_or (qk_phase q)) as [[st El]|Hn].
    + destruct (leaving_slot _ _ _ _ _ Hq El E) as ([= ->] & H1 & H2). by eapply slots_ok_query.
    + destruct (phase_call_slot _ _ _ _ Hq Ha Hn E) as [H1 H2].
      eapply slots_ok_query; [done..|]. by eapply phase_account.
  - destruct (leaving_or (qk_phase q)) as [[st El]|Hn].
    + by destruct (leaving_slot _ _ _ _ _ Hq El E) as [? _].
    + eapply slots_ok_query; [done..|]. by eapply phase_account.
  - apply (slots_ok_rephase sh); try done; unfold ended_call; simpl; [|by rewrite Hp].
    unfold call_slot in *. simpl. by rewrite Hp, orb_false_r in *.
  - pose proof (timer_outside (counts (in_use_ (pool_of sh))) "query_stream" ms sh eq_refl) as Ho.
    rewrite E in Ho. apply (slots_ok_rephase sh); try done; unfold ended_call; simpl; [|by rewrite Hp].
    unfold call_slot, unopened_cursor in *. simpl. by rewrite Hp, orb_false_r in *.
  - by apply (slots_ok_outside sh _ _ cs).
  - eapply slots_ok_outside; [|exact Hs].
    pose proof (connect_step_outside config_ (counts (in_use_ (pool_of sh))) (counts_configure _)
      (counts_connect _) (counts_probe _) request ms p sh eq_refl) as Ho. by rewrite E in Ho.
  - eapply slots_ok_outside; [|exact Hs].
    pose proof (Disconnect_outside config_ (counts (in_use_ (pool_of sh))) request sh eq_refl) as Ho.
    by rewrite E in Ho.
  - eapply slots_ok_outside; [|exact Hs].
    pose proof (probe_outside (counts (in_use_ (pool_of sh))) (counts_probe _) sh eq_refl) as Ho.
    by rewrite E in Ho.
Qed.

Lemma slots_ok_reachable mon w cerr v :
  rtc (step config_) (started config_ mon w cerr) v → slots_ok v.
Proof.
  apply run_kept; [apply slots_ok_move| |by split; [|apply Forall_nil]].
  intros sh qs cs i q Hi Hp Hs. pose proof (Forall_lookup_1 _ _ _ _ (so_calls _ Hs) Hi) as Hq.
  apply (slots_ok_rephase sh); try done; unfold ended_call; simpl; [|by rewrite Hp].
  unfold call_slot in *. simpl. by rewrite Hp, orb_false_r in *.
Qed.

(** C11: the pool's account. However the calls interleave and whatever the server
    answers, [in_use_] is exactly the number of calls that hold a pooled
    connection plus the number of calls that have lost theirs: calls that are
    over and did not give the slot back. Every lost slot is that of a query
    with a cursor, without a session, whose opening failed: a call that got to
    the head of its loop has given its slot back when it is over, on every path,
    and so has every statement without a cursor. *)
Theorem calls_slots mon w cerr v :
  rtc (step config_) (started config_ mon w cerr) v →
  in_use_ (pool_of (rn_shard v))
  = Z.of_nat (length (pooled_in (streams v))) + Z.of_nat (length (lost_calls (rn_queries v)))
  ∧ ∀ q, q ∈ rn_queries v → ended_call q = true →
      connection_ (stream_of q) = None
      ∧ (lost q = true →
         qk_opened q = false ∧ IsTupleStreamingSql (qr_text (qk_request q)) = true
         ∧ qr_session_id (qk_request q) = "").
Proof.
  intros [Hc Hq]%slots_ok_reachable. split; [exact Hc|]. intros q Hin He.
  rewrite Forall_forall in Hq. specialize (Hq q Hin). unfold lost. rewrite He. revert He Hq.
  unfold ended_call, call_slot. destruct (qk_phase q); try done; intros _ H; exact H.
Qed.
End Slots.
