(* ===== verification/Progress.v ===== *)
(** * Why a call stops

    A computation of a call can end in an exception or not at all. Here the
    functions of the streaming query and the handler are shown to stop only
    where the code can: at a mutex that is never unlocked, at an exhausted pool,
    or by a signed overflow in the sizes of a batch. No call dereferences a null
    connection, no loop of the model runs out of its bound, and no exception
    leaves [QueryStream]. *)
From S2P Require Import Prelude CppStd Log Config Grpc Libpq Rpgb FlexMeta QueryMeta PgState PqConn.
From S2P Require Import Pool Sessions Streaming Handles QueryExecutor Health Queries ShardService.
From S2P Require Import Lift PoolUse ShardSafety ShardSlots Service Delivery Calls CallsInv.
Local Open Scope Z_scope.
Local Open Scope cpp_scope.

(** From [P] the computation returns in [P], throws only if [T], and stops only
    for a reason and in a state of [W]. *)
Definition ends {S A} (P : S → Prop) (T : Prop) (W : S → stuck → Prop) (m : M S A) : Prop :=
  ∀ s, P s → match m s with (Ret _, s') => P s' | (Throw _, _) => T | (Stuck w, s') => W s' w end.

Definition always {S} (s : S) : Prop := True.

Section Ends.
Context {S : Type} (P : S → Prop) (T : Prop) (W : S → stuck → Prop).

Lemma ends_bind {A B} (m : M S A) (k : A → M S B) :
  ends P T W m → (∀ a, ends P T W (k a)) → ends P T W (m_bind m k).
Proof.
  intros Hm Hk s Hs. specialize (Hm s Hs). unfold m_bind.
  destruct (m s) as [[a|e|w] s1]; [by apply Hk|done..].
Qed.
Lemma ends_ret {A} (a : A) : ends P T W (m_ret a).
Proof. by intros s. Qed.
Lemma ends_gets {A} (f : S → A) : ends P T W (gets f).
Proof. by intros s. Qed.
Lemma ends_get : ends P T W get.
Proof. by intros s. Qed.
Lemma ends_modify f : (∀ s, P s → P (f s)) → ends P T W (modify f).
Proof. intros Hf s. apply Hf. Qed.
Lemma ends_hang {A} why : (∀ s, W s why) → ends P T W (hang (A := A) why).
Proof. intros Hw s _. apply Hw. Qed.
Lemma ends_throw {A} e : T → ends P T W (throw (A := A) e).
Proof. by intros HT s. Qed.
Lemma ends_foldl {A B} (f : B → A → M S B) b l :
  (∀ b a, ends P T W (f b a)) → ends P T W (m_foldl f b l).
Proof.
  intros Hf. revert b. induction l as [|a l IH]; intros b; [apply ends_ret|]. by apply ends_bind.
Qed.
End Ends.

Lemma ends_try {S A} (P : S → Prop) T W (m : M S A) h :
  ends P True W m → keeps P m → (∀ e, ends P T W (h e)) → ends P T W (try_catch m h).
Proof.
  intros Hm Hk Hh s Hs. specialize (Hm s Hs). specialize (Hk s Hs). unfold try_catch.
  destruct (m s) as [[a|e|w] s1]; [done|by apply Hh|done].
Qed.

Lemma keeps_always {S A} (m : M S A) : keeps always m.
Proof. done. Qed.
#[export] Hint Resolve ends_ret ends_gets ends_get keeps_always : mtdd.
#[export] Hint Extern 1 (always _) => exact I : mtdd.

Section Progress.
Context `{L : Libpq, FB : !FlexBuffers}.

(** The thread waits for the mutex of the connection of its query, and that mutex
    is locked. *)
Definition own_locked (s : QCall) : Prop :=
  ∃ c, connection_ (qc_stream s) = Some c ∧ pq_addr c ∈ sy_locked (qc_sys s).
Definition deadlock (s : QCall) (w : stuck) : Prop := w = SelfDeadlock ∧ own_locked s.

(** ** The streaming query *)

Section Query.
Context (T : Prop).

(** The query has the connection [o]. *)
Definition has (o : option PqConnection) (s : QCall) : Prop := connection_ (qc_stream s) = o.
#[local] Abbreviation on o m := (ends (has o) T deadlock m).

Lemma on_sysM {A} o (m : M Sys A) : returns m → on o (sysM m).
Proof.
  intros Hm s Hs. unfold sysM, zoom. destruct (Hm (qc_sys s)) as (a & y & E). simpl. by rewrite E.
Qed.
Lemma on_with_lock {A} c (m : M QCall A) : on (Some c) m → on (Some c) (with_lock c m).
Proof.
  intros Hm s Hs. unfold with_lock. case_bool_decide as Hl; [split; [done|by exists c]|].
  specialize (Hm (put_sys (set_locked ({[pq_addr c]} ∪ sy_locked (the_sys s)) (the_sys s)) s) Hs).
  by destruct (m _) as [[a|e|w] s1].
Qed.
Lemma on_on_stream o f : (∀ q, connection_ (f q) = connection_ q) → on o (on_stream f).
Proof. intros Hf s Hs. unfold has in *. simpl. by rewrite Hf. Qed.
Lemma on_set_error o e : on o (set_error e).
Proof. by intros s. Qed.
Lemma on_stream_get {A} o (f : StreamingQuery → A) : on o (stream_get f).
Proof. by intros s. Qed.
Lemma on_error_text o c r : on o (exec_error_text c r).
Proof.
  unfold exec_error_text. destruct r; [by intros s|]. apply on_sysM, returns_ErrorMessage.
Qed.
Lemma on_connection {A} o (k : option PqConnection → M QCall A) :
  on o (k o) → on o (m_bind (stream_get connection_) k).
Proof. intros Hk s Hs. unfold m_bind, stream_get, gets. rewrite Hs. by apply Hk. Qed.
Lemma on_the_connection {A} c (k : PqConnection → M QCall A) :
  on (Some c) (k c) → on (Some c) (m_bind the_connection k).
Proof.
  intros Hk s Hs. unfold m_bind, the_connection, m_bind, stream_get, gets. rewrite Hs. by apply Hk.
Qed.
Lemma on_NextCursorName o : on o (sysM NextCursorName).
Proof. by intros s. Qed.
#[local] Hint Resolve on_set_error on_stream_get on_error_text on_NextCursorName : mtdd.

Ltac on_walk :=
  repeat first
    [ solve [eauto with mtdd]
    | apply on_sysM; solve [auto with mtdd]
    | by apply on_on_stream
    | apply on_connection
    | apply on_the_connection
    | apply on_with_lock
    | apply ends_bind; [|intros]
    | case_match; simplify_eq ].

Lemma on_EndTransaction o b : on o (EndTransaction b).
Proof. unfold EndTransaction, set_error_if_empty. on_walk. Qed.
Lemma on_CloseCursor o : on o CloseCursor.
Proof. unfold CloseCursor, set_error_if_empty. on_walk. Qed.
Lemma on_drop_immediate o : on o drop_immediate.
Proof. unfold drop_immediate. on_walk. Qed.
Lemma on_Fetch o : on o Fetch.
Proof. unfold Fetch, FetchCursor. on_walk. Qed.
Lemma on_OpenCursor c r : on (Some c) (OpenCursor r).
Proof. unfold OpenCursor, BeginIfNeeded. on_walk. Qed.
Lemma on_ExecuteImmediate c r : on (Some c) (ExecuteImmediate r).
Proof. unfold ExecuteImmediate. on_walk. Qed.

(** ... whichever it has. *)
#[local] Abbreviation query_ends m := (ends always T deadlock m).

Lemma ends_any {A} (m : M QCall A) : (∀ o, on o m) → query_ends m.
Proof.
  intros Hm s _. specialize (Hm (connection_ (qc_stream s)) s eq_refl). by destruct (m s) as [[]].
Qed.
Lemma ends_ReleaseConnection b : query_ends (ReleaseConnection b).
Proof. intros s _. by destruct (ReleaseConnection_runs b s) as (s' & -> & _). Qed.
Lemma ends_destroy : query_ends destroy_StreamingQuery.
Proof. intros s _. by destruct (destroy_pool s) as (s' & -> & _). Qed.
#[local] Hint Resolve ends_ReleaseConnection on_EndTransaction on_CloseCursor on_drop_immediate : mtdd.

Ltac any_walk :=
  repeat first
    [ solve [eauto with mtdd]
    | apply ends_any; intros; solve [auto with mtdd]
    | apply ends_bind; [|intros]
    | case_match ].

Lemma ends_Fetch : query_ends Fetch.
Proof. apply ends_any, on_Fetch. Qed.
Lemma ends_Close : query_ends Close.
Proof. unfold Close. any_walk. Qed.
Lemma ends_Abort : query_ends Abort.
Proof.
  intros s _. unfold Abort, ignoring_errors.
  match goal with |- context [?m (mkQCall _ _ _)] => assert (Hm : query_ends m) by any_walk end.
  specialize (Hm (mkQCall (qc_sys s) (qc_stream s) "") I).
  match goal with |- context [?m (mkQCall _ _ _)] => by destruct (m (mkQCall _ _ _)) as [[]] end.
Qed.
End Query.

(** ** Opening *)

(** The ways in which opening a query ends. *)
Lemma Open_ends request (s : QCall) :
  match Open request s with
  | (Ret _, _) => True
  | (Throw _, _) => False
  | (Stuck w, s') => deadlock s' w
                     ∨ w = CvWait ∧ qr_session_id request = "" ∧ capacity (sy_pool (qc_sys s)) ≤ 0
  end.
Proof.
  rewrite Open_eq. unfold m_bind at 1, on_stream at 1, modify. set (s0 := mkQCall _ _ _).
  pose proof (uses_AcquireConnection request s0) as Ha. pose proof (AcquireConnection_has request s0) as Hc.
  unfold m_bind at 1. destruct (AcquireConnection request s0) as [[b|e|w] s1];
    [|done|right; by destruct Ha as (-> & ? & ? & _)].
  unfold open_rest. destruct b; [|done]. destruct (Hc eq_refl) as [c Hs1]. cbn [negb].
  unfold m_bind at 1, stream_get, gets. destruct (use_cursor_ (qc_stream s1)).
  - pose proof (on_OpenCursor False c request s1 Hs1) as He.
    destruct (OpenCursor request s1) as [[b|e|w] s2]; [done..|by left].
  - pose proof (on_ExecuteImmediate False c request s1 Hs1) as He.
    unfold m_bind at 1. destruct (ExecuteImmediate request s1) as [[r|e|w] s2]; [|done|by left].
    unfold m_bind at 1, stream_get, gets. unfold m_bind at 1, on_stream, modify.
    destruct r as [r|]; [done|]. unfold m_bind at 1.
    match goal with |- context [ReleaseConnection true ?x] =>
      by destruct (ReleaseConnection_runs true x) as (s3 & -> & _) end.
Qed.

(** ** The handler *)

Section Handler.
Context (cancelled write_ok : nat → bool).

(** The sizes of a batch are signed sums. *)
Definition deadlock_or_overflow (h : Handler) (w : stuck) : Prop :=
  deadlock (hd_call h) w ∨ w = SignedOverflow.
#[local] Abbreviation stops T := (ends (S := Handler) always T deadlock_or_overflow).

Lemma stops_on_call {A} T (m : M QCall A) : ends always T deadlock m → stops T (on_call m).
Proof.
  intros Hm h _. unfold on_call, zoom. specialize (Hm (hd_call h) I).
  destruct (m (hd_call h)) as [[a|e|w] s1]; [done..|by left].
Qed.
Lemma stops_Fetch T : stops T (on_call Fetch).
Proof. by apply stops_on_call, ends_Fetch. Qed.
Lemma stops_Close T : stops T (on_call Close).
Proof. by apply stops_on_call, ends_Close. Qed.
Lemma stops_Abort T : stops T (on_call Abort).
Proof. by apply stops_on_call, ends_Abort. Qed.
Lemma stops_destroy T : stops T (on_call destroy_StreamingQuery).
Proof. by apply stops_on_call, ends_destroy. Qed.
Lemma stops_clear T : stops T clear_last.
Proof.
  apply ends_bind; [by intros h|intros r]. apply stops_on_call, ends_any. intros o. apply on_sysM.
  auto with mtdd.
Qed.
Lemma stops_modify T f : stops T (modify f).
Proof. by apply ends_modify. Qed.
Lemma stops_poll T : stops T (on_rpc (IsCancelled cancelled)).
Proof. by intros h. Qed.
Lemma stops_chunk T kind meta payload :
  stops T (on_rpc (WriteResultChunk write_ok kind meta payload)).
Proof. intros h _. unfold on_rpc, zoom, WriteResultChunk. by destruct (_ && _). Qed.
Lemma stops_error T e : stops T (on_rpc (WriteErrorChunk write_ok e)).
Proof. by intros h. Qed.
#[local] Hint Resolve stops_Fetch stops_Close stops_Abort stops_destroy stops_clear stops_modify
  stops_poll stops_chunk stops_error : mtdd.

Ltac stops_walk :=
  repeat first
    [ solve [eauto with mtdd]
    | by apply ends_hang; right
    | by apply ends_throw
    | apply ends_foldl; intros
    | apply ends_bind; [|intros]
    | case_match ].

Lemma stops_encode r a b : stops True (EncodeRawPgBatch r a b).
Proof. unfold EncodeRawPgBatch, EncodeColumn, EncodeCell. stops_walk. Qed.
Lemma stops_add_rows n : stops True (add_rows n).
Proof. unfold add_rows. stops_walk. Qed.
Lemma stops_send payload : stops True (SendBatchChunk cancelled write_ok payload).
Proof. unfold SendBatchChunk. stops_walk. Qed.
Lemma stops_status T : stops T (cancelled_status cancelled).
Proof. unfold cancelled_status. stops_walk. Qed.
#[local] Hint Resolve stops_encode stops_add_rows stops_send stops_status : mtdd.

(** The bound of the batch loop is never reached. *)
Lemma stops_send_batches fuel fetch n wire rb :
  0 < wire → (Z.to_nat (n - rb) < fuel)%nat →
  stops True (send_batches cancelled write_ok fuel fetch n wire rb).
Proof.
  intros Hw. revert rb. induction fuel as [|fuel IH]; intros rb Hf; [lia|]. cbn [send_batches].
  destruct (rb <? n) eqn:E; [|by intros h]. case_match; [by apply ends_hang; right|].
  do 3 (apply ends_bind; [auto with mtdd|intros]). case_match; [stops_walk|]. apply IH. lia.
Qed.

Lemma stops_fetch_step wire : 0 < wire → stops True (fetch_step cancelled write_ok wire).
Proof.
  intros Hw. unfold fetch_step, command_step, tuples_step, exec_error.
  stops_walk; apply stops_send_batches; lia.
Qed.
Lemma stops_after_loop : stops True (after_loop cancelled write_ok).
Proof. unfold after_loop. stops_walk. Qed.
Lemma stops_catch_block e : stops False (catch_block write_ok e).
Proof. unfold catch_block. stops_walk. Qed.
#[local] Hint Resolve stops_fetch_step stops_after_loop stops_catch_block : mtdd.

(** The order of the phases. *)
Inductive next_phase : phase → phase → Prop :=
| opened : next_phase Opening Looping
| not_opened : next_phase Opening (Leaving Status_OK)
| loops : next_phase Looping Looping
| breaks : next_phase Looping Finishing
| loop_ends st : next_phase Looping (Leaving st)
| finishes st : next_phase Finishing (Leaving st)
| destroyed st : next_phase (Leaving st) (Timing st)
| logged st : next_phase (Timing st) (Returned st).

Lemma phase_step_next_phase wire request p h p' h1 :
  active p = true → phase_step cancelled write_ok wire request p h = (Ret p', h1) → next_phase p p'.
Proof.
  intros Hp E. destruct p; try done; cbn [phase_step] in E; unfold catching, try_catch, m_bind in E.
  - destruct (on_call _ h) as [[[]|?|?] ?]; [injection E as <- <-; constructor| |done..]. cbn [negb] in E.
    unfold exec_error, gets in E. destruct (on_rpc _ _) as [[]]; [|done..]. injection E as <- <-. constructor.
  - destruct (fetch_step _ _ _ h) as [[[]|e|?] ?]; [injection E as <- <-; constructor..| |done].
    destruct (catch_block _ _ _) as [[]]; [|done..]. injection E as <- <-. constructor.
  - destruct (after_loop _ _ h) as [[|e|?] ?]; [injection E as <- <-; constructor| |done].
    destruct (catch_block _ _ _) as [[]]; [|done..]. injection E as <- <-. constructor.
  - destruct (on_call _ h) as [[[]|?|?] ?]; [|done..]. injection E as <- <-. constructor.
Qed.

(** The phases in which a call can hang: only the loop and what next_phase it send
    batches, and the end of a call waits for nothing. *)
Definition may_hang (p : phase) (h : Handler) (w : stuck) : Prop :=
  match p with
  | Opening => deadlock (hd_call h) w
  | Looping | Finishing => deadlock_or_overflow h w
  | _ => False
  end.

(** The ways in which a phase ends. *)
Lemma phase_step_ends wire request p h :
  0 < wire → active p = true →
  match phase_step cancelled write_ok wire request p h with
  | (Ret p', _) => next_phase p p'
  | (Throw _, _) => False
  | (Stuck w, h') => may_hang p h' w
      ∨ w = CvWait ∧ p = Opening ∧ qr_session_id request = ""
        ∧ capacity (sy_pool (qc_sys (hd_call h))) ≤ 0
  end.
Proof.
  intros Hw Ha. assert (Hf := λ p' h1, phase_step_next_phase wire request p h p' h1 Ha).
  assert (Hk : p ≠ Opening → stops False (phase_step cancelled write_ok wire request p)).
  { intros Hp. destruct p; cbn [phase_step]; try done; unfold catching;
      try (apply ends_try; [|done|intros e]); stops_walk. }
  destruct p; try done.
  - clear Hk Hf. cbn [phase_step]. unfold m_bind at 1, on_call, zoom.
    pose proof (Open_ends request (hd_call h)) as Ho.
    destruct (Open request (hd_call h)) as [[[]|e|w] s1]; [constructor..|done|].
    destruct Ho as [Ho|(-> & H1 & H2)]; [by left|by right].
  - specialize (Hk ltac:(done) h I). destruct (phase_step _ _ _ _ _ h) as [[]]; [by eapply Hf|done|by left].
  - specialize (Hk ltac:(done) h I). destruct (phase_step _ _ _ _ _ h) as [[]]; [by eapply Hf|done|by left].
  - destruct (leaving_held cancelled write_ok wire request st h) as (h' & E & _). rewrite E. constructor.
Qed.
End Handler.

(** ** The calls *)

(** What is known of a call between two phases: it sleeps only where it has no
    session, and hangs for one of two reasons. *)
Definition call_waits (q : QueryCall) : Prop :=
  match qk_phase q with
  | Asleep => qr_session_id (qk_request q) = ""
  | Hung why => why = SelfDeadlock ∨ why = SignedOverflow
  | _ => True
  end.

Lemma call_waits_move config_ v v' :
  move config_ v v' → Forall call_waits (rn_queries v) → Forall call_waits (rn_queries v').
Proof.
  destruct 1 as [sh sh' qs cs cancelled write_ok request r E|sh qs cs i q p h Hi Ha E
    |sh qs cs i q w h Hi Ha E Hw|sh qs cs i q h Hi Hp E|sh sh' qs cs i q st ms Hi Hp E|sh qs cs request
    |sh sh' qs cs i request p p' ms Hi E|sh sh' qs cs request r E|sh sh' qs cs E]; simpl; try done;
    intros Hf; try (apply Forall_insert; [done|]); unfold call_waits; simpl; try done;
    try (pose proof (phase_step_ends (qk_cancelled q) (qk_write_ok q) (wire_rows config_) (qk_request q)
      (qk_phase q) (attach (sh_sys sh) (qk_local q)) (wire_rows_pos config_)) as He;
      unfold query_run in E; rewrite E in He).
  - apply Forall_app. split; [done|]. apply Forall_singleton. by destruct r.
  - specialize (He Ha). by inversion He.
  - destruct (He Ha) as [Hm|[? _]]; [|done]. unfold may_hang, deadlock_or_overflow, deadlock in Hm.
    destruct (qk_phase q); tauto.
  - rewrite Hp in He. destruct (He eq_refl) as [Hm|(_ & _ & Hs & _)]; [|done].
    by destruct Hm as [? _].
Qed.

Lemma call_waits_reachable config_ mon w cerr v :
  rtc (step config_) (started config_ mon w cerr) v → Forall call_waits (rn_queries v).
Proof.
  apply (run_kept config_ (λ v, Forall call_waits (rn_queries v)));
    [apply call_waits_move| |by apply Forall_nil].
  intros sh qs cs i q. by apply Forall_wake.
Qed.

(** The next phase of a call, in the state [v'] after it. *)
Definition goes_on (q : QueryCall) (v v' : Running) (i : nat) : Prop :=
  ∃ h p, rn_queries v' !! i = Some (advance h p q)
    ∧ (next_phase (qk_phase q) p
       ∨ (qk_phase q = Opening ∧ p = Asleep ∧ qr_session_id (qk_request q) = ""
          ∧ capacity (pool_of (rn_shard v)) ≤ 0)
       ∨ ∃ why, p = Hung why ∧ may_hang (qk_phase q) h why).

Lemma active_goes_on config_ v i q :
  rn_queries v !! i = Some q → active (qk_phase q) = true → ∃ v', step config_ v v' ∧ goes_on q v v' i.
Proof.
  destruct v as [sh qs cs]. simpl. intros Hi Ha.
  assert (Hlt : (i < length qs)%nat) by (by eapply lookup_lt_Some).
  pose proof (phase_step_ends (qk_cancelled q) (qk_write_ok q) (wire_rows config_) (qk_request q)
    (qk_phase q) (attach (sh_sys sh) (qk_local q)) (wire_rows_pos config_) Ha) as He.
  destruct (phase_step _ _ _ _ _ _) as [[p|e|w] h] eqn:E; [|done|destruct He as [Hm|(-> & Hp & H2 & H3)]].
  - destruct (move_step config_ _ _ _ _ (move_query config_ sh qs cs i q p h Hi Ha E)) as (qs' & Hs & Hw).
    eexists. split; [exact Hs|]. exists h, p. split; [|by left].
    eapply woken_awake; [exact Hw|by apply list_lookup_insert_eq|]. simpl. intros ->. by inversion He.
  - assert (Hne : w ≠ CvWait).
    { intros ->. unfold may_hang, deadlock_or_overflow, deadlock in Hm. destruct (qk_phase q); naive_solver. }
    destruct (move_step config_ _ _ _ _ (move_hang config_ sh qs cs i q w h Hi Ha E Hne)) as (qs' & Hs & Hw).
    eexists. split; [exact Hs|]. exists h, (Hung w). split; [|right; right; by exists w].
    eapply woken_awake; [exact Hw|by apply list_lookup_insert_eq|done].
  - eexists. split; [eapply step_quiet; [by apply (move_sleep config_ sh qs cs i q h)|done]|].
    exists (qk_local q), Asleep. split; [by apply list_lookup_insert_eq|]. right. by left.
Qed.

(** C13: no call is stuck without a reason. In any state that the service reaches,
    whatever the other calls hold, a call that has not returned makes the next
    phase of [QueryStream], with three exceptions: before its query is opened
    it goes to sleep, if it has no session and the pool has neither an idle
    connection nor a free slot; it hangs at the mutex of its own connection, if
    that is locked; or, while it sends batches, it computes a signed sum out of
    range. A call that sleeps has no session, and one that hung did so for one
    of these two reasons; the end of a call waits for nothing, none dereferences
    a null connection, every loop over a result ends, and no exception leaves
    the handler. *)
Theorem calls_progress config_ mon w cerr v i q :
  rtc (step config_) (started config_ mon w cerr) v → rn_queries v !! i = Some q →
  match qk_phase q with
  | Returned _ => True
  | Asleep => qr_session_id (qk_request q) = ""
  | Hung why => why = SelfDeadlock ∨ why = SignedOverflow
  | _ => ∃ v', step config_ v v' ∧ goes_on q v v' i
  end.
Proof.
  intros Hr Hi. pose proof (Forall_lookup_1 _ _ _ _ (call_waits_reachable _ _ _ _ _ Hr) Hi) as Hq.
  unfold call_waits in Hq. pose proof (active_goes_on config_ v i q Hi) as Ha.
  destruct (qk_phase q) eqn:Ep; try done; try by apply Ha.
  destruct v as [sh qs cs]. simpl in *. destruct (same_but_log_timer "query_stream" 0 sh) as (sh' & Et & _).
  destruct (move_step config_ _ _ _ _ (move_return config_ sh sh' qs cs i q st 0 Hi Ep Et)) as (qs' & Hs & Hw).
  eexists. split; [exact Hs|]. exists (qk_local q), (Returned st). split; [|rewrite Ep; left; constructor].
  eapply woken_awake; [exact Hw|by eapply list_lookup_insert_eq, lookup_lt_Some|done].
Qed.
End Progress.
