(* ===== verification/Wakeups.v ===== *)
(** * The calls that sleep (src/src/pg/connection_manager.cpp, [cv_])

    A call that sleeps in [Acquire] is woken by the calls that give something
    back. Here the notifications of the whole service are counted against what
    the pool could serve: nothing that a query gives back is left without a call
    that is about to take it while another one sleeps; what a [Connect] adds
    may be. *)
From S2P Require Import Prelude CppStd Log Config Grpc Libpq Rpgb FlexMeta QueryMeta PgState PqConn.
From S2P Require Import Pool Sessions Streaming Handles QueryExecutor Health Queries ShardService.
From S2P Require Import Lift PoolUse ShardSafety ShardSlots Service Delivery Calls CallsInv Progress.
Local Open Scope Z_scope.
Local Open Scope cpp_scope.

(** The number of elements with a property. *)
Definition count {A} (f : A → bool) (l : list A) : Z := Z.of_nat (length (filter (λ x, f x = true) l)).

Lemma count_app {A} (f : A → bool) l1 l2 : count f (l1 ++ l2) = count f l1 + count f l2.
Proof. unfold count. rewrite filter_app, length_app. lia. Qed.
Lemma count_one {A} (f : A → bool) x : count f [x] = Z.b2z (f x).
Proof. unfold count. rewrite filter_cons. case_decide as E; [by rewrite E|]. by destruct (f x). Qed.
Lemma count_pos {A} (f : A → bool) l : 0 ≤ count f l.
Proof. unfold count. lia. Qed.
Lemma count_insert {A} (f : A → bool) l i x y :
  l !! i = Some x → count f (<[i := y]> l) = count f l - Z.b2z (f x) + Z.b2z (f y).
Proof.
  intros Hi. rewrite (insert_take_drop l i y) by (by eapply lookup_lt_Some).
  rewrite <-(take_drop_middle l i x Hi) at 3.
  rewrite !count_app, (count_app f [y] _ : count f (y :: _) = _), (count_app f [x] _ : count f (x :: _) = _), !count_one.
  lia.
Qed.

Section Wakeups.
Context `{L : Libpq, FB : !FlexBuffers} (config_ : ServerConfig).

(** A call that will test the pool next. *)
Definition will_try (q : QueryCall) : bool :=
  match qk_phase q with Opening => str_empty (qr_session_id (qk_request q)) | _ => false end.

(** A [Connect] that has put a connection in the pool. *)
Definition has_joined (k : ConnectCall) : bool :=
  match ck_phase k with
  | Storing _ | Reporting _ => true
  | CTiming r | Answered r => cresp_ok r.2
  | _ => false
  end.

Definition trying (v : Running) : Z := count will_try (rn_queries v).
Definition joined (v : Running) : Z := count has_joined (rn_connects v).

Definition sleeping (qs : list QueryCall) : Prop := ∃ i q, qs !! i = Some q ∧ qk_phase q = Asleep.

Lemma sleeping_insert (qs : list QueryCall) i q :
  qk_phase q ≠ Asleep → sleeping (<[i := q]> qs) → sleeping qs.
Proof.
  intros Hq (j & q' & Hj & Hp). apply list_lookup_insert_Some in Hj as [(-> & -> & _)|[Hne Hj]]; [done|].
  by exists j, q'.
Qed.

(** With [n] notifications on their way, and [j0] connections joined at the start:
    while a call sleeps, what the pool can serve is spoken for. *)
Definition spoken_for (j0 n : Z) (v : Running) : Prop :=
  sleeping (rn_queries v) → capacity (pool_of (rn_shard v)) ≤ trying v + n + (joined v - j0).

(** ** The notifications arrive *)

Lemma spoken_wake j0 n sh qs cs i q :
  call_waits q → qs !! i = Some q → qk_phase q = Asleep → spoken_for j0 n (mkRunning sh qs cs) →
  spoken_for j0 (n - 1) (mkRunning sh (wake i q qs) cs).
Proof.
  unfold call_waits, spoken_for. intros Hw Hi Hp Hs _. rewrite Hp in Hw.
  specialize (Hs ltac:(by exists i, q)). unfold trying, joined, wake in *. simpl in *.
  rewrite (count_insert _ _ _ _ _ Hi). unfold will_try at 2 3. simpl. rewrite Hp, Hw. simpl. lia.
Qed.

Lemma wake_waits qs i q : Forall call_waits qs → qs !! i = Some q → Forall call_waits (wake i q qs).
Proof. intros Hf Hi. by apply Forall_insert. Qed.

Lemma spoken_wakes j0 sh cs n qs qs' :
  nsteps wakes n qs qs' → Forall call_waits qs →
  spoken_for j0 (Z.of_nat n) (mkRunning sh qs cs) → spoken_for j0 0 (mkRunning sh qs' cs).
Proof.
  induction 1 as [qs|n qs qs1 qs2 Hw Hn IH]; intros Hf Hs; [done|]. destruct Hw as [qs i q Hi Hq|qs Ha].
  - apply IH; [by apply wake_waits|]. replace (Z.of_nat n) with (Z.of_nat (S n) - 1) by lia.
    apply spoken_wake; [by eapply Forall_lookup_1 in Hf|done..].
  - apply IH; [done|]. intros (i & q & Hi & Hq). by destruct (Forall_lookup_1 _ _ _ _ Ha Hi).
Qed.

(** ** The threads' steps *)

(** A phase of a query: what it gives back it announces, and its opening takes
    something away. *)
Lemma phase_pool q sh o h :
  query_run config_ q sh = (o, h) → o ≠ Stuck CvWait →
  used (pool_of sh) (sy_pool (qc_sys (hd_call h)))
  ∧ (will_try q = true → potential (sy_pool (qc_sys (hd_call h))) ≤ potential (pool_of sh) - 1).
Proof.
  unfold query_run, will_try. intros E Ho. set (h0 := attach (sh_sys sh) (qk_local q)) in *.
  assert (Hk : ∀ A (m : M QCall A), preserves uses m → keeps (used_since (pool_of sh)) m).
  { intros A m. apply used_since_keeps. }
  destruct (decide (qk_phase q = Opening)) as [Ep|Ep].
  - rewrite Ep in *. cbn [phase_step] in E. unfold m_bind at 1, on_call, zoom in E.
    pose proof (Open_takes (qk_request q) (hd_call h0)) as Ht. rewrite str_empty_spec.
    destruct (Open (qk_request q) (hd_call h0)) as [[[]|e|w] s1]; cbn [negb] in E; injection E as <- <-; apply Ht;
      done || congruence.
  - split; [|by destruct (qk_phase q)].
    assert (Hu : on_handler (used_since (pool_of sh)) h0) by (unfold on_handler, used_since; reflexivity).
    replace h with (snd (phase_step (qk_cancelled q) (qk_write_ok q) (wire_rows config_) (qk_request q)
      (qk_phase q) h0)) by (by rewrite E). destruct (leaving_or (qk_phase q)) as [[st El]|Hl].
    + rewrite El. apply leaving_keeps; [by apply Hk, uses_destroy|done].
    + apply phase_step_keeps; auto using uses_Fetch, uses_Close, uses_Abort. apply used_since_clear.
Qed.

(** A phase of [Connect]: it notifies nobody, and what it adds is counted. *)
Lemma connect_step_pool request ms p sh p' sh' :
  connect_step config_ request ms p sh = (Ret p', sh') →
  (pool_of sh' = pool_of sh ∧ has_joined (mkConnectCall request p') = has_joined (mkConnectCall request p)
     ∧ (is_Some (connect_params_ sh') → is_Some (connect_params_ sh) ∨ ∃ params, p = Storing params)
     ∧ ∀ params, p' ≠ Connecting params ∧ p' ≠ Storing params)
  ∨ (∃ params, p = Validating ∧ p' = Connecting params
       ∧ pool_of sh' = Configure_section params (pool_size config_) (pool_of sh))
  ∨ (∃ params c, p = Connecting params ∧ p' = Storing params ∧ pool_of sh' = push_idle c (pool_of sh)).
Proof.
  unfold pool_of. intros E. destruct p as [|params|params|params|e|r|r]; cbn [connect_step] in E.
  - destruct (check_host_index_runs config_ (cr_host_index request) sh) as (x & Ex & Hx & _ & Hc & _).
    rewrite (m_bind_run _ _ _ _ _ Ex) in E.
    destruct (fst _); [injection E as <- <-; left; rewrite Hx, Hc; by split_and!; auto|].
    cbv zeta in E. destruct (_ || _); [injection E as <- <-; left; rewrite Hx, Hc; by split_and!; auto|].
    right. left. injection E as <- <-. eexists. split_and!; [done..|]. simpl. by rewrite Hx.
  - unfold m_bind at 1, sysM, zoom, Pool.Connect, m_bind at 1, gets in E. simpl in E. unfold m_bind in E.
    destruct (Connect_runs (params_ (sy_pool (sh_sys sh))) 0 (sh_sys sh)) as ([e|c] & s1 & Ec & (_ & Hp & _));
      rewrite Ec in E; injection E as <- <-; [left; by split_and!; auto|]. right. right. exists params, c.
    split_and!; [done..|]. simpl. by rewrite Hp.
  - injection E as <- <-. left. split_and!; [done..| |done]. intros _. right. by exists params.
  - destruct (on_health_runs (OnConnectSuccess params (statement_timeout_ms config_)) sh)
      as (x & Ex & (_ & Hf & _) & Hc & _); [intros h; apply OnConnectSuccess_runs|].
    rewrite (m_bind_run _ _ _ _ _ Ex) in E. injection E as <- <-. left. rewrite Hf, Hc. by split_and!; auto.
  - destruct (on_health_runs (on_monitor OnConnectFailure) sh) as (x & Ex & (_ & Hf & _) & Hc & _);
      [intros h; by eexists|].
    rewrite (m_bind_run _ _ _ _ _ Ex) in E. injection E as <- <-. left. rewrite Hf, Hc. by split_and!; auto.
  - destruct (same_but_log_timer "connect" ms sh) as (x & Ex & H1 & _ & Hc & _).
    rewrite (m_bind_run _ _ _ _ _ Ex) in E. injection E as <- <-. left. rewrite H1, Hc. by split_and!; auto.
  - injection E as <- <-. left. by split_and!; auto.
Qed.

(** The size that [Configure] gives the pool. *)
Definition configured_size : Z := if 0 <? pool_size config_ then pool_size config_ else 1.

Lemma probe_pool sh sh' : on_health probe_tick sh = (Ret tt, sh') → pool_of sh' = pool_of sh.
Proof.
  intros E. pose proof (probe_outside (λ y, sy_pool y = pool_of sh)) as Ho.
  assert (Hp : ∀ params ms, keeps (λ y, sy_pool y = pool_of sh) (probe_connection params ms)).
  { intros params m s Hs. destruct (probe_connection_runs params m s) as (s' & E' & (_ & Hp & _)).
    rewrite E'. simpl. by rewrite Hp. }
  specialize (Ho Hp sh eq_refl). by rewrite E in Ho.
Qed.

(** ** The size of the pool *)

(** [Connect] was called: the service has credentials, or a call is on its way. *)
Definition begun (v : Running) : Prop :=
  is_Some (connect_params_ (rn_shard v))
  ∨ (∃ i request p, rn_connects v !! i = Some (mkConnectCall request p)
       ∧ ∃ params, p = Connecting params ∨ p = Storing params)
  ∨ ∃ i q, rn_queries v !! i = Some q ∧ before_open (qk_phase q) = true.

Lemma admit_run request sh r sh' :
  admit_query config_ request sh = (Ret r, sh') →
  sh_sys sh' = sh_sys sh ∧ connect_params_ sh' = connect_params_ sh
  ∧ ∀ params, r = inr params → connect_params_ sh = Some params.
Proof.
  unfold admit_query. destruct (check_host_index_runs config_ (qr_host_index request) sh)
    as (x & Ex & Hx & _ & Hc & _). intros E. rewrite (m_bind_run _ _ _ _ _ Ex) in E.
  destruct (fst _); [by injection E as <- <-|]. destruct (EnsureQueryRequest request); [by injection E as <- <-|].
  destruct (_ <? _); [by injection E as <- <-|]. unfold m_bind, get in E.
  destruct (executor_ x); [|by injection E as <- <-].
  destruct (connect_params_ x) as [params|] eqn:Ep; injection E as <- <-; rewrite <-Hc; [|done].
  split_and!; [done|by rewrite Ep|]. by intros ? [= <-].
Qed.

Lemma Disconnect_run request sh r sh' :
  Disconnect config_ request sh = (Ret r, sh') → sh_sys sh' = sh_sys sh ∧ connect_params_ sh' = connect_params_ sh.
Proof.
  unfold Disconnect. destruct (check_host_index_runs config_ (dr_host_index request) sh)
    as (x & Ex & Hx & _ & Hc & _). intros E. rewrite (m_bind_run _ _ _ _ _ Ex) in E.
  by destruct (fst _); injection E as <- <-.
Qed.

Lemma probe_run sh sh' :
  on_health probe_tick sh = (Ret tt, sh') → pool_of sh' = pool_of sh ∧ connect_params_ sh' = connect_params_ sh.
Proof.
  intros E. split; [by apply probe_pool|]. revert E. unfold on_health.
  destruct (health_monitor_ sh) as [h|]; [|by intros [= <-]].
  destruct (probe_tick _) as [o x]. by intros [= _ <-].
Qed.

(** Whoever waits does so after a [Configure]: the pool has its size. *)
Definition sized (v : Running) : Prop := begun v → pool_size_ (pool_of (rn_shard v)) = configured_size.

Lemma begun_insert sh sh' qs cs i q q' :
  qs !! i = Some q → (before_open (qk_phase q') = true → before_open (qk_phase q) = true) →
  connect_params_ sh' = connect_params_ sh → begun (mkRunning sh' (<[i := q']> qs) cs) →
  begun (mkRunning sh qs cs).
Proof.
  unfold begun. simpl. intros Hi Hq -> [?|[?|(j & q0 & Hj & Hb)]]; [by left|right; by left|].
  right. right. apply list_lookup_insert_Some in Hj as [(-> & -> & _)|[Hne Hj]]; [|by exists j, q0].
  exists j, q. split; [done|by apply Hq].
Qed.

Lemma sized_phase sh qs cs i q o h p :
  sized (mkRunning sh qs cs) → qs !! i = Some q → query_run config_ q sh = (o, h) → o ≠ Stuck CvWait →
  before_open p = false →
  sized (mkRunning (put_sys (qc_sys (hd_call h)) sh) (<[i := advance h p q]> qs) cs).
Proof.
  intros Hs Hi E Ho Hp Hb. destruct (phase_pool q sh o h E Ho) as [((_ & Hsz & _) & _) _]. unfold pool_of in *.
  simpl. rewrite Hsz. apply Hs. eapply begun_insert; [done| |done|exact Hb]. simpl. by rewrite Hp.
Qed.

Lemma sized_connect sh sh' qs cs i request p p' ms :
  sized (mkRunning sh qs cs) → cs !! i = Some (mkConnectCall request p) →
  connect_step config_ request ms p sh = (Ret p', sh') →
  sized (mkRunning sh' qs (<[i := mkConnectCall request p']> cs)).
Proof.
  unfold sized. simpl. intros Hs Hi E.
  destruct (connect_step_pool _ _ _ _ _ _ E) as [(-> & _ & Hc & Hp)|[(params & -> & -> & ->)|(params & c & -> & -> & ->)]].
  - intros Hb. apply Hs. destruct Hb as [Hb|[(j & r & pj & Hj & ps & Hpj)|Hb]]; [|right; left|by right; right].
    + destruct (Hc Hb) as [?|[ps ->]]; [by left|]. right. left. by eexists i, _, _; eauto.
    + simpl in Hj. apply list_lookup_insert_Some in Hj as [(-> & [= <- <-] & _)|[Hne Hj]]; [|by eexists j, _, _; eauto].
      destruct (Hp ps). naive_solver.
  - done.
  - intros _. apply Hs. right. left. by eexists i, _, _; eauto.
Qed.

Lemma sized_move v v' : move config_ v v' → sized v → sized v'.
Proof.
  destruct 1 as [sh sh' qs cs cancelled write_ok request r E|sh qs cs i q p h Hi Ha E
    |sh qs cs i q w h Hi Ha E Hw|sh qs cs i q h Hi Hp E|sh sh' qs cs i q st ms Hi Hp E|sh qs cs request
    |sh sh' qs cs i request p p' ms Hi E|sh sh' qs cs request r E|sh sh' qs cs E]; intros Hs.
  - destruct (admit_run _ _ _ _ E) as (H1 & H2 & H3). unfold sized, begun, pool_of in *. simpl in *. rewrite H1, H2.
    intros Hb. apply Hs. destruct Hb as [?|[?|(j & q & Hj & Hb)]]; [by left|right; by left|].
    apply lookup_app_Some in Hj as [Hj|[_ [_ <-]%list_lookup_singleton_Some]]; [right; right; by exists j, q|].
    destruct r as [st|params]; [done|]. left. rewrite (H3 params eq_refl). by eexists.
  - eapply sized_phase; [done..|]. by eapply phase_step_opened.
  - eapply sized_phase; [done..| |done]. by intros [= ->].
  - intros Hb. apply Hs. eapply begun_insert; [done| |done|exact Hb]. by rewrite Hp.
  - destruct (same_but_log_timer "query_stream" ms sh) as (x & Ex & H1 & _ & H2 & _). rewrite E in Ex.
    injection Ex as <-. intros Hb. unfold pool_of. simpl. rewrite H1. apply Hs.
    by eapply begun_insert; [done| | |exact Hb].
  - intros Hb. apply Hs. destruct Hb as [?|[(j & r & p & Hj & ps & Hp)|?]]; [by left|right; left|by right; right].
    simpl in *. apply lookup_app_Some in Hj as [Hj|[_ [_ [= <- <-]]%list_lookup_singleton_Some]];
      [by exists j, r, p; eauto|naive_solver].
  - by eapply sized_connect.
  - destruct (Disconnect_run _ _ _ _ E) as [H1 H2]. unfold sized, begun, pool_of in *. simpl in *. by rewrite H1, H2.
  - destruct (probe_run _ _ E) as [H1 H2]. unfold sized, begun in *. simpl in *. by rewrite H1, H2.
Qed.

Lemma sized_wake sh qs cs i q :
  qs !! i = Some q → qk_phase q = Asleep → sized (mkRunning sh qs cs) → sized (mkRunning sh (wake i q qs) cs).
Proof.
  intros Hi Hq Hs Hb. apply Hs. eapply begun_insert; [done| |done|exact Hb]. by rewrite Hq.
Qed.

Lemma sized_reachable mon w cerr v : rtc (step config_) (started config_ mon w cerr) v → sized v.
Proof.
  apply run_kept; [apply sized_move|apply sized_wake|].
  intros [[? [=]]|[(i & r & p & Hi & _)|(i & q & Hi & _)]]; done.
Qed.

(** ** What is given back is announced *)

Lemma spoken_phase j0 sh qs cs i q o h p :
  spoken_for j0 0 (mkRunning sh qs cs) → qs !! i = Some q → query_run config_ q sh = (o, h) →
  o ≠ Stuck CvWait → before_open p = false →
  spoken_for j0 (Z.of_nat (notified (pool_of sh) (sy_pool (qc_sys (hd_call h)))))
    (mkRunning (put_sys (qc_sys (hd_call h)) sh) (<[i := advance h p q]> qs) cs).
Proof.
  intros Hs Hi E Ho Hp Hsl. destruct (phase_pool q sh o h E Ho) as [(_ & Hcv & Hpot) Htry].
  apply sleeping_insert in Hsl; [|by destruct p]. specialize (Hs Hsl).
  unfold trying, joined, notified, potential, pool_of in *. simpl in *.
  rewrite (count_insert _ _ _ _ _ Hi).
  assert (Ew : will_try (advance h p q) = false) by (unfold will_try; simpl; by destruct p).
  rewrite Ew. destruct (will_try q); simpl; [specialize (Htry eq_refl)|]; lia.
Qed.

(** A call changes its phase and neither tries nor sleeps. *)
Lemma spoken_rephase j0 sh sh' qs cs i q p :
  spoken_for j0 0 (mkRunning sh qs cs) → qs !! i = Some q → will_try q = false → active p = false →
  p ≠ Asleep → pool_of sh' = pool_of sh →
  spoken_for j0 0 (mkRunning sh' (<[i := advance (qk_local q) p q]> qs) cs).
Proof.
  intros Hs Hi Hq Hp Hn Hpool Hsl. apply sleeping_insert in Hsl; [|done]. specialize (Hs Hsl).
  unfold trying, joined in *. simpl in *. rewrite Hpool, (count_insert _ _ _ _ _ Hi), Hq.
  assert (Ew : will_try (advance (qk_local q) p q) = false) by (unfold will_try; simpl; by destruct p).
  rewrite Ew. simpl. lia.
Qed.

Lemma spoken_connect j0 sh sh' qs cs i request p p' ms :
  sized (mkRunning sh qs cs) → Forall call_waits qs → spoken_for j0 0 (mkRunning sh qs cs) →
  cs !! i = Some (mkConnectCall request p) → connect_step config_ request ms p sh = (Ret p', sh') →
  spoken_for j0 0 (mkRunning sh' qs (<[i := mkConnectCall request p']> cs))
  ∧ joined (mkRunning sh qs cs) ≤ joined (mkRunning sh' qs (<[i := mkConnectCall request p']> cs))
  ∧ cv_ (pool_of sh') = cv_ (pool_of sh).
Proof.
  unfold spoken_for, trying, joined. simpl. intros Hz Hw Hs Hi E. rewrite (count_insert _ _ _ _ _ Hi).
  destruct (connect_step_pool _ _ _ _ _ _ E) as [(-> & Hj & _)|[(params & -> & -> & ->)|(params & c & -> & -> & ->)]].
  - rewrite Hj. split_and!; [|lia|done]. intros Hsl. specialize (Hs Hsl). lia.
  - change (has_joined (mkConnectCall request _)) with false. simpl. split_and!; [|lia|done].
    intros Hsl. specialize (Hs Hsl). destruct Hsl as (j & q & Hj & Hp). unfold sized, configured_size in Hz. simpl in Hz.
    unfold capacity in *. simpl. rewrite <-Hz; [lia|]. right. right. exists j, q. by rewrite Hp.
  - change (has_joined (mkConnectCall request (Storing params))) with true.
    change (has_joined (mkConnectCall request (Connecting params))) with false. simpl. split_and!; [|lia|done]. intros Hsl. specialize (Hs Hsl).
    unfold capacity in *. simpl. rewrite length_app. simpl. lia.
Qed.

Lemma spoken_same j0 sh sh' qs cs :
  pool_of sh' = pool_of sh → spoken_for j0 0 (mkRunning sh qs cs) → spoken_for j0 0 (mkRunning sh' qs cs).
Proof. unfold spoken_for. simpl. by intros ->. Qed.

Lemma notified_same (p p' : ConnectionManager) : cv_ p' = cv_ p → notified p p' = 0%nat.
Proof. unfold notified. intros ->. apply Nat.sub_diag. Qed.

Lemma spoken_begin j0 sh sh' qs cs cancelled write_ok request r :
  pool_of sh' = pool_of sh → spoken_for j0 0 (mkRunning sh qs cs) →
  spoken_for j0 0
    (mkRunning sh' (qs ++ [begin_query config_ cancelled write_ok request (sh_sys sh') r]) cs).
Proof.
  intros Hp Hs (j & q & Hj & Hq). unfold spoken_for, trying, joined in *. simpl in *. rewrite count_app, Hp.
  apply lookup_app_Some in Hj as [Hj|[_ [_ <-]%list_lookup_singleton_Some]]; [|by destruct r].
  specialize (Hs ltac:(by exists j, q)). pose proof (count_pos will_try
    [begin_query config_ cancelled write_ok request (sh_sys sh') r]). lia.
Qed.

Lemma spoken_sleep j0 sh qs cs i q h :
  j0 ≤ joined (mkRunning sh qs cs) → qk_phase q = Opening → query_run config_ q sh = (Stuck CvWait, h) →
  spoken_for j0 0 (mkRunning sh (<[i := advance (qk_local q) Asleep q]> qs) cs).
Proof.
  intros Hj Hp E _. unfold query_run in E. rewrite Hp in E.
  pose proof (phase_step_ends (qk_cancelled q) (qk_write_ok q) (wire_rows config_) (qk_request q)
    Opening (attach (sh_sys sh) (qk_local q)) (wire_rows_pos config_) eq_refl) as He.
  rewrite E in He. destruct He as [[? _]|(_ & _ & _ & Hc)]; [done|].
  unfold trying, joined in *. pose proof (count_pos will_try (<[i := advance (qk_local q) Asleep q]> qs)).
  unfold pool_of. simpl in *. lia.
Qed.

(** A thread's step, before its notifications have arrived. *)
Lemma spoken_move j0 v v' :
  move config_ v v' → Forall call_waits (rn_queries v) → sized v → j0 ≤ joined v → spoken_for j0 0 v →
  spoken_for j0 (Z.of_nat (notified (pool_of (rn_shard v)) (pool_of (rn_shard v')))) v' ∧ j0 ≤ joined v'.
Proof.
  destruct 1 as [sh sh' qs cs cancelled write_ok request r E|sh qs cs i q p h Hi Ha E
    |sh qs cs i q w h Hi Ha E Hw|sh qs cs i q h Hi Hp E|sh sh' qs cs i q st ms Hi Hp E|sh qs cs request
    |sh sh' qs cs i request p p' ms Hi E|sh sh' qs cs request r E|sh sh' qs cs E]; intros Hf Hz Hj Hs; simpl.
  - destruct (admit_run _ _ _ _ E) as (H1 & _). assert (Hp : pool_of sh' = pool_of sh) by (unfold pool_of; by rewrite H1).
    rewrite notified_same by (by rewrite Hp). split; [by apply (spoken_begin j0 sh)|done].
  - split; [|done]. eapply spoken_phase; [done..|]. by eapply phase_step_opened.
  - split; [|done]. eapply spoken_phase; [done..| |done]. by intros [= ->].
  - rewrite notified_same by done. split; [|done]. by eapply spoken_sleep.
  - destruct (same_but_log_timer "query_stream" ms sh) as (x & Ex & H1 & _). rewrite E in Ex. injection Ex as <-.
    assert (Hpool : pool_of sh' = pool_of sh) by (unfold pool_of; by rewrite H1).
    rewrite notified_same by (by rewrite Hpool). split; [|done].
    eapply spoken_rephase; try done. unfold will_try. by rewrite Hp.
  - rewrite notified_same by done. unfold spoken_for, trying, joined in *. simpl in *. rewrite count_app, count_one.
    simpl. split; [intros Hsl; specialize (Hs Hsl)|]; lia.
  - destruct (spoken_connect j0 _ _ _ _ _ _ _ _ _ Hz Hf Hs Hi E) as (H1 & H2 & H3).
    rewrite notified_same by done. split; [done|]. lia.
  - destruct (Disconnect_run _ _ _ _ E) as [H1 _]. assert (Hp : pool_of sh' = pool_of sh) by (unfold pool_of; by rewrite H1).
    rewrite notified_same by (by rewrite Hp). split; [by apply (spoken_same j0 sh)|done].
  - destruct (probe_run _ _ E) as [Hp _]. rewrite notified_same by (by rewrite Hp).
    split; [by apply (spoken_same j0 sh)|done].
Qed.

Record accounted (j0 : Z) (v : Running) : Prop := {
  ac_waits : Forall call_waits (rn_queries v);
  ac_sized : sized v;
  ac_joined : j0 ≤ joined v;
  ac_spoken : spoken_for j0 0 v;
}.

Lemma accounted_step j0 v v' : step config_ v v' → accounted j0 v → accounted j0 v'.
Proof.
  intros Hst [Hf Hz Hj Hs]. destruct Hst as [v sh qs cs qs' Hm Hn|sh qs cs i q Hi Hq].
  - pose proof (call_waits_move _ _ _ Hm Hf) as Hf'. destruct (spoken_move j0 _ _ Hm Hf Hz Hj Hs) as [Hs' Hj'].
    pose proof (sized_move _ _ Hm Hz) as Hz'. simpl in *.
    split; [| |done|by eapply spoken_wakes].
    + clear -Hn Hf'. induction Hn as [qs|n qs qs1 qs2 [->|(i & q & Hi & Hq & ->)]%wakes_inv _ IH]; auto.
      by apply IH, wake_waits.
    + clear -Hn Hz'. induction Hn as [qs|n qs qs1 qs2 [->|(i & q & Hi & Hq & ->)]%wakes_inv _ IH]; auto.
      by apply IH, sized_wake.
  - split; [by apply wake_waits|by apply sized_wake|done|]. intros _.
    pose proof (spoken_wake j0 0 sh qs cs i q (Forall_lookup_1 _ _ _ _ Hf Hi) Hi Hq Hs) as H.
    unfold spoken_for, trying, joined in *. simpl in *. specialize (Hs ltac:(by exists i, q)).
    revert Hs. unfold wake. rewrite (count_insert _ _ _ _ _ Hi). unfold will_try at 3. rewrite Hq. simpl.
    intros. destruct (will_try _); simpl; lia.
Qed.

Lemma accounted_since mon w cerr v v' :
  rtc (step config_) (started config_ mon w cerr) v →
  Forall (λ q, qk_phase q ≠ Asleep) (rn_queries v) ∨ capacity (pool_of (rn_shard v)) ≤ 0 →
  rtc (step config_) v v' → accounted (joined v) v'.
Proof.
  intros Hr Hq. apply rtc_invariant; [|intros ? ?; apply accounted_step].
  split; [by eapply call_waits_reachable|by eapply sized_reachable|done|].
  intros (i & q & Hi & Hp). destruct Hq as [Hq|Hq]; [by destruct (Forall_lookup_1 _ _ _ _ Hq Hi)|].
  pose proof (count_pos will_try (rn_queries v)). unfold trying. lia.
Qed.

(** C12: no wakeup is lost but those of [Connect]. Take any moment of the service
    at which no call sleeps on the pool's condition variable or the pool has
    nothing to give; the moment at which a call goes to sleep is one. At any
    later moment at which a call sleeps, what the pool could give is at most
    what calls that are awake are about to take, plus one for each [Connect]
    that has joined a connection to the pool since, which notifies nobody. So
    without such a [Connect], and with no call about to try, a call sleeps only
    while no connection is idle and all the slots of the configured size are
    held by other calls or were lost. *)
Theorem calls_wakeups mon w cerr v v' i q :
  rtc (step config_) (started config_ mon w cerr) v →
  Forall (λ q, qk_phase q ≠ Asleep) (rn_queries v) ∨ capacity (pool_of (rn_shard v)) ≤ 0 →
  rtc (step config_) v v' → rn_queries v' !! i = Some q → qk_phase q = Asleep →
  capacity (pool_of (rn_shard v')) ≤ trying v' + (joined v' - joined v)
  ∧ (trying v' = 0 → joined v' = joined v →
     idle_ (pool_of (rn_shard v')) = []
     ∧ configured_size ≤ Z.of_nat (length (pooled_in (streams v')))
                         + Z.of_nat (length (lost_calls (rn_queries v')))).
Proof.
  intros Hr Hq Hr' Hi Hp. destruct (accounted_since mon w cerr v v' Hr Hq Hr') as [_ Hz _ Hs].
  assert (Hr2 : rtc (step config_) (started config_ mon w cerr) v') by (by etrans).
  destruct (slots_ok_reachable config_ mon w cerr v' Hr2) as [Hu _].
  specialize (Hs ltac:(by exists i, q)). split; [lia|]. intros H1 H2. unfold capacity, account, streams in *.
  rewrite <-Hz; [|right; right; exists i, q; by rewrite Hp].
  destruct (idle_ (pool_of (rn_shard v'))) as [|c l]; cbn [length] in Hs; [split; [done|lia]|lia].
Qed.
End Wakeups.
