(* ===== verification/Locks.v ===== *)
(** * The mutexes of the connections

    A connection's mutex is locked by a scoped lock, so a call that comes to an
    end leaves every mutex as it found it; a call that does not can leave at most
    the mutex of its own connection locked. Over the interleaved service: a
    mutex that is locked between two phases belongs to a connection of a call
    that hung, and no idle connection is ever locked. *)
From S2P Require Import Prelude CppStd Log Config Grpc Libpq Rpgb FlexMeta QueryMeta PgState PqConn.
From S2P Require Import Pool Sessions Streaming Handles QueryExecutor Health Queries ShardService.
From S2P Require Import Lift ShardSafety ShardSlots Service Delivery Calls CallsInv.
Local Open Scope Z_scope.
Local Open Scope cpp_scope.

(** ** The database part *)

Section Still.
Context `{L : Libpq} (l : gset nat).

(** The locked mutexes are [l], and the cursor counter is one. *)
Definition still (y : Sys) : Prop := sy_locked y = l ∧ 0 ≤ sy_cursor y.

Lemma still_frame {A} (m : M Sys A) : preserves frame m → keeps still m.
Proof. intros Hm y Hy. destruct (Hm y) as (_ & _ & _ & _ & H1 & H2). unfold still. by rewrite H1, H2. Qed.
Lemma still_modify f :
  (∀ y, sy_locked (f y) = sy_locked y ∧ sy_cursor (f y) = sy_cursor y) → keeps still (modify f).
Proof. intros Hf. apply keeps_modify. intros y. unfold still. by destruct (Hf y) as [-> ->]. Qed.

Ltac still_walk :=
  repeat first
    [ solve [eauto with mtdd]
    | by apply still_modify
    | apply still_frame; solve [auto with mtdd]
    | apply keeps_bind; [|intros]
    | case_match ].

Lemma still_connected params ms : keeps still (PqConnection_Connect params ms).
Proof. apply still_frame, frame_Connect. Qed.
Lemma still_healthy c : keeps still (IsHealthy c).
Proof. apply still_frame, frame_IsHealthy. Qed.
Lemma still_destroy c : keeps still (destroy_if_unowned c).
Proof. apply still_frame, frame_destroy. Qed.
#[local] Hint Resolve still_connected still_healthy still_destroy : mtdd.

Lemma still_take_ref c : keeps still (take_ref c).
Proof. by apply still_modify. Qed.
Lemma still_drop_ref c : keeps still (drop_ref c).
Proof. unfold drop_ref. still_walk. Qed.
Lemma still_on_pool f : keeps still (on_pool f).
Proof. by apply still_modify. Qed.
#[local] Hint Resolve still_take_ref still_drop_ref still_on_pool : mtdd.

Lemma still_Configure params size : keeps still (Configure params size).
Proof. apply still_on_pool. Qed.
Lemma still_Connect : keeps still Pool.Connect.
Proof. unfold Pool.Connect. still_walk. Qed.
Lemma still_probe params ms : keeps still (probe_connection params ms).
Proof. unfold probe_connection. still_walk. Qed.
Lemma still_Acquire : keeps still Acquire.
Proof. unfold Acquire, CreateConnection. still_walk. Qed.
Lemma still_Release c b : keeps still (Release c b).
Proof. unfold Release. still_walk. Qed.
Lemma still_GetOrCreate sid params : keeps still (GetOrCreate sid params).
Proof. unfold GetOrCreate, create_session, erase_session. still_walk. Qed.
Lemma still_NextCursorName : keeps still NextCursorName.
Proof.
  intros y [Hl Hc]. split; [exact Hl|]. simpl. unfold to_uint64.
  apply Z.mod_pos_bound. lia.
Qed.
End Still.
#[export] Hint Resolve still_Acquire still_Release still_GetOrCreate still_NextCursorName
  still_healthy still_drop_ref : mtdd.

(** ** The streaming query *)

Section Query.
Context `{L : Libpq}.

(** The mutex of the connection of a query. *)
Definition own_mutex (o : option PqConnection) : gset nat :=
  match o with Some c => {[pq_addr c]} | None => ∅ end.

(** The query has the connection [o] and the mutexes [l] are locked; where it
    does not come to an end, its own mutex may be locked too. *)
Definition held (o : option PqConnection) (l : gset nat) (s : QCall) : Prop :=
  connection_ (qc_stream s) = o ∧ still l (qc_sys s).
Definition waiting (o : option PqConnection) (l : gset nat) (s : QCall) : Prop :=
  connection_ (qc_stream s) = o ∧ sy_locked (qc_sys s) ⊆ l ∪ own_mutex o ∧ 0 ≤ sy_cursor (qc_sys s).

#[local] Abbreviation guarded o l m := (stays (held o l) (waiting o l) m).

Lemma held_waiting o l s : held o l s → waiting o l s.
Proof. intros (Hc & Hl & Hn). split_and!; [done|set_solver|done]. Qed.

Lemma guarded_sysM {A} o l (m : M Sys A) : keeps (still l) m → guarded o l (sysM m).
Proof.
  intros Hm s [Hc Hs]. specialize (Hm _ Hs). unfold sysM, zoom. simpl.
  destruct (m (qc_sys s)) as [[]]; [done..|]. by apply held_waiting.
Qed.
Lemma guarded_frame {A} o l (m : M Sys A) : preserves frame m → guarded o l (sysM m).
Proof. intros Hm. by apply guarded_sysM, still_frame. Qed.
Lemma guarded_on_stream o l f :
  (∀ q, connection_ (f q) = connection_ q) → guarded o l (on_stream f).
Proof. intros Hf. apply stays_modify. intros s [Hc Hs]. split; [|done]. simpl. by rewrite Hf. Qed.
Lemma guarded_set_error o l e : guarded o l (set_error e).
Proof. by intros s. Qed.
Lemma guarded_stream_get {A} o l (f : StreamingQuery → A) : guarded o l (stream_get f).
Proof. by intros s. Qed.
Lemma guarded_connection {A} o l (k : option PqConnection → M QCall A) :
  guarded o l (k o) → guarded o l (m_bind (stream_get connection_) k).
Proof. intros Hk s Hs. unfold m_bind, stream_get, gets. rewrite (proj1 Hs). by apply Hk. Qed.
Lemma guarded_the_connection {A} o l (k : PqConnection → M QCall A) :
  (∀ c, o = Some c → guarded o l (k c)) → guarded o l (m_bind the_connection k).
Proof.
  intros Hk s Hs. unfold m_bind, the_connection, m_bind, stream_get, gets. rewrite (proj1 Hs).
  destruct o as [c|]; [by apply Hk|]. by apply held_waiting.
Qed.

(** The scoped lock: unlocked again, unless the thread does not come back. *)
Lemma guarded_with_lock {A} c l (m : M QCall A) :
  guarded (Some c) ({[pq_addr c]} ∪ l) m → guarded (Some c) l (with_lock c m).
Proof.
  intros Hm s Hs. unfold with_lock. case_bool_decide as Hin; [by apply held_waiting|].
  destruct Hs as (Hc & Hl & Hn). simpl in *. rewrite Hl in *.
  specialize (Hm (mkQCall (set_locked ({[pq_addr c]} ∪ l) (qc_sys s)) (qc_stream s) (qc_error s))).
  destruct (m _) as [o s1]; simpl in Hm. specialize (Hm ltac:(done)).
  destruct o; [destruct Hm as (H1 & H2 & H3); split; [done|]; split; simpl; [|done]..|].
  - rewrite H2. by apply lock_unlock.
  - rewrite H2. by apply lock_unlock.
  - destruct Hm as (H1 & H2 & H3). split_and!; [done|simpl in *; set_solver|done].
Qed.

Lemma guarded_error_text o l c r : guarded o l (exec_error_text c r).
Proof.
  unfold exec_error_text. destruct r; [apply stays_ret|]. apply guarded_frame, frame_ErrorMessage.
Qed.
#[local] Hint Resolve guarded_set_error guarded_stream_get guarded_error_text : mtdd.

Ltac guarded_walk :=
  repeat first
    [ solve [eauto with mtdd]
    | by apply guarded_on_stream
    | apply guarded_frame; solve [auto with mtdd]
    | apply guarded_sysM; solve [auto with mtdd]
    | apply guarded_connection
    | apply guarded_the_connection; intros; subst
    | apply guarded_with_lock
    | apply stays_bind; [|intros]
    | case_match; simplify_eq ].

Lemma guarded_EndTransaction o l b : guarded o l (EndTransaction b).
Proof. unfold EndTransaction, set_error_if_empty. guarded_walk. Qed.
Lemma guarded_CloseCursor o l : guarded o l CloseCursor.
Proof. unfold CloseCursor, set_error_if_empty. guarded_walk. Qed.
Lemma guarded_drop_immediate o l : guarded o l drop_immediate.
Proof. unfold drop_immediate. guarded_walk. Qed.
Lemma guarded_clear o l r : guarded o l (sysM (pg_clear r)).
Proof. guarded_walk. Qed.
#[local] Hint Resolve guarded_EndTransaction guarded_CloseCursor guarded_drop_immediate : mtdd.
Lemma guarded_FetchCursor o l : guarded o l FetchCursor.
Proof. unfold FetchCursor. guarded_walk. Qed.
#[local] Hint Resolve guarded_FetchCursor : mtdd.
Lemma guarded_Fetch o l : guarded o l Fetch.
Proof. unfold Fetch. guarded_walk. Qed.
Lemma guarded_OpenCursor o l r : guarded o l (OpenCursor r).
Proof. unfold OpenCursor, BeginIfNeeded. guarded_walk. Qed.
Lemma guarded_ExecuteImmediate o l r : guarded o l (ExecuteImmediate r).
Proof. unfold ExecuteImmediate. guarded_walk. Qed.

(** What gives the connection up, or takes one. *)
Definition settled (l : gset nat) (s : QCall) : Prop := still l (qc_sys s).
Definition stopped (l : gset nat) (s : QCall) : Prop := waiting (connection_ (qc_stream s)) l s.

#[local] Abbreviation scoped l m := (stays (settled l) (stopped l) m).

Lemma settled_stopped l s : settled l s → stopped l s.
Proof. intros Hs. by apply held_waiting. Qed.

Lemma scoped_guarded {A} l (m : M QCall A) : (∀ o, guarded o l m) → scoped l m.
Proof.
  intros Hm s Hs. specialize (Hm (connection_ (qc_stream s)) s ltac:(done)).
  destruct (m s) as [[]]; [apply Hm..|]. destruct Hm as (Hc & Hl & Hn). unfold stopped. by rewrite Hc.
Qed.
Lemma scoped_sysM {A} l (m : M Sys A) : keeps (still l) m → scoped l (sysM m).
Proof. intros Hm. apply scoped_guarded. intros o. by apply guarded_sysM. Qed.
Lemma scoped_on_stream l f : scoped l (on_stream f).
Proof. by apply stays_modify. Qed.
Lemma scoped_set_error l e : scoped l (set_error e).
Proof. by intros s. Qed.
Lemma scoped_stream_get {A} l (f : StreamingQuery → A) : scoped l (stream_get f).
Proof. by intros s. Qed.
#[local] Hint Resolve scoped_on_stream scoped_set_error scoped_stream_get : mtdd.
#[local] Hint Resolve guarded_Fetch guarded_OpenCursor guarded_ExecuteImmediate : mtdd.

Ltac scoped_walk :=
  repeat first
    [ solve [eauto with mtdd]
    | apply scoped_sysM; solve [auto with mtdd]
    | apply scoped_guarded; intros; solve [auto with mtdd]
    | apply stays_bind; [|intros]
    | case_match ].

Lemma scoped_clear l r : scoped l (sysM (pg_clear r)).
Proof. apply scoped_guarded. intros o. apply guarded_clear. Qed.
Lemma scoped_Fetch l : scoped l Fetch.
Proof. scoped_walk. Qed.
Lemma scoped_ReleaseConnection l b : scoped l (ReleaseConnection b).
Proof. unfold ReleaseConnection. scoped_walk. Qed.
#[local] Hint Resolve scoped_ReleaseConnection : mtdd.
Lemma scoped_destroy l : scoped l destroy_StreamingQuery.
Proof. unfold destroy_StreamingQuery. scoped_walk. Qed.
Lemma scoped_Open l r : scoped l (Open r).
Proof. unfold Open, AcquireConnection. scoped_walk. Qed.
Lemma scoped_Close l : scoped l Close.
Proof. unfold Close. scoped_walk. Qed.
Lemma scoped_Abort l : scoped l Abort.
Proof.
  intros s Hs. unfold Abort, ignoring_errors.
  match goal with |- context [?m (mkQCall _ _ _)] => assert (Hm : scoped l m) by scoped_walk end.
  specialize (Hm (mkQCall (qc_sys s) (qc_stream s) "") Hs).
  match goal with |- context [?m (mkQCall _ _ _)] => by destruct (m (mkQCall _ _ _)) as [[]] end.
Qed.
End Query.

(** ** The calls *)

Section Mutexes.
Context `{L : Libpq, FB : !FlexBuffers} (config_ : ServerConfig).

(** A phase leaves the mutexes as they were, or stops with its own locked. *)
Lemma phase_step_locks cancelled write_ok wire request p l :
  stays (on_handler (settled l)) (on_handler (stopped l))
    (phase_step cancelled write_ok wire request p).
Proof.
  destruct (leaving_or p) as [[st ->]|Hl]; [by apply leaving_stays, scoped_destroy|].
  destruct (decide (p = Opening)) as [->|Hp].
  - intros h Hh. cbn [phase_step]. unfold m_bind at 1, on_call, zoom.
    pose proof (scoped_Open l request (hd_call h) Hh) as Ho.
    by destruct (Open request (hd_call h)) as [[[]|e|w] s1].
  - apply phase_step_stays; auto using settled_stopped, scoped_Fetch, scoped_Close, scoped_Abort, scoped_clear.
Qed.

(** The call [q] does not come back, and [a] is its connection. *)
Definition hung_on (a : nat) (q : QueryCall) : Prop :=
  (∃ w, qk_phase q = Hung w) ∧ ∃ d, connection_ (stream_of q) = Some d ∧ pq_addr d = a.

Record mutexes (v : Running) : Prop := {
  mx_hung a : a ∈ sy_locked (sh_sys (rn_shard v)) → ∃ j q, rn_queries v !! j = Some q ∧ hung_on a q;
  mx_cursor : 0 ≤ sy_cursor (sh_sys (rn_shard v));
}.

(** The calls that hung stay where they are. *)
Lemma hung_elsewhere (qs : list QueryCall) (i : nat) q q' a :
  qs !! i = Some q → (∀ w, qk_phase q ≠ Hung w) →
  (∃ j q0, qs !! j = Some q0 ∧ hung_on a q0) → ∃ j q0, <[i := q']> qs !! j = Some q0 ∧ hung_on a q0.
Proof.
  intros Hi Hq (j & q0 & Hj & Hh). exists j, q0. split; [|done].
  rewrite list_lookup_insert_ne; [done|]. intros <-. destruct Hh as [[w Hw] _].
  apply (Hq w). congruence.
Qed.
Lemma active_not_hung p w : active p = true → p ≠ Hung w.
Proof. by intros Ha ->. Qed.

Lemma mutexes_outside sh sh' qs cs cs' :
  still (sy_locked (sh_sys sh)) (sh_sys sh') → mutexes (mkRunning sh qs cs) →
  mutexes (mkRunning sh' qs cs').
Proof. intros [Hl Hc] [Hm _]. split; simpl in *; [by rewrite Hl|done]. Qed.

Lemma mutexes_query sh qs cs i q o h p :
  mutexes (mkRunning sh qs cs) → qs !! i = Some q → active (qk_phase q) = true →
  query_run config_ q sh = (o, h) → (∀ w, o = Stuck w → p = Hung w) →
  mutexes (mkRunning (put_sys (qc_sys (hd_call h)) sh) (<[i := advance h p q]> qs) cs).
Proof.
  intros [Hm Hc] Hi Ha E Ho. simpl in *.
  pose proof (phase_step_locks (qk_cancelled q) (qk_write_ok q) (wire_rows config_) (qk_request q)
    (qk_phase q) (sy_locked (sh_sys sh)) (attach (sh_sys sh) (qk_local q)) ltac:(done)) as Hs.
  unfold query_run in E. rewrite E in Hs.
  assert (Hold : ∀ a, a ∈ sy_locked (sh_sys sh) →
    ∃ j q0, <[i := advance h p q]> qs !! j = Some q0 ∧ hung_on a q0).
  { intros a Hin. eapply hung_elsewhere; [done|intros w; by apply active_not_hung|by apply Hm]. }
  destruct o as [p'|e|w]; [destruct Hs as [Hl Hn]; split; simpl; [by rewrite Hl|done]..|].
  destruct Hs as (_ & Hl & Hn). split; simpl; [|done]. intros a [Hin|Hin]%Hl%elem_of_union; [by apply Hold|].
  exists i, (advance h p q). split; [by eapply list_lookup_insert_eq, lookup_lt_Some|].
  split; [exists w; by apply Ho|]. simpl. unfold own_mutex in Hin. unfold stream_of. simpl.
  destruct (connection_ _) as [d|]; [|set_solver]. exists d. split; [done|set_solver].
Qed.

(** A call that was not hung changes its phase only. *)
Lemma mutexes_rephase sh qs cs i q p :
  qs !! i = Some q → (∀ w, qk_phase q ≠ Hung w) → mutexes (mkRunning sh qs cs) →
  mutexes (mkRunning sh (<[i := advance (qk_local q) p q]> qs) cs).
Proof.
  intros Hi Hq [Hm Hc]. split; simpl in *; [|done]. intros a Hin%Hm. by eapply hung_elsewhere.
Qed.

Lemma mutexes_move v v' : move config_ v v' → mutexes v → mutexes v'.
Proof.
  destruct 1 as [sh sh' qs cs cancelled write_ok request r E|sh qs cs i q p h Hi Ha E
    |sh qs cs i q w h Hi Ha E Hw|sh qs cs i q h Hi Hp E|sh sh' qs cs i q st ms Hi Hp E|sh qs cs request
    |sh sh' qs cs i request p p' ms Hi E|sh sh' qs cs request r E|sh sh' qs cs E]; intros Hs;
    try assert (Hy : still (sy_locked (sh_sys sh)) (sh_sys sh)) by (split; [done|apply Hs]).
  - pose proof (admit_outside config_ _ request sh Hy) as Ho. rewrite E in Ho.
    apply (mutexes_outside _ _ _ _ cs Ho) in Hs as [Hm Hc]. split; simpl in *; [|done].
    intros a (j & q & Hj & Hq)%Hm. exists j, q. split; [by apply lookup_app_l_Some|done].
  - by eapply mutexes_query.
  - eapply mutexes_query; [done..|]. by intros w' [= ->].
  - apply mutexes_rephase; [done|intros w; by rewrite Hp|done].
  - pose proof (timer_outside _ "query_stream" ms sh Hy) as Ho. rewrite E in Ho.
    apply mutexes_rephase; [done|intros w; by rewrite Hp|]. exact (mutexes_outside _ _ _ cs cs Ho Hs).
  - by apply (mutexes_outside sh _ _ cs).
  - eapply mutexes_outside; [|exact Hs].
    pose proof (connect_step_outside config_ _ (still_Configure _) (still_Connect _) (still_probe _)
      request ms p sh Hy) as Ho. by rewrite E in Ho.
  - eapply mutexes_outside; [|exact Hs].
    pose proof (Disconnect_outside config_ _ request sh Hy) as Ho. by rewrite E in Ho.
  - eapply mutexes_outside; [|exact Hs].
    pose proof (probe_outside _ (still_probe _) sh Hy) as Ho. by rewrite E in Ho.
Qed.

Lemma mutexes_reachable mon w cerr v :
  rtc (step config_) (started config_ mon w cerr) v → mutexes v.
Proof.
  apply run_kept; [apply mutexes_move| |by split; [set_solver|]].
  intros sh qs cs i q Hi Hq. apply mutexes_rephase; [done|]. intros why. by rewrite Hq.
Qed.

(** ** What is free *)

Context `{HL : !HandleLog L}.

(** An idle connection is held by no call. *)
Lemma idle_unreferenced R P (y : Sys) c : safe R P y → c ∈ idle_ (sy_pool y) → c ∉ R.
Proof.
  intros [_ (Q & HQ & Hq) _ Hd _] Hc Hr. rewrite HQ in Hr. apply elem_of_app in Hr as [Hp|Hr].
  - rewrite fmap_app in Hd. apply NoDup_app in Hd as (_ & Hd & _). apply (Hd (pq_addr c)).
    + by apply list_elem_of_fmap_2.
    + apply list_elem_of_fmap_2, elem_of_app. by left.
  - apply (Hq c Hr), elem_of_app. by right.
Qed.

Lemma call_ref v j q d :
  rn_queries v !! j = Some q → connection_ (stream_of q) = Some d → d ∈ refs_of (streams v).
Proof.
  intros Hj Hd. unfold refs_of, streams. apply list_elem_of_omap. exists (stream_of q). split; [|done].
  by eapply list_elem_of_fmap_2, list_elem_of_lookup_2.
Qed.

(** A locked mutex is that of the very connection of a call that hung. *)
Lemma locked_by_hung v c :
  running_safe v → mutexes v → c ∈ owners (sh_sys (rn_shard v)) →
  pq_addr c ∈ sy_locked (sh_sys (rn_shard v)) →
  ∃ j q w, rn_queries v !! j = Some q ∧ qk_phase q = Hung w ∧ connection_ (stream_of q) = Some c.
Proof.
  intros [Hs _] [Hm _] Hc Hin. destruct (Hm _ Hin) as (j & q & Hj & [w Hw] & d & Hd & E).
  assert (d = c) as ->; [|by exists j, q, w].
  eapply handles_inj; [apply Hs| |exact Hc|exact E]. simpl. unfold owners.
  rewrite (sf_refs _ _ _ Hs). apply elem_of_app. left. by eapply call_ref.
Qed.

Lemma idle_unlocked v c :
  running_safe v → mutexes v → c ∈ idle_ (sy_pool (sh_sys (rn_shard v))) →
  pq_addr c ∉ sy_locked (sh_sys (rn_shard v)).
Proof.
  intros Hs Hm Hc Hin. destruct (locked_by_hung v c Hs Hm) as (j & q & w & Hj & _ & Hd); [|done|].
  { unfold owners. set_solver. }
  eapply idle_unreferenced; [apply Hs|exact Hc|]. by eapply call_ref.
Qed.

(** C14: the mutexes of the connections. However the calls interleave and whatever
    the server answers, a connection of the service whose mutex is locked
    between two phases is that of a call that hung: so no idle connection is
    locked, and neither is the pooled connection of a call that did not hang. *)
Theorem calls_mutexes mon w cerr v :
  max_sessions config_ ≤ INT_MAX → open_handles w = [] → ¬ misused w →
  rtc (step config_) (started config_ mon w cerr) v →
  let locked := sy_locked (sh_sys (rn_shard v)) in
  (∀ a, a ∈ locked → ∃ j q why d, rn_queries v !! j = Some q ∧ qk_phase q = Hung why
     ∧ connection_ (stream_of q) = Some d ∧ pq_addr d = a)
  ∧ (∀ c, c ∈ idle_ (pool_of (rn_shard v)) → pq_addr c ∉ locked)
  ∧ ∀ i q c, rn_queries v !! i = Some q → (∀ why, qk_phase q ≠ Hung why) →
      connection_ (stream_of q) = Some c → pooled_ (stream_of q) = true → pq_addr c ∉ locked.
Proof.
  intros Hx Ho Hw Hr locked. pose proof (running_safe_reachable config_ mon w cerr v Hx Ho Hw Hr) as Hs.
  pose proof (mutexes_reachable mon w cerr v Hr) as Hm. split_and!.
  - intros a (j & q & Hj & [why Hy] & d & Hd & E)%Hm. by exists j, q, why, d.
  - intros c Hc. by apply idle_unlocked.
  - intros i q c Hi Hn Hc Hp Hin.
    destruct (locked_by_hung v c Hs Hm) as (j & q' & why & Hj & Hy & Hd); [|done|].
    { unfold owners. rewrite (sf_refs _ _ _ (rs_safe _ Hs)). apply elem_of_app. left. by eapply call_ref. }
    destruct (decide (i = j)) as [<-|Hne]; [apply (Hn why); congruence|].
    by eapply (pooled_exclusive v i j q q' c (rs_safe _ Hs)).
Qed.
End Mutexes.
