(* ===== verification/World.v ===== *)
(** * What every libpq call keeps

    A property of libpq and the server that each libpq call keeps, on whatever
    handle, holds throughout every run of the service. It is used for the
    handles themselves: as long as [PQconnectdb] returns a new object and
    [PQfinish] frees one, the open handles are all different. *)
From S2P Require Import Prelude CppStd Log Config Grpc Libpq Rpgb FlexMeta QueryMeta PgState PqConn.
From S2P Require Import Pool Sessions Streaming Handles QueryExecutor Health Queries ShardService.
From S2P Require Import Lift ShardSafety ShardSlots Service Delivery Calls CallsInv.
Local Open Scope Z_scope.
Local Open Scope cpp_scope.

Record stable {L : Libpq} (I : pgworld → Prop) : Prop := {
  sb_connect conninfo w : I w → I (PQconnectdb conninfo w).2;
  sb_exec raw sql w : I w → I (PQexec raw sql w).2;
  sb_execParams raw sql ps fmt w : I w → I (PQexecParams raw sql ps fmt w).2;
  sb_finish raw w : I w → I (PQfinish raw w);
  sb_clear r w : I w → I (PQclear r w);
}.

Section World.
Context `{L : Libpq} (I : pgworld → Prop) (HI : stable I).

Definition on_world (y : Sys) : Prop := I (sy_pg y).
#[local] Abbreviation kept m := (keeps on_world m).

(** ** The database part *)

Lemma world_call {A} (f : pgworld → A * pgworld) : (∀ w, I w → I (f w).2) → kept (pg_call f).
Proof. intros Hf y Hy. unfold pg_call. specialize (Hf _ Hy). by destruct (f (sy_pg y)). Qed.
Lemma world_finish raw : kept (pg_do (PQfinish raw)).
Proof. intros y. apply (sb_finish _ HI). Qed.
Lemma world_clear r : kept (pg_clear r).
Proof. destruct r; [|by intros y]. intros y. apply (sb_clear _ HI). Qed.
Lemma world_read {A} (f : pgworld → A) : kept (pg_read f).
Proof. by intros y. Qed.
Lemma world_modify f : (∀ y, sy_pg (f y) = sy_pg y) → kept (modify f).
Proof. intros Hf. apply keeps_modify. intros y. unfold on_world. by rewrite Hf. Qed.
Lemma world_exec c sql : kept (conn_exec c sql).
Proof. unfold conn_exec. case_match; [|by intros y]. apply world_call. intros w. apply (sb_exec _ HI). Qed.
Lemma world_execParams c sql ps fmt : kept (conn_execParams c sql ps fmt).
Proof.
  unfold conn_execParams. case_match; [|by intros y]. apply world_call. intros w. apply (sb_execParams _ HI).
Qed.
Lemma world_status c : kept (conn_transactionStatus c).
Proof. unfold conn_transactionStatus. case_match; by intros y. Qed.
Lemma world_destroy c : kept (destroy_if_unowned c).
Proof.
  intros y Hy. unfold destroy_if_unowned. repeat case_match; [done|by apply world_finish|done].
Qed.
#[local] Hint Resolve world_finish world_clear world_read world_exec world_execParams world_status
  world_destroy : mtdd.

Ltac world_walk :=
  repeat first
    [ solve [eauto with mtdd]
    | by apply world_modify
    | apply world_call; intros; solve [by apply (sb_exec _ HI)|by apply (sb_connect _ HI)]
    | apply keeps_bind; [|intros]
    | case_match ].

Lemma world_connected params ms : kept (PqConnection_Connect params ms).
Proof. unfold PqConnection_Connect, ApplyStatementTimeout. world_walk. Qed.
Lemma world_healthy c : kept (IsHealthy c).
Proof. unfold IsHealthy. world_walk. Qed.
Lemma world_message c : kept (ErrorMessage c).
Proof. unfold ErrorMessage. world_walk. Qed.
#[local] Hint Resolve world_connected world_healthy world_message : mtdd.
Lemma world_take_ref c : kept (take_ref c).
Proof. by apply world_modify. Qed.
Lemma world_drop_ref c : kept (drop_ref c).
Proof. unfold drop_ref. world_walk. Qed.
Lemma world_on_pool f : kept (on_pool f).
Proof. by apply world_modify. Qed.
#[local] Hint Resolve world_take_ref world_drop_ref world_on_pool : mtdd.
Lemma world_Configure params size : kept (Configure params size).
Proof. apply world_on_pool. Qed.
Lemma world_Connect : kept Pool.Connect.
Proof. unfold Pool.Connect. world_walk. Qed.
Lemma world_probe params ms : kept (probe_connection params ms).
Proof. unfold probe_connection. world_walk. Qed.
Lemma world_Acquire : kept Acquire.
Proof. unfold Acquire, CreateConnection. world_walk. Qed.
Lemma world_Release c b : kept (Release c b).
Proof. unfold Release. world_walk. Qed.
Lemma world_GetOrCreate sid params : kept (GetOrCreate sid params).
Proof. unfold GetOrCreate, create_session, erase_session. world_walk. Qed.
Lemma world_NextCursorName : kept NextCursorName.
Proof. unfold NextCursorName. world_walk. Qed.
#[local] Hint Resolve world_Acquire world_Release world_GetOrCreate world_NextCursorName : mtdd.

(** ** The streaming query *)

Definition query_world (s : QCall) : Prop := I (sy_pg (qc_sys s)).
#[local] Abbreviation qkept m := (keeps query_world m).

Lemma qworld_sysM {A} (m : M Sys A) : kept m → qkept (sysM m).
Proof. intros Hm s Hs. specialize (Hm _ Hs). unfold sysM, zoom. simpl. by destruct (m (qc_sys s)). Qed.
Lemma qworld_with_lock {A} c (m : M QCall A) : qkept m → qkept (with_lock c m).
Proof.
  intros Hm s Hs. unfold with_lock. case_bool_decide; [done|].
  specialize (Hm (put_sys (set_locked ({[pq_addr c]} ∪ sy_locked (the_sys s)) (the_sys s)) s) Hs).
  by destruct (m _) as [[]].
Qed.
Lemma qworld_on_stream f : qkept (on_stream f).
Proof. by apply keeps_modify. Qed.
Lemma qworld_set_error e : qkept (set_error e).
Proof. by apply keeps_modify. Qed.
Lemma qworld_stream_get {A} (f : StreamingQuery → A) : qkept (stream_get f).
Proof. by intros s. Qed.
#[local] Hint Resolve qworld_on_stream qworld_set_error qworld_stream_get : mtdd.

Ltac qworld_walk :=
  repeat first
    [ solve [eauto with mtdd]
    | apply qworld_sysM; solve [auto with mtdd]
    | apply qworld_with_lock
    | apply keeps_bind; [|intros]
    | case_match ].

Lemma qworld_the_connection : qkept the_connection.
Proof. unfold the_connection. qworld_walk. Qed.
Lemma qworld_EndTransaction b : qkept (EndTransaction b).
Proof. unfold EndTransaction, set_error_if_empty. qworld_walk. Qed.
Lemma qworld_CloseCursor : qkept CloseCursor.
Proof. unfold CloseCursor, set_error_if_empty. qworld_walk. Qed.
Lemma qworld_ReleaseConnection b : qkept (ReleaseConnection b).
Proof. unfold ReleaseConnection. qworld_walk. Qed.
Lemma qworld_drop_immediate : qkept drop_immediate.
Proof. unfold drop_immediate. qworld_walk. Qed.
#[local] Hint Resolve qworld_the_connection qworld_EndTransaction qworld_CloseCursor
  qworld_ReleaseConnection qworld_drop_immediate : mtdd.
Lemma qworld_Fetch : qkept Fetch.
Proof. unfold Fetch, FetchCursor, exec_error_text. qworld_walk. Qed.
Lemma qworld_Open r : qkept (Open r).
Proof.
  unfold Open, AcquireConnection, OpenCursor, BeginIfNeeded, ExecuteImmediate, exec_error_text. qworld_walk.
Qed.
Lemma qworld_Close : qkept Close.
Proof. unfold Close. qworld_walk. Qed.
Lemma qworld_Abort : qkept Abort.
Proof.
  intros s Hs. unfold Abort, ignoring_errors.
  match goal with |- context [?m (mkQCall _ _ _)] => assert (Hm : qkept m) by qworld_walk end.
  specialize (Hm (mkQCall (qc_sys s) (qc_stream s) "") Hs).
  match goal with |- context [?m (mkQCall _ _ _)] => by destruct (m (mkQCall _ _ _)) end.
Qed.
Lemma qworld_destroy : qkept destroy_StreamingQuery.
Proof. unfold destroy_StreamingQuery. qworld_walk. Qed.
Lemma qworld_clear r : qkept (sysM (pg_clear r)).
Proof. qworld_walk. Qed.
End World.

(** ** The calls *)

Section Reachable.
Context `{L : Libpq, FB : !FlexBuffers} (config_ : ServerConfig) (I : pgworld → Prop) (HI : stable I).

Lemma phase_step_world cancelled write_ok wire request p :
  keeps (on_handler (query_world I)) (phase_step cancelled write_ok wire request p).
Proof.
  destruct (leaving_or p) as [[st ->]|Hl]; [by apply leaving_keeps, qworld_destroy|].
  destruct (decide (p = Opening)) as [->|Hp].
  - intros h Hh. by apply opening_keeps, qworld_Open.
  - apply phase_step_keeps; auto using qworld_Fetch, qworld_Close, qworld_Abort, qworld_clear.
Qed.

Definition running_world (v : Running) : Prop := I (sy_pg (sh_sys (rn_shard v))).

Lemma running_world_move v v' : move config_ v v' → running_world v → running_world v'.
Proof.
  assert (Hq : ∀ q sh, on_world I (sh_sys sh) → query_world I (hd_call (snd (query_run config_ q sh)))).
  { intros q sh Hs. by apply phase_step_world. }
  destruct 1 as [sh sh' qs cs cancelled write_ok request r E|sh qs cs i q p h Hi Ha E
    |sh qs cs i q w h Hi Ha E Hw|sh qs cs i q h Hi Hp E|sh sh' qs cs i q st ms Hi Hp E|sh qs cs request
    |sh sh' qs cs i request p p' ms Hi E|sh sh' qs cs request r E|sh sh' qs cs E]; intros Hs.
  - pose proof (admit_outside config_ (on_world I) request sh Hs) as Ho. by rewrite E in Ho.
  - specialize (Hq q sh Hs). by rewrite E in Hq.
  - specialize (Hq q sh Hs). by rewrite E in Hq.
  - done.
  - pose proof (timer_outside (on_world I) "query_stream" ms sh Hs) as Ho. by rewrite E in Ho.
  - done.
  - pose proof (connect_step_outside config_ (on_world I) (world_Configure I) (world_Connect I HI)
      (world_probe I HI) request ms p sh Hs) as Ho. by rewrite E in Ho.
  - pose proof (Disconnect_outside config_ (on_world I) request sh Hs) as Ho. by rewrite E in Ho.
  - pose proof (probe_outside (on_world I) (world_probe I HI) sh Hs) as Ho. by rewrite E in Ho.
Qed.

Lemma running_world_reachable mon w cerr v :
  I w → rtc (step config_) (started config_ mon w cerr) v → running_world v.
Proof. intros Hw. by apply run_kept; [apply running_world_move|..]. Qed.
End Reachable.

(** ** Distinct handles *)

(** libpq never returns a handle that is still open. *)
Class DistinctHandles (L : Libpq) `{HL : !HandleLog L} := {
  distinct : pgworld → Prop;
  distinct_stable : stable distinct;
  distinct_nodup w : distinct w → NoDup (open_handles w);
}.
