(* ===== verification/ConcDelivery.v ===== *)
(** * Delivery among concurrent calls

    The end-to-end theorem of [EndToEnd], for a call that any number of other
    calls, [Connect]s, [Disconnect]s and probes interrupt: none of them touches
    its connection, so it delivers its rows, and finishes by its own phases. *)
From S2P Require Import Prelude CppStd Log Config Grpc Libpq Rpgb FlexMeta QueryMeta PgState PqConn.
From S2P Require Import Pool Sessions Streaming Handles QueryExecutor Health Queries Client.
From S2P Require Import ShardService Lift ShardSafety ShardSlots Service Delivery EndToEnd Isolation.
From S2P Require Import Calls CallsInv Locks World.
Local Open Scope Z_scope.
Local Open Scope cpp_scope.

(** A cursor belongs to its connection: no call on another handle moves or closes
    it (the other clients run no statement that ends foreign sessions), and a
    new connection has a handle of its own. *)
Class CursorIsolation (L : Libpq) `{CS : !CursorServer L} : Prop :=
  cursor_about raw name fs rows : about raw (cursor_at raw name fs rows).

(** ** What the other calls leave alone *)

Section Undisturbed.
Context `{L : Libpq, FB : !FlexBuffers} (config_ : ServerConfig).
Context (c : PqConnection) (raw : pgconn) (i : nat).

(** The call [i] has [c] for itself, and [I] holds of its handle. *)
Record undisturbed (I : pgworld → Prop) (v : Running) : Prop := {
  ud_aside : aside c raw I (sh_sys (rn_shard v));
  ud_calls j q d : j ≠ i → rn_queries v !! j = Some q → connection_ (stream_of q) = Some d →
    apart c raw d;
}.

(** What the call itself does, once it has opened its query. *)
Inductive own_move (q : QueryCall) : relation Running :=
| own_run sh qs cs p h :
    active (qk_phase q) = true → query_run config_ q sh = (Ret p, h) →
    own_move q (mkRunning sh qs cs)
      (mkRunning (put_sys (qc_sys (hd_call h)) sh) (<[i := advance h p q]> qs) cs)
| own_hang sh qs cs w h :
    active (qk_phase q) = true → query_run config_ q sh = (Stuck w, h) →
    own_move q (mkRunning sh qs cs)
      (mkRunning (put_sys (qc_sys (hd_call h)) sh) (<[i := advance h (Hung w) q]> qs) cs)
| own_return sh sh' qs cs st ms :
    qk_phase q = Timing st → timer_end "query_stream" ms sh = (Ret tt, sh') →
    own_move q (mkRunning sh qs cs)
      (mkRunning sh' (<[i := advance (qk_local q) (Returned st) q]> qs) cs).

Section Others.
Context (I : pgworld → Prop) (HI : about raw I).

(** A phase of another call. *)
Lemma phase_step_other cancelled write_ok wire request p h :
  (p = Opening → connection_ (qc_stream (hd_call h)) = None) →
  on_handler (other_query c raw I) h →
  on_handler (other_query c raw I) (snd (phase_step cancelled write_ok wire request p h)).
Proof.
  intros Ho Hh. destruct (leaving_or p) as [[st ->]|Hl].
  { apply leaving_keeps; [|done]. intros s. by apply other_destroy. }
  destruct (decide (p = Opening)) as [->|Hp].
  - apply opening_keeps, other_Open; [done|apply Hh|by apply Ho].
  - apply phase_step_keeps; auto using keeps_other_Fetch, keeps_other_Close, keeps_other_Abort,
      keeps_other_clear.
Qed.

Lemma undisturbed_query sh qs cs j q o h p :
  undisturbed I (mkRunning sh qs cs) → Forall unopened qs → qs !! j = Some q → j ≠ i →
  query_run config_ q sh = (o, h) →
  undisturbed I (mkRunning (put_sys (qc_sys (hd_call h)) sh) (<[j := advance h p q]> qs) cs).
Proof.
  intros [Ha Hc] Hu Hj Hne E. simpl in *.
  assert (Hq : on_handler (other_query c raw I) h).
  { replace h with (snd (query_run config_ q sh)) by (by rewrite E). apply phase_step_other.
    - intros Ep. apply (Forall_lookup_1 _ _ _ _ Hu Hj). by rewrite Ep.
    - split; [done|]. split; [done|]. intros d Hd. by eapply Hc. }
  destruct Hq as (Hy & _ & Hd). split; [done|]. simpl. intros k q' d Hk. destruct (decide (k = j)) as [->|Hkj].
  - rewrite list_lookup_insert_eq by (by eapply lookup_lt_Some). intros [= <-]. apply Hd.
  - rewrite list_lookup_insert_ne by done. by apply Hc.
Qed.

(** A step outside the queries. *)
Lemma undisturbed_shard sh sh' qs cs cs' :
  undisturbed I (mkRunning sh qs cs) → aside c raw I (sh_sys sh') →
  undisturbed I (mkRunning sh' qs cs').
Proof. intros [_ Hc] Ha. by split. Qed.

(** A call that changes its phase only. *)
Lemma undisturbed_rephase sh sh' qs cs j q p :
  undisturbed I (mkRunning sh qs cs) → qs !! j = Some q → aside c raw I (sh_sys sh') →
  undisturbed I (mkRunning sh' (<[j := advance (qk_local q) p q]> qs) cs).
Proof.
  intros [_ Hc] Hj Ha. split; [done|]. simpl. intros k q' d Hk. destruct (decide (k = j)) as [->|Hkj].
  - rewrite list_lookup_insert_eq by (by eapply lookup_lt_Some). intros [= <-]. exact (Hc j q d Hk Hj).
  - rewrite list_lookup_insert_ne by done. by apply Hc.
Qed.

Lemma undisturbed_begin sh sh' qs cs request cancelled write_ok r :
  undisturbed I (mkRunning sh qs cs) → aside c raw I (sh_sys sh') →
  undisturbed I (mkRunning sh'
    (qs ++ [begin_query config_ cancelled write_ok request (sh_sys sh') r]) cs).
Proof.
  intros [_ Hc] Ha. split; [done|]. simpl. intros k q' d Hk [Hq|[_ Hq]]%lookup_app_Some; [by eapply Hc|].
  apply list_lookup_singleton_Some in Hq as [_ <-]. by destruct r.
Qed.
End Others.

(** A thread's step is one of the call's, or leaves it undisturbed. *)
Lemma move_own_or_other v v' q :
  move config_ v v' → rn_queries v !! i = Some q → before_open (qk_phase q) = false →
  own_move q v v'
  ∨ rn_queries v' !! i = Some q
    ∧ ∀ I, about raw I → Forall unopened (rn_queries v) → undisturbed I v → undisturbed I v'.
Proof.
  destruct 1 as [sh sh' qs cs cancelled write_ok request r E|sh qs cs j qj p h Hj Ha E
    |sh qs cs j qj w h Hj Ha E Hw|sh qs cs j qj h Hj Hp E|sh sh' qs cs j qj st ms Hj Hp E|sh qs cs request
    |sh sh' qs cs j request p p' ms Hj E|sh sh' qs cs request r E|sh sh' qs cs E]; simpl; intros Hi Hb.
  - right. split; [by apply lookup_app_l_Some|]. intros I HI _ Hd. apply (undisturbed_begin I sh); [done|].
    pose proof (admit_outside config_ (aside c raw I) request sh (ud_aside _ _ Hd)) as Ho. by rewrite E in Ho.
  - destruct (decide (j = i)) as [->|Hne]; [left|right].
    + assert (qj = q) as -> by congruence. by apply own_run.
    + split; [by rewrite list_lookup_insert_ne|]. intros I HI Hu Hd. by eapply undisturbed_query.
  - destruct (decide (j = i)) as [->|Hne]; [left|right].
    + assert (qj = q) as -> by congruence. by apply own_hang.
    + split; [by rewrite list_lookup_insert_ne|]. intros I HI Hu Hd. by eapply undisturbed_query.
  - assert (Hne : j ≠ i). { intros ->. rewrite Hi in Hj. injection Hj as <-. by rewrite Hp in Hb. }
    right. split; [by rewrite list_lookup_insert_ne|]. intros I HI Hu Hd.
    by eapply undisturbed_rephase; [done..|apply Hd].
  - destruct (decide (j = i)) as [->|Hne]; [left|right].
    + assert (qj = q) as -> by congruence. by eapply own_return.
    + split; [by rewrite list_lookup_insert_ne|]. intros I HI Hu Hd. eapply undisturbed_rephase; [done..|].
      pose proof (timer_outside (aside c raw I) "query_stream" ms sh (ud_aside _ _ Hd)) as Ho.
      by rewrite E in Ho.
  - right. split; [done|]. intros I HI _ Hd. by apply (undisturbed_shard I sh _ _ cs); [|apply Hd].
  - right. split; [done|]. intros I HI _ Hd. apply (undisturbed_shard I sh _ _ cs); [done|].
    pose proof (connect_step_outside config_ _ (aside_Configure c raw I) (aside_pool_Connect c raw I HI)
      (aside_probe c raw I HI) request ms p sh (ud_aside _ _ Hd)) as Ho. by rewrite E in Ho.
  - right. split; [done|]. intros I HI _ Hd. apply (undisturbed_shard I sh _ _ cs); [done|].
    pose proof (Disconnect_outside config_ (aside c raw I) request sh (ud_aside _ _ Hd)) as Ho.
    by rewrite E in Ho.
  - right. split; [done|]. intros I HI _ Hd. apply (undisturbed_shard I sh _ _ cs); [done|].
    pose proof (probe_outside _ (aside_probe c raw I HI) sh (ud_aside _ _ Hd)) as Ho. by rewrite E in Ho.
Qed.
End Undisturbed.

(** The calls other than [i] stand still, except that sleeping ones may have been
    woken. *)
Definition others_wait `{L : Libpq} (i : nat) (qs qs' : list QueryCall) : Prop :=
  length qs' = length qs
  ∧ ∀ j q, j ≠ i → qs !! j = Some q →
      qs' !! j = Some q ∨ qk_phase q = Asleep ∧ qs' !! j = Some (advance (qk_local q) Opening q).

Lemma others_wait_trans `{L : Libpq} i qs1 qs2 qs3 :
  others_wait i qs1 qs2 → others_wait i qs2 qs3 → others_wait i qs1 qs3.
Proof.
  intros [L1 H1] [L2 H2]. split; [congruence|]. intros j q Hj Hq.
  destruct (H1 j q Hj Hq) as [H|[Hp H]]; [by apply H2|]. right. split; [done|].
  by destruct (H2 _ _ Hj H) as [|[]].
Qed.

Lemma woken_others `{L : Libpq} i q qs qs' : woken (<[i := q]> qs) qs' → others_wait i qs qs'.
Proof.
  intros [Hl Hw]. split; [by rewrite Hl, length_insert|]. intros j q' Hj Hq. apply Hw.
  by rewrite list_lookup_insert_ne.
Qed.

(** ** A call that comes to its end

    Whatever the others do, the call [i] never hangs, its status is OK and the
    client has [answer] once it has returned, and at any moment at most [bound]
    phases of its own bring it to its end, while the others wait. *)
Definition completes `{L : Libpq, FB : !FlexBuffers} (config_ : ServerConfig) {V : Type} (null : V)
    (decodePgCell : FieldInfo → string → string + V) (i : nat) (answer : string + PgResult V) (bound : nat)
    (v1 : Running) : Prop :=
  ∀ v2, rtc (step config_) v1 v2 →
    ∃ q2, rn_queries v2 !! i = Some q2 ∧ (∀ why, qk_phase q2 ≠ Hung why)
      ∧ (∀ st, qk_phase q2 = Returned st → st = Status_OK
           ∧ decodeQueryStreamToPgResult null decodePgCell (rpc_sent (hd_rpc (qk_local q2))) = answer)
      ∧ ∃ m v3 q3, (m ≤ bound)%nat ∧ nsteps (step config_) m v2 v3
          ∧ rn_queries v3 !! i = Some q3 ∧ qk_phase q3 = Returned Status_OK
          ∧ others_wait i (rn_queries v2) (rn_queries v3).

Section Measured.
Context `{L : Libpq, FB : !FlexBuffers} (config_ : ServerConfig).
Context {V : Type} (null : V) (decodePgCell : FieldInfo → string → string + V).
Context (c : PqConnection) (raw : pgconn) (i : nat) (answer : string + PgResult V).

(** Where the call is, with at most [k] phases of its own to go. *)
Context (At : QueryCall → Running → nat → Prop).
Hypothesis At_run : ∀ q sh qs cs k,
  qs !! i = Some q → At q (mkRunning sh qs cs) k → active (qk_phase q) = true →
  ∃ p h k', query_run config_ q sh = (Ret p, h) ∧ (k' < k)%nat
    ∧ At (advance h p q)
        (mkRunning (put_sys (qc_sys (hd_call h)) sh) (<[i := advance h p q]> qs) cs) k'.
Hypothesis At_rest : ∀ q v k,
  At q v k → active (qk_phase q) = false →
  qk_phase q = Timing Status_OK ∧ k = 1%nat
    ∧ (∀ v', At (advance (qk_local q) (Returned Status_OK) q) v' 0)
  ∨ qk_phase q = Returned Status_OK ∧ k = 0%nat ∧ ended null decodePgCell answer (qk_local q).
Hypothesis At_active : ∀ q v k, At q v k → active (qk_phase q) = true → (0 < k)%nat.
Hypothesis At_opened : ∀ q v k, At q v k → before_open (qk_phase q) = false.
Hypothesis At_other : ∀ q v v' k,
  (∀ I, about raw I → undisturbed c raw i I v → undisturbed c raw i I v') → At q v k → At q v' k.

Definition measured (k : nat) (v : Running) : Prop := ∃ q, rn_queries v !! i = Some q ∧ At q v k.

Lemma measured_insert k sh qs cs q :
  (i < length qs)%nat → At q (mkRunning sh (<[i := q]> qs) cs) k →
  measured k (mkRunning sh (<[i := q]> qs) cs).
Proof. intros Hi Hat. exists q. simpl. by rewrite list_lookup_insert_eq. Qed.

Lemma measured_move k v v' :
  move config_ v v' → Forall unopened (rn_queries v) → measured k v →
  ∃ k', (k' ≤ k)%nat ∧ measured k' v'.
Proof.
  intros Hst Hu (q & Hi & Hat). assert (Hlt := lookup_lt_Some _ _ _ Hi).
  destruct (move_own_or_other config_ c raw i v v' q Hst Hi (At_opened _ _ _ Hat)) as [Ho|[Hi' Ho]].
  - destruct Ho as [sh qs cs p h Ha E|sh qs cs w h Ha E|sh sh' qs cs st ms Hp E]; simpl in *.
    + destruct (At_run q sh qs cs k Hi Hat Ha) as (p' & h' & k' & E' & Hk & Hat').
      rewrite E in E'. injection E' as <- <-. exists k'. split; [lia|]. by apply measured_insert.
    + destruct (At_run q sh qs cs k Hi Hat Ha) as (p' & h' & k' & E' & _). by rewrite E in E'.
    + destruct (At_rest q _ k Hat) as [(Hp' & -> & Hd)|(Hp' & _)]; [by rewrite Hp| |congruence].
      rewrite Hp in Hp'. injection Hp' as ->. exists 0%nat. split; [lia|]. by apply measured_insert.
  - exists k. split; [done|]. exists q. split; [done|]. apply (At_other q v); [|done]. intros I HI. by apply Ho.
Qed.

(** Another call is woken. *)
Lemma measured_wake k sh qs cs j qj :
  qs !! j = Some qj → qk_phase qj = Asleep → measured k (mkRunning sh qs cs) →
  measured k (mkRunning sh (wake j qj qs) cs).
Proof.
  intros Hj Hp (q & Hi & Hat). exists q. simpl in *. pose proof (At_opened _ _ _ Hat) as Hb.
  assert (Hne : j ≠ i). { intros ->. rewrite Hi in Hj. injection Hj as <-. by rewrite Hp in Hb. }
  split; [unfold wake; by rewrite list_lookup_insert_ne|]. eapply At_other; [|exact Hat].
  intros I HI Hd. by eapply undisturbed_rephase; [done..|apply Hd].
Qed.

Lemma measured_wakes k sh qs cs n qs' :
  nsteps wakes n qs qs' → measured k (mkRunning sh qs cs) → measured k (mkRunning sh qs' cs).
Proof.
  induction 1 as [qs|n qs qs1 qs2 [->|(j & q & Hj & Hq & ->)]%wakes_inv _ IH]; [done|done|].
  intros Hk. by apply IH, measured_wake.
Qed.

Lemma measured_step k v v' :
  step config_ v v' → Forall unopened (rn_queries v) → measured k v →
  ∃ k', (k' ≤ k)%nat ∧ measured k' v'.
Proof.
  intros Hst Hu Hk. destruct Hst as [v sh qs cs qs' Hm Hn|sh qs cs j q Hj Hq].
  - destruct (measured_move k _ _ Hm Hu Hk) as (k' & Hle & Hk'). exists k'. split; [done|].
    by eapply measured_wakes.
  - exists k. split; [done|]. by apply measured_wake.
Qed.

(** A thread's step of the call, with its notifications. *)
Lemma measured_next k sh qs cs sh' q :
  move config_ (mkRunning sh qs cs) (mkRunning sh' (<[i := q]> qs) cs) →
  measured k (mkRunning sh' (<[i := q]> qs) cs) →
  ∃ v', step config_ (mkRunning sh qs cs) v' ∧ measured k v' ∧ others_wait i qs (rn_queries v')
    ∧ rn_queries v' !! i = <[i := q]> qs !! i.
Proof.
  intros Hm Hk. eexists. split; [eapply step_move; [exact Hm|apply notify_many]|]. simpl.
  pose proof (wakes_woken _ _ _ (notify_many (notified (pool_of sh) (pool_of sh')) (<[i := q]> qs))) as Hw.
  split; [eapply measured_wakes; [apply notify_many|done]|]. split; [by eapply woken_others|].
  destruct Hk as (q0 & Hi & Hat). simpl in Hi. rewrite Hi. eapply woken_awake; [exact Hw|done|].
  intros Hp. apply At_opened in Hat. by rewrite Hp in Hat.
Qed.

(** The call alone comes to its end. *)
Lemma measured_own k v :
  measured k v → k = 0%nat
  ∨ ∃ k' v', step config_ v v' ∧ (k' < k)%nat ∧ measured k' v'
      ∧ others_wait i (rn_queries v) (rn_queries v').
Proof.
  destruct v as [sh qs cs]. intros (q & Hi & Hat). assert (Hlt := lookup_lt_Some _ _ _ Hi). simpl in Hi, Hlt.
  destruct (active (qk_phase q)) eqn:Ha.
  - right. destruct (At_run q sh qs cs k Hi Hat Ha) as (p & h & k' & E & Hk & Hat').
    destruct (measured_next k' sh qs cs _ _ (move_query config_ sh qs cs i q p h Hi Ha E)) as (v' & Hs & Hm & Ho & _);
      [by apply measured_insert|]. by exists k', v'.
  - destruct (At_rest q _ k Hat Ha) as [(Hp & -> & Hd)|(_ & -> & _)]; [right|by left].
    destruct (same_but_log_timer "query_stream" 0 sh) as (sh' & Et & _).
    destruct (measured_next 0 sh qs cs _ _ (move_return config_ sh sh' qs cs i q _ 0 Hi Hp Et))
      as (v' & Hs & Hm & Ho & _); [by apply measured_insert|]. exists 0%nat, v'. split_and!; [done|lia|done..].
Qed.

Lemma measured_returns k v :
  measured k v →
  ∃ m v' q, (m ≤ k)%nat ∧ nsteps (step config_) m v v' ∧ rn_queries v' !! i = Some q
    ∧ qk_phase q = Returned Status_OK ∧ others_wait i (rn_queries v) (rn_queries v').
Proof.
  revert v. induction k as [k IH] using lt_wf_ind. intros v Hv.
  destruct (measured_own k v Hv) as [->|(k' & v1 & Hs & Hk & Hv1 & Hj)].
  - destruct Hv as (q & Hi & Hat). exists 0%nat, v, q.
    split_and!; [done|by constructor|done| |by split; [|left]].
    destruct (active (qk_phase q)) eqn:Ha; [apply At_active in Hat; [lia|done]|].
    by destruct (At_rest q v 0 Hat Ha) as [(_ & Hk & _)|(Hp & _)].
  - destruct (IH k' Hk v1 Hv1) as (m & v' & q & Hm & Hn & Hi & Hp & Hj').
    exists (S m), v', q. split_and!; [lia|by econstructor|done|done|]. by eapply others_wait_trans.
Qed.

Lemma measured_completes bound v1 :
  measured bound v1 → (∀ v, rtc (step config_) v1 v → Forall unopened (rn_queries v)) →
  completes config_ null decodePgCell i answer bound v1.
Proof.
  intros Hv Hu v2 Hr.
  assert (Hk : rtc (step config_) v1 v2 ∧ ∃ k, (k ≤ bound)%nat ∧ measured k v2).
  { eapply (rtc_invariant (step config_) (λ v, rtc (step config_) v1 v ∧ ∃ k, (k ≤ bound)%nat ∧ measured k v));
      [split; [apply rtc_refl|exists bound; split; [lia|done]]| |exact Hr].
    intros v v' Hs (Hv1 & k & Hk & Hm). split; [by eapply rtc_r|].
    destruct (measured_step k v v' Hs (Hu v Hv1) Hm) as (k' & Hk' & Hm'). exists k'. split; [lia|done]. }
  destruct Hk as (_ & k & Hk & Hm). destruct (measured_returns k v2 Hm) as (m & v3 & q3 & Hm3 & H3).
  destruct Hm as (q2 & Hi2 & Hat). exists q2. split; [done|]. split_and!.
  - intros why E. destruct (At_rest q2 v2 k Hat) as [(Hp & _)|(Hp & _)]; [by rewrite E|by rewrite E in Hp..].
  - intros st E. destruct (At_rest q2 v2 k Hat) as [(Hp & _)|(Hp & _ & Hd & _)]; [by rewrite E|by rewrite E in Hp|].
    split; [congruence|exact Hd].
  - exists m, v3, q3. split; [lia|done].
Qed.
End Measured.

(** ** A call that delivers *)

Section Delivering.
Context `{L : Libpq, FB : !FlexBuffers, PL : !PGResultLaws pgresult, CS : !CursorServer L}.
Context `{CI : !CursorIsolation L} (config_ : ServerConfig).
Context {V : Type} (null : V) (decodePgCell : FieldInfo → string → string + V).
Context (c : PqConnection) (raw : pgconn) (Hraw : pq_conn_ c = Some raw) (name : string).
Context (fs : list FieldInfo) (rows : list (list (option string))).
Context (Hz : sizes_ok config_ fs rows).
Context (i : nat).

#[local] Abbreviation n := (fetch_rows config_).
#[local] Abbreviation wire := (wire_rows config_).
#[local] Abbreviation all := (answer_object null decodePgCell fs <$> rows).
#[local] Abbreviation at_rows rest := (cursor_at raw name fs rest).

(** A client that reads everything. *)
Definition reading (q : QueryCall) : Prop :=
  (∀ j, qk_cancelled q j = false) ∧ ∀ j, qk_write_ok q j = true.

(** Where the call is, with at most [k] phases of its own to go. *)
Definition at_phase (q : QueryCall) (v : Running) (k : nat) : Prop :=
  let y := sh_sys (rn_shard v) in
  match qk_phase q with
  | Looping => ∃ rest,
      loop_at null decodePgCell c raw name fs n y rest all (attach y (qk_local q))
      ∧ undisturbed c raw i (at_rows rest) v
      ∧ k = (loop_size rest (qk_local q) + 3)%nat
  | Finishing =>
      loop_done null decodePgCell c raw name fs n y all (attach y (qk_local q))
      ∧ undisturbed c raw i (at_rows []) v ∧ k = 3%nat
  | Leaving st => st = Status_OK ∧ delivered null decodePgCell fs all (qk_local q) ∧ k = 2%nat
  | Timing st => st = Status_OK ∧ delivered null decodePgCell fs all (qk_local q) ∧ k = 1%nat
  | Returned st => st = Status_OK ∧ delivered null decodePgCell fs all (qk_local q) ∧ k = 0%nat
  | Opening | Asleep | Hung _ => False
  end.

#[local] Abbreviation delivering := (measured i (λ q v k, reading q ∧ at_phase q v k)).

(** The database side as another call left it. *)
Lemma cursor_state_attach y y' rest h :
  cursor_state c raw name fs n y rest h → pq_addr c ∉ sy_locked y' →
  cursor_at raw name fs rest (sy_pg y') → cursor_state c raw name fs n y' rest (attach y' h).
Proof. intros [] Hl Hr. split; try done. exists (sy_pg y'). symmetry. apply set_pg_same. Qed.

Lemma loop_state_attach y y' rest objs h :
  loop_state null decodePgCell c raw name fs n y rest objs h → pq_addr c ∉ sy_locked y' →
  cursor_at raw name fs rest (sy_pg y') →
  loop_state null decodePgCell c raw name fs n y' rest objs (attach y' h).
Proof. intros [] Hl Hr. split; try done. by eapply cursor_state_attach. Qed.

Lemma loop_at_attach y y' rest h :
  loop_at null decodePgCell c raw name fs n y rest all h → pq_addr c ∉ sy_locked y' →
  cursor_at raw name fs rest (sy_pg y') →
  loop_at null decodePgCell c raw name fs n y' rest all (attach y' h).
Proof. intros (objs & Hs & H) Hl Hr. exists objs. split; [by eapply loop_state_attach|done]. Qed.

Lemma loop_done_attach y y' h :
  loop_done null decodePgCell c raw name fs n y all h → pq_addr c ∉ sy_locked y' →
  cursor_at raw name fs [] (sy_pg y') →
  loop_done null decodePgCell c raw name fs n y' all (attach y' h).
Proof. intros (Hs & H) Hl Hr. split; [by eapply loop_state_attach|done]. Qed.

(** Steps of others. *)
Lemma at_phase_other q v v' k :
  (∀ rest, undisturbed c raw i (at_rows rest) v → undisturbed c raw i (at_rows rest) v') →
  at_phase q v k → at_phase q v' k.
Proof.
  intros Hd. unfold at_phase. destruct (qk_phase q); try done.
  - intros (rest & Hat & Hu & ->). apply Hd in Hu. exists rest. split; [|done].
    by apply (loop_at_attach _ _ _ _ Hat); apply Hu.
  - intros (Hat & Hu & ->). apply Hd in Hu. split; [|done]. by apply (loop_done_attach _ _ _ Hat); apply Hu.
Qed.

(** After a phase of the call that changed libpq's state only. *)
Lemma undisturbed_own rest rest' sh qs cs w q' :
  undisturbed c raw i (at_rows rest) (mkRunning sh qs cs) → cursor_at raw name fs rest' w →
  undisturbed c raw i (at_rows rest')
    (mkRunning (put_sys (set_pg w (sh_sys sh)) sh) (<[i := q']> qs) cs).
Proof.
  intros [[] Hc] Hr. split; [by split|]. simpl. intros j q d Hj. rewrite list_lookup_insert_ne by done.
  by apply Hc.
Qed.

Lemma loop_state_sys y rest objs h :
  loop_state null decodePgCell c raw name fs n y rest objs h →
  ∃ w, qc_sys (hd_call h) = set_pg w y ∧ cursor_at raw name fs rest w ∧ pq_addr c ∉ sy_locked y.
Proof.
  intros [[_ _ _ _ _ _ Hl Hr (w & E)] _ _ _ _]. exists w. by rewrite E in Hl, Hr.
Qed.

(** A phase of the call, from the head of its loop on. *)
Lemma at_phase_run q sh qs cs k :
  qs !! i = Some q → reading q → at_phase q (mkRunning sh qs cs) k →
  active (qk_phase q) = true →
  ∃ p h k', query_run config_ q sh = (Ret p, h) ∧ (k' < k)%nat
    ∧ at_phase (advance h p q)
        (mkRunning (put_sys (qc_sys (hd_call h)) sh) (<[i := advance h p q]> qs) cs) k'.
Proof.
  intros Hi [Hcan Hw] Hat Ha. pose proof (sizes_fetch _ _ _ Hz) as Hf. destruct Hz as [Z1 Z2 Z3 Z4 Z5].
  pose proof (wire_rows_pos config_) as Hwp. unfold at_phase in Hat. unfold query_run.
  assert (Hlen : Z.of_nat (length all) ≤ MAX_EXACT) by (by rewrite length_fmap).
  destruct (qk_phase q) eqn:Ep; try done; simpl in Hat; cbn [phase_step].
  - destruct Hat as (rest & Hat & Hu & ->). unfold catching, try_catch, m_bind.
    destruct (fetch_step_run (qk_cancelled q) (qk_write_ok q) null decodePgCell Hcan Hw c raw Hraw name
      fs n wire Z1 Z2 Hf Hwp Z4 Z5 (sh_sys sh) rest all _ Hat Hlen)
      as [(h' & rest' & -> & Hat' & Hlt)|(h' & -> & Hd)].
    + destruct (Hat') as (objs & Hs & Hrest). destruct (loop_state_sys _ _ _ _ Hs) as (w & Ew & Hr & Hl).
      exists Looping, h', (loop_size rest' h' + 3)%nat. split; [done|].
      split; [|exists rest'; split; [|split; [|reflexivity]]].
      * simpl in Hlt. unfold loop_size in *. simpl in *. lia.
      * simpl. apply (loop_at_attach _ _ _ _ Hat'); by rewrite Ew.
      * simpl. rewrite Ew. by eapply undisturbed_own.
    + destruct (Hd) as (Hs & Hrest). destruct (loop_state_sys _ _ _ _ Hs) as (w & Ew & Hr & Hl).
      exists Finishing, h', 3%nat. split; [done|]. split; [|split; [|split; [|reflexivity]]].
      * unfold loop_size. destruct (schema_open (qk_local q)); lia.
      * simpl. apply (loop_done_attach _ _ _ Hd); by rewrite Ew.
      * simpl. rewrite Ew. by eapply undisturbed_own.
  - destruct Hat as (Hat & _ & ->). unfold catching, try_catch, m_bind.
    destruct (loop_done_run (qk_cancelled q) (qk_write_ok q) null decodePgCell Hcan Hw c raw name fs n
      Z1 (sh_sys sh) all _ Hat Hlen) as (h' & -> & Hd).
    eexists _, h', 2%nat. split; [done|]. split; [lia|]. by split.
  - destruct Hat as (-> & Hd & ->). unfold m_bind.
    rewrite (destroy_ended null decodePgCell (inr (the_result fs all))) by done.
    eexists _, _, 1%nat. split; [done|]. split; [lia|]. by split.
Qed.

Lemma delivering_opened q v k : reading q ∧ at_phase q v k → before_open (qk_phase q) = false.
Proof. intros [_ Hat]. unfold at_phase in Hat. by destruct (qk_phase q). Qed.

Lemma delivering_other q v v' k :
  (∀ I, about raw I → undisturbed c raw i I v → undisturbed c raw i I v') →
  reading q ∧ at_phase q v k → reading q ∧ at_phase q v' k.
Proof.
  intros Hd [Hq Hat]. split; [done|]. eapply at_phase_other; [|exact Hat]. intros rest. apply Hd, cursor_about.
Qed.

Lemma delivering_completes v :
  delivering (length rows + 5)%nat v → (∀ v', rtc (step config_) v v' → Forall unopened (rn_queries v')) →
  completes config_ null decodePgCell i (inr (the_result fs all)) (length rows + 5) v.
Proof.
  apply (measured_completes config_ null decodePgCell c raw i).
  - intros q sh qs cs k Hi [Hq Hat] Ha.
    destruct (at_phase_run q sh qs cs k Hi Hq Hat Ha) as (p & h & k' & E & Hk & Hat'). by exists p, h, k'.
  - intros q v0 k [Hq Hat] Ha. unfold at_phase in Hat. destruct (qk_phase q) eqn:Ep; try done.
    + destruct Hat as (-> & Hd & ->). left. by split_and!.
    + destruct Hat as (-> & Hd & ->). right. by split_and!.
  - intros q v0 k [_ Hat] Ha. unfold at_phase in Hat. destruct (qk_phase q); try done;
      [destruct Hat as (rest & _ & _ & ->)|destruct Hat as (_ & _ & ->)..]; lia.
  - apply delivering_opened.
  - apply delivering_other.
Qed.
End Delivering.

(** ** From the opening on *)

Section Opened.
Context `{L : Libpq, FB : !FlexBuffers, PL : !PGResultLaws pgresult, CS : !CursorServer L}.
Context `{CI : !CursorIsolation L, HL : !HandleLog L, DH : !DistinctHandles L} (config_ : ServerConfig).

(** A call before its opening has the locals it was admitted with. *)
Definition fresh_call (q : QueryCall) : Prop :=
  before_open (qk_phase q) = true → ∃ y params, qk_local q = new_handler y new_rpc params (fetch_rows config_).

Lemma fresh_calls_move v v' :
  move config_ v v' → Forall fresh_call (rn_queries v) → Forall fresh_call (rn_queries v').
Proof.
  destruct 1 as [sh sh' qs cs cancelled write_ok request r E|sh qs cs i q p h Hi Ha E
    |sh qs cs i q w h Hi Ha E Hw|sh qs cs i q h Hi Hp E|sh sh' qs cs i q st ms Hi Hp E|sh qs cs request
    |sh sh' qs cs i request p p' ms Hi E|sh sh' qs cs request r E|sh sh' qs cs E]; simpl; try done;
    intros Hf; try by apply Forall_insert.
  - apply Forall_app. split; [done|]. apply Forall_singleton. destruct r; [done|]. intros _. by eexists _, _.
  - apply Forall_insert; [done|]. intros Hb. simpl in Hb. by rewrite (phase_step_opened _ _ _ _ _ _ _ _ Ha E) in Hb.
  - apply Forall_insert; [done|]. intros _. apply (Forall_lookup_1 _ _ _ _ Hf Hi). by rewrite Hp.
Qed.

Lemma fresh_calls_reachable mon w cerr v :
  rtc (step config_) (started config_ mon w cerr) v → Forall fresh_call (rn_queries v).
Proof.
  apply (run_kept config_ (λ v, Forall fresh_call (rn_queries v))); [apply fresh_calls_move| |by apply Forall_nil].
  intros sh qs cs i q. apply Forall_wake. intros q' Hq Hf _. apply Hf. by rewrite Hq.
Qed.

Lemma omap_inj {A B} (f : A → option B) l x y b :
  NoDup (omap f l) → x ∈ l → y ∈ l → f x = Some b → f y = Some b → x = y.
Proof.
  induction l as [|a l IH]; simpl; [by intros _ ?%elem_of_nil|]. intros Hn Hx Hy Ex Ey.
  assert (Hin : ∀ z, z ∈ l → f z = Some b → b ∈ omap f l) by (intros z ? ?; by apply list_elem_of_omap; eauto).
  apply elem_of_cons in Hx as [->|Hx], Hy as [->|Hy]; [done|..].
  - rewrite Ex in Hn. apply NoDup_cons in Hn as [Hn _]. by destruct Hn; eapply Hin.
  - rewrite Ey in Hn. apply NoDup_cons in Hn as [Hn _]. by destruct Hn; eapply Hin.
  - apply IH; try done. destruct (f a); [by apply NoDup_cons in Hn as [_ Hn]|done].
Qed.

(** An idle connection is nobody else's. *)
Lemma idle_apart R P (y : Sys) c rest raw d :
  safe R P y → NoDup (open_handles (sy_pg y)) → idle_ (sy_pool y) = c :: rest →
  pq_conn_ c = Some raw → d ∈ R ++ rest ++ (map_to_list (sy_sessions y)).*2 → apart c raw d.
Proof.
  intros Hs Hn Hi Hc Hd. destruct (Hs) as [H1 _ Hh _ _].
  assert (Hne : d ≠ c).
  { intros ->. apply elem_of_app in Hd as [Hd|Hd].
    - by eapply (idle_unreferenced R P y); [done|rewrite Hi; by left|].
    - pose proof (sf_exclusive _ _ _ Hs) as Hx. rewrite Hi, fmap_app in Hx.
      apply NoDup_app in Hx as (_ & _ & Hx). simpl in Hx. apply NoDup_cons in Hx as [Hx _].
      by apply Hx, list_elem_of_fmap_2. }
  assert (Ho : c ∈ [] ++ owners y ∧ d ∈ [] ++ owners y).
  { unfold owners. rewrite H1, Hi. set_solver. }
  destruct Ho as [Hoc Hod]. split.
  - intros E. apply Hne. by eapply handles_inj.
  - intros E. destruct Hh as (l & _ & Hl & _ & Hp & _). rewrite Hp in Hn. simpl in Hn.
    apply Hne. eapply omap_inj; [exact Hn|by apply Hl..|done|done].
Qed.

Context {V : Type} (null : V) (decodePgCell : FieldInfo → string → string + V).

Lemma ready_unhindered v request c rest raw fs rows :
  running_safe v → mutexes v → cursor_ready request c rest raw fs rows (sh_sys (rn_shard v)) →
  unhindered c (sh_sys (rn_shard v)).
Proof.
  intros Hs Hm Hy. split; [|apply Hm]. apply idle_unlocked; [done..|].
  rewrite (cy_idle _ _ _ _ _ _ _ Hy). by left.
Qed.

(** The opening phase. *)
Lemma opening_delivers v i q c rest raw fs rows :
  running_safe v → mutexes v → Forall fresh_call (rn_queries v) → rn_queries v !! i = Some q →
  qk_phase q = Opening → reading q → cursor_request (qk_request q) →
  cursor_ready (qk_request q) c rest raw fs rows (sh_sys (rn_shard v)) →
  NoDup (open_handles (sy_pg (sh_sys (rn_shard v)))) → rows_decode null decodePgCell fs rows →
  ∃ v1 q1 name, step config_ v v1 ∧ rn_queries v1 !! i = Some q1 ∧ qk_phase q1 = Looping
    ∧ measured i (λ q v k, reading q ∧ at_phase config_ null decodePgCell c raw name fs rows i q v k)
        (length rows + 5) v1.
Proof.
  intros Hrs Hm Hf Hi Hp Hq Hreq Hy Hn Hde. pose proof (ready_unhindered _ _ _ _ _ _ _ Hrs Hm Hy) as Hu.
  destruct v as [sh qs cs], Hrs as [Hs _]. simpl in *.
  assert (Hlt := lookup_lt_Some _ _ _ Hi).
  destruct (Forall_lookup_1 _ _ _ _ Hf Hi) as (y0 & params & El); [by rewrite Hp|].
  destruct (Open_loop null decodePgCell config_ (qk_request q) params c rest raw fs rows (sh_sys sh) y0
    new_rpc eq_refl Hreq Hy Hu Hde) as (s1 & name & Eo & Hat & Hk & H1 & H2 & H3).
  rewrite <-El in *. set (h0 := attach (sh_sys sh) (qk_local q)) in *.
  assert (Er : query_run config_ q sh = (Ret Looping, set_call s1 h0)).
  { unfold query_run. rewrite Hp. cbn [phase_step]. unfold m_bind, on_call, zoom. fold h0. by rewrite Eo. }
  set (q1 := advance (set_call s1 h0) Looping q).
  assert (Hm1 : move config_ (mkRunning sh qs cs) (mkRunning (put_sys (qc_sys s1) sh) (<[i := q1]> qs) cs))
    by (apply (move_query config_ sh qs cs i q Looping (set_call s1 h0)); [done|by rewrite Hp|exact Er]).
  enough (Hme : measured i (λ q v k, reading q ∧ at_phase config_ null decodePgCell c raw name fs rows i q v k)
    (length rows + 5) (mkRunning (put_sys (qc_sys s1) sh) (<[i := q1]> qs) cs)).
  { destruct (measured_next config_ c raw i _ (delivering_opened config_ null decodePgCell c raw name fs rows i)
      (delivering_other config_ null decodePgCell c raw name fs rows i) _ _ _ _ _ _ Hm1 Hme)
      as (v1 & Hs1 & Hk1 & _ & Hi1). exists v1, q1, name. split_and!; [done| |done..].
    by rewrite Hi1, list_lookup_insert_eq. }
  assert (Hap : ∀ d, d ∈ refs_of (streams (mkRunning sh qs cs)) ++ rest
    ++ (map_to_list (sy_sessions (sh_sys sh))).*2 → apart c raw d).
  { intros d. by eapply idle_apart; [..|apply Hy|apply Hy]. }
  apply measured_insert; [done|]. split; [done|]. exists rows.
  split; [exact (eq_ind_r (loop_at _ _ _ _ _ _ _ _ _ _) Hat (attach_own (set_call s1 h0)))|].
  split; [|simpl; lia]. destruct (Hat) as (objs & Hls & _). split; [split; simpl|]; simpl.
  - apply Hls.
  - rewrite H3. apply (handles_fresh [] [] (sh_sys sh)); [apply Hs|]. unfold owners.
    rewrite (cy_idle _ _ _ _ _ _ _ Hy). set_solver.
  - apply Hls.
  - intros d. rewrite H1. intros Hd. apply Hap. set_solver.
  - intros sid d. rewrite H2. intros Hd. apply Hap. rewrite !elem_of_app. right. right.
    apply list_elem_of_fmap. exists (sid, d). split; [done|]. by apply elem_of_map_to_list.
  - intros j q' d Hj. rewrite list_lookup_insert_ne by done. intros Hq' Hd. apply Hap, elem_of_app. left.
    exact (call_ref (mkRunning sh qs cs) j q' d Hq' Hd).
Qed.

(** C1: delivery among concurrent calls. In any state that the service reaches,
    a call for a SELECT on the pool that finds an idle connection opens its
    query; and however its phases interleave with those of other calls from
    then on, it never hangs, once it has returned its status is OK and the
    client decodes exactly the rows of its statement (if their cells are values
    that it can decode), and at any moment it
    comes to its end by at most one phase per row and five more of its own,
    whatever state the others are in. *)
Theorem calls_deliver mon w cerr v i q c rest raw fs rows :
  max_sessions config_ ≤ INT_MAX → open_handles w = [] → ¬ misused w → distinct w →
  rtc (step config_) (started config_ mon w cerr) v →
  rn_queries v !! i = Some q → qk_phase q = Opening → reading q →
  cursor_request (qk_request q) →
  cursor_ready (qk_request q) c rest raw fs rows (sh_sys (rn_shard v)) →
  sizes_ok config_ fs rows → rows_decode null decodePgCell fs rows →
  ∃ v1 q1, step config_ v v1 ∧ rn_queries v1 !! i = Some q1 ∧ qk_phase q1 = Looping
    ∧ completes config_ null decodePgCell i
        (inr (mkPgResult "FETCH" (Z.of_nat (length rows)) None fs
                (answer_object null decodePgCell fs <$> rows))) (length rows + 5) v1.
Proof.
  intros Hm Ho Hw Hd0 Hr Hi Hp Hq Hreq Hy Hz Hde.
  pose proof (distinct_nodup _ (running_world_reachable config_ _ distinct_stable mon w cerr v Hd0 Hr)) as Hn.
  pose proof (running_safe_reachable config_ mon w cerr v Hm Ho Hw Hr) as Hs.
  pose proof (fresh_calls_reachable mon w cerr v Hr) as Hf.
  destruct (opening_delivers v i q c rest raw fs rows Hs (mutexes_reachable _ _ _ _ _ Hr) Hf Hi Hp Hq Hreq Hy Hn Hde)
    as (v1 & q1 & name & Hst & Hi1 & Hp1 & Hd). exists v1, q1. split_and!; [done..|].
  rewrite <-(length_fmap (answer_object null decodePgCell fs) rows) at 1.
  apply (delivering_completes config_ null decodePgCell c raw (cy_raw _ _ _ _ _ _ _ Hy) name fs rows Hz i); [done|].
  intros v2 Hr2. apply (running_safe_reachable config_ mon w cerr v2 Hm Ho Hw).
  by etrans; [exact Hr|]; eapply rtc_l.
Qed.
End Opened.
