(* ===== verification/ConcStatements.v ===== *)
(** * Statements without a cursor, among concurrent calls

    A statement that is not streamed runs on the server in the opening phase of
    its call, on an idle connection of the pool or on that of its session. What
    the call does from then on needs only its own locals, so whatever the other
    calls do, the client gets the answer of the server: the tag of a command,
    the rows of a RETURNING, the message of an error. *)
From S2P Require Import Prelude CppStd Log Config Grpc Libpq Rpgb FlexMeta QueryMeta PgState PqConn.
From S2P Require Import Pool Sessions Streaming Handles QueryExecutor Health Queries Client.
From S2P Require Import ShardService Lift ShardSafety ShardSlots Service Delivery Immediate EndToEnd.
From S2P Require Import Isolation Calls CallsInv Locks ConcDelivery.
Local Open Scope Z_scope.
Local Open Scope cpp_scope.

(** ** Opening *)

Section Opening.
Context `{L : Libpq}.

(** The connection that the call gets without waiting or connecting. *)
Inductive at_hand (request : QueryRequest) (y : Sys) : PqConnection → Prop :=
| hand_pool c rest :
    qr_session_id request = "" → idle_ (sy_pool y) = c :: rest → at_hand request y c
| hand_session c :
    qr_session_id request ≠ "" → sy_sessions y !! qr_session_id request = Some c →
    healthyb c y = true → at_hand request y c.

(** What taking a connection leaves alone. *)
Record took (c : PqConnection) (s s' : QCall) : Prop := {
  tk_conn : connection_ (qc_stream s') = Some c;
  tk_cursor : use_cursor_ (qc_stream s') = use_cursor_ (qc_stream s);
  tk_done : immediate_done_ (qc_stream s') = immediate_done_ (qc_stream s);
  tk_error : qc_error s' = qc_error s;
  tk_pg : sy_pg (qc_sys s') = sy_pg (qc_sys s);
  tk_locked : sy_locked (qc_sys s') = sy_locked (qc_sys s);
}.

Lemma AcquireConnection_hand request c (s : QCall) :
  at_hand request (qc_sys s) c →
  ∃ s', AcquireConnection request s = (Ret true, s') ∧ took c s s'.
Proof.
  intros [c' rest Hs Hi|c' Hs Hf Hh]; unfold AcquireConnection, m_bind at 1, on_stream at 1, modify.
  - rewrite Hs. simpl. unfold m_bind at 1, sysM, zoom. simpl. rewrite (Acquire_idle_run _ _ _ Hi).
    eexists. split; [reflexivity|]. by split.
  - pose proof (proj2 (str_empty_false _) Hs) as He. rewrite He. simpl.
    unfold m_bind at 1, stream_get, gets. unfold m_bind at 1, sysM, zoom, GetOrCreate. simpl.
    rewrite He. unfold m_bind at 1, gets. simpl. rewrite Hf. unfold m_bind at 1. rewrite IsHealthy_eq, Hh.
    eexists. split; [reflexivity|]. by split.
Qed.

Context (request : QueryRequest) (c : PqConnection) (raw : pgconn) (s : QCall).
Hypothesis Hcur : IsTupleStreamingSql (qr_text request) = false.
Hypothesis Hhand : at_hand request (qc_sys s) c.
Hypothesis Hraw : pq_conn_ c = Some raw.
Hypothesis Hfree : pq_addr c ∉ sy_locked (qc_sys s).

(** The opening, up to the treatment of the result. *)
Lemma Open_statement res w1 :
  answered request raw (sy_pg (qc_sys s)) = (res, w1) →
  ∃ s', took c (mkQCall (qc_sys s) (set_request request false (qc_stream s)) (qc_error s)) s'
    ∧ Open request s
      = (let* result := (λ _, if IsOkStatus (result_status res)
                              then (Ret res, mkQCall (set_pg w1 (qc_sys s')) (qc_stream s') (qc_error s'))
                              else (Ret None, mkQCall (set_pg (cleared res w1) (qc_sys s')) (qc_stream s')
                                                (failure_text raw res w1))) in
         let* done := stream_get immediate_done_ in
         on_stream (set_immediate result done) ;;
         match result with
         | None => ReleaseConnection true ;; m_ret false
         | Some _ => on_stream (set_immediate result false) ;; m_ret true
         end) s'.
Proof.
  intros Hx. unfold Open, m_bind at 1, on_stream at 1, modify. rewrite Hcur.
  destruct (AcquireConnection_hand request c
    (mkQCall (qc_sys s) (set_request request false (qc_stream s)) (qc_error s)) Hhand) as (s' & E & Ht).
  exists s'. split; [done|]. rewrite (m_bind_run _ _ _ _ _ E). destruct Ht as [H1 H2 _ _ H3 H4].
  cbn [negb]. unfold m_bind at 1, stream_get, gets. rewrite H2. simpl. simpl in H3, H4.
  pose proof (ExecuteImmediate_run (qc_sys s') (qc_stream s') (qc_error s') c raw H1 Hraw
    ltac:(by rewrite H4) request res w1 ltac:(rewrite H3; exact Hx)) as Ex.
  unfold m_bind at 1. replace (ExecuteImmediate request s') with (ExecuteImmediate request
    (mkQCall (qc_sys s') (qc_stream s') (qc_error s'))) by (by destruct s'). by rewrite Ex.
Qed.

Lemma Open_result r w1 :
  answered request raw (sy_pg (qc_sys s)) = (Some r, w1) → IsOkStatus (PQresultStatus r) = true →
  ∃ s1, Open request s = (Ret true, s1) ∧ connection_ (qc_stream s1) = Some c
    ∧ use_cursor_ (qc_stream s1) = false ∧ immediate_done_ (qc_stream s1) = false
    ∧ immediate_result_ (qc_stream s1) = Some r ∧ qc_error s1 = qc_error s.
Proof.
  intros Hx Hok. destruct (Open_statement _ _ Hx) as (s' & [H1 H2 _ H4 _ _] & ->). simpl. rewrite Hok.
  eexists. split; [reflexivity|]. by split_and!.
Qed.

Lemma Open_refused res w1 :
  answered request raw (sy_pg (qc_sys s)) = (res, w1) → IsOkStatus (result_status res) = false →
  ∃ s1, Open request s = (Ret false, s1) ∧ connection_ (qc_stream s1) = None
    ∧ qc_error s1 = failure_text raw res w1.
Proof.
  intros Hx Hok. destruct (Open_statement _ _ Hx) as (s' & _ & ->). rewrite Hok.
  unfold m_bind at 1. unfold m_bind at 1, stream_get, gets. unfold m_bind at 1, on_stream, modify.
  set (s0 := mkQCall _ _ _). destruct (ReleaseConnection_runs true s0) as (s1 & E1 & Hn & _).
  pose proof (ReleaseConnection_error true _ s0 eq_refl) as He. rewrite E1 in He.
  rewrite (m_bind_run _ _ _ _ _ E1). by exists s1.
Qed.
End Opening.

(** ** The answer *)

Section Answers.
Context `{L : Libpq, FB : !FlexBuffers, PL : !PGResultLaws pgresult} (config_ : ServerConfig).
Context {V : Type} (null : V) (decodePgCell : FieldInfo → string → string + V).

#[local] Abbreviation wire := (wire_rows config_).

(** A command without rows, with its tag and count. *)
Record command_result (r : pgresult) (tag : string) (n : Z) : Prop := {
  cm_status : PQresultStatus r = PGRES_COMMAND_OK;
  cm_fields : PQnfields r = 0;
  cm_tag : PQcmdStatus r = Some tag;
  cm_count : PQcmdTuples r = Some (to_string n);
  cm_exact : 0 ≤ n ≤ MAX_EXACT;
}.

(** What the client makes of the answer of [PQexecParams]; [w] is the state of
    libpq after it. *)
Inductive answer_to (raw : pgconn) (w : pgworld) : option pgresult → string + PgResult V → Prop :=
| answer_command r tag n :
    command_result r tag n →
    answer_to raw w (Some r) (inr (mkPgResult (commandFromTag (Some (c_str tag)) None) n None [] []))
| answer_rows r fs cmd :
    rows_result null decodePgCell r wire fs → CommandFromStatus (PQcmdStatus r) = cmd → plain_name cmd → cmd ≠ "" →
    str_map toupper cmd = cmd →
    answer_to raw w (Some r)
      (inr (mkPgResult cmd (PQntuples r) None fs (answer_object null decodePgCell fs <$> result_rows r)))
| answer_error res :
    IsOkStatus (result_status res) = false →
    answer_to raw w res (inl (c_str (failure_text raw res w))).

Lemma rows_answer r fs cmd :
  CommandFromStatus (PQcmdStatus r) = cmd → plain_name cmd → cmd ≠ "" → str_map toupper cmd = cmd →
  stream_result (rs_command (BuildSchemaMeta r)) fs (objects_of null decodePgCell fs r)
  = mkPgResult cmd (PQntuples r) None fs (answer_object null decodePgCell fs <$> result_rows r).
Proof.
  intros Hcmd Hpl Hne Hup. unfold stream_result. simpl rs_command.
  by rewrite Hcmd, commandFromTag_app, objects_length.
Qed.

(** ** A call that answers *)

(** Where the call is, with [k] phases of its own to go at most. *)
Definition answers_in (answer : string + PgResult V) (q : QueryCall) (k : nat) : Prop :=
  let h := qk_local q in
  match qk_phase q with
  | Looping =>
      (∃ c r raw w, immediate_state c (Some r) h ∧ untouched h ∧ answer_to raw w (Some r) answer
         ∧ IsOkStatus (PQresultStatus r) = true ∧ k = 5%nat)
      ∨ (∃ c r fs, rows_sent null decodePgCell c r fs h ∧ rows_result null decodePgCell r wire fs
           ∧ answer = inr (stream_result (rs_command (BuildSchemaMeta r)) fs (objects_of null decodePgCell fs r))
           ∧ k = 4%nat)
  | Finishing => ∃ c r fs, rows_sent null decodePgCell c r fs h ∧ rows_result null decodePgCell r wire fs
      ∧ answer = inr (stream_result (rs_command (BuildSchemaMeta r)) fs (objects_of null decodePgCell fs r))
      ∧ k = 3%nat
  | Leaving st => st = Status_OK ∧ ended null decodePgCell answer h ∧ k = 2%nat
  | Timing st => st = Status_OK ∧ ended null decodePgCell answer h ∧ k = 1%nat
  | Returned st => st = Status_OK ∧ ended null decodePgCell answer h ∧ k = 0%nat
  | Opening | Asleep | Hung _ => False
  end.

(** The locals do not depend on the database. *)
Lemma immediate_attach c im y h : immediate_state c im h → immediate_state c im (attach y h).
Proof. intros []. by split. Qed.
Lemma rows_sent_attach c r fs y h :
  rows_sent null decodePgCell c r fs h → rows_sent null decodePgCell c r fs (attach y h).
Proof. intros []. split; try done. by apply immediate_attach. Qed.

(** A phase of the call. *)
Lemma answers_run answer q sh k :
  reading q → answers_in answer q k → active (qk_phase q) = true →
  ∃ p h k', query_run config_ q sh = (Ret p, h) ∧ (k' < k)%nat ∧ answers_in answer (advance h p q) k'.
Proof.
  intros [Hcan Hw] Hat Ha. pose proof (wire_rows_pos config_) as Hwp. unfold answers_in in Hat.
  unfold query_run. destruct (qk_phase q) eqn:Ep; try done; cbn [phase_step]; unfold catching, try_catch, m_bind.
  - destruct Hat as [(c & r & raw & w & Him & Hu & Hans & Hok & ->)|(c & r & fs & Hr & Hrr & -> & ->)].
    + apply (immediate_attach _ _ (sh_sys sh)) in Him.
      inversion Hans as [r' tag n Hc Er Eans|r' fs cmd Hrr Hcmd Hpl Hne Hup Er Eans|res Hno Er Eans];
        subst; [| |simpl in *; congruence].
      * destruct Hc. destruct (command_run (qk_cancelled q) (qk_write_ok q) null decodePgCell Hcan Hw c r
          wire (attach (sh_sys sh) (qk_local q)) tag n Him) as (h' & -> & Hd & _); try done; [apply Hu..|].
        eexists _, h', 2%nat. split; [done|]. split; [lia|]. by split.
      * destruct (rows_first (qk_cancelled q) (qk_write_ok q) null decodePgCell Hcan Hw c r wire fs
          (attach (sh_sys sh) (qk_local q)) Him) as (h' & -> & Hd); [by destruct Hu; split|done..|].
        eexists _, h', 4%nat. split; [done|]. split; [lia|]. right. eexists c, r, fs.
        split_and!; [done..| |done]. by rewrite (rows_answer r fs (CommandFromStatus (PQcmdStatus r))).
    + destruct (rows_second (qk_cancelled q) (qk_write_ok q) null decodePgCell Hcan c r wire fs
        (attach (sh_sys sh) (qk_local q))) as (h' & -> & Hd); [by apply rows_sent_attach|].
      eexists _, h', 3%nat. split; [done|]. split; [lia|]. by exists c, r, fs.
  - destruct Hat as (c & r & fs & Hr & Hrr & -> & ->).
    destruct (rows_end (qk_cancelled q) (qk_write_ok q) null decodePgCell Hcan Hw c r wire fs
      (attach (sh_sys sh) (qk_local q))) as (h' & -> & Hd); [by apply rows_sent_attach|done|].
    eexists _, h', 2%nat. split; [done|]. split; [lia|]. by split.
  - destruct Hat as (-> & Hd & ->). rewrite (destroy_ended null decodePgCell answer) by done.
    eexists _, _, 1%nat. split; [done|]. split; [lia|]. by split.
Qed.

Lemma answers_rest answer q k :
  answers_in answer q k → active (qk_phase q) = false →
  qk_phase q = Timing Status_OK ∧ k = 1%nat
    ∧ answers_in answer (advance (qk_local q) (Returned Status_OK) q) 0
  ∨ qk_phase q = Returned Status_OK ∧ k = 0%nat ∧ ended null decodePgCell answer (qk_local q).
Proof.
  unfold answers_in. destruct (qk_phase q); try done; intros (-> & Hd & ->) _; [left|right]; by split_and!.
Qed.

Lemma answers_active answer q k :
  answers_in answer q k → active (qk_phase q) = true → (0 < k)%nat.
Proof.
  unfold answers_in. destruct (qk_phase q); try done; intros Hat _.
  - destruct Hat as [(? & ? & ? & ? & _ & _ & _ & _ & ->)|(? & ? & ? & _ & _ & _ & ->)]; lia.
  - destruct Hat as (? & ? & ? & _ & _ & _ & ->). lia.
  - destruct Hat as (_ & _ & ->). lia.
Qed.

Lemma answers_opened answer q k : reading q ∧ answers_in answer q k → before_open (qk_phase q) = false.
Proof. intros [_ Hat]. unfold answers_in in Hat. by destruct (qk_phase q). Qed.

Lemma answers_completes answer i k (c : PqConnection) (raw : pgconn) v :
  measured i (λ q _ k, reading q ∧ answers_in answer q k) k v →
  (∀ v', rtc (step config_) v v' → Forall unopened (rn_queries v')) →
  completes config_ null decodePgCell i answer k v.
Proof.
  apply (measured_completes config_ null decodePgCell c raw i).
  - intros q sh qs cs k' _ [Hq Hat] Ha.
    destruct (answers_run answer q sh k' Hq Hat Ha) as (p & h & k2 & E & Hk & Hat'). by exists p, h, k2.
  - intros q v0 k' [Hq Hat] Ha. destruct (answers_rest answer q k' Hat Ha) as [(H1 & H2 & H3)|H]; [left|by right].
    by split_and!.
  - intros q v0 k' [_ Hat]. by eapply answers_active.
  - intros q v0 k'. apply answers_opened.
  - by intros q v0 v' k' _.
Qed.

(** The locals after the opening of a statement that the server has executed. *)
Lemma opened_result c r y y0 params s1 :
  connection_ (qc_stream s1) = Some c → use_cursor_ (qc_stream s1) = false →
  immediate_done_ (qc_stream s1) = false → immediate_result_ (qc_stream s1) = Some r → qc_error s1 = "" →
  let h := set_call s1 (attach y (new_handler y0 new_rpc params (fetch_rows config_))) in
  immediate_state c (Some r) h ∧ untouched h.
Proof. intros. split; by split. Qed.

(** ... and of one that it has refused. *)
Lemma refused_result cancelled write_ok request h e s1 :
  (∀ j, write_ok j = true) → rpc_sent (hd_rpc h) = [] → Open request (hd_call h) = (Ret false, s1) →
  connection_ (qc_stream s1) = None → qc_error s1 = e →
  ∃ h', phase_step cancelled write_ok wire request Opening h = (Ret (Leaving Status_OK), h')
    ∧ ended null decodePgCell (inl (c_str e)) h'.
Proof.
  intros Hw Hs Eo Hn He. cbn [phase_step].
  unfold m_bind, on_call, exec_error, gets, on_rpc, zoom, WriteErrorChunk, Write. rewrite Eo. simpl.
  rewrite Hw. eexists. split; [reflexivity|]. split; [|done]. simpl. rewrite Hs, He. simpl.
  unfold decodeQueryStreamToPgResult. cbn [client_loop]. unfold client_step. simpl.
  rewrite (proj2 (str_empty_false (EncodePgError _))) by apply flex_buffer_nonempty.
  by rewrite decode_error_encode.
Qed.

(** ** The opening phase *)

Lemma completes_weaken i answer k k' v :
  (k ≤ k')%nat → completes config_ null decodePgCell i answer k v →
  completes config_ null decodePgCell i answer k' v.
Proof.
  intros Hk Hc v2 Hr. destruct (Hc v2 Hr) as (q2 & H1 & H2 & H3 & m & v3 & q3 & Hm & H4).
  exists q2. split_and!; [done..|]. exists m, v3, q3. split; [lia|done].
Qed.

Lemma opening_answers v i q c raw res w1 answer :
  Forall (fresh_call config_) (rn_queries v) → rn_queries v !! i = Some q → qk_phase q = Opening → reading q →
  IsTupleStreamingSql (qr_text (qk_request q)) = false →
  at_hand (qk_request q) (sh_sys (rn_shard v)) c → pq_conn_ c = Some raw →
  pq_addr c ∉ sy_locked (sh_sys (rn_shard v)) →
  answered (qk_request q) raw (sy_pg (sh_sys (rn_shard v))) = (res, w1) → answer_to raw w1 res answer →
  ∃ v1 q1 k, step config_ v v1 ∧ rn_queries v1 !! i = Some q1 ∧ qk_phase q1 ≠ Opening ∧ (k ≤ 5)%nat
    ∧ measured i (λ q _ k, reading q ∧ answers_in answer q k) k v1.
Proof.
  destruct v as [sh qs cs]. intros Hf Hi Hp Hq Hcur Hh Hraw Hl Hx Hans. simpl in *.
  assert (Hlt := lookup_lt_Some _ _ _ Hi).
  destruct (Forall_lookup_1 _ _ _ _ Hf Hi) as (y0 & params & El); [by rewrite Hp|].
  assert (Hrun : ∃ p h k, query_run config_ q sh = (Ret p, h) ∧ p ≠ Opening ∧ (k ≤ 5)%nat
    ∧ answers_in answer (advance h p q) k).
  { unfold query_run. rewrite Hp, El. destruct (IsOkStatus (result_status res)) eqn:Hok.
    - destruct res as [r|]; [|done].
      destruct (Open_result (qk_request q) c raw (hd_call (attach (sh_sys sh) (new_handler y0 new_rpc params
        (fetch_rows config_)))) Hcur Hh Hraw Hl r w1 Hx Hok) as (s1 & Eo & H1 & H2 & H3 & H4 & H5).
      eexists Looping, _, 5%nat. split; [|split; [done|split; [lia|]]].
      + cbn [phase_step]. unfold m_bind, on_call, zoom. by rewrite Eo.
      + left. exists c, r, raw, w1. destruct (opened_result c r (sh_sys sh) y0 params s1 H1 H2 H3 H4 H5).
        by split_and!.
    - destruct (Open_refused (qk_request q) c raw (hd_call (attach (sh_sys sh) (new_handler y0 new_rpc params
        (fetch_rows config_)))) Hcur Hh Hraw Hl res w1 Hx Hok) as (s1 & Eo & H1 & H2).
      destruct (refused_result (qk_cancelled q) (qk_write_ok q) (qk_request q) (attach (sh_sys sh)
        (new_handler y0 new_rpc params (fetch_rows config_))) _ s1 (proj2 Hq) eq_refl Eo H1 H2) as (h' & -> & Hd).
      eexists _, h', 2%nat. split; [done|]. split; [done|]. split; [lia|]. split; [done|]. split; [|done].
      replace answer with (@inl string (PgResult V) (c_str (failure_text raw res w1))); [done|].
      by inversion Hans as [r tag n Hc|r fs cmd Hr|]; subst;
        [destruct Hc as [Hc]|destruct Hr as [Hc]|]; simpl in Hok; rewrite ?Hc in Hok. }
  destruct Hrun as (p & h & k & Er & Hpo & Hk & Hat).
  destruct (measured_next config_ c raw i (λ q _ k, reading q ∧ answers_in answer q k)
    (λ q _, answers_opened answer q) (λ q v v' k _ H, H) k sh qs cs (put_sys (qc_sys (hd_call h)) sh) (advance h p q))
    as (v1 & Hs1 & Hk1 & _ & Hi1).
  { apply (move_query config_ sh qs cs i q p h); [done|by rewrite Hp|exact Er]. }
  { by apply measured_insert. }
  exists v1, (advance h p q), k. split_and!; [done| |done..]. by rewrite Hi1, list_lookup_insert_eq.
Qed.

(** C3: The answers of concurrent statements. In any state that the service reaches,
    a call for a statement without a cursor that finds an idle connection, or a
    healthy one of its session that no hung call has locked, runs it in its
    opening phase; and whatever the other calls do from then on, it never
    hangs, its status is OK, the client gets the tag and count of a command,
    the rows of a statement that returns some, or the message of an error, and
    at most five phases of its own bring it to its end. *)
Theorem calls_answer `{HL : !HandleLog L} mon w cerr v i q c raw res w1 answer :
  max_sessions config_ ≤ INT_MAX → open_handles w = [] → ¬ misused w →
  rtc (step config_) (started config_ mon w cerr) v →
  rn_queries v !! i = Some q → qk_phase q = Opening → reading q →
  IsTupleStreamingSql (qr_text (qk_request q)) = false →
  at_hand (qk_request q) (sh_sys (rn_shard v)) c → pq_conn_ c = Some raw →
  (qr_session_id (qk_request q) ≠ "" → pq_addr c ∉ sy_locked (sh_sys (rn_shard v))) →
  answered (qk_request q) raw (sy_pg (sh_sys (rn_shard v))) = (res, w1) → answer_to raw w1 res answer →
  ∃ v1 q1, step config_ v v1 ∧ rn_queries v1 !! i = Some q1 ∧ qk_phase q1 ≠ Opening
    ∧ completes config_ null decodePgCell i answer 5 v1.
Proof.
  intros Hm Ho Hw Hr Hi Hp Hq Hcur Hh Hraw Hl Hx Hans.
  pose proof (running_safe_reachable config_ mon w cerr v Hm Ho Hw Hr) as Hs.
  assert (Hfree : pq_addr c ∉ sy_locked (sh_sys (rn_shard v))).
  { destruct Hh as [c rest _ Hidle|c Hsid _ _]; [|by apply Hl].
    apply idle_unlocked; [done|by eapply mutexes_reachable|rewrite Hidle; by left]. }
  destruct (opening_answers v i q c raw res w1 answer (fresh_calls_reachable _ _ _ _ _ Hr) Hi Hp Hq Hcur Hh
    Hraw Hfree Hx Hans) as (v1 & q1 & k & Hst & Hi1 & Hp1 & Hk & Hme).
  exists v1, q1. split_and!; [done..|]. apply (completes_weaken _ _ k); [done|].
  apply (answers_completes answer i k c raw); [done|].
  intros v2 Hr2. apply (running_safe_reachable config_ mon w cerr v2 Hm Ho Hw).
  by etrans; [exact Hr|]; eapply rtc_l.
Qed.
End Answers.
