(* ===== verification/ConnectConc.v ===== *)
(** * Overlapping [Connect] calls (src/src/service/mtdd_shard_service.cpp)

    [Connect] writes the pool's parameters in one locked section and reads them
    again, without the lock, when it connects. What another [Connect] wrote in
    between is what it connects with. *)
From S2P Require Import Prelude CppStd Log Config Grpc Libpq FlexMeta PgState PqConn Pool Sessions.
From S2P Require Import Streaming QueryExecutor Health ShardService ShardSafety Delivery Calls CallsInv.
Local Open Scope Z_scope.
Local Open Scope cpp_scope.

Section Overlap.
Context `{L : Libpq, FB : !FlexBuffers} (config_ : ServerConfig).

(** The database side after [pool_.Configure]. *)
Definition configured (request : ConnectRequest) (y : Sys) : Sys :=
  set_pool (Configure_section (BuildConnectParams config_ request) (pool_size config_) (sy_pool y)) y.

Lemma validating_run request ms sh :
  connectable config_ request →
  ∃ sh', connect_step config_ request ms Validating sh
      = (Ret (Connecting (BuildConnectParams config_ request)), sh')
    ∧ sh_sys sh' = configured request (sh_sys sh).
Proof.
  intros [Hh Hd Hu]. cbn [connect_step].
  destruct (check_host_index_runs config_ (cr_host_index request) sh) as (x & Ex & Hx & _).
  rewrite (proj2 (ValidateHostIndex_accepted _ _ _) Hh) in Ex. rewrite (m_bind_run _ _ _ _ _ Ex). cbv zeta.
  change (cp_dbname (BuildConnectParams config_ request)) with (ResolveDbName request).
  change (cp_user (BuildConnectParams config_ request)) with (cr_user request).
  rewrite (proj2 (str_empty_false _) Hd), (proj2 (str_empty_false _) Hu). cbn [orb].
  eexists. split; [reflexivity|]. simpl. by rewrite Hx.
Qed.

(** The connection attempt uses the pool's parameters, not the call's. *)
Lemma connecting_run request ms params sh c y :
  PqConnection_Connect (params_ (pool_of sh)) 0 (sh_sys sh) = (Ret (inr c), y) →
  ∃ sh', connect_step config_ request ms (Connecting params) sh = (Ret (Storing params), sh')
    ∧ sh_sys sh' = set_pool (push_idle c (sy_pool y)) y.
Proof.
  intros E. cbn [connect_step]. unfold m_bind at 1, sysM, zoom. simpl. unfold Pool.Connect.
  unfold m_bind at 1, gets. unfold pool_of in E. rewrite (m_bind_run _ _ _ _ _ E).
  eexists. split; reflexivity.
Qed.

Lemma reporting_run request ms params sh :
  ∃ sh', connect_step config_ request ms (Reporting params) sh
      = (Ret (CTiming (Status_OK, mkConnectResponse true "connected")), sh')
    ∧ frame (sh_sys sh) (sh_sys sh') ∧ connect_params_ sh' = connect_params_ sh.
Proof.
  cbn [connect_step].
  destruct (on_health_runs (OnConnectSuccess params (statement_timeout_ms config_)) sh)
    as (x & E & Hf & Hp & _); [intros h; apply OnConnectSuccess_runs|].
  rewrite (m_bind_run _ _ _ _ _ E). by exists x.
Qed.

Lemma ctiming_run request ms r sh :
  ∃ sh', connect_step config_ request ms (CTiming r) sh = (Ret (Answered r), sh')
    ∧ sh_sys sh' = sh_sys sh ∧ connect_params_ sh' = connect_params_ sh.
Proof.
  cbn [connect_step]. destruct (same_but_log_timer "connect" ms sh) as (x & E & H1 & _ & H3 & _).
  rewrite (m_bind_run _ _ _ _ _ E). by exists x.
Qed.

(** [Connect] notifies nobody. *)
Lemma connect_step_quiet request ms p sh p' sh' :
  connect_step config_ request ms p sh = (Ret p', sh') → cv_ (pool_of sh') = cv_ (pool_of sh).
Proof.
  intros E. set (I := λ y : Sys, cv_ (sy_pool y) = cv_ (pool_of sh)).
  pose proof (connect_step_outside config_ I) as Ho. specialize (Ho ltac:(by intros ? ? y)).
  assert (Hc : keeps I Pool.Connect).
  { intros s Hs. unfold Pool.Connect, m_bind at 1 3, gets. unfold m_bind.
    destruct (Connect_runs (params_ (sy_pool s)) 0 s) as (r & s1 & -> & (_ & Hp & _)).
    unfold I in *. destruct r; simpl; by rewrite Hp. }
  assert (Hp : ∀ params ms, keeps I (probe_connection params ms)).
  { intros params m s Hs. destruct (probe_connection_runs params m s) as (s' & E' & (_ & Hp & _)).
    rewrite E'. unfold I in *. simpl. by rewrite Hp. }
  specialize (Ho Hc Hp request ms p sh eq_refl). by rewrite E in Ho.
Qed.

(** One phase of the call [i]. *)
Lemma schedule_connect es sh qs cs i request p p' sh' ms :
  cs !! i = Some (mkConnectCall request p) → connect_step config_ request ms p sh = (Ret p', sh') →
  schedule config_ (EvConnect i ms :: es) (mkRunning sh qs cs)
  = schedule config_ es (mkRunning sh' qs (<[i := mkConnectCall request p']> cs)).
Proof.
  intros Hi E. cbn [schedule]. unfold fire, fire_move. rewrite Hi.
  cbn [mbind option_bind ck_request ck_phase]. rewrite E. simpl. unfold notified.
  by rewrite (connect_step_quiet _ _ _ _ _ _ E), Nat.sub_diag.
Qed.

(** The phases of a call from its connection attempt on. *)
Lemma connect_rest sh qs cs i request params ms c y :
  cs !! i = Some (mkConnectCall request (Connecting params)) →
  PqConnection_Connect (params_ (pool_of sh)) 0 (sh_sys sh) = (Ret (inr c), y) →
  ∃ sh', schedule config_ (replicate 4 (EvConnect i ms)) (mkRunning sh qs cs)
      = Some (mkRunning sh' qs (<[i := mkConnectCall request
                                   (Answered (Status_OK, mkConnectResponse true "connected"))]> cs))
    ∧ connect_params_ sh' = Some params ∧ sy_pool (sh_sys sh') = push_idle c (sy_pool y).
Proof.
  intros Hi E. assert (Hlt := lookup_lt_Some _ _ _ Hi).
  destruct (connecting_run request ms params sh c y E) as (s1 & E1 & H1).
  set (s2 := mkShard (sh_sys s1) (health_monitor_ s1) (Some params) (Some params) (sh_cerr s1)).
  destruct (reporting_run request ms params s2) as (s3 & E3 & (_ & H3 & _) & P3).
  destruct (ctiming_run request ms (Status_OK, mkConnectResponse true "connected") s3)
    as (s4 & E4 & H4 & P4).
  exists s4. cbn [replicate]. rewrite P4, P3, H4, H3. split; [|split; [done|]; simpl; by rewrite H1].
  erewrite schedule_connect; [|exact Hi|exact E1].
  erewrite (schedule_connect _ _ _ _ i request (Storing params) (Reporting params) s2 ms);
    [|by rewrite list_lookup_insert_eq|reflexivity]. rewrite list_insert_insert_eq.
  erewrite (schedule_connect _ _ _ _ i request (Reporting params) _ s3 ms);
    [|by rewrite list_lookup_insert_eq|exact E3]. rewrite list_insert_insert_eq.
  erewrite (schedule_connect _ _ _ _ i request (CTiming (Status_OK, mkConnectResponse true "connected")) _ s4 ms);
    [|by rewrite list_lookup_insert_eq|exact E4]. by rewrite list_insert_insert_eq.
Qed.

(** Credentials that were never tried are accepted. When the calls [a] and [b] are
    both about to call [pool_.Configure], and [b] does so between the
    [Configure] and the [Connect] of [a], then [a] connects with the
    credentials of [b]: if those are good, [a] is told that it is connected and
    its own credentials become those of the service and of its sessions,
    although nothing was ever connected with them, while the pool keeps the
    credentials of [b]. *)
Theorem overlapping_connects sh qs cs a b ra rb ms c y :
  a ≠ b → cs !! a = Some (mkConnectCall ra Validating) → cs !! b = Some (mkConnectCall rb Validating) →
  connectable config_ ra → connectable config_ rb →
  PqConnection_Connect (BuildConnectParams config_ rb) 0 (configured rb (sh_sys sh)) = (Ret (inr c), y) →
  ∃ v', schedule config_ (EvConnect a ms :: EvConnect b ms :: replicate 4 (EvConnect a ms))
          (mkRunning sh qs cs) = Some v'
    ∧ rn_connects v' !! a
      = Some (mkConnectCall ra (Answered (Status_OK, mkConnectResponse true "connected")))
    ∧ connect_params_ (rn_shard v') = Some (BuildConnectParams config_ ra)
    ∧ params_ (pool_of (rn_shard v')) = BuildConnectParams config_ rb
    ∧ idle_ (pool_of (rn_shard v')) = idle_ (pool_of sh) ++ [c].
Proof.
  intros Hne Ha Hb Ca Cb E. assert (Hlt := lookup_lt_Some _ _ _ Ha).
  destruct (validating_run ra ms sh Ca) as (s1 & E1 & H1).
  destruct (validating_run rb ms s1 Cb) as (s2 & E2 & H2). rewrite H1 in H2.
  change (configured rb (configured ra (sh_sys sh))) with (configured rb (sh_sys sh)) in H2.
  destruct (connect_rest s2 qs (<[b := mkConnectCall rb (Connecting (BuildConnectParams config_ rb))]>
    (<[a := mkConnectCall ra (Connecting (BuildConnectParams config_ ra))]> cs)) a ra
    (BuildConnectParams config_ ra) ms c y) as (s' & Er & P & H).
  - rewrite list_lookup_insert_ne by done. by apply list_lookup_insert_eq.
  - unfold pool_of. rewrite H2. exact E.
  - eexists. split; [|split; [|split]].
    + erewrite schedule_connect; [|exact Ha|exact E1].
      erewrite schedule_connect; [exact Er|by rewrite list_lookup_insert_ne|exact E2].
    + simpl. apply list_lookup_insert_eq. by rewrite !length_insert.
    + exact P.
    + pose proof (frame_Connect (BuildConnectParams config_ rb) 0 (configured rb (sh_sys sh))) as Hf.
      rewrite E in Hf. destruct Hf as (_ & Hp & _). simpl in *. unfold pool_of. rewrite H, Hp. done.
Qed.
End Overlap.
