(* ===== verification/ClientRequest.v ===== *)
(** * The client's requests (src/integration/lib/grpc-query-client.js)

    [buildConnectRequest] and [buildQueryRequestPayload] with its parameters, and
    what the server makes of the messages: the checks they pass, and the values
    that [PQexecParams] gets. A message field that is [undefined] has its proto3
    default. *)
From S2P Require Import Prelude CppStd Config Grpc Libpq PgState Streaming ShardService ShardSafety.
From S2P Require Import ConnectConc.
Local Open Scope Z_scope.

(** A value of [req.values]: [null] or [undefined], a [Buffer], or anything else
    as the bytes of [String(value)]. *)
Inductive js_arg := ArgNull | ArgBuffer (b : string) | ArgText (t : string).

#[global] Instance js_arg_eq_dec : EqDecision js_arg.
Proof. solve_decision. Defined.

Definition encodeQueryParam (value : js_arg) (oid : option Z) : QueryParam :=
  match value with
  | ArgNull => mkQueryParam (default 0 oid) 0 ""
  | ArgBuffer b => mkQueryParam (default 0 oid) 1 b
  | ArgText t => mkQueryParam (default 0 oid) 0 t
  end.

(** [req]; an element of [types] may be [undefined]. *)
Record js_query := mkJsQuery {
  jq_text : option string;
  jq_row_mode : option string;
  jq_values : list js_arg;
  jq_types : list (option Z);
}.

Definition buildLibpqQueryParams (req : js_query) : list QueryParam :=
  imap (λ index value, encodeQueryParam value (mjoin (jq_types req !! index))) (jq_values req).

Record js_credentials := mkJsCredentials {
  jc_database : string; jc_user : string; jc_password : string; jc_port : Z }.

(** [roleHost] goes into a field that the server does not read. *)
Definition buildConnectRequest (hostIndex : Z) (credentials : js_credentials) (roleHost : string)
  : ConnectRequest :=
  mkConnectRequest hostIndex (jc_database credentials) (jc_user credentials)
    (jc_password credentials) (jc_port credentials) (jc_database credentials).

Definition buildQueryRequestPayload (hostIndex : Z) (req : js_query) (sessionId : option string)
  : QueryRequest :=
  {| qr_host_index := hostIndex;
     qr_text := default "" (jq_text req);
     qr_name := "";
     qr_row_mode := default "" (jq_row_mode req);
     qr_session_id := default "" sessionId;
     qr_params := buildLibpqQueryParams req;
     qr_result_format := 1 |}.

(** What a value is for PostgreSQL: its bytes, or NULL, and its format. *)
Definition bound_value (value : js_arg) : option string * Z :=
  match value with
  | ArgNull => (None, 0)
  | ArgBuffer b => (Some b, 1)
  | ArgText t => (Some t, 0)
  end.

(** The server binds an argument as what it is, unless it is an empty text. *)
Lemma BuildParam_client value oid :
  value ≠ ArgText "" →
  let p := BuildParam (encodeQueryParam value oid) in
  (ep_value p, ep_format p) = bound_value value
  ∧ ep_type p = to_uint32 (default 0 oid)
  ∧ ep_length p = match (bound_value value).1 with
                  | Some b => to_int32 (str_size b)
                  | None => 0
                  end.
Proof.
  intros Hv. unfold BuildParam.
  assert (Ho : (if default 0 oid =? 0 then 0 else to_uint32 (default 0 oid)) = to_uint32 (default 0 oid)).
  { destruct (default 0 oid =? 0) eqn:E; [|done]. by replace (default 0 oid) with 0 by lia. }
  destruct value as [|b|t]; cbn [encodeQueryParam qp_oid qp_format qp_value]; rewrite Ho.
  - done.
  - by rewrite andb_false_r.
  - rewrite (proj2 (str_empty_false t)); [done|]. by intros ->.
Qed.

Section Client.
Context `{L : Libpq, FB : !FlexMeta.FlexBuffers}.

(** C37: the requests of the client suit the server. Once the service is connected,
    every query the client builds for the right host passes all checks if its
    text is not too long; the statement gets exactly its arguments, in order,
    each with its declared type, its bytes and its format, except that an empty
    text is bound as NULL; and the credentials of a connect request are those
    the server connects with. *)
Theorem client_requests config_ hostIndex req sessionId credentials roleHost params (s : Shard) :
  host_accepted config_ hostIndex →
  let request := buildQueryRequestPayload hostIndex req sessionId in
  let login := buildConnectRequest hostIndex credentials roleHost in
  (to_int32 (str_size (qr_text request)) ≤ max_query_text_bytes config_ →
   is_Some (executor_ s) → connect_params_ s = Some params → accepted config_ request params s)
  ∧ length (BuildParams request) = length (jq_values req)
  ∧ (∀ i value, jq_values req !! i = Some value → ∃ p, BuildParams request !! i = Some p
       ∧ ep_type p = to_uint32 (default 0 (mjoin (jq_types req !! i)))
       ∧ if decide (value = ArgText "") then ep_value p = None
         else (ep_value p, ep_format p) = bound_value value)
  ∧ (jc_database credentials ≠ "" → jc_user credentials ≠ "" → connectable config_ login)
  ∧ cp_dbname (BuildConnectParams config_ login) = jc_database credentials
  ∧ cp_user (BuildConnectParams config_ login) = jc_user credentials
  ∧ cp_password (BuildConnectParams config_ login) = jc_password credentials.
Proof.
  intros Hh request login.
  assert (Hdb : ResolveDbName login = jc_database credentials).
  { unfold ResolveDbName. simpl. by destruct (negb _). }
  split_and!; try done.
  - intros Ht He Hp. split; [by apply ValidateHostIndex_accepted|done|lia|done|done].
  - unfold BuildParams. rewrite length_fmap. apply length_imap.
  - intros i value Hv. eexists. split.
    + unfold BuildParams. rewrite list_lookup_fmap. simpl. unfold buildLibpqQueryParams.
      rewrite list_lookup_imap, Hv. done.
    + case_decide as E; [subst value|].
      * simpl. split; [|done]. destruct (_ =? 0) eqn:E; [|done]. by replace (default 0 _) with 0 by lia.
      * by destruct (BuildParam_client value (mjoin (jq_types req !! i)) E) as (H1 & H2 & _).
  - intros Hd Hu. split; [done| |done]. by rewrite Hdb.
Qed.
End Client.
