(* ===== verification/MockPg.v ===== *)
(** * A small PostgreSQL

    A concrete libpq on which the definitions of the library are run: it opens
    connections, keeps transactions and cursors per connection, answers the
    statements it was given answers for, and loses the connections it is told
    to lose. It follows the laws of [CursorServer] and [CursorIsolation], so these
    can hold, also together with a record of the handles. *)
From S2P Require Import Prelude CppStd Libpq MockResult FlexMeta QueryMeta Grpc PgState PqConn Pool.
From S2P Require Import Sessions Streaming Handles Delivery EndToEnd Isolation World ConcDelivery.
Local Open Scope Z_scope.

Definition mock_answer : Type := list (string * Z * Z) * list (list (option string)).

Record mock := mkMock {
  mk_up : bool;                               (* new connections are accepted *)
  mk_next : nat;                              (* next connection *)
  mk_lost : gset nat;                         (* connections the server dropped *)
  mk_txn : gset nat;                          (* connections in a transaction *)
  mk_cursors : gmap (nat * string) mock_answer;
  mk_answers : string → option mock_answer;   (* statement text to answer *)
}.

Definition mk_set_txn t (w : mock) : mock :=
  mkMock (mk_up w) (mk_next w) (mk_lost w) t (mk_cursors w) (mk_answers w).
Definition mk_set_cursors m (w : mock) : mock :=
  mkMock (mk_up w) (mk_next w) (mk_lost w) (mk_txn w) m (mk_answers w).

Definition rows_table (tag : string) (a : mock_answer) : table :=
  mkTable PGRES_TUPLES_OK "" (Some tag) (Some "") a.1 a.2.

(** [FETCH FORWARD n FROM name], after its first two words. *)
Definition parse_fetch (s : string) : Z * string :=
  let '(n, rest) := scan_digits 10 0 s in (n, str_drop 6 rest).

(** [DECLARE name NO SCROLL CURSOR FOR text], after its first word. *)
Definition not_space (c : ascii) : bool := negb (ascii_eqb c " ").
Definition parse_declare (s : string) : string * string :=
  let name := take_while not_space s in
  (name, str_drop (String.length name + 22) s).

Definition mock_exec (raw : nat) (sql : string) (w : mock) : table * mock :=
  if bool_decide (raw ∈ mk_lost w) then (error_table "server closed the connection", w)
  else if bool_decide (sql = "SELECT 1") then (rows_table "SELECT 1" ([("one", 23, 0)], [[Some "1"]]), w)
  else if bool_decide (sql = "BEGIN") then
    (command_table "BEGIN" "", mk_set_txn ({[raw]} ∪ mk_txn w) w)
  else if bool_decide (sql = "COMMIT") || bool_decide (sql = "ROLLBACK") then
    (command_table sql "",
     mk_set_cursors (filter (λ p, p.1.1 ≠ raw) (mk_cursors w)) (mk_set_txn (mk_txn w ∖ {[raw]}) w))
  else if starts_with "SET " sql then (command_table "SET" "", w)
  else if starts_with "FETCH FORWARD " sql then
    let '(n, name) := parse_fetch (str_drop 14 sql) in
    match mk_cursors w !! (raw, name) with
    | None => (error_table "cursor does not exist", w)
    | Some (fs, rows) =>
        let got := take (Z.to_nat n) rows in
        (rows_table ("FETCH " +:+ to_string (Z.of_nat (length got))) (fs, got),
         mk_set_cursors (<[(raw, name) := (fs, drop (Z.to_nat n) rows)]> (mk_cursors w)) w)
    end
  else if starts_with "CLOSE " sql then
    (command_table "CLOSE CURSOR" "", mk_set_cursors (delete (raw, str_drop 6 sql) (mk_cursors w)) w)
  else (error_table "syntax error", w).

Definition mock_execParams (raw : nat) (sql : string) (w : mock) : table * mock :=
  if bool_decide (raw ∈ mk_lost w) then (error_table "server closed the connection", w)
  else if starts_with "DECLARE " sql then
    let '(name, text) := parse_declare (str_drop 8 sql) in
    match mk_answers w text with
    | Some a => (command_table "DECLARE CURSOR" "",
                 mk_set_cursors (<[(raw, name) := a]> (mk_cursors w)) w)
    | None => (error_table "syntax error", w)
    end
  else if starts_with "INSERT " sql then
    match mk_answers w sql with
    | Some a => (rows_table ("INSERT 0 " +:+ to_string (Z.of_nat (length a.2))) a, w)
    | None => (command_table "INSERT 0 1" "1", w)
    end
  else (error_table "syntax error", w).

#[global] Instance mock_conn : PGConn nat table mock := {
  PQconnectdb _ w :=
    (Some (mk_next w),
     mkMock (mk_up w) (mk_next w + 1)
       (if mk_up w then mk_lost w else {[mk_next w]} ∪ mk_lost w)
       (mk_txn w) (mk_cursors w) (mk_answers w));
  PQfinish raw w := mk_set_txn (mk_txn w ∖ {[raw]}) w;
  PQstatus raw w := if bool_decide (raw ∈ mk_lost w) then CONNECTION_BAD else CONNECTION_OK;
  PQerrorMessage raw w := "connection refused";
  PQtransactionStatus raw w :=
    if bool_decide (raw ∈ mk_txn w) then PQTRANS_INTRANS else PQTRANS_IDLE;
  PQexec raw sql w := let '(t, w') := mock_exec raw sql w in (Some t, w');
  PQexecParams raw sql _ _ w := let '(t, w') := mock_execParams raw sql w in (Some t, w');
  PQclear _ w := w;
}.

#[global] Instance mock_libpq : Libpq :=
  { pgconn := nat; pgresult := table; pgworld := mock;
    libpq_result := table_result; libpq_conn := mock_conn }.

#[global] Instance mock_libpq_laws : PGResultLaws (@pgresult mock_libpq) := table_laws.

(** ** Parsing what the server writes *)

Lemma str_drop_app_more s t k : str_drop (String.length s + k) (s +:+ t) = str_drop k t.
Proof. induction s as [|c s IH]; [done|]. exact IH. Qed.

Lemma plain_not_space s : plain_name s → take_while not_space s = s.
Proof.
  unfold plain_name. induction s as [|c s IH]; [done|]. cbn [find_first take_while].
  destruct (isspace c || ascii_eqb NUL c) eqn:E; [done|].
  destruct (find_first _ s) eqn:Ef; [done|]. intros _. rewrite IH by done.
  apply orb_false_iff in E as [E _]. unfold not_space. destruct (ascii_eqb c " ") eqn:Ec; [|done].
  apply ascii_eqb_spec in Ec. by subst c.
Qed.

(** ** Results *)

Definition mock_field (f : string * Z * Z) : FieldInfo :=
  let '(name, oid, format) := f in mkFieldInfo name 0 0 (to_uint32 oid) format.

(** A rectangular answer whose sizes are those of C. *)
Definition answer_ok (a : mock_answer) : Prop :=
  Z.of_nat (length a.1) ≤ INT_MAX ∧ Z.of_nat (length a.2) ≤ INT_MAX
  ∧ Forall (λ row, length row = length a.1
            ∧ Forall (λ c, match c with Some v => str_size v ≤ INT_MAX | None => True end) row) a.2.

Lemma str_take_all v : str_take (String.length v) v = v.
Proof. rewrite <-(str_app_nil_r v) at 2. apply str_take_app. Qed.

Lemma table_cell tag a i j row c :
  answer_ok a → a.2 !! i = Some row → row !! j = Some c →
  cell (rows_table tag a) (Z.of_nat i) (Z.of_nat j) = c.
Proof.
  intros (_ & _ & Hr) Hi Hj. unfold cell. simpl.
  assert (Hc : t_cell (rows_table tag a) (Z.of_nat i) (Z.of_nat j) = c).
  { unfold t_cell. simpl. by rewrite Nat2Z.id, Hi, Nat2Z.id, Hj. }
  rewrite Hc. destruct c as [v|]; [|done].
  rewrite Forall_lookup in Hr. destruct (Hr i row Hi) as [_ Hrow].
  rewrite Forall_lookup in Hrow. pose proof (Hrow j (Some v) Hj) as Hv. simpl in Hv.
  rewrite Z.min_r by done. unfold str_size. by rewrite Nat2Z.id, str_take_all.
Qed.

Lemma seqZ_fmap_list {A} (f : Z → A) (l : list A) :
  (∀ i x, l !! i = Some x → f (Z.of_nat i) = x) → f <$> seqZ 0 (Z.of_nat (length l)) = l.
Proof.
  intros Hf. apply list_eq. intros i. rewrite list_lookup_fmap.
  destruct (l !! i) as [x|] eqn:E.
  - rewrite (proj2 (lookup_seqZ 0 (Z.of_nat (length l)) i (0 + Z.of_nat i))).
    + simpl. f_equal. by apply Hf.
    + apply lookup_lt_Some in E. lia.
  - apply lookup_ge_None in E. rewrite lookup_seqZ_ge by lia. done.
Qed.

Lemma table_shows (a : mock_answer) :
  answer_ok a →
  shows (rows_table ("FETCH " +:+ to_string (Z.of_nat (length a.2))) a) (mock_field <$> a.1) a.2.
Proof.
  intros Ha. pose proof Ha as (H1 & H2 & H3). split; [done| | |done].
  - simpl. rewrite Z.min_r by done. rewrite <-(length_fmap mock_field).
    apply seqZ_fmap_list. intros i x Hi. rewrite list_lookup_fmap, fmap_Some in Hi.
    destruct Hi as ([[nm oid] fmt] & Hi & ->). unfold BuildFieldInfo. simpl.
    by rewrite Nat2Z.id, Hi.
  - unfold result_rows. simpl. rewrite !Z.min_r by done. apply seqZ_fmap_list. intros i row Hi.
    rewrite Forall_lookup in H3. destruct (H3 i row Hi) as [Hlen _]. rewrite <-Hlen.
    apply seqZ_fmap_list. intros j c Hj. by eapply table_cell.
Qed.

Lemma answer_ok_take mf rows n : answer_ok (mf, rows) → answer_ok (mf, take n rows).
Proof.
  intros (H1 & H2 & H3). simpl in *. split; [done|]. split; simpl.
  - rewrite length_take. lia.
  - by apply Forall_take.
Qed.
Lemma answer_ok_drop mf rows n : answer_ok (mf, rows) → answer_ok (mf, drop n rows).
Proof.
  intros (H1 & H2 & H3). simpl in *. split; [done|]. split; simpl.
  - rewrite length_drop. lia.
  - by apply Forall_drop.
Qed.

(** ** The laws of cursors *)

Lemma mock_fetch raw w name n mf rows :
  raw ∉ mk_lost w → plain_name name → 0 < n → mk_cursors w !! (raw, name) = Some (mf, rows) →
  mock_exec raw (c_str (fetch_sql n name)) w
  = (rows_table ("FETCH " +:+ to_string (Z.of_nat (length (take (Z.to_nat n) rows))))
       (mf, take (Z.to_nat n) rows),
     mk_set_cursors (<[(raw, name) := (mf, drop (Z.to_nat n) rows)]> (mk_cursors w)) w).
Proof.
  intros Hl Hp Hn Hc. unfold fetch_sql.
  assert (E : c_str ("FETCH FORWARD " +:+ to_string n +:+ " FROM " +:+ name)
              = ("FETCH FORWARD " +:+ (to_string n +:+ " FROM " +:+ name))).
  { rewrite c_str_app by done. rewrite c_str_app by (apply c_str_to_string; lia).
    rewrite c_str_app by done. by rewrite plain_c_str. }
  rewrite E. set (rest := (to_string n +:+ " FROM " +:+ name)).
  unfold mock_exec. rewrite bool_decide_eq_false_2 by done.
  do 4 (rewrite bool_decide_eq_false_2 by done).
  replace (starts_with "SET " ("FETCH FORWARD " +:+ rest)) with false by done.
  rewrite starts_with_app. cbn [orb].
  change (str_drop 14 ("FETCH FORWARD " +:+ rest)) with rest.
  assert (Ep : parse_fetch rest = (n, name)).
  { unfold parse_fetch, rest. erewrite scan_digits_app; [|apply to_string_digits; lia|done]. done. }
  rewrite Ep, Hc. done.
Qed.

Lemma mock_declare raw w name text mf rows :
  raw ∉ mk_lost w → plain_name name → c_str text = text → mk_answers w text = Some (mf, rows) →
  mock_execParams raw (c_str (declare_sql name text)) w
  = (command_table "DECLARE CURSOR" "",
     mk_set_cursors (<[(raw, name) := (mf, rows)]> (mk_cursors w)) w).
Proof.
  intros Hl Hp Ht Ha. unfold declare_sql.
  assert (E : c_str ("DECLARE " +:+ name +:+ " NO SCROLL CURSOR FOR " +:+ text)
              = ("DECLARE " +:+ (name +:+ " NO SCROLL CURSOR FOR " +:+ text))).
  { rewrite c_str_app by done. rewrite c_str_app by (by apply plain_c_str).
    rewrite c_str_app by done. by rewrite Ht. }
  rewrite E. unfold mock_execParams. rewrite bool_decide_eq_false_2 by done.
  rewrite starts_with_app. set (rest := name +:+ _).
  change (str_drop 8 ("DECLARE " +:+ rest)) with rest.
  assert (Ep : parse_declare rest = (name, text)).
  { unfold parse_declare, rest. rewrite take_while_app; [|by apply plain_not_space|done].
    by rewrite str_drop_app_more. }
  rewrite Ep, Ha. done.
Qed.

(** The columns and rows, in the terms of the laws. *)
Definition mock_shape (a : option mock_answer) (fs : list FieldInfo)
    (rows : list (list (option string))) : Prop :=
  ∃ mf, a = Some (mf, rows) ∧ fs = mock_field <$> mf ∧ answer_ok (mf, rows).

Definition mock_alive (raw : nat) (w : mock) : Prop :=
  (raw ∉ mk_lost w) ∧ (raw < mk_next w)%nat.
Definition mock_idle (raw : nat) (w : mock) : Prop := mock_alive raw w ∧ raw ∉ mk_txn w.
Definition mock_at (raw : nat) (name : string) (fs : list FieldInfo)
    (rows : list (list (option string))) (w : mock) : Prop :=
  mock_alive raw w ∧ plain_name name ∧ mock_shape (mk_cursors w !! (raw, name)) fs rows.

#[global] Instance mock_cursors : CursorServer mock_libpq.
Proof.
  refine {| idle_session := mock_idle; in_transaction := mock_alive;
            answers raw w text ps fs rows := mock_shape (mk_answers w text) fs rows;
            cursor_at := mock_at |};
    try done.
  - intros raw w [_ Ht]. simpl. by rewrite bool_decide_eq_false_2.
  - intros raw w [[Hl Hn] Ht]. exists (command_table "BEGIN" ""), (mk_set_txn ({[raw]} ∪ mk_txn w) w).
    simpl. unfold mock_exec. rewrite bool_decide_eq_false_2 by done. done.
  - intros raw w name text ps fmt fs rows [Hl Hl'] (mf & Ha & -> & Hok) Ht Hp.
    simpl. rewrite (mock_declare raw w name text mf rows) by done. eexists _, _. split; [done|].
    split; [done|]. split; [done|]. split; [done|]. exists mf. simpl. by rewrite lookup_insert_eq.
  - intros raw w name n fs rows ([Hl Hl'] & Hp & mf & Hc & -> & Hok) Hn.
    simpl. rewrite (mock_fetch raw w name n mf rows) by (done || lia). eexists _, _. split; [done|].
    split; [apply (table_shows (mf, take (Z.to_nat n) rows)); by apply answer_ok_take|].
    split; [done|]. split; [done|]. exists mf. simpl. rewrite lookup_insert_eq.
    split_and!; [done..|by apply answer_ok_drop].
Defined.

(** ** Cursors of one connection *)

(** The calls of another connection on the cursors. *)
Lemma mock_exec_other raw raw' sql w name :
  raw' ≠ raw →
  mk_cursors (mock_exec raw' sql w).2 !! (raw, name) = mk_cursors w !! (raw, name)
  ∧ mk_lost (mock_exec raw' sql w).2 = mk_lost w ∧ mk_next (mock_exec raw' sql w).2 = mk_next w.
Proof.
  intros Hne. unfold mock_exec. repeat case_match; simpl; try done; split; try done.
  - apply option_eq. intros a. rewrite map_lookup_filter_Some. simpl. naive_solver.
  - by rewrite lookup_insert_ne by congruence.
  - by rewrite lookup_delete_ne by congruence.
Qed.

Lemma mock_execParams_other raw raw' sql w name :
  raw' ≠ raw →
  mk_cursors (mock_execParams raw' sql w).2 !! (raw, name) = mk_cursors w !! (raw, name)
  ∧ mk_lost (mock_execParams raw' sql w).2 = mk_lost w
  ∧ mk_next (mock_execParams raw' sql w).2 = mk_next w.
Proof.
  intros Hne. unfold mock_execParams. repeat case_match; simpl; try done; split; try done.
  by rewrite lookup_insert_ne by congruence.
Qed.

#[global] Instance mock_isolation : CursorIsolation mock_libpq.
Proof.
  intros raw name fs rows. unfold cursor_at. simpl. unfold mock_at, mock_alive. split; simpl.
  - intros ci w ((Hl & Hn) & Hp & Hc). simpl. split; [|intros [= E]; lia].
    split_and!; [|lia|done|done]. destruct (mk_up w); [done|]. apply not_elem_of_union. split; [|done].
    rewrite elem_of_singleton. lia.
  - intros raw' sql w Hne ((Hl & Hn) & Hp & Hc). destruct (mock_exec_other raw raw' sql w name Hne) as (E1 & E2 & E3).
    destruct (mock_exec raw' sql w) as [t w']. simpl in *. by rewrite E1, E2, E3.
  - intros raw' sql ps fmt w Hne ((Hl & Hn) & Hp & Hc).
    destruct (mock_execParams_other raw raw' sql w name Hne) as (E1 & E2 & E3).
    destruct (mock_execParams raw' sql w) as [t w']. simpl in *. by rewrite E1, E2, E3.
  - done.
  - done.
Qed.

(** ** With a record of the handles *)

Section Tracked.
Context {L : Libpq} {D : EqDecision (@pgconn L)} {CS : CursorServer L}.

#[global] Instance tracked_cursors : CursorServer (tracked (L := L)).
Proof.
  refine (Build_CursorServer (tracked (L := L))
    (λ raw w, idle_session (L := L) raw (tw_pg w))
    (λ raw w, in_transaction (L := L) raw (tw_pg w))
    (λ raw w, answers (L := L) raw (tw_pg w))
    (λ raw name fs rows w, cursor_at (L := L) raw name fs rows (tw_pg w)) _ _ _ _ _ _ _); simpl.
  - intros raw w. apply idle_status.
  - intros raw w Hi. destruct (begin_works (L := L) raw (tw_pg w) Hi) as (r & w' & -> & H).
    by eexists _, _.
  - intros raw w name text ps fmt fs rows H1 H2 H3 H4.
    destruct (declare_works (L := L) raw (tw_pg w) name text ps fmt fs rows H1 H2 H3 H4)
      as (r & w' & -> & H). by eexists _, _.
  - intros raw w name n fs rows H1 H2.
    destruct (fetch_works (L := L) raw (tw_pg w) name n fs rows H1 H2) as (r & w' & -> & H).
    by eexists _, _.
  - intros raw r w. apply clear_transaction.
  - intros raw r w text ps fs rows. apply clear_answers.
  - intros raw r w name fs rows. apply clear_cursor.
Defined.

Context {CI : CursorIsolation L}.

#[global] Instance tracked_isolation : CursorIsolation (tracked (L := L)).
Proof.
  intros raw name fs rows. destruct (cursor_about (L := L) raw name fs rows) as [A1 A2 A3 A4 A5].
  split; simpl.
  - intros ci w Hw. specialize (A1 ci (tw_pg w) Hw). by destruct (PQconnectdb ci (tw_pg w)).
  - intros raw' sql w Hne Hw. specialize (A2 raw' sql (tw_pg w) Hne Hw).
    by destruct (PQexec raw' sql (tw_pg w)).
  - intros raw' sql ps fmt w Hne Hw. specialize (A3 raw' sql ps fmt (tw_pg w) Hne Hw).
    by destruct (PQexecParams raw' sql ps fmt (tw_pg w)).
  - intros raw' w. apply A4.
  - intros r w. apply A5.
Qed.
End Tracked.

(** ** Its handles are numbers that are counted up *)

Definition numbered (w : @pgworld (tracked (L := mock_libpq))) : Prop :=
  NoDup (tw_open w) ∧ ∀ raw, raw ∈ tw_open w → (raw < mk_next (tw_pg w))%nat.

Lemma mock_exec_next raw sql w : mk_next (mock_exec raw sql w).2 = mk_next w.
Proof. unfold mock_exec. repeat case_match; simplify_eq; done. Qed.
Lemma mock_execParams_next raw sql w : mk_next (mock_execParams raw sql w).2 = mk_next w.
Proof. unfold mock_execParams. repeat case_match; simplify_eq; done. Qed.

Lemma remove_one_sublist (x : nat) l : remove_one (L := mock_libpq) x l `sublist_of` l.
Proof. induction l as [|y l IH]; simpl; [done|]. case_decide; by constructor. Qed.

#[global] Instance mock_distinct : DistinctHandles (tracked (L := mock_libpq)).
Proof.
  refine (Build_DistinctHandles _ _ numbered _ _); [|by intros w []].
  split; unfold numbered; simpl.
  - intros ci w [Hn Hl]. split.
    + apply NoDup_cons. split; [|done]. intros ?%Hl. lia.
    + intros raw [->|Hr%Hl]%elem_of_cons; lia.
  - intros raw sql w. pose proof (mock_exec_next raw sql (tw_pg w)) as E.
    destruct (mock_exec raw sql (tw_pg w)). simpl in *. by rewrite E.
  - intros raw sql _ _ w. pose proof (mock_execParams_next raw sql (tw_pg w)) as E.
    destruct (mock_execParams raw sql (tw_pg w)). simpl in *. by rewrite E.
  - intros raw w [Hn Hl]. pose proof (remove_one_sublist raw (tw_open w)) as Hs. split.
    + by eapply sublist_NoDup.
    + intros x Hx. apply Hl. by eapply elem_of_sublist.
  - done.
Defined.
