(* ===== verification/Witnesses.v ===== *)
(** * Runs against the small PostgreSQL

    Each theorem with hypotheses about the database side is applied to a
    concrete state here, so that its hypotheses are seen to hold together. *)
From S2P Require Import Prelude CppStd Log Config Grpc Libpq MockResult Rpgb FlexMeta MockFlex.
From S2P Require Import QueryMeta PgState PqConn Pool PoolCv Sessions Streaming Handles QueryType.
From S2P Require Import QueryExecutor Health Queries Cells Client ShardService ShardSafety ShardSlots.
From S2P Require Import Service Delivery Immediate EndToEnd MockPg.
Local Open Scope Z_scope.
Local Open Scope cpp_scope.

Definition select_text : string := "SELECT id, name FROM t".

Definition insert_text : string := "INSERT INTO t VALUES (4)".
Definition returning_text : string := "INSERT INTO t VALUES (4), (5) RETURNING id, name".

Definition t_fields0 : list (string * Z * Z) := [("id", 23, 1); ("name", 25, 1)].
Definition t_rows0 : list (list (option string)) :=
  [[Some (be_bytes 4 1); Some "alpha"]; [Some (be_bytes 4 2); None]; [Some (be_bytes 4 3); Some ""]].

Definition answers0 (text : string) : option mock_answer :=
  if bool_decide (text = select_text) then Some (t_fields0, t_rows0)
  else if bool_decide (text = returning_text) then Some (t_fields0, take 2 t_rows0) else None.

(** A server with the connections 0 and 1 open. *)
Definition w0 : mock := mkMock true 2 ∅ ∅ ∅ answers0.
(** The same after connection 0 has been lost. *)
Definition w_lost : mock := mkMock true 2 {[0%nat]} ∅ ∅ answers0.
(** A server that accepts no connection. *)
Definition w_down : mock := mkMock false 2 ∅ ∅ ∅ answers0.

Definition params0 : ConnectParams := mkConnectParams "127.0.0.1" 5432 "app" "alice" "secret" 5 0.
Definition c0 : PqConnection := mkPqConnection 0 (Some 0%nat).
Definition c1 : PqConnection := mkPqConnection 1 (Some 1%nat).

Definition pool0 : ConnectionManager := mkConnectionManager params0 2 true [c0; c1] 0 0.

Definition sys_with (w : mock) (sessions : gmap string PqConnection) : Sys :=
  mkSys w 2 pool0 1 sessions [] ∅ 0.
Definition sys0 : Sys := sys_with w0 ∅.

Definition shard_with (w : mock) : Shard :=
  mkShard (sys_with w ∅) (Some (new_PgHealthMonitor 30)) (Some params0) (Some params0) [].

Definition request_of (text : string) : QueryRequest := mkQueryRequest 0 text "" "" "" [] 1.
Definition call0 : QCall := mkQCall sys0 (new_StreamingQuery params0 2) "".

Definition never (_ : nat) : bool := false.
Definition always (_ : nat) : bool := true.

(** ** The pool *)

Definition pool_run : pool_threads :=
  mkPoolThreads (mkConnectionManager params0 1 true [] 1 0) 0 [c0] 0 1.

Lemma pool_run_reachable : rtc pstep (pool_start params0 1) pool_run.
Proof.
  eapply rtc_l; [apply (ps_connect _ c0)|]. eapply rtc_l; [|apply rtc_refl].
  unfold pool_run. apply (ps_acquire_idle (mkPoolThreads (mkConnectionManager params0 1 true [c0] 0 0) 0 [] 0 1)).
  reflexivity.
Qed.

Lemma pool_accounting_witness :
  in_use_ (pt_pool pool_run)
  = Z.of_nat (pt_creating pool_run + length (pt_holding pool_run) + pt_lost pool_run)
  ∧ Z.of_nat (length (idle_ (pt_pool pool_run))) + in_use_ (pt_pool pool_run)
    ≤ 1 + Z.of_nat (pt_connects pool_run).
Proof. apply (pool_accounting params0 1 pool_run); [lia|apply pool_run_reachable]. Defined.

Lemma pool_wait_is_served_witness :
  1 ≤ Z.of_nat (pt_creating pool_run + length (pt_holding pool_run) + pt_lost pool_run)
  ∧ (∀ c, ∃ p', Acquire_section (Release_section c false (pt_pool pool_run)) = AcquireIdle c p')
  ∧ (1 = in_use_ (pt_pool pool_run) → ∀ c, ∃ p',
       Acquire_section (Release_section c true (pt_pool pool_run)) = AcquireReserve p'
       ∧ Acquire_section (give_back_slot (pt_pool pool_run)) = AcquireReserve p').
Proof.
  apply (pool_wait_is_served params0 1 pool_run); [lia|apply pool_run_reachable|reflexivity].
Defined.

(** One thread holds the only connection, one sleeps for it. *)
Definition cv_run : cv_threads :=
  mkCvThreads (mkPoolThreads (mkConnectionManager params0 1 true [] 1 0) 0 [c0] 0 0) 0 1 1.

Lemma cv_run_reachable : rtc cvstep (cv_start params0 1) cv_run.
Proof.
  eapply rtc_l; [apply cv_arrive|]. eapply rtc_l; [apply cv_reserve; reflexivity|].
  eapply rtc_l; [apply (cv_created (L := mock_libpq) _ _ _ _ _ _ _ _ (Some 0%nat))|].
  eapply rtc_l; [apply cv_arrive|]. eapply rtc_l; [apply cv_sleep; reflexivity|]. apply rtc_refl.
Qed.

(** The holder puts the connection back: the sleeper is awake. *)
Definition cv_back : cv_threads :=
  mkCvThreads (mkPoolThreads (mkConnectionManager params0 1 true [c0] 0 1) 0 [] 0 0) 1 0 1.

Lemma cv_back_reachable : rtc cvstep (cv_start params0 1) cv_back.
Proof.
  eapply rtc_r; [apply cv_run_reachable|].
  by apply (cv_release (L := mock_libpq) (pt_pool (cv_threads_of cv_run))
    (Release_section c0 false (pt_pool (cv_threads_of cv_run))) 0 [] c0 [] 0 0 0 1 1 false).
Qed.

Lemma pool_exclusive_witness :
  NoDup (pq_addr <$> pt_holding (cv_threads_of cv_back) ++ idle_ (cv_pool cv_back)).
Proof. apply (pool_exclusive params0 1 cv_back). apply cv_back_reachable. Defined.

(** The holder drops the connection instead: the sleeper sleeps on. *)
Definition cv_lost : cv_threads :=
  mkCvThreads (mkPoolThreads (mkConnectionManager params0 1 true [] 1 0) 0 [] 1 0) 0 1 1.

Lemma pool_no_lost_wakeup_witness :
  let t := cv_threads_of cv_lost in
  let added := (pt_connects t - pt_connects (cv_threads_of cv_run))%nat in
  capacity (cv_pool cv_lost) ≤ Z.of_nat (cv_ready cv_lost + added)
  ∧ ((cv_ready cv_lost + added = 0)%nat →
     idle_ (cv_pool cv_lost) = []
     ∧ 1 ≤ Z.of_nat (pt_creating t + length (pt_holding t) + pt_lost t)).
Proof.
  apply (pool_no_lost_wakeup params0 1 cv_run cv_lost);
    [lia|apply cv_run_reachable|right; reflexivity| |simpl; lia].
  eapply rtc_l; [|apply rtc_refl].
  apply (cv_drop (L := mock_libpq) (pt_pool (cv_threads_of cv_run)) 0 [] c0 [] 0 0 0 1 1).
Defined.

Lemma pool_exceeds_size_witness :
  ∃ t, rtc pstep (pool_start params0 1) t
    ∧ length (pt_holding t) = 5%nat ∧ in_use_ (pt_pool t) = 5.
Proof. apply (pool_exceeds_size params0 1 c0 5). lia. Defined.

Definition params1 : ConnectParams := mkConnectParams "127.0.0.1" 5432 "other" "bob" "pw" 5 0.

Lemma Acquire_serves_old_credentials_witness :
  ∃ s', (Configure params1 2 ;; Acquire) sys0 = (Ret (Some c0), s')
    ∧ idle_ (sy_pool s') = [c1] ∧ params_ (sy_pool s') = params1 ∧ sy_pg s' = sy_pg sys0.
Proof. apply (Acquire_serves_old_credentials params1 2 c0 [c1] sys0). reflexivity. Defined.

(** ** Sessions *)

Lemma GetOrCreate_bounded_witness :
  ∃ r s', GetOrCreate "s1" params0 sys0 = (Ret r, s') ∧ sessions_bounded s'.
Proof. apply (GetOrCreate_bounded "s1" params0 sys0); [done|by vm_compute]. Defined.

Definition c2 : PqConnection := mkPqConnection 2 (Some 2%nat).
(** After the session "s1" got the new connection 2. *)
Definition sys_session : Sys :=
  mkSys (mkMock true 3 ∅ ∅ ∅ answers0) 3 pool0 1 {["s1" := c2]} [c2] ∅ 0.

Lemma session_pinned_witness :
  GetOrCreate "s1" params1 sys_session = (Ret (Some c2, None), set_refs [c2; c2] sys_session).
Proof.
  apply (session_pinned "s1" params0 params1 sys0 sys_session c2 None);
    [done|by vm_compute|reflexivity|reflexivity].
Defined.

Lemma GetOrCreate_refuses_witness :
  GetOrCreate "s2" params0 sys_session = (Ret (None, Some "session limit exceeded"), sys_session).
Proof. apply (GetOrCreate_refuses "s2" params0 sys_session); [done|reflexivity|reflexivity]. Defined.

(** ** Streaming *)

Definition opened_call : QCall := snd (Open (request_of select_text) call0).

Lemma query_gives_slot_back_witness :
  ∃ sc sa, (fetch_n 2 ;; Close) opened_call = (Ret tt, sc) ∧ (fetch_n 2 ;; Abort) opened_call = (Ret tt, sa)
    ∧ connection_ (qc_stream sc) = None ∧ connection_ (qc_stream sa) = None
    ∧ in_use_ (sy_pool (qc_sys sc)) = in_use_ (sy_pool (qc_sys call0))
    ∧ in_use_ (sy_pool (qc_sys sa)) = in_use_ (sy_pool (qc_sys call0)).
Proof.
  apply (query_gives_slot_back (request_of select_text) call0 opened_call true 2);
    [reflexivity|reflexivity|apply (run_fst (Open (request_of select_text) call0)); by vm_compute].
Defined.

(** A call that holds connection 0. *)
Definition call_held : QCall :=
  mkQCall sys0 (set_connection (Some c0) (new_StreamingQuery params0 2)) "".

Lemma OpenCursor_deadlocks_witness :
  fst (OpenCursor (request_of "SELECT oops FROM") call_held) = Stuck SelfDeadlock.
Proof.
  apply (OpenCursor_deadlocks (request_of "SELECT oops FROM") call_held c0 0%nat
    (command_table "BEGIN" "") (mk_set_txn {[0%nat]} w0) (Some (error_table "syntax error"))
    (mk_set_txn {[0%nat]} w0)); try reflexivity; done.
Defined.

Definition executed : outcome (QueryExecution * option string) * Sys :=
  Execute params0 (request_of insert_text) sys0.
Definition executed_value : QueryExecution :=
  mkQueryExecution (Some (command_table "INSERT 0 1" "1")) (Some c0) true false.

Lemma executed_run :
  Execute params0 (request_of insert_text) sys0 = (Ret (executed_value, None), snd executed).
Proof. apply (run_fst (Execute params0 (request_of insert_text) sys0)). reflexivity. Qed.

Lemma Execute_FinishQuery_witness :
  ∃ ex' s2, FinishQuery executed_value (snd executed) = (Ret ex', s2)
    ∧ in_use_ (sy_pool s2) = in_use_ (sy_pool sys0)
    ∧ ex_result ex' = None ∧ ex_connection ex' = None.
Proof.
  apply (Execute_FinishQuery params0 (request_of insert_text) sys0 (snd executed) executed_value None);
    [reflexivity|reflexivity|exact executed_run].
Defined.

(** A statement that fails on a pooled connection: the caller gets neither the
    result, which was cleared, nor an error text. *)
Theorem Execute_loses_error :
  fst (Execute params0 (request_of "DELETE FRM t") sys0)
  = Ret (mkQueryExecution None None false false, None).
Proof. reflexivity. Qed.

(** ** Health *)

Definition attached : PgHealthMonitor := AttachServer true (new_PgHealthMonitor 30).

Lemma OnConnectSuccess_publishes_witness :
  ∃ s', OnConnectSuccess params0 0 (mkHState sys0 attached []) = (Ret tt, s')
    ∧ all_serving (hs_mon s') true
    ∧ probe_thread_ (hs_mon s') = true ∧ has_params_ (hs_mon s') = true
    ∧ (probe_thread_ attached = false → stop_ (hs_mon s') = false)
    ∧ frame sys0 (hs_sys s').
Proof. apply (OnConnectSuccess_publishes params0 0 (mkHState sys0 attached [])). reflexivity. Defined.

(** A monitor up to the first probes that succeed. *)
Definition life : list hevent := [EAttach true; ETick; EConnectFailure; EConnectSuccess params0 0; ETick].
Definition born : HState := mkHState sys0 (new_PgHealthMonitor 30) [].

Lemma not_serving_before_probe_witness :
  serving_status (hs_mon (snd (run_events life born))) !! "mtdd.MtddShard" = Some true
  ∧ (true ∈ probes life born ∨ EServingWithoutPg ∈ life).
Proof.
  assert (E : serving_status (hs_mon (snd (run_events life born))) !! "mtdd.MtddShard" = Some true)
    by reflexivity.
  split; [exact E|]. exact (not_serving_before_probe 30 life sys0 [] "mtdd.MtddShard" E).
Defined.

(** Other threads that do nothing until they stop the monitor in sleep 3. *)
Definition stop_at_3 (t : nat) : M HState unit :=
  if bool_decide (t = 3%nat) then on_monitor (set_stop true) else m_ret tt.

Lemma stop_at_3_ok t s : ∃ s', stop_at_3 t s = (Ret tt, s')
  ∧ probe_interval_sec_ (hs_mon s') = probe_interval_sec_ (hs_mon s)
  ∧ (stop_ (hs_mon s) = true → stop_ (hs_mon s') = true)
  ∧ (t = 3%nat → stop_ (hs_mon s') = true).
Proof. unfold stop_at_3. case_bool_decide; eexists; split_and!; done. Qed.

Lemma ProbeLoop_stops_witness :
  ∃ s', ProbeLoop 5 stop_at_3 0 (mkHState sys0 attached []) = (Ret tt, s').
Proof.
  apply (ProbeLoop_stops stop_at_3 3 stop_at_3_ok (mkHState sys0 attached [])); done.
Defined.

(** ** The service *)

Definition q0 : QState := mkQState (shard_with w0) new_rpc.

Lemma QueryStream_grammar_witness :
  match QueryStream never always 10 default_config (request_of select_text) 7 q0 with
  | (Ret st, s') =>
      well_formed (kinds (qs_rpc s'))
      ∧ (if status_ok st then (∀ i, always i = true) → complete (kinds (qs_rpc s'))
         else data_part (kinds (qs_rpc s')))
  | (_, s') => well_formed (kinds (qs_rpc s'))
  end.
Proof. apply (QueryStream_grammar never always). reflexivity. Defined.

Lemma QueryStream_refuses_witness :
  ∃ st s', QueryStream never always 10 default_config (mkQueryRequest 0 select_text "" "" "" [] 0) 7 q0
           = (Ret st, s')
    ∧ status_ok st = false ∧ qs_rpc s' = qs_rpc q0 ∧ same_but_log (qs_shard q0) (qs_shard s').
Proof. apply (QueryStream_refuses never always). right. right. left. done. Defined.

Definition connect0 : ConnectRequest := mkConnectRequest 0 "app" "mallory" "wrong" 5432 "".

Lemma connect0_fails :
  connect_attempt default_config connect0 (shard_with w_down) = Ret (inl "connection refused").
Proof. reflexivity. Qed.

Lemma failed_Connect_replaces_pool_params_witness :
  ∃ s', Connect default_config connect0 7 (shard_with w_down)
        = (Ret (Status_OK, mkConnectResponse false "connection refused"), s')
    ∧ connect_params_ s' = Some params0
    ∧ params_ (pool_of s') = BuildConnectParams default_config connect0.
Proof.
  apply (failed_Connect_replaces_pool_params default_config connect0 7 (shard_with w_down)
    "connection refused"); [reflexivity|done|done|exact connect0_fails].
Defined.

Lemma accepted0 w : accepted default_config (request_of select_text) params0 (shard_with w).
Proof. by split. Qed.

Definition q_done : QState :=
  snd (QueryStream never always 10 default_config (request_of select_text) 7 q0).

Lemma QueryStream_returns_slot_witness :
  in_use_ (pool_of (qs_shard q_done)) = in_use_ (pool_of (qs_shard q0)).
Proof.
  apply (QueryStream_returns_slot never always 10 default_config (request_of select_text) 7 q0 q_done
    Status_OK); [reflexivity|right; intros p [= <-]; by vm_compute|].
  apply (run_fst (QueryStream never always 10 default_config (request_of select_text) 7 q0)).
  by vm_compute.
Defined.

Lemma QueryStream_leaks_slot_witness :
  ∃ s', QueryStream never always 10 default_config (request_of select_text) 7
          (mkQState (shard_with w_lost) new_rpc) = (Ret Status_OK, s')
    ∧ in_use_ (pool_of (qs_shard s')) = 1
    ∧ idle_ (pool_of (qs_shard s')) = [c1]
    ∧ sy_refs (sh_sys (qs_shard s')) = [].
Proof.
  apply (QueryStream_leaks_slot never always 10 default_config (request_of select_text) params0 7
    (mkQState (shard_with w_lost) new_rpc) c0 [c1] 0%nat
    (Some (error_table "server closed the connection")) w_lost (accepted0 w_lost)); try reflexivity.
  done.
Defined.

Lemma rows0_decode n : rows_decode JNull decodePgCell (mock_field <$> t_fields0) (take n t_rows0).
Proof. apply Forall_take, (bool_decide_unpack (rows_decode _ _ _ _)). by vm_compute. Qed.

(** The whole run, decoded by the client. *)
Lemma QueryStream_delivers_witness :
  ∃ s', QueryStream never always 5 default_config (request_of select_text) 7 q0 = (Ret Status_OK, s')
    ∧ decodeQueryStreamToPgResult JNull decodePgCell (rpc_sent (qs_rpc s'))
      = inr (mkPgResult "FETCH" 3 None (mock_field <$> t_fields0)
               (answer_object JNull decodePgCell (mock_field <$> t_fields0) <$> t_rows0))
    ∧ in_use_ (pool_of (qs_shard s')) = in_use_ (pool_of (qs_shard q0)).
Proof.
  apply (QueryStream_delivers never always JNull decodePgCell (λ _, eq_refl) (λ _, eq_refl) 5
    default_config (request_of select_text) params0 7 q0 c0 [c1] 0%nat (mock_field <$> t_fields0)
    t_rows0 (accepted0 w0)); try reflexivity; try done.
  - split; [split; [done|simpl; lia]|done].
  - exists t_fields0. split; [reflexivity|]. split; [done|].
    unfold answer_ok. simpl. split; [done|]. split; [done|].
    repeat (apply Forall_cons; split; [split; [done|]; repeat (apply Forall_cons; split; [done|]); by apply Forall_nil|]).
    by apply Forall_nil.
  - repeat (apply Forall_cons; split; [by vm_compute|]). by apply Forall_nil.
  - exact (rows0_decode 3).
Defined.

(** ** Statements without a cursor *)

Lemma QueryStream_command_witness :
  ∃ s', QueryStream never always 1 default_config (request_of insert_text) 7 q0 = (Ret Status_OK, s')
    ∧ decodeQueryStreamToPgResult JNull decodePgCell (rpc_sent (qs_rpc s'))
      = inr (mkPgResult "INSERT" 1 None [] [])
    ∧ in_use_ (pool_of (qs_shard s')) = in_use_ (pool_of (qs_shard q0))
    ∧ idle_ (pool_of (qs_shard s')) = [c1; c0].
Proof.
  apply (QueryStream_command never always JNull decodePgCell (λ _, eq_refl) (λ _, eq_refl) 0
    default_config (request_of insert_text) params0 7 q0 c0 [c1] 0%nat) with
    (r := command_table "INSERT 0 1" "1") (w1 := w0) (tag := "INSERT 0 1") (n := 1);
    try reflexivity; by split.
Defined.

Lemma QueryStream_returning_witness :
  ∃ s', QueryStream never always 2 default_config (request_of returning_text) 7 q0 = (Ret Status_OK, s')
    ∧ decodeQueryStreamToPgResult JNull decodePgCell (rpc_sent (qs_rpc s'))
      = inr (mkPgResult "INSERT" 2 None (mock_field <$> t_fields0)
               (answer_object JNull decodePgCell (mock_field <$> t_fields0)
                <$> result_rows (rows_table "INSERT 0 2" (t_fields0, take 2 t_rows0))))
    ∧ in_use_ (pool_of (qs_shard s')) = in_use_ (pool_of (qs_shard q0)).
Proof.
  apply (QueryStream_returning never always JNull decodePgCell (λ _, eq_refl) (λ _, eq_refl) 0
    default_config (request_of returning_text) params0 7 q0 c0 [c1] 0%nat) with
    (r := rows_table "INSERT 0 2" (t_fields0, take 2 t_rows0)) (w1 := w0);
    try reflexivity; try done.
  - repeat (apply Forall_cons; split; [by vm_compute|]). by apply Forall_nil.
  - exact (rows0_decode 2).
Defined.

Lemma QueryStream_statement_error_witness :
  ∃ s', QueryStream never always 0 default_config (request_of "DELETE FRM t") 7 q0 = (Ret Status_OK, s')
    ∧ decodeQueryStreamToPgResult JNull decodePgCell (rpc_sent (qs_rpc s')) = inl "syntax error"
    ∧ in_use_ (pool_of (qs_shard s')) = in_use_ (pool_of (qs_shard q0))
    ∧ idle_ (pool_of (qs_shard s')) = [c1].
Proof.
  apply (QueryStream_statement_error never always JNull decodePgCell (λ _, eq_refl) 0
    default_config (request_of "DELETE FRM t") params0 7 q0 c0 [c1] 0%nat) with
    (res := Some (error_table "syntax error")) (w1 := w0); try reflexivity; by split.
Defined.

(** A query whose connection is lost after it was opened. *)
Definition h_lost : Handler :=
  mkHandler (mkQCall (set_pg w_lost (qc_sys opened_call)) (qc_stream opened_call) "") new_rpc
    (mkResultSchema "" []) false false 0 None.

Lemma failed_fetch_reaches_client_witness :
  ∃ h', stream_loop never always 1 2 h_lost = (Ret Status_OK, h')
    ∧ decodeQueryStreamToPgResult JNull decodePgCell (rpc_sent (hd_rpc h'))
      = inl "server closed the connection"
    ∧ connection_ (qc_stream (hd_call h')) = None
    ∧ in_use_ (sy_pool (qc_sys (hd_call h'))) = other_slots (hd_call h_lost).
Proof.
  apply (failed_fetch_reaches_client never always JNull decodePgCell (λ _, eq_refl) (λ _, eq_refl)
    0 2 h_lost [] (snd (Fetch (hd_call h_lost))) "server closed the connection").
  - split; [reflexivity|]. by intros ? ?%elem_of_nil.
  - reflexivity.
  - apply (run_fst (Fetch (hd_call h_lost))). reflexivity.
  - reflexivity.
  - done.
Defined.

(** ** The query's type *)

Lemma query_well_typed_witness :
  query_ok (L := mock_libpq) (new_StreamingQuery params0 2)
  ∧ query_ok (qc_stream (snd (Open (request_of select_text)
                                (mkQCall sys0 (new_StreamingQuery params0 2) ""))))
  ∧ query_ok (qc_stream (snd (Fetch opened_call))) ∧ query_ok (qc_stream (snd (Close opened_call)))
  ∧ query_ok (qc_stream (snd (Abort opened_call)))
  ∧ ∀ r s', Fetch opened_call = (Ret (Some r), s') →
      if use_cursor_ (qc_stream opened_call) then PQresultStatus r = PGRES_TUPLES_OK
      else IsOkStatus (PQresultStatus r) = true.
Proof.
  apply (query_well_typed params0 2 (request_of select_text) sys0 "" opened_call).
  split; [reflexivity|intros _; split; [reflexivity|by exists 0]|reflexivity|discriminate|reflexivity].
Defined.

(** ** Handles *)

(** The small server with a record of its handles. *)
Definition tmock : Libpq := tracked (L := mock_libpq).
Definition tw0 : @pgworld tmock := mkTracked (L := mock_libpq) w0 [] false 0.

Lemma tw0_clean : ¬ misused tw0.
Proof. done. Qed.

(** [Connect], and a query that has fetched once. *)
Definition v0 : @Server tmock := server_start tw0 4.
Definition v1 : @Server tmock :=
  mkServer (snd ((Configure params0 2 ;; Pool.Connect) (sv_sys v0))) [].
Definition p2 : @Sys tmock * @StreamingQuery tmock :=
  after_op (Open (request_of select_text)) (sv_sys v1) (new_StreamingQuery params0 2) "".
Definition p3 : @Sys tmock * @StreamingQuery tmock := after_op Fetch p2.1 p2.2 "".
Definition v3 : @Server tmock := mkServer p3.1 [p3.2].

Lemma v3_reachable : rtc (qstep (L := tmock)) v0 v3.
Proof.
  eapply (rtc_l _ _ v1); [exact (q_connect (L := tmock) (sv_sys v0) [] params0 2)|].
  eapply (rtc_l _ _ (mkServer p2.1 [p2.2])).
  { exact (q_open (L := tmock) (sv_sys v1) [] params0 2 (request_of select_text) "" p2.1 p2.2
      (surjective_pairing p2)). }
  eapply (rtc_l _ _ v3); [|apply rtc_refl].
  exact (q_fetch (L := tmock) p2.1 [] p2.2 [] "" p3.1 p3.2 (surjective_pairing p3)).
Qed.

Lemma handles_exact_witness :
  ¬ misused (sy_pg (sv_sys v3))
  ∧ ∃ l, NoDup (pq_addr <$> l)
      ∧ (∀ c, c ∈ l ↔ c ∈ omap connection_ (sv_queries v3)
                       ∨ c ∈ idle_ (sy_pool (sv_sys v3))
                       ∨ ∃ sid, sy_sessions (sv_sys v3) !! sid = Some c)
      ∧ open_handles (sy_pg (sv_sys v3)) ≡ₚ omap pq_conn_ l.
Proof. apply (handles_exact tw0 4 v3); [done|done|done|exact v3_reachable]. Defined.

Lemma queries_isolated_witness :
  NoDup (pq_addr <$> pooled_in (sv_queries v3) ++ idle_ (sy_pool (sv_sys v3))
                     ++ (map_to_list (sy_sessions (sv_sys v3))).*2).
Proof. apply (queries_isolated tw0 4 v3); [done|done|done|exact v3_reachable]. Defined.

Lemma v1_reachable : rtc (qstep (L := tmock)) v0 v1.
Proof. apply rtc_once. exact (q_connect (L := tmock) (sv_sys v0) [] params0 2). Qed.

Lemma closing_finishes_all_witness :
  ∃ y', (CloseAll ;; CloseAll_sessions) (sv_sys v1) = (Ret tt, y')
    ∧ open_handles (sy_pg y') = [] ∧ ¬ misused (sy_pg y').
Proof. apply (closing_finishes_all tw0 4 (sv_sys v1)); [done|done|done|exact v1_reachable]. Defined.

(** ** The life of a service *)

Definition shard0 : @Shard tmock := new_Shard default_config None tw0 [].
Definition login : rpc_call := CallConnect (mkConnectRequest 0 "app" "alice" "secret" 5432 "") 7.
Definition ask : rpc_call := CallQuery never always 10 (request_of select_text) 7.
Definition shard1 : @Shard tmock := snd (serve default_config login shard0).
Definition shard2 : @Shard tmock := snd (serve default_config ask shard1).

Definition answer_of (r : outcome rpc_answer * @Shard tmock) : rpc_answer :=
  match r with (Ret a, _) => a | _ => AnsQuery Status_OK [] end.
Definition life2 : list (rpc_call * rpc_answer) :=
  [(login, AnsConnect Status_OK (mkConnectResponse true "connected"));
   (ask, answer_of (serve default_config ask shard1))].

Lemma shard2_served : serves default_config shard0 life2 shard2.
Proof.
  apply (serves_snoc default_config shard0
    [(login, AnsConnect Status_OK (mkConnectResponse true "connected"))] shard1).
  - apply (serves_snoc default_config shard0 [] shard0); [constructor|].
    apply (run_fst (serve default_config login shard0)). by vm_compute.
  - apply (run_fst (serve default_config ask shard1)). by vm_compute.
Qed.


Lemma service_invariant_witness :
  let y := sh_sys shard2 in
  let conns := idle_ (sy_pool y) ++ (map_to_list (sy_sessions y)).*2 in
  sy_refs y = [] ∧ sy_locked y = ∅ ∧ sessions_bounded y
  ∧ 0 ≤ in_use_ (sy_pool y) ≤ Z.of_nat (losses life2)
  ∧ NoDup (pq_addr <$> conns) ∧ open_handles (sy_pg y) ≡ₚ omap pq_conn_ conns
  ∧ ¬ misused (sy_pg y).
Proof.
  apply (service_invariant default_config None tw0 [] life2 shard2);
    [done|done|done|exact shard2_served].
Defined.

(** A client that cancels after the first batch. *)
Definition cancel_after_first (i : nat) : bool := (1 <? i)%nat.

(** A query that is answered in full clears every result it got; when the client
    cancels in the middle, the last result is never cleared. *)
Theorem cancelled_query_leaks_result :
  tw_results (L := mock_libpq) (sy_pg (sh_sys shard2)) = 0
  ∧ tw_results (L := mock_libpq) (sy_pg (sh_sys (snd (serve default_config
      (CallQuery cancel_after_first always 10 (request_of select_text) 7) shard1)))) = 1.
Proof. split; by vm_compute. Qed.

(** ** Two queries of one session *)

Definition session_request : QueryRequest := mkQueryRequest 0 select_text "" "" "s1" [] 1.
Definition open_in (y : @Sys mock_libpq) : QCall :=
  snd (Open session_request (mkQCall y (new_StreamingQuery params0 2) "")).

(** Query A of the session opens its cursor, query B opens another one, then A
    is closed. *)
Definition query_a : QCall := open_in sys0.
Definition query_b : QCall := open_in (qc_sys query_a).
Definition a_closed : QCall := snd (Close (mkQCall (qc_sys query_b) (qc_stream query_a) "")).

(** Closing a query commits the transaction that another query of the same
    session streams in: its cursor is gone, and its next fetch fails. *)
Theorem session_close_breaks_other :
  cursor_open_ (qc_stream query_a) = true ∧ cursor_open_ (qc_stream query_b) = true
  ∧ connection_ (qc_stream query_a) = connection_ (qc_stream query_b)
  ∧ qc_error a_closed = ""
  ∧ fst (Fetch (mkQCall (qc_sys a_closed) (qc_stream query_b) "")) = Ret None
  ∧ qc_error (snd (Fetch (mkQCall (qc_sys a_closed) (qc_stream query_b) ""))) = "cursor does not exist".
Proof.
  split_and!; [by vm_compute|by vm_compute| |by vm_compute|by vm_compute|by vm_compute].
  vm_cast_no_check (eq_refl (connection_ (qc_stream query_b))).
Qed.
