(* ===== verification/CallWitnesses.v ===== *)
(** * Runs of concurrent calls

    A service on the small PostgreSQL with a record of its handles: two clients
    connect, a query on the pool and one of a session run at the same time, and
    a third one hangs. The theorems about concurrent calls are applied to its
    states. *)
From S2P Require Import Prelude CppStd Log Config Grpc Libpq MockResult Rpgb FlexMeta MockFlex.
From S2P Require Import QueryMeta PgState PqConn Pool Sessions Streaming Handles QueryExecutor.
From S2P Require Import Health Queries Cells Client ShardService ShardSafety ShardSlots Service Delivery.
From S2P Require Import EndToEnd Isolation Calls CallsInv Progress Wakeups Locks World ConcDelivery ConcStatements.
From S2P Require Import ConnectConc Immediate ClientRequest MockPg Witnesses.
Local Open Scope Z_scope.
Local Open Scope cpp_scope.

Definition start_in (config_ : ServerConfig) : @Running tmock := started config_ None tw0 [].
#[local] Abbreviation start0 := (start_in default_config).

Definition login0 : ConnectRequest := mkConnectRequest 0 "app" "alice" "secret" 5432 "".

(** [Connect] answers, then two queries are admitted. *)
Definition admitted : list event :=
  EvConnectBegin login0 :: replicate 5 (EvConnect 0 7)
  ++ [EvBegin never always (request_of select_text); EvBegin never always session_request].

(** The first opens its query, the second opens one on a session, both fetch, and
    a third whose statement is wrong is opened in between. *)
Definition mixed : list event :=
  admitted
  ++ [EvQuery 0; EvQuery 1; EvBegin never always (request_of "SELECT nothing"); EvQuery 1; EvQuery 2;
      EvQuery 0].

Definition state_in (config_ : ServerConfig) (es : list event) : @Running tmock :=
  default (start_in config_) (schedule config_ es (start_in config_)).
#[local] Abbreviation state_of := (state_in default_config).

Definition v_admitted : @Running tmock := state_of admitted.
Definition v_mixed : @Running tmock := state_of mixed.

Lemma state_reached config_ es :
  match schedule config_ es (start_in config_) with Some _ => true | None => false end = true →
  rtc (step config_) (start_in config_) (state_in config_ es).
Proof.
  unfold state_in. destruct (schedule config_ es (start_in config_)) as [v|] eqn:E; [|done].
  intros _. by apply (schedule_run _ es).
Qed.

Lemma v_admitted_reached : rtc (step default_config) start0 v_admitted.
Proof. apply state_reached. by vm_compute. Qed.
Lemma v_mixed_reached : rtc (step default_config) start0 v_mixed.
Proof. apply state_reached. by vm_compute. Qed.

(** A call of a state. *)
Definition no_call : @QueryCall tmock :=
  mkQueryCall never always (request_of "") (new_handler (sh_sys (rn_shard start0)) new_rpc params0 1)
    (Hung CvWait) false.
Definition call_of (v : @Running tmock) (i : nat) : @QueryCall tmock := default no_call (rn_queries v !! i).

Lemma call_found v i :
  match rn_queries v !! i with Some _ => true | None => false end = true →
  rn_queries v !! i = Some (call_of v i).
Proof. unfold call_of. by destruct (rn_queries v !! i). Qed.

Lemma calls_grammar_witness :
  let l := rc_kind <$> rpc_sent (hd_rpc (qk_local (call_of v_mixed 0))) in
  well_formed l
  ∧ ∀ st, qk_phase (call_of v_mixed 0) = Returned st →
      if status_ok st then (∀ j, qk_write_ok (call_of v_mixed 0) j = true) → complete l else data_part l.
Proof.
  apply (calls_grammar default_config None tw0 [] v_mixed 0); [exact v_mixed_reached|].
  apply call_found. by vm_compute.
Defined.

Lemma calls_handles_witness :
  let y := sh_sys (rn_shard v_mixed) in
  ¬ misused (sy_pg y)
  ∧ (∃ l, NoDup (pq_addr <$> l)
       ∧ (∀ c, c ∈ l ↔ c ∈ omap connection_ (streams v_mixed) ∨ c ∈ idle_ (sy_pool y)
                        ∨ ∃ sid, sy_sessions y !! sid = Some c)
       ∧ open_handles (sy_pg y) ≡ₚ omap pq_conn_ l)
  ∧ NoDup (pq_addr <$> pooled_in (streams v_mixed) ++ idle_ (sy_pool y)
             ++ (map_to_list (sy_sessions y)).*2)
  ∧ ∀ i j q q' c, i ≠ j → rn_queries v_mixed !! i = Some q → rn_queries v_mixed !! j = Some q' →
      connection_ (stream_of q) = Some c → pooled_ (stream_of q) = true →
      connection_ (stream_of q') ≠ Some c.
Proof.
  apply (calls_handles default_config None tw0 [] v_mixed); [done|done|done|exact v_mixed_reached].
Defined.

(** The second call is in its loop: it goes on. *)
Lemma calls_progress_witness : ∃ v', step default_config v_mixed v' ∧ goes_on (call_of v_mixed 1) v_mixed v' 1.
Proof.
  assert (Hi : rn_queries v_mixed !! 1%nat = Some (call_of v_mixed 1)) by (apply call_found; by vm_compute).
  pose proof (calls_progress default_config None tw0 [] v_mixed 1 (call_of v_mixed 1) v_mixed_reached Hi) as H.
  assert (Ep : qk_phase (call_of v_mixed 1) = Looping) by (by vm_compute). rewrite Ep in H. exact H.
Defined.

(** The third call hung with the mutex of its connection locked. *)
Lemma calls_mutexes_witness :
  bool_decide (sy_locked (sh_sys (rn_shard v_mixed)) = ∅) = false
  ∧ let locked := sy_locked (sh_sys (rn_shard v_mixed)) in
    (∀ a, a ∈ locked → ∃ j q why d, rn_queries v_mixed !! j = Some q ∧ qk_phase q = Hung why
       ∧ connection_ (stream_of q) = Some d ∧ pq_addr d = a)
    ∧ (∀ c, c ∈ idle_ (pool_of (rn_shard v_mixed)) → pq_addr c ∉ locked)
    ∧ ∀ i q c, rn_queries v_mixed !! i = Some q → (∀ why, qk_phase q ≠ Hung why) →
        connection_ (stream_of q) = Some c → pooled_ (stream_of q) = true → pq_addr c ∉ locked.
Proof.
  split; [by vm_compute|].
  apply (calls_mutexes default_config None tw0 [] v_mixed); [done|done|done|exact v_mixed_reached].
Defined.

(** ** A pool of one connection *)

Definition small_pool : ServerConfig :=
  let d := default_config in {|
    listen_mode := listen_mode d; unix_socket_path := unix_socket_path d;
    listen_address := listen_address d; listen_port := listen_port d;
    unix_socket_mode := unix_socket_mode d; unix_socket_dir_mode := unix_socket_dir_mode d;
    unix_socket_create_dir := unix_socket_create_dir d; host_index := host_index d; pg_host := pg_host d;
    pool_size := 1;
    pg_fetch_rows := pg_fetch_rows d; pg_wire_batch_rows := pg_wire_batch_rows d;
    pg_connect_timeout_sec := pg_connect_timeout_sec d; max_sessions := max_sessions d;
    grpc_max_threads := grpc_max_threads d; production_mode := production_mode d;
    grpc_reflection := grpc_reflection d; notify_enabled := notify_enabled d;
    statement_timeout_ms := statement_timeout_ms d; max_query_text_bytes := max_query_text_bytes d;
    max_notify_payload_bytes := max_notify_payload_bytes d;
    max_notify_channel_bytes := max_notify_channel_bytes d;
    health_probe_interval_sec := health_probe_interval_sec d; health_require_pg := health_require_pg d |}.

(** The first call has the connection, the second one goes to sleep. *)
Definition one_sleeps : list event :=
  EvConnectBegin login0 :: replicate 5 (EvConnect 0 7)
  ++ [EvBegin never always (request_of select_text); EvQuery 0;
      EvBegin never always (request_of select_text); EvQuery 1].
Definition v_sleeps : @Running tmock := state_in small_pool one_sleeps.
(** The first one fetches its rows. *)
Definition v_waits : @Running tmock := state_in small_pool (one_sleeps ++ [EvQuery 0]).

Lemma schedule_app (L0 : Libpq) (F0 : FlexBuffers) config_ es es' (v : @Running L0) :
  schedule config_ (es ++ es') v = (v' ← schedule config_ es v; schedule config_ es' v').
Proof.
  revert v. induction es as [|e es IH]; intros v; [done|]. simpl.
  destruct (fire config_ e v); [|done]. apply IH.
Qed.

Lemma sleeps_waits : rtc (step small_pool) v_sleeps v_waits.
Proof.
  unfold v_sleeps, v_waits, state_in. rewrite schedule_app.
  assert (Hs : match schedule small_pool one_sleeps (start_in small_pool) with
               | Some v => match schedule small_pool [EvQuery 0] v with Some _ => true | None => false end
               | None => false end = true) by (by vm_compute).
  destruct (schedule small_pool one_sleeps _) as [v|]; [|done]. simpl in *.
  destruct (fire small_pool (EvQuery 0) v) as [v'|] eqn:E; [|done]. eapply rtc_once, fire_step, E.
Qed.

Lemma calls_wakeups_witness :
  (trying v_waits = 0 ∧ joined v_waits = joined v_sleeps)
  ∧ idle_ (pool_of (rn_shard v_waits)) = []
  ∧ configured_size small_pool ≤ Z.of_nat (length (pooled_in (streams v_waits)))
                                 + Z.of_nat (length (lost_calls (rn_queries v_waits))).
Proof.
  assert (Ht : trying v_waits = 0 ∧ joined v_waits = joined v_sleeps) by (split; by vm_compute).
  split; [exact Ht|]. destruct Ht as [H1 H2].
  eapply (calls_wakeups small_pool None tw0 [] v_sleeps v_waits 1 (call_of v_waits 1)); [| | | | |exact H1|exact H2].
  - apply state_reached. by vm_compute.
  - right. by vm_compute.
  - exact sleeps_waits.
  - apply call_found. by vm_compute.
  - by vm_compute.
Defined.

(** When the first call is done, its [Release] wakes the second one, which takes the
    connection. A [Connect] wakes nobody: the second call sleeps on, with an idle
    connection in the pool. *)
Example release_wakes :
  qk_phase (call_of (state_in small_pool (one_sleeps ++ [EvQuery 0; EvQuery 0; EvQuery 0])) 1) = Opening
  ∧ qk_phase (call_of (state_in small_pool
      (one_sleeps ++ [EvQuery 0; EvQuery 0; EvQuery 0; EvQuery 1])) 1) = Looping.
Proof. split; by vm_compute. Qed.

Example connect_leaves_asleep :
  let v := state_in small_pool (one_sleeps ++ EvConnectBegin login0 :: replicate 5 (EvConnect 1 7)) in
  qk_phase (call_of v 1) = Asleep ∧ trying v = 0 ∧ length (idle_ (pool_of (rn_shard v))) = 1%nat.
Proof. split_and!; by vm_compute. Qed.

(** ** Delivery *)

(** The connection that [Connect] has left in the pool. *)
Definition cp : @PqConnection tmock := mkPqConnection (L := tmock) 0 (Some 2%nat).

Lemma admitted_call : qk_request (call_of v_admitted 0) = request_of select_text.
Proof. by vm_compute. Qed.

Lemma reading_of (q : @QueryCall tmock) :
  qk_cancelled q = never → qk_write_ok q = always → reading q.
Proof. intros E1 E2. split; intros j; [by rewrite E1|by rewrite E2]. Qed.

Lemma admitted_reading : reading (call_of v_admitted 0).
Proof. apply reading_of; by vm_compute. Qed.

Lemma admitted_select : cursor_request (qk_request (call_of v_admitted 0)).
Proof. rewrite admitted_call. split; by vm_compute. Qed.

Definition w_admitted : mock := mkMock true 3 ∅ ∅ ∅ answers0.

Lemma admitted_world :
  sy_pg (sh_sys (rn_shard v_admitted)) = mkTracked (L := mock_libpq) w_admitted [2%nat] false 0.
Proof. vm_cast_no_check (eq_refl (mkTracked (L := mock_libpq) w_admitted [2%nat] false 0)). Qed.

Lemma answer0_ok : answer_ok (t_fields0, t_rows0).
Proof.
  unfold answer_ok. simpl. split; [done|]. split; [done|].
  repeat (apply Forall_cons; split; [split; [done|]; repeat (apply Forall_cons; split; [done|]); by apply Forall_nil|]).
  by apply Forall_nil.
Qed.

Lemma admitted_ready :
  cursor_ready (qk_request (call_of v_admitted 0)) cp [] 2%nat (mock_field <$> t_fields0) t_rows0
    (sh_sys (rn_shard v_admitted)).
Proof.
  rewrite admitted_call. split.
  - vm_cast_no_check (eq_refl [cp]).
  - done.
  - rewrite admitted_world. split; [split; [done|simpl; lia]|done].
  - rewrite admitted_world. exists t_fields0. split; [done|]. split; [done|]. exact answer0_ok.
Qed.

Lemma sizes0 : sizes_ok default_config (mock_field <$> t_fields0) t_rows0.
Proof.
  split; try done. repeat (apply Forall_cons; split; [by vm_compute|]). by apply Forall_nil.
Qed.

Lemma calls_deliver_witness :
  ∃ v1 q1, step default_config v_admitted v1 ∧ rn_queries v1 !! 0%nat = Some q1 ∧ qk_phase q1 = Looping
    ∧ completes default_config JNull decodePgCell 0
        (inr (mkPgResult "FETCH" (Z.of_nat (length t_rows0)) None (mock_field <$> t_fields0)
                (answer_object JNull decodePgCell (mock_field <$> t_fields0) <$> t_rows0)))
        (length t_rows0 + 5) v1.
Proof.
  apply (calls_deliver default_config JNull decodePgCell None tw0 [] v_admitted 0 (call_of v_admitted 0)
    cp [] 2%nat (mock_field <$> t_fields0) t_rows0).
  - done.
  - done.
  - done.
  - split; [apply NoDup_nil_2|by intros ? ?%elem_of_nil].
  - exact v_admitted_reached.
  - apply call_found. by vm_compute.
  - by vm_compute.
  - exact admitted_reading.
  - exact admitted_select.
  - exact admitted_ready.
  - exact sizes0.
  - exact (rows0_decode 3).
Defined.

(** An INSERT in the session of the second call, while that one streams and the
    third one hangs. *)
Definition insert_request : QueryRequest := mkQueryRequest 0 insert_text "" "" "s1" [] 1.
Definition v_insert : @Running tmock := state_of (mixed ++ [EvBegin never always insert_request]).
Definition cs : @PqConnection tmock := mkPqConnection (L := tmock) 1 (Some 3%nat).

Lemma insert_reading : reading (call_of v_insert 3).
Proof. apply reading_of; by vm_compute. Qed.

Lemma insert_call : qk_request (call_of v_insert 3) = insert_request.
Proof. by vm_compute. Qed.

Lemma insert_at_hand : at_hand (qk_request (call_of v_insert 3)) (sh_sys (rn_shard v_insert)) cs.
Proof.
  rewrite insert_call. apply hand_session; [done| |by vm_compute].
  vm_cast_no_check (eq_refl (Some cs)).
Qed.

Lemma insert_unlocked : pq_addr cs ∉ sy_locked (sh_sys (rn_shard v_insert)).
Proof.
  intros H. assert (E : bool_decide (pq_addr cs ∈ sy_locked (sh_sys (rn_shard v_insert))) = false)
    by (by vm_compute). by rewrite bool_decide_eq_true_2 in E.
Qed.

Definition insert_answer := answered (L := tmock) insert_request 3%nat (sy_pg (sh_sys (rn_shard v_insert))).

Lemma insert_answered : insert_answer = (Some (command_table "INSERT 0 1" "1"), snd insert_answer).
Proof.
  assert (E : fst insert_answer = Some (command_table "INSERT 0 1" "1")) by (by vm_compute).
  rewrite <-E. by destruct insert_answer.
Qed.

Lemma calls_answer_witness :
  ∃ v1 q1, step default_config v_insert v1 ∧ rn_queries v1 !! 3%nat = Some q1 ∧ qk_phase q1 ≠ Opening
    ∧ completes default_config JNull decodePgCell 3 (inr (mkPgResult "INSERT" 1 None [] [])) 5 v1.
Proof.
  apply (calls_answer default_config JNull decodePgCell None tw0 [] v_insert 3 (call_of v_insert 3) cs
    3%nat (Some (command_table "INSERT 0 1" "1")) (snd insert_answer)).
  - done.
  - done.
  - done.
  - apply state_reached. by vm_compute.
  - apply call_found. by vm_compute.
  - by vm_compute.
  - exact insert_reading.
  - rewrite insert_call. by vm_compute.
  - exact insert_at_hand.
  - done.
  - intros _. exact insert_unlocked.
  - rewrite insert_call. exact insert_answered.
  - apply (answer_command (L := tmock) default_config JNull decodePgCell 3%nat _
      (command_table "INSERT 0 1" "1") "INSERT 0 1" 1). by split.
Defined.

(** The two calls of the mixed run, to the end: both answers are complete. *)
Definition finished_run : list event :=
  mixed ++ [EvQuery 1; EvQuery 0; EvQuery 0; EvQuery 1; EvQuery 1; EvQuery 0; EvReturn 0 7; EvReturn 1 7].

Example mixed_run_finishes :
  qk_phase (call_of (state_of finished_run) 0) = Returned Status_OK
  ∧ qk_phase (call_of (state_of finished_run) 1) = Returned Status_OK
  ∧ qk_phase (call_of (state_of finished_run) 2) = Hung SelfDeadlock
  ∧ in_use_ (pool_of (rn_shard (state_of finished_run))) = 1.
Proof. split_and!; by vm_compute. Qed.

(** ** A lost slot *)

(** A server that fails every BEGIN, as one that has restarted does. *)
#[local] Instance failing_conn : PGConn nat table mock := {
  PQconnectdb := PQconnectdb (PGConn := mock_conn);
  PQfinish := PQfinish (PGConn := mock_conn);
  PQstatus := PQstatus (PGConn := mock_conn);
  PQerrorMessage := PQerrorMessage (PGConn := mock_conn);
  PQtransactionStatus := PQtransactionStatus (PGConn := mock_conn);
  PQexec raw sql w :=
    if bool_decide (sql = "BEGIN") then (Some (error_table "server closed the connection"), w)
    else PQexec (PGConn := mock_conn) raw sql w;
  PQexecParams := PQexecParams (PGConn := mock_conn);
  PQclear := PQclear (PGConn := mock_conn);
}.
Definition failing : Libpq :=
  {| pgconn := nat; pgresult := table; pgworld := mock; libpq_result := table_result;
     libpq_conn := failing_conn |}.

Definition start_f : @Running failing := started default_config None (w0 : @pgworld failing) [].

(** The call is opened in vain, its query is destroyed, and its client gets an OK
    status. *)
Definition lossy : list event :=
  EvConnectBegin login0 :: replicate 5 (EvConnect 0 7)
  ++ [EvBegin never always (request_of select_text); EvQuery 0; EvQuery 0; EvReturn 0 7].
Definition v_lossy : @Running failing := default start_f (schedule default_config lossy start_f).

Lemma v_lossy_reached : rtc (step default_config) start_f v_lossy.
Proof.
  unfold v_lossy. assert (Hs : match schedule default_config lossy start_f with
    | Some _ => true | None => false end = true) by (by vm_compute).
  destruct (schedule default_config lossy start_f) as [v|] eqn:E; [|done]. by apply (schedule_run _ lossy).
Qed.

Lemma calls_slots_witness :
  (in_use_ (pool_of (rn_shard v_lossy)) = 1 ∧ length (lost_calls (rn_queries v_lossy)) = 1%nat)
  ∧ in_use_ (pool_of (rn_shard v_lossy))
    = Z.of_nat (length (pooled_in (streams v_lossy))) + Z.of_nat (length (lost_calls (rn_queries v_lossy)))
  ∧ ∀ q, q ∈ rn_queries v_lossy → ended_call q = true →
      connection_ (stream_of q) = None
      ∧ (lost q = true →
         qk_opened q = false ∧ IsTupleStreamingSql (qr_text (qk_request q)) = true
         ∧ qr_session_id (qk_request q) = "").
Proof.
  split; [split; by vm_compute|].
  apply (calls_slots default_config None (w0 : @pgworld failing) [] v_lossy). exact v_lossy_reached.
Defined.

(** ** Overlapping logins *)

Definition mallory : ConnectRequest := mkConnectRequest 0 "app" "mallory" "guess" 5432 "".

(** A server that refuses the credentials of [mallory]. *)
#[local] Instance picky_conn : PGConn nat table mock := {
  PQconnectdb conninfo w :=
    PQconnectdb (PGConn := mock_conn) conninfo
      (mkMock (mk_up w && negb (bool_decide (conninfo
                = c_str (BuildConninfo (BuildConnectParams default_config mallory)))))
         (mk_next w) (mk_lost w) (mk_txn w) (mk_cursors w) (mk_answers w));
  PQfinish := PQfinish (PGConn := mock_conn);
  PQstatus := PQstatus (PGConn := mock_conn);
  PQerrorMessage := PQerrorMessage (PGConn := mock_conn);
  PQtransactionStatus := PQtransactionStatus (PGConn := mock_conn);
  PQexec := PQexec (PGConn := mock_conn);
  PQexecParams := PQexecParams (PGConn := mock_conn);
  PQclear := PQclear (PGConn := mock_conn);
}.
Definition picky : Libpq :=
  {| pgconn := nat; pgresult := table; pgworld := mock; libpq_result := table_result;
     libpq_conn := picky_conn |}.

Definition shard_p : @Shard picky := new_Shard default_config None (w0 : @pgworld picky) [].
Definition logins : list ConnectCall := [mkConnectCall mallory Validating; mkConnectCall login0 Validating].
#[local] Abbreviation good_attempt :=
  (PqConnection_Connect (L := picky) (BuildConnectParams default_config login0) 0
    (configured default_config login0 (sh_sys shard_p))).
Definition good_conn : @PqConnection picky := mkPqConnection (L := picky) 0 (Some 2%nat).

Lemma good_attempt_connects : good_attempt = (Ret (inr good_conn), snd good_attempt).
Proof. apply run_fst. vm_cast_no_check (eq_refl (Ret (inr (A := string) good_conn))). Qed.

Lemma logins_connectable : connectable default_config mallory ∧ connectable default_config login0.
Proof. split; split; by vm_compute. Qed.

(** Alone, [mallory] is refused; while [alice] logs in, she is not. *)
Lemma overlapping_connects_witness :
  cresp_ok (match fst (Connect default_config mallory 7 shard_p) with
            | Ret r => r.2 | _ => mkConnectResponse true "" end) = false
  ∧ ∃ v', schedule default_config (EvConnect 0 7 :: EvConnect 1 7 :: replicate 4 (EvConnect 0 7))
          (mkRunning shard_p [] logins) = Some v'
    ∧ rn_connects v' !! 0%nat
      = Some (mkConnectCall mallory (Answered (Status_OK, mkConnectResponse true "connected")))
    ∧ connect_params_ (rn_shard v') = Some (BuildConnectParams default_config mallory)
    ∧ params_ (pool_of (rn_shard v')) = BuildConnectParams default_config login0
    ∧ idle_ (pool_of (rn_shard v')) = idle_ (pool_of shard_p) ++ [good_conn].
Proof.
  split; [by vm_compute|].
  apply (overlapping_connects default_config shard_p [] logins 0 1 mallory login0 7 good_conn (snd good_attempt)).
  - done.
  - done.
  - done.
  - apply logins_connectable.
  - apply logins_connectable.
  - exact good_attempt_connects.
Defined.

(** ** The client's requests *)

Definition ask0 : js_query :=
  mkJsQuery (Some select_text) None [ArgText "7"; ArgNull; ArgText ""; ArgBuffer "x"] [Some 23].

Lemma client_requests_witness :
  accepted default_config (buildQueryRequestPayload 0 ask0 None) params0 (shard_with w0)
  ∧ (∃ p, BuildParams (buildQueryRequestPayload 0 ask0 None) !! 0%nat = Some p
       ∧ ep_type p = 23 ∧ (ep_value p, ep_format p) = (Some "7", 0)).
Proof.
  destruct (client_requests default_config 0 ask0 None (mkJsCredentials "app" "alice" "secret" 5432) "db1"
    params0 (shard_with w0)) as (H1 & _ & H2 & _).
  - done.
  - split; [apply H1; [by vm_compute|by eexists|reflexivity]|].
    exact (H2 0%nat (ArgText "7") eq_refl).
Defined.
