(* ===== verification/Main.v ===== *)
(** * Startup and shutdown (src/src/main.cpp)

    [main] as a computation on the globals, the file system and the log. What
    gRPC does is a parameter: whether [BuildAndStart] succeeds and what it does
    to the file system, and everything that happens while [Wait] blocks. *)
From S2P Require Import Prelude CppStd Log UnixPath Config UnixSocket PgState Health.
Local Open Scope Z_scope.
Local Open Scope cpp_scope.

Section Main.
Context {W : Type} `{!Posix W}.

(** [g_health_monitor], [g_unix_listen], whether [g_server] is set and runs, and
    the surroundings. *)
Record MainState := mkMainState {
  ms_unix : UState W;
  g_unix_listen : option ScopedListen;
  g_health_monitor : option PgHealthMonitor;
  g_server : option bool;
}.

Definition start_state (w : W) : MainState := mkMainState (mkUState w []) None None None.

Definition on_unix {A} (m : M (UState W) A) : M MainState A :=
  zoom ms_unix (λ u s, mkMainState u (g_unix_listen s) (g_health_monitor s) (g_server s)) m.
Definition main_log (f : list string → list string) : M MainState unit := on_unix (us_log f).
Definition set_listen (l : option ScopedListen) : M MainState unit :=
  modify (λ s, mkMainState (ms_unix s) l (g_health_monitor s) (g_server s)).
Definition set_monitor (h : option PgHealthMonitor) : M MainState unit :=
  modify (λ s, mkMainState (ms_unix s) (g_unix_listen s) h (g_server s)).
Definition set_server_running (r : option bool) : M MainState unit :=
  modify (λ s, mkMainState (ms_unix s) (g_unix_listen s) (g_health_monitor s) r).
Definition on_health_monitor (f : PgHealthMonitor → PgHealthMonitor) : M MainState unit :=
  modify (λ s, mkMainState (ms_unix s) (g_unix_listen s) (f <$> g_health_monitor s) (g_server s)).

(** The signal handler, run while [Wait] blocks. *)
Definition HandleSignal : M MainState unit :=
  on_health_monitor Stop ;;
  let* srv := gets g_server in
  match srv with None => m_ret tt | Some _ => set_server_running (Some false) end.

(** [g_unix_listen->Abort(); g_unix_listen.reset();] if it has a value. *)
Definition abort_listen : M MainState unit :=
  let* l := gets g_unix_listen in
  match l with
  | None => m_ret tt
  | Some l =>
      let* l' := on_unix (ScopedListen_Abort l) in
      set_listen None ;;
      on_unix (ScopedListen_destroy l')
  end.

(** [g_unix_listen.reset()] *)
Definition reset_listen : M MainState unit :=
  let* l := gets g_unix_listen in
  match l with
  | None => m_ret tt
  | Some l => set_listen None ;; on_unix (ScopedListen_destroy l)
  end.

(** The environment, the number of hardware threads, gRPC. *)
Context (getenv : string → option string) (hw : Z).
Context (BuildAndStart : string → ServerConfig → W → bool * W) (has_health_service : bool).
Context (Wait : M MainState unit).

Definition prepare_listen (config : ServerConfig) : M MainState unit :=
  match listen_mode config with
  | Tcp => m_ret tt
  | Unix =>
      set_listen (Some (new_ScopedListen config)) ;;
      let* l := on_unix (ScopedListen_Prepare (new_ScopedListen config)) in
      set_listen (Some l)
  end.

Definition finalize_listen : M MainState unit :=
  let* l := gets g_unix_listen in
  match l with
  | None => m_ret tt
  | Some l => let* l' := on_unix (ScopedListen_Finalize l) in set_listen (Some l')
  end.

Definition build_and_start (config : ServerConfig) : M MainState bool :=
  on_unix (fs_call (BuildAndStart (FormatListenTarget config) config)).

(** From the started server to [Wait]. *)
Definition announce (config : ServerConfig) : M MainState unit :=
  on_health_monitor (AttachServer has_health_service) ;;
  when negb (health_require_pg config) do on_health_monitor SetServingWithoutPg ;;
  main_log (Info "listening" (FormatListenLogLabel config +:+ " (plain gRPC; TLS at nginx)")).

Definition shutdown : M MainState unit :=
  on_health_monitor Stop ;;
  reset_listen ;;
  set_server_running None ;;
  main_log (Info "shutdown" "").

(** From [BuildAndStart] to the end of the [try] block. *)
Definition run_server (config : ServerConfig) : M MainState Z :=
  let* started := build_and_start config in
  if negb started then
    abort_listen ;;
    main_log (Error "startup_failed"
      ("BuildAndStart returned null; check unix socket permissions and whether another process holds "
       +:+ FormatListenLogLabel config)) ;;
    m_ret 1
  else
    set_server_running (Some true) ;;
    finalize_listen ;;
    announce config ;;
    Wait ;;
    shutdown ;;
    m_ret 0.

(** The scope of the local [health_monitor], whose address [g_health_monitor]
    keeps; its destructor also runs when the block is left by an exception. *)
Definition with_monitor {A} (probe_interval_sec : Z) (m : M MainState A) : M MainState A :=
  set_monitor (Some (new_PgHealthMonitor probe_interval_sec)) ;;
  λ s, let '(o, s') := m s in
       match o with
       | Stuck w => (Stuck w, s')
       | _ => (o, snd (on_health_monitor destroy_PgHealthMonitor s'))
       end.

Definition main_body : M MainState Z :=
  let* config := LoadConfigFromEnv getenv hw in
  main_log (Info "starting" (FormatListenLogLabel config)) ;;
  prepare_listen config ;;
  with_monitor (health_probe_interval_sec config) (run_server config).

Definition main : M MainState Z :=
  try_catch main_body (λ what,
    abort_listen ;;
    main_log (Error "fatal" what) ;;
    m_ret 1).

(** ** Properties *)

(** A computation that does not touch the state and comes to an end. *)
Definition quiet {S A} (m : M S A) : Prop := ∀ s, ∃ o, m s = (o, s) ∧ ∀ w, o ≠ Stuck w.

Lemma quiet_ret {S A} (a : A) : quiet (S := S) (m_ret a).
Proof. intros s. by exists (Ret a). Qed.
Lemma quiet_throw {S A} e : quiet (S := S) (A := A) (throw e).
Proof. intros s. by exists (Throw e). Qed.
Lemma quiet_bind {S A B} (m : M S A) (k : A → M S B) :
  quiet m → (∀ a, quiet (k a)) → quiet (m_bind m k).
Proof.
  intros Hm Hk s. destruct (Hm s) as (o & E & Ho). unfold m_bind. rewrite E.
  destruct o as [a|e|w]; [apply Hk|by exists (Throw e)|by destruct (Ho w)].
Qed.

Ltac quiet_walk :=
  repeat first
    [ apply quiet_ret | apply quiet_throw | apply quiet_bind; [|intros] | progress cbv zeta
    | case_match ].

Lemma quiet_RejectTlsVars {S} names env : quiet (S := S) (RejectTlsVars names env).
Proof. induction names; simpl; quiet_walk. done. Qed.

Lemma quiet_LoadConfig {S} : quiet (S := S) (LoadConfigFromEnv getenv hw).
Proof.
  unfold LoadConfigFromEnv. apply quiet_bind; [apply quiet_RejectTlsVars|intros _].
  unfold ParseListen, NormalizeUnixPath, ParsePositiveInt, ParseOptionalHostIndex, ParseBoolEnv,
    ParseNonNegativeInt, ParseOctalMode, ValidateUnixSocketPath, ValidateProductionConfig, ParseBoolEnv.
  quiet_walk.
Qed.

(** The listener functions come to an end. *)
Definition ends {S A} (m : M S A) : Prop :=
  hoare (λ _, True) m (λ _ _, True) (λ _, True) (λ _, False).

Lemma stops_bind {S A B} (m : M S A) (k : A → M S B) :
  ends m → (∀ a, ends (k a)) → ends (m_bind m k).
Proof. intros Hm Hk. by eapply hoare_bind; [exact Hm|]. Qed.
Lemma ends_quiet {S A} (m : M S A) : quiet m → ends m.
Proof. intros Hm s _. destruct (Hm s) as (o & -> & Ho). destruct o; [done..|by destruct (Ho why)]. Qed.

Lemma ends_Prepare l : ends (ScopedListen_Prepare (W := W) l).
Proof.
  apply stops_bind; [|by intros u s]. unfold PrepareListen. apply stops_bind.
  { apply ends_quiet. unfold ValidateUnixSocketPath. quiet_walk. }
  intros _. apply stops_bind; [|intros _ s _].
  - eapply hoare_conseq; [apply ensure_directory_ready; right; done|done..].
  - pose proof (RemoveStaleSocketFile_cases (unix_socket_path (sl_config l)) s) as H.
    by destruct (RemoveStaleSocketFile _ s) as [[]?].
Qed.

Lemma ends_Finalize l : ends (ScopedListen_Finalize (W := W) l).
Proof.
  unfold ScopedListen_Finalize. destruct (negb _); [by intros s|].
  apply stops_bind; [|by intros u s]. unfold FinalizeListen. apply stops_bind.
  { intros s _. unfold fs_call. by destruct (px_chmod _ _ _). }
  intros [e|u]; [by intros s|]. apply stops_bind; [|by intros u' s]. unfold VerifySocketNode.
  apply stops_bind; [by intros s|]. intros [e|m]; [by intros s|]. destruct (negb _); [by intros s|].
  cbv zeta. by destruct (negb _); intros s.
Qed.

Lemma CleanupListen_returns path : returns (S := UState W) (CleanupListen path).
Proof.
  intros s. unfold CleanupListen, m_bind at 1, fs_read, gets. destruct (px_stat _ (us_fs s)) as [e|m].
  - case_if; by eexists _, _.
  - destruct (negb _); [by eexists _, _|]. unfold m_bind, fs_call.
    destruct (px_unlink _ (us_fs s)) as [[e|u] w']; by eexists _, _.
Qed.

Lemma destroy_returns l : returns (S := UState W) (ScopedListen_destroy l).
Proof. unfold ScopedListen_destroy. case_match; [apply CleanupListen_returns|apply returns_ret]. Qed.

Lemma Abort_returns l : returns (S := UState W) (ScopedListen_Abort l).
Proof.
  unfold ScopedListen_Abort. case_match; [|apply returns_ret].
  apply returns_bind; [apply CleanupListen_returns|intros _; apply returns_ret].
Qed.

(** Nothing listens any more. *)
Definition unlistened (s : MainState) : Prop := g_unix_listen s = None.
Definition anywhere (s : MainState) : Prop := True.

(** No probe thread runs. *)
Definition no_probe (s : MainState) : Prop :=
  ∀ h, g_health_monitor s = Some h → probe_thread_ h = false.

Lemma on_unix_keeps {A} (m : M (UState W) A) P :
  (∀ s u, P s → P (mkMainState u (g_unix_listen s) (g_health_monitor s) (g_server s))) →
  ends m → hoare P (on_unix m) (λ _, P) P (λ _, False).
Proof.
  intros HP Hm s Hs. specialize (Hm (ms_unix s) I). unfold on_unix, zoom.
  destruct (m (ms_unix s)) as [[a|e|w] u]; [by apply HP..|done].
Qed.

Lemma returns_stop {S A} (m : M S A) : returns m → ends m.
Proof. intros Hm s _. by destruct (Hm s) as (a & s' & ->). Qed.

Lemma abort_listen_runs (s : MainState) :
  ∃ s', abort_listen s = (Ret tt, s') ∧ unlistened s' ∧ g_health_monitor s' = g_health_monitor s.
Proof.
  unfold abort_listen, m_bind at 1, gets. destruct (g_unix_listen s) as [l|] eqn:El; [|by exists s].
  unfold m_bind, on_unix, zoom, set_listen, modify. simpl.
  destruct (Abort_returns l (ms_unix s)) as (l' & u & ->). simpl.
  destruct (destroy_returns l' u) as ([] & u' & ->). by eexists.
Qed.

Lemma reset_listen_unlistens : hoare anywhere reset_listen (λ _, unlistened) anywhere (λ _, False).
Proof.
  intros s _. unfold reset_listen, m_bind at 1, gets. destruct (g_unix_listen s) as [l|] eqn:El; [|done].
  unfold m_bind, on_unix, zoom, set_listen, modify. simpl.
  by destruct (destroy_returns l (ms_unix s)) as (x & u' & ->).
Qed.

Lemma any_step {A} (m : M MainState A) : ends m → hoare anywhere m (λ _, anywhere) anywhere (λ _, False).
Proof. done. Qed.

Lemma ends_on_unix {A} (m : M (UState W) A) : ends m → ends (on_unix m).
Proof. intros Hm. by apply (on_unix_keeps m anywhere). Qed.

Hypothesis Wait_returns : ends Wait.

Lemma run_server_ends config :
  hoare anywhere (run_server config) (λ code s, (code = 0 ∨ code = 1) ∧ unlistened s) anywhere (λ _, False).
Proof.
  unfold run_server. eapply hoare_bind; [apply any_step, ends_on_unix; intros u _; unfold fs_call;
    by destruct (BuildAndStart _ _ _)|intros started].
  destruct (negb started).
  - eapply hoare_bind with (Q := λ _, unlistened); [|intros].
    { intros s _. by destruct (abort_listen_runs s) as (s' & -> & H & _). }
    eapply hoare_bind with (Q := λ _, unlistened); [|intros; apply hoare_ret; auto].
    eapply hoare_conseq; [apply (on_unix_keeps _ unlistened); [done|by intros u]|done..].
  - eapply hoare_bind; [by apply any_step; intros s|intros].
    eapply hoare_bind; [apply any_step|intros].
    { unfold finalize_listen. apply stops_bind; [by intros s|]. intros [l|]; [|by intros s].
      apply stops_bind; [apply ends_on_unix, ends_Finalize|by intros l' s]. }
    eapply hoare_bind; [apply any_step|intros].
    { unfold announce. apply stops_bind; [by intros s|intros].
      apply stops_bind; [by destruct (negb _); intros s|intros]. by apply ends_on_unix; intros u. }
    eapply hoare_bind; [apply any_step, Wait_returns|intros].
    eapply hoare_bind with (Q := λ _, unlistened); [|intros; apply hoare_ret; auto].
    unfold shutdown. eapply hoare_bind; [by apply any_step; intros s|intros].
    eapply hoare_bind; [apply reset_listen_unlistens|intros].
    eapply hoare_bind with (Q := λ _, unlistened); [by intros s|intros].
    eapply hoare_conseq; [apply (on_unix_keeps _ unlistened); [done|by intros u]|done..].
Qed.

(** The monitor's destructor has joined the probe thread. *)
Lemma with_monitor_stops {A} interval (m : M MainState A) (Q : A → MainState → Prop) :
  hoare anywhere m Q anywhere (λ _, False) →
  (∀ a s h, Q a s → Q a (mkMainState (ms_unix s) (g_unix_listen s) h (g_server s))) →
  hoare anywhere (with_monitor interval m) (λ a s, Q a s ∧ no_probe s) no_probe (λ _, False).
Proof.
  intros Hm HQ s _. unfold with_monitor, m_bind, set_monitor, modify. set (s1 := mkMainState _ _ _ _).
  assert (Hd : ∀ s2 : MainState, no_probe (mkMainState (ms_unix s2) (g_unix_listen s2)
    (destroy_PgHealthMonitor <$> g_health_monitor s2) (g_server s2))).
  { intros s2 h Hh. simpl in Hh. by apply fmap_Some in Hh as (h' & _ & ->). }
  specialize (Hm s1 I). destruct (m s1) as [[a|e|w] s2]; [split; [by apply HQ|]|..]; first [apply Hd|done].
Qed.

Lemma main_body_ends :
  hoare no_probe main_body (λ code s, ((code = 0 ∨ code = 1) ∧ unlistened s) ∧ no_probe s) no_probe
    (λ _, False).
Proof.
  unfold main_body. eapply hoare_bind with (Q := λ _, no_probe); [|intros config].
  { intros s Hs. destruct (quiet_LoadConfig s) as (o & -> & Ho). by destruct o; [..|destruct (Ho why)]. }
  eapply hoare_bind with (Q := λ _, no_probe); [|intros].
  { apply on_unix_keeps; [done|by intros u]. }
  eapply hoare_bind with (Q := λ _, no_probe); [|intros].
  { unfold prepare_listen. destruct (listen_mode config); [|by intros s].
    eapply hoare_bind with (Q := λ _, no_probe); [by intros s|intros].
    eapply hoare_bind with (Q := λ _, no_probe); [|by intros l s].
    apply on_unix_keeps; [done|apply ends_Prepare]. }
  eapply hoare_conseq; [apply (with_monitor_stops _ _ _ (run_server_ends config)); by intros|done..].
Qed.

(** C31: whatever the environment, the file system and gRPC do, once [Wait]
    returns [main] ends with exit code 0 or 1, lets no exception escape, has
    released its listener and leaves no probe thread. *)
Theorem main_ends (w : W) :
  ∃ code s', main (start_state w) = (Ret code, s') ∧ (code = 0 ∨ code = 1)
    ∧ g_unix_listen s' = None ∧ ∀ h, g_health_monitor s' = Some h → probe_thread_ h = false.
Proof.
  assert (H : hoare no_probe main (λ code s, ((code = 0 ∨ code = 1) ∧ unlistened s) ∧ no_probe s)
    (λ _, False) (λ _, False)).
  { eapply hoare_try; [apply main_body_ends|]. intros e s Hs.
    destruct (abort_listen_runs s) as (s1 & E & Hu & Hm). rewrite (m_bind_run _ _ _ _ _ E).
    unfold m_bind, main_log, on_unix, zoom, us_log, modify, no_probe. simpl. rewrite Hm. auto. }
  specialize (H (start_state w) ltac:(done)).
  destruct (main (start_state w)) as [[code|e|why] s']; [|done..].
  exists code, s'. by destruct H as [[? ?] ?].
Qed.

(** With an invalid configuration [main] ends with exit code 1 and one log
    line, before it touches the file system or starts a server. *)
Theorem main_rejects_config (w : W) e :
  fst (LoadConfigFromEnv (S := MainState) getenv hw (start_state w)) = Throw e →
  main (start_state w)
  = (Ret 1, mkMainState (mkUState w [log_line LError "fatal" e]) None None None).
Proof.
  intros He. unfold main, try_catch, main_body, m_bind at 1.
  destruct (quiet_LoadConfig (start_state w)) as (o & E & _). rewrite E in *. simpl in He. by subst o.
Qed.

(** When the server starts to listen, its health service reports all three
    names as serving exactly when the node needs no PostgreSQL. *)
Theorem startup_health config (s : MainState) h :
  has_health_service = true → g_health_monitor s = Some h →
  ∃ s' h', announce config s = (Ret tt, s') ∧ g_health_monitor s' = Some h'
    ∧ all_serving h' (negb (health_require_pg config)).
Proof.
  intros Hh Hm. unfold announce, m_bind, on_health_monitor, modify. simpl. rewrite Hm, Hh. simpl.
  assert (Hs : server_ (AttachServer true h) = Some true) by done.
  destruct (health_require_pg config); simpl; eexists _, _; (split; [reflexivity|]); simpl;
    (split; [reflexivity|]); by apply SetServing_all.
Qed.

End Main.

Section Shutdown.
Context {W : Type} `{!Posix W, !PosixLaws W}.

(** A shutdown removes the socket file of a listener that was finalized, as
    long as the path is still a socket and can be removed. *)
Theorem shutdown_removes_socket (s : MainState) l m u w' :
  g_unix_listen s = Some l → sl_finalized l = true →
  px_stat (c_str (unix_socket_path (sl_config l))) (us_fs (ms_unix s)) = inr m → S_ISSOCK m = true →
  px_unlink (c_str (unix_socket_path (sl_config l))) (us_fs (ms_unix s)) = (inr u, w') →
  ∃ s', shutdown s = (Ret tt, s')
    ∧ px_stat (c_str (unix_socket_path (sl_config l))) (us_fs (ms_unix s')) = inl ENOENT.
Proof.
  intros Hl Hf Hst Hk Hu. unfold shutdown, m_bind at 1, on_health_monitor, modify.
  unfold m_bind at 1, reset_listen, m_bind at 1, gets. simpl. rewrite Hl.
  unfold m_bind, set_listen, modify, on_unix, zoom, ScopedListen_destroy. simpl. rewrite Hf.
  unfold CleanupListen, m_bind at 1, fs_read, gets. rewrite Hst, Hk. simpl.
  unfold m_bind, fs_call. rewrite Hu. simpl. eexists. split; [reflexivity|]. simpl.
  by eapply unlink_absent.
Qed.
End Shutdown.

(** ** A run on the small file system *)

Definition no_env (_ : string) : option string := None.
Definition build_ok (_ : string) (_ : ServerConfig) (w : gmap string (Z * bool))
  : bool * gmap string (Z * bool) :=
  (true, <["/run/mtdd/grpc.sock" := (S_IFSOCK + 493, true)]> w).

Lemma HandleSignal_ends : ends (S := MainState (W := gmap string (Z * bool))) HandleSignal.
Proof. intros s _. unfold HandleSignal, m_bind. simpl. by destruct (g_server s). Qed.

Lemma main_ends_witness :
  ∃ code s', main no_env 8 build_ok true HandleSignal (start_state stale_fs) = (Ret code, s')
    ∧ (code = 0 ∨ code = 1) ∧ g_unix_listen s' = None
    ∧ ∀ h, g_health_monitor s' = Some h → probe_thread_ h = false.
Proof. apply (main_ends no_env 8 build_ok true HandleSignal HandleSignal_ends stale_fs). Defined.

Definition tls_env (name : string) : option string :=
  if bool_decide (name = "MTDD_GRPC_TLS") then Some "1" else None.
Definition tls_message : string :=
  match fst (LoadConfigFromEnv (S := unit) tls_env 8 tt) with Throw e => e | _ => "" end.

Lemma main_rejects_config_witness :
  main tls_env 8 build_ok true HandleSignal (start_state stale_fs)
  = (Ret 1, mkMainState (mkUState stale_fs [log_line LError "fatal" tls_message]) None None None).
Proof.
  apply (main_rejects_config tls_env 8 build_ok true HandleSignal stale_fs tls_message).
  by vm_compute.
Defined.

Lemma startup_health_witness :
  ∃ s' h', announce true default_config
      (mkMainState (mkUState stale_fs []) None (Some (new_PgHealthMonitor 30)) (Some true))
    = (Ret tt, s') ∧ g_health_monitor s' = Some h' ∧ all_serving h' false.
Proof.
  apply (startup_health true default_config
    (mkMainState (mkUState stale_fs []) None (Some (new_PgHealthMonitor 30)) (Some true))
    (new_PgHealthMonitor 30)); reflexivity.
Defined.

Definition listening_state : MainState :=
  mkMainState (mkUState live_fs []) (Some (mkScopedListen default_config true true)) None (Some true).

Lemma shutdown_removes_socket_witness :
  ∃ s', shutdown listening_state = (Ret tt, s')
    ∧ px_stat (c_str "/run/mtdd/grpc.sock") (us_fs (ms_unix s')) = inl ENOENT.
Proof.
  apply (shutdown_removes_socket listening_state (mkScopedListen default_config true true) socket_mode
    tt (delete "/run/mtdd/grpc.sock" live_fs)); reflexivity.
Defined.
